(** * EtherCAT CSP motion controller: the bus loop of [motor.py] and [motor_safe.py]

    A shallow embedding of the cyclic control loop of the two bus variants
    ([_ethercat_process_loop] and [_ethercat_process_loop_safe]) and of the
    client-side unit conversion, followed by the properties the specification
    states about them.

    Python values are modelled as follows: [int] is [Z]; [float] is the
    primitive binary64 type of the kernel, whose operations are specified by
    [SpecFloat]; a list indexed by an integer is a [list] accessed with the
    Python rules for negative indices; exceptions are the [Raise] outcome of
    the [result] monad. *)

From Stdlib Require Import ZArith Lia List Bool String.
From Stdlib Require Import QArith Qpower Qabs Qround Lqa.
From Stdlib Require Import Floats.
From Stdlib.Strings Require Byte.
From stdpp Require Import base option list gmap.
Import ListNotations.

Local Open Scope Z_scope.

(** ** Exceptions and the result monad *)

Inductive exn := IndexError | StructError | ValueError | OverflowError | ZeroDivisionError.

Inductive result (A : Type) :=
| Ok (a : A)
| Raise (e : exn).
Arguments Ok {A} a.
Arguments Raise {A} e.

Definition rbind {A B} (m : result A) (k : A -> result B) : result B :=
  match m with
  | Ok a => k a
  | Raise e => Raise e
  end.

Notation "'let*' x := m 'in' k" := (rbind m (fun x => k))
  (at level 10, x pattern, m at level 200, k at level 200,
   format "'[v' 'let*'  x  :=  m  'in' '/' k ']'").

(** ** Python numerics *)

(** [int(f)]: truncation toward zero; [ValueError] on NaN, [OverflowError]
    on an infinity. *)
Definition py_int (f : float) : result Z :=
  match Prim2SF f with
  | S754_zero _ => Ok 0
  | S754_finite s m e => Ok (cond_Zopp s (Z.shiftl (Z.pos m) e))
  | S754_infinity _ => Raise OverflowError
  | S754_nan => Raise ValueError
  end.

(** [round(f)] with one argument: the nearest integer, ties to even. *)
Definition py_round (f : float) : result Z :=
  match Prim2SF f with
  | S754_zero _ => Ok 0
  | S754_finite s m e =>
      if 0 <=? e then Ok (cond_Zopp s (Z.shiftl (Z.pos m) e))
      else
        let q := Z.shiftr (Z.pos m) (- e) in
        let r := Z.pos m - Z.shiftl q (- e) in
        let half := Z.shiftl 1 (- e - 1) in
        let up := if r <? half then false
                  else if half <? r then true
                  else Z.odd q in
        Ok (cond_Zopp s (if up then q + 1 else q))
  | S754_infinity _ => Raise OverflowError
  | S754_nan => Raise ValueError
  end.

(** The conversion of an [int] operand in mixed arithmetic ([int * float],
    [int / float], a store into a ['d'] array): correctly rounded,
    [OverflowError] when the integer is too large for a finite double. *)
Definition py_float (z : Z) : result float :=
  let f := SF2Prim (binary_normalize prec emax z 0 false) in
  if is_infinity f then Raise OverflowError else Ok f.

(** True division of floats raises on a zero divisor. *)
Definition py_truediv (a b : float) : result float :=
  if is_zero b then Raise ZeroDivisionError else Ok (a / b)%float.

(** The builtins [max(a, b)] and [min(a, b)]: the first argument is kept
    unless the second is strictly greater (resp. smaller). *)
Definition py_max (a b : float) : float := if (a <? b)%float then b else a.
Definition py_min (a b : float) : float := if (b <? a)%float then b else a.

(** [max(iterable)] over a non-empty sequence: a left fold of [py_max];
    [ValueError] on the empty sequence. *)
Definition py_max_seq (l : list float) : result float :=
  match l with
  | [] => Raise ValueError
  | x :: l' => Ok (fold_left py_max l' x)
  end.

(** Indexing a Python list by an [int]: indices in [-len, 0) count from the
    end, anything outside [-len, len) raises [IndexError]. *)
Definition py_index (len : nat) (i : Z) : result nat :=
  if (0 <=? i) && (i <? Z.of_nat len) then Ok (Z.to_nat i)
  else if (- Z.of_nat len <=? i) && (i <? 0) then Ok (Z.to_nat (Z.of_nat len + i))
  else Raise IndexError.

Definition py_getitem {A} (l : list A) (i : Z) : result A :=
  let* n := py_index (length l) i in
  match l !! n with
  | Some a => Ok a
  | None => Raise IndexError
  end.

Definition py_setitem {A} (l : list A) (i : Z) (a : A) : result (list A) :=
  let* n := py_index (length l) i in
  Ok (<[n := a]> l).

(** ** Module constants *)

Definition CW_SHUTDOWN : Z := 0x0006.
Definition CW_SWITCH_ON : Z := 0x0007.
Definition CW_ENABLE_OPERATION : Z := 0x000F.
Definition CW_DISABLE_VOLTAGE : Z := 0x0000.
Definition CW_FAULT_RESET : Z := 0x0080.

Definition PULSES_PER_REVOLUTION : Z := 8388608.

(** The doubles nearest to the decimal literals [11.9993131404] and
    [5.99965657019]. *)
Definition x_axis_mm_per_rev : float := 0x1.7ffa5f8d0f64dp+3%float.
Definition z_axis_mm_per_rev : float := 0x1.7ffa5f8d0ca52p+2%float.

Definition DEFAULT_MAX_SYNC_ERROR_MM : float := 0.5%float.

(** [math.pi] *)
Definition math_pi : float := 0x1.921fb54442d18p+1%float.

(** The literal [0.1], the floor of a batch duration. *)
Definition min_duration : float := 0x1.999999999999ap-4%float.

(** ** The drive state machine *)

(** The controlword chosen from the statusword of the same cycle, the
    [if]/[elif] cascade of step 4 of the loop. *)
Definition controlword (status : Z) : Z :=
  if Z.land status 0x004F =? 0x0040 then CW_SHUTDOWN
  else if Z.land status 0x006F =? 0x0021 then CW_SWITCH_ON
  else if Z.land status 0x006F =? 0x0023 then CW_ENABLE_OPERATION
  else if Z.land status 0x006F =? 0x0027 then CW_ENABLE_OPERATION
  else if negb (Z.land status 0x0008 =? 0) then CW_FAULT_RESET
  else CW_ENABLE_OPERATION.

(** ** Data model *)

(** A trajectory dictionary: [{'start', 'end', 'duration', 'start_time'}]. *)
Record Trajectory := {
  traj_start : Z;
  traj_end : Z;
  traj_duration : float;
  traj_start_time : float
}.

(** One entry of [local_motor_states]. The key ['mode'] is constant and never
    read; ['last_status'] is absent until the first control step. *)
Record MotorState := {
  target_pulse : Z;
  offset : Z;
  axis : string;
  trajectory : option Trajectory;
  last_status : option Z
}.

Definition initial_motor_state : MotorState :=
  {| target_pulse := 0; offset := 0; axis := "x"; trajectory := None; last_status := None |}.

Definition set_axis (value : string) (st : MotorState) : MotorState :=
  {| target_pulse := target_pulse st; offset := offset st; axis := value;
     trajectory := trajectory st; last_status := last_status st |}.

Definition set_origin (current_pos : Z) (st : MotorState) : MotorState :=
  {| target_pulse := current_pos; offset := current_pos; axis := axis st;
     trajectory := trajectory st; last_status := last_status st |}.

Definition set_trajectory (t : option Trajectory) (st : MotorState) : MotorState :=
  {| target_pulse := target_pulse st; offset := offset st; axis := axis st;
     trajectory := t; last_status := last_status st |}.

Definition set_target_pulse (p : Z) (st : MotorState) : MotorState :=
  {| target_pulse := p; offset := offset st; axis := axis st;
     trajectory := trajectory st; last_status := last_status st |}.

Definition set_last_status (s : Z) (st : MotorState) : MotorState :=
  {| target_pulse := target_pulse st; offset := offset st; axis := axis st;
     trajectory := trajectory st; last_status := Some s |}.

(** Emergency stop of one axis: the trajectory is dropped and the target is
    latched to the given position. *)
Definition halt_at (current_pos : Z) (st : MotorState) : MotorState :=
  set_target_pulse current_pos (set_trajectory None st).

(** The input image of a slave, the 6-byte TxPDO decoded: the statusword
    (["<H"], bytes 0-1) and the actual position (["<i"], bytes 2-5). *)
Record Slave := {
  input_status : Z;
  input_actual : Z
}.

Definition _read_status_word (slave : Slave) : Z := input_status slave.
Definition _read_actual_position (slave : Slave) : Z := input_actual slave.

(** The output frame of a slave, the 6-byte RxPDO. [struct.pack] refuses a
    controlword outside ["<H"] and a target outside ["<i"]. *)
Record Frame := {
  frame_controlword : Z;
  frame_target : Z
}.

Definition _write_csp_outputs (cw target_position : Z) : result Frame :=
  if (0 <=? cw) && (cw <=? 65535)
     && (-2147483648 <=? target_position) && (target_position <=? 2147483647)
  then Ok {| frame_controlword := cw; frame_target := target_position |}
  else Raise StructError.

(** The per-slave settings read from the queue before start-up. *)
Record SlaveConfig := {
  velocity : option float;
  accel : option (Z * Z)
}.

(** The commands of the queue; an item is [(slave_idx, cmd, value)]. *)
Inductive Command :=
| STOP_ALL
| SET_AXIS (value : string)
| SET_ORIGIN
| MOVE_TO_MM (value : float)
| RESET_SYNC_ERROR
| SET_VELOCITY (value : float)
| SET_ACCEL (accel_val decel_val : Z).

Definition QueueItem : Type := Z * Command.

(** The variables of the loop. The baseline loop has no
    [sync_error_detected]; there the field is never read or written. *)
Record Loop := {
  local_motor_states : list MotorState;
  is_running : bool;
  sync_error_detected : bool;
  cycle_counter : Z
}.

(** [for i in idxs: s = body(i, s)], stopping at the first exception. *)
Fixpoint for_each {S} (body : nat -> S -> result S) (idxs : list nat) (s : S) : result S :=
  match idxs with
  | [] => Ok s
  | i :: rest => let* s' := body i s in for_each body rest s'
  end.

(** A list comprehension [[f(x) for x in l]] whose body can raise. *)
Fixpoint map_result {A B} (f : A -> result B) (l : list A) : result (list B) :=
  match l with
  | [] => Ok []
  | a :: rest => let* b := f a in let* bs := map_result f rest in Ok (b :: bs)
  end.

(** ** Step 1 of a cycle: draining the command queue *)

(** The outcome of the [while not command_queue.empty()] loop: the motor
    states, [is_running], [sync_error_detected] and [trajectory_commands]. *)
Record Drained := {
  dr_states : list MotorState;
  dr_running : bool;
  dr_sync_error : bool;
  dr_commands : list (Z * float)
}.

(** [SET_ORIGIN]: the offset and the target are latched to the position in
    the current input image. *)
Definition do_set_origin (slaves : list Slave) (states : list MotorState) (slave_idx : Z)
  : result (list MotorState) :=
  let* slave := py_getitem slaves slave_idx in
  let current_pos := _read_actual_position slave in
  let* st := py_getitem states slave_idx in
  py_setitem states slave_idx (set_origin current_pos st).

Definition do_set_axis (states : list MotorState) (slave_idx : Z) (value : string)
  : result (list MotorState) :=
  let* st := py_getitem states slave_idx in
  py_setitem states slave_idx (set_axis value st).

(** The drain of the baseline loop ([motor.py]): every [MOVE_TO_MM] is kept. *)
Fixpoint drain (slaves : list Slave) (queue : list QueueItem)
    (states : list MotorState) (trajectory_commands : list (Z * float)) : result Drained :=
  match queue with
  | [] => Ok {| dr_states := states; dr_running := true; dr_sync_error := false;
                dr_commands := trajectory_commands |}
  | (slave_idx, cmd) :: queue' =>
      match cmd with
      | STOP_ALL =>
          Ok {| dr_states := states; dr_running := false; dr_sync_error := false;
                dr_commands := trajectory_commands |}
      | SET_AXIS value =>
          let* states' := do_set_axis states slave_idx value in
          drain slaves queue' states' trajectory_commands
      | SET_ORIGIN =>
          let* states' := do_set_origin slaves states slave_idx in
          drain slaves queue' states' trajectory_commands
      | MOVE_TO_MM value =>
          drain slaves queue' states (trajectory_commands ++ [(slave_idx, value)])
      | _ => drain slaves queue' states trajectory_commands
      end
  end.

(** The drain of the safe loop ([motor_safe.py]): a [MOVE_TO_MM] is dropped
    while the flag is up; [SET_ORIGIN] and [RESET_SYNC_ERROR] lower it. *)
Fixpoint drain_safe (slaves : list Slave) (queue : list QueueItem)
    (states : list MotorState) (sync_error_detected : bool)
    (trajectory_commands : list (Z * float)) : result Drained :=
  match queue with
  | [] => Ok {| dr_states := states; dr_running := true;
                dr_sync_error := sync_error_detected; dr_commands := trajectory_commands |}
  | (slave_idx, cmd) :: queue' =>
      match cmd with
      | STOP_ALL =>
          Ok {| dr_states := states; dr_running := false;
                dr_sync_error := sync_error_detected; dr_commands := trajectory_commands |}
      | SET_AXIS value =>
          let* states' := do_set_axis states slave_idx value in
          drain_safe slaves queue' states' sync_error_detected trajectory_commands
      | SET_ORIGIN =>
          let* states' := do_set_origin slaves states slave_idx in
          drain_safe slaves queue' states' false trajectory_commands
      | MOVE_TO_MM value =>
          if sync_error_detected
          then drain_safe slaves queue' states sync_error_detected trajectory_commands
          else drain_safe slaves queue' states sync_error_detected
                 (trajectory_commands ++ [(slave_idx, value)])
      | RESET_SYNC_ERROR =>
          drain_safe slaves queue' states false trajectory_commands
      | _ => drain_safe slaves queue' states sync_error_detected trajectory_commands
      end
  end.

(** ** Step 1, continued: the batch of trajectories *)

(** An entry of [trajectory_data]. *)
Record TrajInfo := {
  ti_slave_idx : Z;
  ti_target_mm : float;
  ti_current_pos : Z;
  ti_target_pos : Z;
  ti_distance : Z;
  ti_duration : float
}.

Definition mm_per_rev_of (axis : string) : float :=
  if String.eqb axis "x" then x_axis_mm_per_rev else z_axis_mm_per_rev.

(** [int(revolutions * PULSES_PER_REVOLUTION * 2)] with
    [revolutions = target_mm / mm_per_rev]. *)
Definition mm_to_pulse (target_mm mm_per_rev : float) : result Z :=
  let revolutions := (target_mm / mm_per_rev)%float in
  py_int (revolutions * 8388608 * 2)%float.

(** [slave_configs.get(slave_idx, {}).get('velocity', 60)] *)
Definition configured_velocity (slave_configs : gmap Z SlaveConfig) (slave_idx : Z) : float :=
  match slave_configs !! slave_idx with
  | Some cfg => default 60%float (velocity cfg)
  | None => 60%float
  end.

(** [distance / velocity_pulse_per_sec if velocity_pulse_per_sec > 0 else 1.0] *)
Definition move_duration (configured_velocity : float) (distance : Z) : result float :=
  let velocity_pulse_per_sec := (configured_velocity / 60 * 8388608 * 2)%float in
  if (0 <? velocity_pulse_per_sec)%float
  then let* d := py_float distance in Ok (d / velocity_pulse_per_sec)%float
  else Ok 1%float.

(** The first loop of the batch: a running trajectory of a commanded axis is
    dropped. *)
Fixpoint cancel_trajectories (commands : list (Z * float)) (states : list MotorState)
  : result (list MotorState) :=
  match commands with
  | [] => Ok states
  | (slave_idx, _) :: rest =>
      let* st := py_getitem states slave_idx in
      let* states' :=
        match trajectory st with
        | Some _ => py_setitem states slave_idx (set_trajectory None st)
        | None => Ok states
        end in
      cancel_trajectories rest states'
  end.

(** The body of the second loop: target, distance and natural duration of
    one command. *)
Definition plan_move (slave_configs : gmap Z SlaveConfig) (slaves : list Slave)
    (states : list MotorState) (command : Z * float) : result TrajInfo :=
  let '(slave_idx, target_mm) := command in
  let* state := py_getitem states slave_idx in
  let mm_per_rev := mm_per_rev_of (axis state) in
  let* target_pulse_relative := mm_to_pulse target_mm mm_per_rev in
  let target_pulse_absolute := target_pulse_relative + offset state in
  let* slave := py_getitem slaves slave_idx in
  let current_pos := _read_actual_position slave in
  let distance := Z.abs (target_pulse_absolute - current_pos) in
  let* duration := move_duration (configured_velocity slave_configs slave_idx) distance in
  Ok {| ti_slave_idx := slave_idx; ti_target_mm := target_mm;
        ti_current_pos := current_pos; ti_target_pos := target_pulse_absolute;
        ti_distance := distance; ti_duration := duration |}.

(** [max(max(traj['duration'] for traj in trajectory_data), 0.1)] *)
Definition batch_duration (trajectory_data : list TrajInfo) : result float :=
  let* longest := py_max_seq (map ti_duration trajectory_data) in
  Ok (py_max longest min_duration).

(** The third loop: every planned axis receives its trajectory. *)
Fixpoint assign_trajectories (trajectory_data : list TrajInfo)
    (max_duration common_start_time : float) (states : list MotorState)
  : result (list MotorState) :=
  match trajectory_data with
  | [] => Ok states
  | traj_info :: rest =>
      let slave_idx := ti_slave_idx traj_info in
      let* state := py_getitem states slave_idx in
      let t := {| traj_start := ti_current_pos traj_info;
                  traj_end := ti_target_pos traj_info;
                  traj_duration := max_duration;
                  traj_start_time := common_start_time |} in
      let* states' := py_setitem states slave_idx (set_trajectory (Some t) state) in
      assign_trajectories rest max_duration common_start_time states'
  end.

(** The body of [if trajectory_commands:]. *)
Definition start_batch (slave_configs : gmap Z SlaveConfig) (slaves : list Slave)
    (common_start_time : float) (commands : list (Z * float)) (states : list MotorState)
  : result (list MotorState) :=
  let* states1 := cancel_trajectories commands states in
  let* trajectory_data := map_result (plan_move slave_configs slaves states1) commands in
  let* max_duration := batch_duration trajectory_data in
  assign_trajectories trajectory_data max_duration common_start_time states1.

(** ** Step 3: the safety pass *)

(** [[_read_actual_position(master.slaves[i]) for i in range(num_slaves)]] *)
Definition read_positions (num_slaves : nat) (slaves : list Slave) : result (list Z) :=
  map_result (fun i : nat =>
                let* slave := py_getitem slaves (Z.of_nat i) in
                Ok (_read_actual_position slave))
             (seq 0 num_slaves).

(** [[positions[i] - local_motor_states[i]['offset'] for i in range(num_slaves)]] *)
Definition relative_positions_of (num_slaves : nat) (positions : list Z)
    (states : list MotorState) : result (list Z) :=
  map_result (fun i : nat =>
                let* p := py_getitem positions (Z.of_nat i) in
                let* st := py_getitem states (Z.of_nat i) in
                Ok (p - offset st))
             (seq 0 num_slaves).

(** [any(local_motor_states[i]['trajectory'] is not None for i in range(num_slaves))] *)
Fixpoint any_moving_in (idxs : list nat) (states : list MotorState) : result bool :=
  match idxs with
  | [] => Ok false
  | i :: rest =>
      let* st := py_getitem states (Z.of_nat i) in
      if bool_decide (trajectory st <> None) then Ok true else any_moving_in rest states
  end.

(** The scan of the adjacent pairs: does some [i] in [idxs] have
    [abs(rel[i] - rel[i+1]) > max_sync_error_pulse]? *)
Fixpoint sync_error_in (idxs : list nat) (relative_positions : list Z)
    (max_sync_error_pulse : Z) : result bool :=
  match idxs with
  | [] => Ok false
  | i :: rest =>
      let* a := py_getitem relative_positions (Z.of_nat i) in
      let* b := py_getitem relative_positions (Z.of_nat i + 1) in
      let position_diff := Z.abs (a - b) in
      if max_sync_error_pulse <? position_diff then Ok true
      else sync_error_in rest relative_positions max_sync_error_pulse
  end.

(** The emergency stop of the sync guard:
    [for j in range(num_slaves): if trajectory is not None: ...]. *)
Definition sync_stop_axis (positions : list Z) (j : nat) (states : list MotorState)
  : result (list MotorState) :=
  let* st := py_getitem states (Z.of_nat j) in
  match trajectory st with
  | Some _ =>
      let* current_pos := py_getitem positions (Z.of_nat j) in
      py_setitem states (Z.of_nat j) (halt_at current_pos st)
  | None => Ok states
  end.

(** The sync-error guard of the safe loop; returns the states and the flag. *)
Definition sync_guard (num_slaves : nat) (max_sync_error_pulse : Z) (slaves : list Slave)
    (states : list MotorState) (sync_error_detected : bool)
  : result (list MotorState * bool) :=
  if (2 <=? num_slaves)%nat && negb sync_error_detected then
    let* positions := read_positions num_slaves slaves in
    let* relative_positions := relative_positions_of num_slaves positions states in
    let* any_moving := any_moving_in (seq 0 num_slaves) states in
    if any_moving then
      let* tripped := sync_error_in (seq 0 (num_slaves - 1)) relative_positions
                        max_sync_error_pulse in
      if tripped then
        let* states' := for_each (sync_stop_axis positions) (seq 0 num_slaves) states in
        Ok (states', true)
      else Ok (states, sync_error_detected)
    else Ok (states, sync_error_detected)
  else Ok (states, sync_error_detected).

(** The fault scan: is there an axis with statusword bit 3 and a trajectory? *)
Fixpoint fault_detected_in (idxs : list nat) (slaves : list Slave) (states : list MotorState)
  : result bool :=
  match idxs with
  | [] => Ok false
  | i :: rest =>
      let* slave := py_getitem slaves (Z.of_nat i) in
      let status := _read_status_word slave in
      if negb (Z.land status 0x0008 =? 0) then
        let* st := py_getitem states (Z.of_nat i) in
        if bool_decide (trajectory st <> None) then Ok true
        else fault_detected_in rest slaves states
      else fault_detected_in rest slaves states
  end.

Definition fault_stop_axis (slaves : list Slave) (i : nat) (states : list MotorState)
  : result (list MotorState) :=
  let* st := py_getitem states (Z.of_nat i) in
  match trajectory st with
  | Some _ =>
      let* slave := py_getitem slaves (Z.of_nat i) in
      py_setitem states (Z.of_nat i) (halt_at (_read_actual_position slave) st)
  | None => Ok states
  end.

(** The fault guard, common to both loops. *)
Definition fault_guard (num_slaves : nat) (slaves : list Slave) (states : list MotorState)
  : result (list MotorState) :=
  let* fault_detected := fault_detected_in (seq 0 num_slaves) slaves states in
  if fault_detected
  then for_each (fault_stop_axis slaves) (seq 0 num_slaves) states
  else Ok states.

(** ** Steps 1 and 2 together: the command phase *)

(** What a cycle reads from outside: the pending commands, the input image
    before and after [receive_processdata], and the readings of
    [time.monotonic()] for the batch and for each slave. *)
Record CycleEnv := {
  env_queue : list QueueItem;
  env_slaves_before : list Slave;
  env_slaves_after : list Slave;
  env_common_start_time : float;
  env_now : nat -> float
}.

(** The drain followed by [if trajectory_commands:] in the baseline loop. *)
Definition command_phase (slave_configs : gmap Z SlaveConfig) (env : CycleEnv)
    (states : list MotorState) : result Drained :=
  let* d := drain (env_slaves_before env) (env_queue env) states [] in
  let* states1 :=
    match dr_commands d with
    | [] => Ok (dr_states d)
    | _ => start_batch slave_configs (env_slaves_before env) (env_common_start_time env)
             (dr_commands d) (dr_states d)
    end in
  Ok {| dr_states := states1; dr_running := dr_running d;
        dr_sync_error := dr_sync_error d; dr_commands := dr_commands d |}.

(** The drain followed by [if trajectory_commands and not sync_error_detected:]
    in the safe loop. *)
Definition command_phase_safe (slave_configs : gmap Z SlaveConfig) (env : CycleEnv)
    (states : list MotorState) (sync_error_detected : bool) : result Drained :=
  let* d := drain_safe (env_slaves_before env) (env_queue env) states
              sync_error_detected [] in
  let* states1 :=
    match dr_commands d with
    | [] => Ok (dr_states d)
    | _ => if negb (dr_sync_error d)
           then start_batch slave_configs (env_slaves_before env)
                  (env_common_start_time env) (dr_commands d) (dr_states d)
           else Ok (dr_states d)
    end in
  Ok {| dr_states := states1; dr_running := dr_running d;
        dr_sync_error := dr_sync_error d; dr_commands := dr_commands d |}.

(** ** Step 4: the control of one slave *)

Section ControlLoop.

(** The [cos] of the C library behind [math.cos]. *)
Variable libm_cos : float -> float.

(** [math.cos]: a NaN or an infinity computed from a finite argument is a
    [ValueError] (math domain error). *)
Definition math_cos (x : float) : result float :=
  let r := libm_cos x in
  if is_nan r && negb (is_nan x) then Raise ValueError
  else if is_infinity r && is_finite x then Raise ValueError
  else Ok r.

(** The S-curve setpoint of a running trajectory:
    [int(start + (end - start) * smooth_progress)]. *)
Definition smooth_setpoint (traj : Trajectory) (progress : float) : result Z :=
  let* c := math_cos (math_pi * progress)%float in
  let smooth_progress := ((1 - c) / 2)%float in
  let* span := py_float (traj_end traj - traj_start traj) in
  let* start := py_float (traj_start traj) in
  py_int (start + span * smooth_progress)%float.

(** [progress = min(elapsed / traj['duration'], 1.0)], then the setpoint. *)
Definition interpolate (traj : Trajectory) (elapsed : float) : result Z :=
  let* ratio := py_truediv elapsed (traj_duration traj) in
  smooth_setpoint traj (py_min ratio 1).

(** The body of the per-slave loop up to the output: the new motor state,
    the controlword and the target position. The baseline loop has one more
    branch, guarded by [if False and ...], which is never taken. *)
Definition axis_control (now : float) (slave : Slave) (state : MotorState)
  : result (MotorState * Z * Z) :=
  let status := _read_status_word slave in
  let state := set_last_status status state in
  let cw := controlword status in
  match trajectory state with
  | None => Ok (state, cw, target_pulse state)
  | Some traj =>
      let elapsed := (now - traj_start_time traj)%float in
      let current_actual_pos := _read_actual_position slave in
      let position_error := Z.abs (traj_end traj - current_actual_pos) in
      if position_error <? 50000 then
        Ok (set_trajectory None (set_target_pulse (traj_end traj) state), cw, traj_end traj)
      else
        let* target_position := interpolate traj elapsed in
        Ok (set_target_pulse target_position state, cw, target_position)
  end.

(** A store of an [int] into the shared ['d'] array. *)
Definition store (shared : list float) (idx : Z) (value : Z) : result (list float) :=
  let* v := py_float value in
  py_setitem shared idx v.

(** The state block of one slave: statusword, moving flag, actual position,
    offset and, with [sync_flag = Some _] (stride 5), the sync-error flag. *)
Definition publish (stride : Z) (sync_flag : option bool) (i : nat) (slave : Slave)
    (state : MotorState) (shared : list float) : result (list float) :=
  let base_idx := Z.of_nat i * stride in
  let* shared := store shared base_idx (_read_status_word slave) in
  let* shared := store shared (base_idx + 1) (if bool_decide (trajectory state <> None) then 1 else 0) in
  let* shared := store shared (base_idx + 2) (_read_actual_position slave) in
  let* shared := store shared (base_idx + 3) (offset state) in
  match sync_flag with
  | Some flag => store shared (base_idx + 4) (if flag then 1 else 0)
  | None => Ok shared
  end.

(** What the per-slave loop carries: the motor states, the shared block and
    the frames written so far. *)
Record Controlled := {
  ct_states : list MotorState;
  ct_shared : list float;
  ct_frames : list Frame
}.

Definition control_slave (stride : Z) (sync_flag : option bool) (slaves : list Slave)
    (now : nat -> float) (i : nat) (acc : Controlled) : result Controlled :=
  let* slave := py_getitem slaves (Z.of_nat i) in
  let* state := py_getitem (ct_states acc) (Z.of_nat i) in
  let* (state', cw, target_position) := axis_control (now i) slave state in
  let* states' := py_setitem (ct_states acc) (Z.of_nat i) state' in
  let* frame := _write_csp_outputs cw target_position in
  let* shared' := publish stride sync_flag i slave state' (ct_shared acc) in
  Ok {| ct_states := states'; ct_shared := shared'; ct_frames := ct_frames acc ++ [frame] |}.

(** ** One cycle of the loop *)

(** The result of a cycle: the loop variables, the shared block and the
    frames written (none when the cycle left the loop at [break]). *)
Record CycleResult := {
  cr_loop : Loop;
  cr_shared : list float;
  cr_frames : list Frame
}.

(** Everything after [receive_processdata] in the baseline loop: the fault
    guard and the per-slave control. *)
Definition control_phase (num_slaves : nat) (slaves : list Slave) (now : nat -> float)
    (states : list MotorState) (shared : list float) : result Controlled :=
  let* states2 := fault_guard num_slaves slaves states in
  for_each (control_slave 4 None slaves now) (seq 0 num_slaves)
    {| ct_states := states2; ct_shared := shared; ct_frames := [] |}.

(** The same in the safe loop, with the sync guard first; also returns the
    flag. *)
Definition control_phase_safe (num_slaves : nat) (max_sync_error_pulse : Z)
    (slaves : list Slave) (now : nat -> float)
    (states : list MotorState) (sync_error_detected : bool) (shared : list float)
  : result (Controlled * bool) :=
  let* (states2, sync_error') :=
    sync_guard num_slaves max_sync_error_pulse slaves states sync_error_detected in
  let* states3 := fault_guard num_slaves slaves states2 in
  let* c := for_each (control_slave 5 (Some sync_error') slaves now) (seq 0 num_slaves)
              {| ct_states := states3; ct_shared := shared; ct_frames := [] |} in
  Ok (c, sync_error').

(** One iteration of the [while is_running] loop of [_ethercat_process_loop]. *)
Definition cycle (num_slaves : nat) (slave_configs : gmap Z SlaveConfig)
    (env : CycleEnv) (loop : Loop) (shared : list float) : result CycleResult :=
  let cycle_counter' := cycle_counter loop + 1 in
  let* d := command_phase slave_configs env (local_motor_states loop) in
  if negb (dr_running d) then
    Ok {| cr_loop := {| local_motor_states := dr_states d; is_running := false;
                        sync_error_detected := sync_error_detected loop;
                        cycle_counter := cycle_counter' |};
          cr_shared := shared; cr_frames := [] |}
  else
    let* c := control_phase num_slaves (env_slaves_after env) (env_now env)
                (dr_states d) shared in
    Ok {| cr_loop := {| local_motor_states := ct_states c; is_running := true;
                        sync_error_detected := sync_error_detected loop;
                        cycle_counter := cycle_counter' |};
          cr_shared := ct_shared c; cr_frames := ct_frames c |}.

(** One iteration of the loop of [_ethercat_process_loop_safe]. *)
Definition cycle_safe (num_slaves : nat) (max_sync_error_pulse : Z)
    (slave_configs : gmap Z SlaveConfig)
    (env : CycleEnv) (loop : Loop) (shared : list float) : result CycleResult :=
  let cycle_counter' := cycle_counter loop + 1 in
  let* d := command_phase_safe slave_configs env (local_motor_states loop)
              (sync_error_detected loop) in
  if negb (dr_running d) then
    Ok {| cr_loop := {| local_motor_states := dr_states d; is_running := false;
                        sync_error_detected := dr_sync_error d;
                        cycle_counter := cycle_counter' |};
          cr_shared := shared; cr_frames := [] |}
  else
    let* (c, sync_error') :=
      control_phase_safe num_slaves max_sync_error_pulse (env_slaves_after env)
        (env_now env) (dr_states d) (dr_sync_error d) shared in
    Ok {| cr_loop := {| local_motor_states := ct_states c; is_running := true;
                        sync_error_detected := sync_error';
                        cycle_counter := cycle_counter' |};
          cr_shared := ct_shared c; cr_frames := ct_frames c |}.

(** The safe loop over a sequence of cycles, as long as it keeps running. *)
Fixpoint run_safe (num_slaves : nat) (max_sync_error_pulse : Z)
    (slave_configs : gmap Z SlaveConfig) (envs : list CycleEnv)
    (loop : Loop) (shared : list float) : result (Loop * list float) :=
  match envs with
  | [] => Ok (loop, shared)
  | env :: rest =>
      if is_running loop then
        let* r := cycle_safe num_slaves max_sync_error_pulse slave_configs env loop shared in
        run_safe num_slaves max_sync_error_pulse slave_configs rest (cr_loop r) (cr_shared r)
      else Ok (loop, shared)
  end.

End ControlLoop.

(** ** The client side *)

(** [EtherCATBusSafe.__init__]: the threshold in pulses, on the Z-axis scale. *)
Definition max_sync_error_pulse_of (max_sync_error_mm : float) : result Z :=
  py_int (max_sync_error_mm / z_axis_mm_per_rev * 8388608 * 2)%float.

(** [Motor.current_position_mm] and [MotorSafe.current_position_mm]: the
    block of the motor is at [index * stride] (stride 4 or 5). *)
Definition current_position_mm (stride : Z) (shared : list float) (index : Z) (axis : string)
  : result float :=
  let base_idx := index * stride in
  let* current_pos := py_getitem shared (base_idx + 2) in
  let* offset := py_getitem shared (base_idx + 3) in
  let relative_pos := (current_pos - offset)%float in
  let revolutions := (relative_pos / 16777216)%float in
  Ok (revolutions * mm_per_rev_of axis)%float.

(** ** The decoding table of the specification *)

(** Section 4.2 of the specification, read as a set of rows: a row applies
    when its condition holds, the last one when no other does. *)
Inductive cia402_table (sw : Z) : Z -> Prop :=
| row_switch_on_disabled :
    Z.land sw 0x004F = 0x0040 -> cia402_table sw 0x0006
| row_ready_to_switch_on :
    Z.land sw 0x006F = 0x0021 -> cia402_table sw 0x0007
| row_switched_on :
    Z.land sw 0x006F = 0x0023 -> cia402_table sw 0x000F
| row_operation_enabled :
    Z.land sw 0x006F = 0x0027 -> cia402_table sw 0x000F
| row_fault :
    Z.land sw 0x0008 <> 0 -> cia402_table sw 0x0080
| row_otherwise :
    Z.land sw 0x004F <> 0x0040 -> Z.land sw 0x006F <> 0x0021 ->
    Z.land sw 0x006F <> 0x0023 -> Z.land sw 0x006F <> 0x0027 ->
    Z.land sw 0x0008 = 0 -> cia402_table sw 0x000F.

(** ** Vocabulary of the statements *)

(** The commands that lower the sync-error flag when the safe loop drains
    them. *)
Definition lowers_sync_error (cmd : Command) : bool :=
  match cmd with
  | SET_ORIGIN | RESET_SYNC_ERROR => true
  | _ => false
  end.

Definition is_reset_sync_error (cmd : Command) : bool :=
  match cmd with
  | RESET_SYNC_ERROR => true
  | _ => false
  end.

(** No axis is moving. *)
Definition all_idle (states : list MotorState) : Prop :=
  Forall (fun st => trajectory st = None) states.

(** The ranges of the PDO fields: ["<H"] and ["<i"]. *)
Definition uint16 (z : Z) : Prop := 0 <= z <= 65535.
Definition int32 (z : Z) : Prop := -2147483648 <= z <= 2147483647.

(** Statusword bit 3, as the loop tests it. *)
Definition fault_bit (status : Z) : bool := negb (Z.land status 0x0008 =? 0).

Definition is_moving (st : MotorState) : bool := bool_decide (trajectory st <> None).

(** The state of an axis after an emergency stop at [current_pos]. *)
Definition stopped (current_pos : Z) (st : MotorState) : MotorState :=
  match trajectory st with
  | Some _ => halt_at current_pos st
  | None => st
  end.

(** The pair [(i, i+1)] is out of sync: the offset-corrected positions
    differ by more than the threshold. *)
Definition out_of_sync (max_sync_error_pulse : Z) (slaves : list Slave)
    (states : list MotorState) (i : nat) : Prop :=
  exists s1 s2 st1 st2,
    slaves !! i = Some s1 /\ slaves !! (i + 1)%nat = Some s2 /\
    states !! i = Some st1 /\ states !! (i + 1)%nat = Some st2 /\
    max_sync_error_pulse <
      Z.abs ((_read_actual_position s1 - offset st1) - (_read_actual_position s2 - offset st2)).

(** Some axis has a trajectory. *)
Definition any_moving (states : list MotorState) : Prop :=
  exists i st, states !! i = Some st /\ is_moving st = true.

(** Some axis with a trajectory shows statusword bit 3. *)
Definition fault_while_moving (slaves : list Slave) (states : list MotorState) : Prop :=
  exists i slave st, slaves !! i = Some slave /\ states !! i = Some st /\
    fault_bit (_read_status_word slave) = true /\ is_moving st = true.

(** Every axis stopped at the actual position of its slave. *)
Definition stop_all (slaves : list Slave) (states : list MotorState) : list MotorState :=
  zip_with (fun slave st => stopped (_read_actual_position slave) st) slaves states.

(** Well-formed input images and motor states: the fields of a TxPDO are in
    range, the offset of an axis is one of them, and the target of an idle
    axis fits the RxPDO. *)
Definition slave_ok (slave : Slave) : Prop :=
  uint16 (input_status slave) /\ int32 (input_actual slave).

Definition state_ok (st : MotorState) : Prop :=
  int32 (offset st) /\ (trajectory st = None -> int32 (target_pulse st)).

(** The number of slots of the block of one slave. *)
Definition block_width (sync_flag : option bool) : Z :=
  match sync_flag with Some _ => 5 | None => 4 end.

(** What the frame of slave [i] and its new state are, in terms of the
    state before the loop. *)
Definition controlled_at (libm_cos : float -> float) (slaves : list Slave) (now : nat -> float)
    (before after : list MotorState) (i : nat) (frame : Frame) : Prop :=
  exists slave state state',
    slaves !! i = Some slave /\
    before !! i = Some state /\
    axis_control libm_cos (now i) slave state
      = Ok (state', frame_controlword frame, frame_target frame) /\
    after !! i = Some state'.

(** An axis is ready for its step of the loop: its slave is there and well
    formed, the control of the axis returns, and its target fits. *)
Definition ready_at (libm_cos : float -> float) (slaves : list Slave) (now : nat -> float)
    (states : list MotorState) (i : nat) : Prop :=
  exists slave st st' cw tgt,
    slaves !! i = Some slave /\ states !! i = Some st /\
    axis_control libm_cos (now i) slave st = Ok (st', cw, tgt) /\
    int32 tgt /\ slave_ok slave /\ int32 (offset st).

(** The inputs of the part of a cycle after [receive_processdata]: one
    motor state per slave, well-formed images and states, and a shared
    block of [stride] slots per slave. *)
Definition cycle_inputs_ok (num_slaves : nat) (stride : Z) (slaves : list Slave)
    (states : list MotorState) (shared : list float) : Prop :=
  length states = num_slaves /\ (num_slaves <= length slaves)%nat /\
  Forall slave_ok slaves /\ Forall state_ok states /\
  Z.of_nat num_slaves * stride <= Z.of_nat (length shared).

(** The outcome of an emergency stop, for the axes [states] the guards saw
    and the images [slaves] they read: at the end of the cycle no axis has a
    trajectory, an axis that had one has its target at its actual position,
    any other axis has kept its target, and the frame of each axis carries
    its target. *)
Definition halted_by (slaves : list Slave) (states : list MotorState)
    (states' : list MotorState) (frames : list Frame) : Prop :=
  all_idle states' /\
  forall j st slave, states !! j = Some st -> slaves !! j = Some slave ->
    exists st' frame,
      states' !! j = Some st' /\ frames !! j = Some frame /\
      trajectory st' = None /\ offset st' = offset st /\
      target_pulse st' = (if is_moving st then _read_actual_position slave
                          else target_pulse st) /\
      frame_target frame = target_pulse st'.

(** A three-level stand-in for the [cos] of the C library, to run the loop
    on concrete inputs. *)
Definition cos_steps (x : float) : float :=
  if (x <? 1)%float then 1%float
  else if (x <? 2)%float then 0%float
  else (-1)%float.

(** The entry of a list of [len] motor states that a slave index addresses,
    negative indices included. *)
Definition addresses (len : nat) (slave_idx : Z) (j : nat) : bool :=
  match py_index len slave_idx with
  | Ok n => bool_decide (n = j)
  | Raise _ => false
  end.

(** Axis [j] is commanded by the batch. *)
Definition commanded (len : nat) (commands : list (Z * float)) (j : nat) : bool :=
  existsb (fun command => addresses len (fst command) j) commands.

(** The entry of [trajectory_data] that is assigned to axis [j] last. *)
Fixpoint last_plan (len : nat) (trajectory_data : list TrajInfo) (j : nat) : option TrajInfo :=
  match trajectory_data with
  | [] => None
  | traj_info :: rest =>
      match last_plan len rest j with
      | Some later => Some later
      | None => if addresses len (ti_slave_idx traj_info) j then Some traj_info else None
      end
  end.

(** The trajectory assigned from an entry of [trajectory_data]. *)
Definition trajectory_of (traj_info : TrajInfo) (max_duration common_start_time : float)
  : Trajectory :=
  {| traj_start := ti_current_pos traj_info; traj_end := ti_target_pos traj_info;
     traj_duration := max_duration; traj_start_time := common_start_time |}.

(** The natural duration of an axis in the words of the specification:
    [distance / ((configured_rpm / 60) * COUNTS_PER_REV * 2)], without the
    guard of the code. *)
Definition spec_duration (configured_rpm : float) (distance : Z) : result float :=
  let* d := py_float distance in
  py_truediv d (configured_rpm / 60 * 8388608 * 2)%float.

(** The conversion in the words of the specification:
    [round(mm / mm_per_rev * COUNTS_PER_REV * 2)]. *)
Definition spec_mm_to_pulse (target_mm mm_per_rev : float) : result Z :=
  py_round (target_mm / mm_per_rev * 8388608 * 2)%float.

(** No trajectory was started between [states] and [states']: every axis
    has the trajectory it had, or none. *)
Definition no_new_trajectory (states states' : list MotorState) : Prop :=
  length states' = length states /\
  forall j st', states' !! j = Some st' ->
    exists st, states !! j = Some st /\
      (trajectory st' = None \/ trajectory st' = trajectory st).

(** The queue holds no command that lowers the sync-error flag. *)
Definition keeps_sync_error (queue : list QueueItem) : bool :=
  forallb (fun item => negb (lowers_sync_error (snd item))) queue.

(** The queue holds no [RESET_SYNC_ERROR]. *)
Definition no_reset_sync_error (queue : list QueueItem) : bool :=
  forallb (fun item => negb (is_reset_sync_error (snd item))) queue.

(** The [MOVE_TO_MM] commands of the queue up to the first [STOP_ALL]. *)
Fixpoint moves_before_stop (queue : list QueueItem) : list (Z * float) :=
  match queue with
  | [] => []
  | (_, STOP_ALL) :: _ => []
  | (slave_idx, MOVE_TO_MM value) :: queue' => (slave_idx, value) :: moves_before_stop queue'
  | _ :: queue' => moves_before_stop queue'
  end.

(** ** Vocabulary of binary64 arithmetic *)

(** The power of two [2^e] as a rational. *)
Definition bpow (e : Z) : Q := (2 ^ e)%Q.

(** The round and sticky bits of a shift record locate the lost fraction
    [th] in [[0, 1)]. *)
Definition loc_frac (r s : bool) (th : Q) : Prop :=
  match r, s with
  | false, false => (th == 0)%Q
  | false, true => (0 < th /\ th < 1 # 2)%Q
  | true, false => (th == 1 # 2)%Q
  | true, true => ((1 # 2) < th /\ th < 1)%Q
  end.

(** A shift record describes the non-negative scaled value [t]. *)
Definition mrs_ok (mrs : shr_record) (t : Q) : Prop :=
  0 <= shr_m mrs /\ loc_frac (shr_r mrs) (shr_s mrs) (t - inject_Z (shr_m mrs))%Q.

(** The same for a location. *)
Definition loc_ok (l : location) (th : Q) : Prop :=
  match l with
  | loc_Exact => (th == 0)%Q
  | loc_Inexact Lt => (0 < th /\ th < 1 # 2)%Q
  | loc_Inexact Eq => (th == 1 # 2)%Q
  | loc_Inexact Gt => ((1 # 2) < th /\ th < 1)%Q
  end.

(** Magnitude, sign and value of a binary64 number; an infinity or a NaN
    counts as zero and is excluded by [SFfinite]. *)
Definition SFmag (x : spec_float) : Q :=
  match x with
  | S754_finite _ m e => (inject_Z (Z.pos m) * bpow e)%Q
  | _ => 0%Q
  end.

Definition SFsign (x : spec_float) : bool :=
  match x with
  | S754_finite s _ _ | S754_zero s | S754_infinity s => s
  | S754_nan => false
  end.

Definition Qsigned (s : bool) (q : Q) : Q := if s then (- q)%Q else q.

Definition SF2Q (x : spec_float) : Q := Qsigned (SFsign x) (SFmag x).

Definition SFfinite (x : spec_float) : bool :=
  match x with
  | S754_finite _ _ _ | S754_zero _ => true
  | _ => false
  end.

(** [r] is a binary64 number nearest to the rational [x], and the error is
    within half a unit in the last place. *)
Definition rounds_to (x : Q) (r : spec_float) : Prop :=
  valid_binary r = true /\ SFfinite r = true /\
  (forall g, valid_binary g = true -> SFfinite g = true ->
     (Qabs (SF2Q r - x) <= Qabs (SF2Q g - x))%Q) /\
  (Qabs (SF2Q r - x) <= bpow (-53) * Qabs x + bpow (-1075))%Q.

(** The order of two positive canonical numbers, as [SFcompare] finds it. *)
Definition mag_compare (m1 : positive) (e1 : Z) (m2 : positive) (e2 : Z) : comparison :=
  match Z.compare e1 e2 with
  | Lt => Lt
  | Gt => Gt
  | Eq => Pos.compare_cont Eq m1 m2
  end.

(** The exact value of a Python float, and the floats that have one. *)
Definition F2Q (f : float) : Q := SF2Q (Prim2SF f).

Definition finite (f : float) : Prop := SFfinite (Prim2SF f) = true.

(** [z] is [q] truncated toward zero. *)
Definition truncates (q : Q) (z : Z) : Prop :=
  ((0 <= q)%Q -> (inject_Z z <= q /\ q < inject_Z z + 1)%Q) /\
  ((q <= 0)%Q -> (inject_Z z - 1 < q /\ q <= inject_Z z)%Q).

(** A value that some binary64 number has. *)
Definition is_binary64 (q : Q) : Prop :=
  exists g, valid_binary g = true /\ SFfinite g = true /\ (SF2Q g == q)%Q.

(** What is assumed of the [cos] of the C library: on a finite argument
    its value is within [-1, 1], and it does not increase on [0, math.pi]. *)
Definition cos_in_range (libm_cos : float -> float) : Prop :=
  forall x, finite x ->
    (-1 <=? libm_cos x)%float = true /\ (libm_cos x <=? 1)%float = true.

Definition cos_decreasing (libm_cos : float -> float) : Prop :=
  forall x y,
    (0 <=? x)%float = true -> (x <=? y)%float = true -> (y <=? math_pi)%float = true ->
    (libm_cos y <=? libm_cos x)%float = true.

(** The start and the end of a trajectory are integers that a double holds
    exactly, and so is their difference. *)
Definition setpoint_ok (traj : Trajectory) : Prop :=
  Z.abs (traj_start traj) <= 2 ^ 52 /\ Z.abs (traj_end traj) <= 2 ^ 52.

(** A progress value: a float within [0, 1]. *)
Definition is_progress (p : float) : Prop :=
  (0 <=? p)%float = true /\ (p <=? 1)%float = true.

(** The float that [smooth_setpoint] hands to [int]:
    [start + (end - start) * ((1 - cos(pi * progress)) / 2)]. *)
Definition setpoint_float (libm_cos : float -> float) (start span progress : float) : float :=
  (start + span * ((1 - libm_cos (math_pi * progress)) / 2))%float.

(** ** The wire format: [struct.pack] and [struct.unpack] *)

(** A byte as the integer [bytes] holds, and back (modulo 256). *)
Definition Z_of_byte (b : Byte.byte) : Z := Z.of_N (Byte.to_N b).

Definition byte_of_Z (z : Z) : Byte.byte :=
  match Byte.of_N (Z.to_N (z mod 256)) with
  | Some b => b
  | None => Byte.x00
  end.

(** The little-endian bytes of an integer, two's complement for a negative
    one, and the unsigned integer of little-endian bytes. *)
Fixpoint little_endian (width : nat) (z : Z) : list Byte.byte :=
  match width with
  | O => []
  | S w => byte_of_Z z :: little_endian w (Z.shiftr z 8)
  end.

Fixpoint of_little_endian (bs : list Byte.byte) : Z :=
  match bs with
  | [] => 0
  | b :: bs' => Z_of_byte b + 256 * of_little_endian bs'
  end.

(** The format strings the module uses: ["<H"], ["<i"], ["<I"], ["<b"]. *)
Inductive Format := fmt_H | fmt_i | fmt_I | fmt_b.

Definition fmt_size (f : Format) : nat :=
  match f with fmt_H => 2 | fmt_i => 4 | fmt_I => 4 | fmt_b => 1 end%nat.

Definition fmt_signed (f : Format) : bool :=
  match f with fmt_i | fmt_b => true | fmt_H | fmt_I => false end.

Definition fmt_bits (f : Format) : Z := 8 * Z.of_nat (fmt_size f).

Definition fmt_min (f : Format) : Z :=
  if fmt_signed f then - 2 ^ (fmt_bits f - 1) else 0.

Definition fmt_max (f : Format) : Z :=
  if fmt_signed f then 2 ^ (fmt_bits f - 1) - 1 else 2 ^ fmt_bits f - 1.

(** [struct.pack(fmt, v)]: [struct.error] when [v] is out of the range of
    the format. *)
Definition struct_pack (f : Format) (v : Z) : result (list Byte.byte) :=
  if (fmt_min f <=? v) && (v <=? fmt_max f)
  then Ok (little_endian (fmt_size f) v)
  else Raise StructError.

(** [struct.unpack(fmt, buffer)[0]]: [struct.error] unless the buffer has
    exactly the size of the format. *)
Definition struct_unpack (f : Format) (buffer : list Byte.byte) : result Z :=
  if Nat.eqb (length buffer) (fmt_size f) then
    let u := of_little_endian buffer in
    Ok (if fmt_signed f && (fmt_max f <? u) then u - 2 ^ fmt_bits f else u)
  else Raise StructError.

(** A slice [l[lo:hi]] with literal bounds [0 <= lo <= hi]: it is cut short
    at the end of [l], never an error. *)
Definition py_slice {A} (l : list A) (lo hi : nat) : list A :=
  take (hi - lo) (drop lo l).

(** The helpers of the process on the raw process image. *)
Module Wire.

Definition _read_status_word (input : list Byte.byte) : result Z :=
  struct_unpack fmt_H (py_slice input 0 2).

(** Only in [motor.py]. *)
Definition _read_op_mode (input : list Byte.byte) : result Z :=
  struct_unpack fmt_b (py_slice input 2 3).

Definition _read_actual_position (input : list Byte.byte) : result Z :=
  struct_unpack fmt_i (py_slice input 2 6).

Definition _write_csp_outputs (cw target_position : Z) : result (list Byte.byte) :=
  let* control := struct_pack fmt_H cw in
  let* target := struct_pack fmt_i target_position in
  Ok (control ++ target).

End Wire.

(** The decoded image of a raw input, as the loop reads it. *)
Definition image_of (input : list Byte.byte) : result Slave :=
  let* status := Wire._read_status_word input in
  let* actual := Wire._read_actual_position input in
  Ok {| input_status := status; input_actual := actual |}.

(** The queue holds a [STOP_ALL]. *)
Definition is_stop_all (cmd : Command) : bool :=
  match cmd with
  | STOP_ALL => true
  | _ => false
  end.

Definition has_stop_all (queue : list QueueItem) : bool :=
  existsb (fun item => is_stop_all (snd item)) queue.

(** ** The client side: the readers of the shared block *)

(** The properties of [Motor] (stride 4) and of [MotorSafe] (stride 5) that
    read the block of the motor at [index * stride]. *)
Module Client.

(** [int(self._shared_states[self._index * stride])] *)
Definition status_word (stride : Z) (shared : list float) (index : Z) : result Z :=
  let* v := py_getitem shared (index * stride) in
  py_int v.

(** [self._shared_states[self._index * stride + 1] != 0] *)
Definition is_moving (stride : Z) (shared : list float) (index : Z) : result bool :=
  let* v := py_getitem shared (index * stride + 1) in
  Ok (negb (v =? 0)%float).

(** [int(self._shared_states[base_idx + 2])] *)
Definition current_position_pulse (stride : Z) (shared : list float) (index : Z) : result Z :=
  let base_idx := index * stride in
  let* v := py_getitem shared (base_idx + 2) in
  py_int v.

(** [int(self._shared_states[base_idx + 3])] *)
Definition offset_pulse (stride : Z) (shared : list float) (index : Z) : result Z :=
  let base_idx := index * stride in
  let* v := py_getitem shared (base_idx + 3) in
  py_int v.

(** [MotorSafe.has_sync_error]: [self._shared_states[self._index * 5 + 4] != 0] *)
Definition has_sync_error (shared : list float) (index : Z) : result bool :=
  let* v := py_getitem shared (index * 5 + 4) in
  Ok (negb (v =? 0)%float).

End Client.

(** [EtherCATBusSafe.has_sync_error]: the flag in the block of the first
    motor, [self._shared_states[4] != 0]. *)
Definition bus_has_sync_error (shared : list float) : result bool :=
  let* v := py_getitem shared 4 in
  Ok (negb (v =? 0)%float).

(** The slots of the block of slave [i] after [publish]. *)
Definition published (stride : Z) (sync_flag : option bool) (i : nat) (slave : Slave)
    (state : MotorState) (shared : list float) : Prop :=
  let b := Z.of_nat i * stride in
  b + block_width sync_flag <= Z.of_nat (length shared) /\
  (exists f, py_float (_read_status_word slave) = Ok f /\ shared !! Z.to_nat b = Some f) /\
  shared !! Z.to_nat (b + 1) = Some (if is_moving state then 1%float else 0%float) /\
  (exists f, py_float (_read_actual_position slave) = Ok f /\
     shared !! Z.to_nat (b + 2) = Some f) /\
  (exists f, py_float (offset state) = Ok f /\ shared !! Z.to_nat (b + 3) = Some f) /\
  (forall flag, sync_flag = Some flag ->
     shared !! Z.to_nat (b + 4) = Some (if flag then 1%float else 0%float)).

(** ** Start-up: the settings read from the queue *)

(** [slave_configs = {i: {} for i in range(num_slaves)}] *)
Definition empty_config : SlaveConfig := {| velocity := None; accel := None |}.

Definition initial_slave_configs (num_slaves : nat) : gmap Z SlaveConfig :=
  list_to_map (map (fun i : nat => (Z.of_nat i, empty_config)) (seq 0 num_slaves)).

(** [local_motor_states] as the process creates it. *)
Definition initial_motor_states (num_slaves : nat) : list MotorState :=
  replicate num_slaves initial_motor_state.

(** What the start-up can raise: the [KeyError] of [slave_configs[slave_idx]],
    or an exception of the list of motor states. *)
Inductive startup_exn :=
| KeyError (key : Z)
| ListError (e : exn).

(** The loop that reads the settings before the bus is opened: only
    [SET_VELOCITY], [SET_ACCEL] and [SET_AXIS] have a branch. *)
Fixpoint startup_drain (queue : list QueueItem) (slave_configs : gmap Z SlaveConfig)
    (states : list MotorState) : startup_exn + (gmap Z SlaveConfig * list MotorState) :=
  match queue with
  | [] => inr (slave_configs, states)
  | (slave_idx, cmd) :: queue' =>
      match cmd with
      | SET_VELOCITY value =>
          match slave_configs !! slave_idx with
          | Some cfg =>
              startup_drain queue'
                (<[slave_idx := {| velocity := Some value; accel := accel cfg |}]> slave_configs)
                states
          | None => inl (KeyError slave_idx)
          end
      | SET_ACCEL accel_val decel_val =>
          match slave_configs !! slave_idx with
          | Some cfg =>
              startup_drain queue'
                (<[slave_idx := {| velocity := velocity cfg;
                                   accel := Some (accel_val, decel_val) |}]> slave_configs)
                states
          | None => inl (KeyError slave_idx)
          end
      | SET_AXIS value =>
          match do_set_axis states slave_idx value with
          | Ok states' => startup_drain queue' slave_configs states'
          | Raise e => inl (ListError e)
          end
      | _ => startup_drain queue' slave_configs states
      end
  end.

(** The settings, and the items of the queue that the start-up accepts: a
    dictionary key is one of [0 .. num_slaves-1], a list index may also
    count from the end. *)
Definition is_setting (cmd : Command) : bool :=
  match cmd with
  | SET_VELOCITY _ | SET_ACCEL _ _ | SET_AXIS _ => true
  | _ => false
  end.

Definition startup_ok (num_slaves : nat) (item : QueueItem) : bool :=
  match snd item with
  | SET_VELOCITY _ | SET_ACCEL _ _ =>
      (0 <=? fst item) && (fst item <? Z.of_nat num_slaves)
  | SET_AXIS _ =>
      (- Z.of_nat num_slaves <=? fst item) && (fst item <? Z.of_nat num_slaves)
  | _ => true
  end.

(** The last velocity set for a slave index, and the last axis set for the
    motor state [j], if any. *)
Fixpoint last_velocity (queue : list QueueItem) (slave_idx : Z) : option float :=
  match queue with
  | [] => None
  | (i, cmd) :: queue' =>
      match last_velocity queue' slave_idx with
      | Some later => Some later
      | None =>
          match cmd with
          | SET_VELOCITY value => if i =? slave_idx then Some value else None
          | _ => None
          end
      end
  end.

Fixpoint last_axis (len : nat) (queue : list QueueItem) (j : nat) : option string :=
  match queue with
  | [] => None
  | (i, cmd) :: queue' =>
      match last_axis len queue' j with
      | Some later => Some later
      | None =>
          match cmd with
          | SET_AXIS value => if addresses len i j then Some value else None
          | _ => None
          end
      end
  end.

(** The keys of [slave_configs] are the slave indices. *)
Definition keys_are (num_slaves : nat) (slave_configs : gmap Z SlaveConfig) : Prop :=
  forall k, is_Some (slave_configs !! k) <-> 0 <= k < Z.of_nat num_slaves.

(** The exception that an item the start-up does not accept raises. *)
Definition startup_error (item : QueueItem) : startup_exn :=
  match snd item with
  | SET_AXIS _ => ListError IndexError
  | _ => KeyError (fst item)
  end.

(** ** Start-up: the profile velocity of a slave *)

(** [int((rpm / 60) * PULSES_PER_REVOLUTION)] *)
Definition _rpm_to_pulse_per_sec (rpm : float) : result Z :=
  py_int (rpm / 60 * 8388608)%float.

(** The data of the SDO write to [0x6081]:
    [struct.pack("<I", _rpm_to_pulse_per_sec(slave_configs[i]['velocity']))]. *)
Definition profile_velocity_data (rpm : float) : result (list Byte.byte) :=
  let* velocity_pulse_per_sec := _rpm_to_pulse_per_sec rpm in
  struct_pack fmt_I velocity_pulse_per_sec.

(** ** Start-up: the period of the distributed clock *)

(** The period handed to [dc_sync], in nanoseconds:
    [int(cycle_time_s * 1_000_000_000)], where the bus passes
    [cycle_time_s = cycle_time_ms / 1000.0]. *)
Definition dc_sync_period (cycle_time_ms : Z) : result Z :=
  let* ms := py_float cycle_time_ms in
  let cycle_time_s := (ms / 1000)%float in
  py_int (cycle_time_s * 1000000000)%float.

(** The period is the whole number of nanoseconds of [cycle_time_ms]. *)
Definition dc_sync_exact (cycle_time_ms : Z) : bool :=
  match dc_sync_period cycle_time_ms with
  | Ok ns => ns =? cycle_time_ms * 1000000
  | Raise _ => false
  end.

(** ** The shutdown sequence *)

(** A slave of the master as the shutdown sees it: its raw input image and
    the output it will send. *)
Record WireSlave := {
  ws_input : list Byte.byte;
  ws_output : list Byte.byte
}.

(** The body of the [try] of a shutdown loop: the output is a frame with
    the given controlword and, as target, the actual position. *)
Definition hold_output (cw : Z) (slave : WireSlave) : result WireSlave :=
  let* current_pos := Wire._read_actual_position (ws_input slave) in
  let* control := struct_pack fmt_H cw in
  let* target := struct_pack fmt_i current_pos in
  Ok {| ws_input := ws_input slave; ws_output := control ++ target |}.

(** [try: ... except: pass] *)
Definition shutdown_step (cw : Z) (slave : WireSlave) : WireSlave :=
  match hold_output cw slave with
  | Ok slave' => slave'
  | Raise _ => slave
  end.

(** [for i in range(num_slaves): try: ... master.slaves[i] ... except: pass] *)
Definition shutdown_stage (cw : Z) (num_slaves : nat) (slaves : list WireSlave)
  : list WireSlave :=
  fold_left (fun slaves i =>
               match slaves !! i with
               | Some slave => <[i := shutdown_step cw slave]> slaves
               | None => slaves
               end)
            (seq 0 num_slaves) slaves.

(** The three stages after the axes were held, "Disable Operation",
    "Shutdown" and "Disable Voltage": the outputs that each
    [send_processdata] sends. No input is received in between. *)
Definition shutdown_sequence (num_slaves : nat) (slaves : list WireSlave)
  : list (list WireSlave) :=
  let stage1 := shutdown_stage CW_SWITCH_ON num_slaves slaves in
  let stage2 := shutdown_stage CW_SHUTDOWN num_slaves stage1 in
  let stage3 := shutdown_stage CW_DISABLE_VOLTAGE num_slaves stage2 in
  [stage1; stage2; stage3].

(** The output of a slave is the frame of a controlword and a position. *)
Definition output_is (cw pos : Z) (slave : WireSlave) : Prop :=
  length (ws_output slave) = 6%nat /\
  Wire._read_status_word (ws_output slave) = Ok cw /\
  Wire._read_actual_position (ws_output slave) = Ok pos.

(** ** Start-up: the SDO writes of a slave *)

(** A call [slave.sdo_write(index, subindex, data)]. *)
Record SdoWrite := {
  sdo_index : Z;
  sdo_subindex : Z;
  sdo_data : list Byte.byte
}.

(** [_sdo_reset_fault]: the writes it performs, given the data that
    [slave.sdo_read(0x6041, 0)] returned. *)
Definition _sdo_reset_fault (statusword_data : list Byte.byte) : result (list SdoWrite) :=
  let* status := struct_unpack fmt_H statusword_data in
  if negb (Z.land status 0x0008 =? 0) then
    let* data := struct_pack fmt_H CW_FAULT_RESET in
    Ok [ {| sdo_index := 0x6040; sdo_subindex := 0; sdo_data := data |} ]
  else Ok [].

(** ** The client side: the motor objects *)

(** The methods of [Motor] and of [MotorSafe] that send a command. The
    object is its two fields; the queue is passed explicitly, [put] appends
    to it and the loop drains it from the front. *)
Module Motor.

Record Self := {
  _index : Z;
  _axis : string
}.

Definition __init__ (slave_index : Z) : Self :=
  {| _index := slave_index; _axis := "x" |}.

(** [ValueError] unless the axis is ['x'] or ['z']. *)
Definition set_axis (self : Self) (axis : string) (command_queue : list QueueItem)
  : result (Self * list QueueItem) :=
  if negb (String.eqb axis "x" || String.eqb axis "z") then Raise ValueError
  else Ok ({| _index := _index self; _axis := axis |},
           command_queue ++ [(_index self, SET_AXIS axis)]).

Definition set_origin (self : Self) (command_queue : list QueueItem) : list QueueItem :=
  command_queue ++ [(_index self, SET_ORIGIN)].

Definition set_profile_velocity (self : Self) (rpm : float) (command_queue : list QueueItem)
  : list QueueItem :=
  command_queue ++ [(_index self, SET_VELOCITY rpm)].

(** [decel_rpm_per_sec=None] takes the acceleration. *)
Definition set_profile_accel_decel (self : Self) (accel_rpm_per_sec : float)
    (decel_rpm_per_sec : option float) (command_queue : list QueueItem)
  : result (list QueueItem) :=
  let* accel_val := py_int (accel_rpm_per_sec / 60 * 8388608)%float in
  let* decel_val :=
    match decel_rpm_per_sec with
    | None => Ok accel_val
    | Some decel => py_int (decel / 60 * 8388608)%float
    end in
  Ok (command_queue ++ [(_index self, SET_ACCEL accel_val decel_val)]).

Definition move_to_position_mm (self : Self) (target_mm : float)
    (command_queue : list QueueItem) : list QueueItem :=
  command_queue ++ [(_index self, MOVE_TO_MM target_mm)].

End Motor.

(** The motor objects and the motor states of the loop agree: the object at
    position [i] addresses slave [i], and its axis is the axis of the
    loop. *)
Definition agree (motors : list Motor.Self) (states : list MotorState) : Prop :=
  length motors = length states /\
  forall i motor st, motors !! i = Some motor -> states !! i = Some st ->
    Motor._index motor = Z.of_nat i /\ axis st = Motor._axis motor.

(** What an idle cycle leaves: the loop goes on with inputs that are well
    formed again, every axis is as it was but for the recorded statusword,
    its frame carries the stored target and its moving flag reads 0. *)
Definition held (stride : Z) (slaves : list Slave) (states : list MotorState)
    (shared : list float) (r : CycleResult) : Prop :=
  is_running (cr_loop r) = true /\
  cycle_inputs_ok (length states) stride slaves (local_motor_states (cr_loop r)) (cr_shared r) /\
  all_idle (local_motor_states (cr_loop r)) /\
  length (cr_shared r) = length shared /\
  forall j st slave, states !! j = Some st -> slaves !! j = Some slave ->
    local_motor_states (cr_loop r) !! j
    = Some (set_last_status (_read_status_word slave) st) /\
    cr_frames r !! j = Some {| frame_controlword := controlword (_read_status_word slave);
                               frame_target := target_pulse st |} /\
    Client.is_moving stride (cr_shared r) (Z.of_nat j) = Ok false.

(** ** Start-up: the targets when the bus reaches OP *)

(** [local_motor_states[i]['target_pulse'] = _read_actual_position(master.slaves[i])] *)
Definition op_init_axis (slaves : list Slave) (i : nat) (states : list MotorState)
  : result (list MotorState) :=
  let* slave := py_getitem slaves (Z.of_nat i) in
  let current_pos := _read_actual_position slave in
  let* st := py_getitem states (Z.of_nat i) in
  py_setitem states (Z.of_nat i) (set_target_pulse current_pos st).

Definition op_init (num_slaves : nat) (slaves : list Slave) (states : list MotorState)
  : result (list MotorState) :=
  for_each (op_init_axis slaves) (seq 0 num_slaves) states.

(** ** Start-up: the PDO mapping *)

(** [_configure_csp_pdos]: its fourteen SDO writes, in order. *)
Definition _configure_csp_pdos : result (list SdoWrite) :=
  let sdo_write index subindex data :=
    {| sdo_index := index; sdo_subindex := subindex; sdo_data := data |} in
  let* rx1 := struct_pack fmt_I 0x60400010 in
  let* rx2 := struct_pack fmt_I 0x607A0020 in
  let* rx := struct_pack fmt_H 0x1600 in
  let* tx1 := struct_pack fmt_I 0x60410010 in
  let* tx2 := struct_pack fmt_I 0x60640020 in
  let* tx := struct_pack fmt_H 0x1A00 in
  Ok [ sdo_write 0x1C12 0 [Byte.x00];
       sdo_write 0x1600 0 [Byte.x00];
       sdo_write 0x1600 1 rx1;
       sdo_write 0x1600 2 rx2;
       sdo_write 0x1600 0 [Byte.x02];
       sdo_write 0x1C12 1 rx;
       sdo_write 0x1C12 0 [Byte.x01];
       sdo_write 0x1C13 0 [Byte.x00];
       sdo_write 0x1A00 0 [Byte.x00];
       sdo_write 0x1A00 1 tx1;
       sdo_write 0x1A00 2 tx2;
       sdo_write 0x1A00 0 [Byte.x02];
       sdo_write 0x1C13 1 tx;
       sdo_write 0x1C13 0 [Byte.x01] ].

(** The content of an object of the slave after a sequence of writes: the
    last write to it. *)
Definition written (writes : list SdoWrite) (index subindex : Z) : option (list Byte.byte) :=
  fold_left (fun found w =>
               if (sdo_index w =? index) && (sdo_subindex w =? subindex)
               then Some (sdo_data w) else found)
            writes None.

(** An entry of a PDO mapping object (CiA 301): the index, the subindex and
    the length in bits of the mapped object. *)
Definition mapping_entry (data : list Byte.byte) : result (Z * Z * Z) :=
  let* entry := struct_unpack fmt_I data in
  Ok (Z.shiftr entry 16, Z.land (Z.shiftr entry 8) 0xFF, Z.land entry 0xFF).

(** The objects that the PDO [pdo] maps: subindex 0 holds their number. *)
Definition mapped (writes : list SdoWrite) (pdo : Z) : result (list (Z * Z * Z)) :=
  match written writes pdo 0 with
  | Some [count] =>
      map_result (fun k : nat =>
                    match written writes pdo (Z.of_nat k) with
                    | Some data => mapping_entry data
                    | None => Raise IndexError
                    end)
                 (seq 1 (Z.to_nat (Z_of_byte count)))
  | _ => Raise IndexError
  end.

(** The PDO assigned to a sync manager ([0x1C12] or [0x1C13]) that holds
    one. *)
Definition assigned (writes : list SdoWrite) (sync_manager : Z) : result Z :=
  match written writes sync_manager 0, written writes sync_manager 1 with
  | Some [Byte.x01], Some data => struct_unpack fmt_H data
  | _, _ => Raise IndexError
  end.

(** A process image cut as a mapping says: the index of each mapped object
    with its unsigned little-endian value. *)
Fixpoint image_fields (layout : list (Z * Z * Z)) (image : list Byte.byte) : list (Z * Z) :=
  match layout with
  | [] => []
  | (index, _, bits) :: rest =>
      let n := Z.to_nat (bits / 8) in
      (index, of_little_endian (take n image)) :: image_fields rest (drop n image)
  end.

(** ** Vocabulary of the completion of a trajectory *)

(** A trajectory that the control of an axis can follow at the time [now]:
    its start and its end fit the frame, its duration is not zero and the
    elapsed time is not negative. *)
Definition trajectory_ok (now : float) (traj : Trajectory) : Prop :=
  int32 (traj_start traj) /\ int32 (traj_end traj) /\
  is_zero (traj_duration traj) = false /\
  (0 <=? (now - traj_start_time traj) / traj_duration traj)%float = true.

(** What a running cycle decides for the axes that were on a trajectory
    when the commands of the cycle had been processed ([states]), from the
    images just read ([slaves]): the frame of the axis carries the stored
    target; less than 50 000 pulses from the end, the target is the end, the
    trajectory is dropped and the moving flag reads false; otherwise the
    trajectory is kept and the moving flag reads true. *)
Definition completion_decided (stride : Z) (slaves : list Slave) (states : list MotorState)
    (r : CycleResult) : Prop :=
  is_running (cr_loop r) = true /\
  forall i st traj slave,
    states !! i = Some st -> trajectory st = Some traj -> slaves !! i = Some slave ->
    exists st' frame,
      local_motor_states (cr_loop r) !! i = Some st' /\ cr_frames r !! i = Some frame /\
      frame_controlword frame = controlword (_read_status_word slave) /\
      frame_target frame = target_pulse st' /\
      (Z.abs (traj_end traj - _read_actual_position slave) < 50000 ->
       trajectory st' = None /\ target_pulse st' = traj_end traj /\
       Client.is_moving stride (cr_shared r) (Z.of_nat i) = Ok false) /\
      (50000 <= Z.abs (traj_end traj - _read_actual_position slave) ->
       trajectory st' = Some traj /\
       Client.is_moving stride (cr_shared r) (Z.of_nat i) = Ok true).

(** * Properties *)

(** ** The result monad and Python indexing *)

Lemma rbind_ok {A B} (m : result A) (k : A -> result B) (b : B) :
  rbind m k = Ok b <-> exists a, m = Ok a /\ k a = Ok b.
Proof.
  destruct m as [a|e]; simpl; split.
  - intros H. exists a. split; [reflexivity|exact H].
  - intros (a' & Ha & Hk). inversion Ha; subst. exact Hk.
  - discriminate.
  - intros (a' & Ha & _). discriminate.
Qed.

(** Inversion of a chain of binds that ends in [Ok]. *)
Ltac inv_ok :=
  repeat match goal with
  | H : rbind _ _ = Ok _ |- _ =>
      apply rbind_ok in H; destruct H as (? & ? & H)
  | H : Ok _ = Ok _ |- _ => inversion H; subst; clear H
  | H : Raise _ = Ok _ |- _ => discriminate H
  end.

Lemma py_index_nat (len i : nat) : (i < len)%nat -> py_index len (Z.of_nat i) = Ok i.
Proof.
  intros Hi. unfold py_index.
  replace (0 <=? Z.of_nat i) with true by (symmetry; apply Z.leb_le; lia).
  replace (Z.of_nat i <? Z.of_nat len) with true by (symmetry; apply Z.ltb_lt; lia).
  simpl. rewrite Nat2Z.id. reflexivity.
Qed.

Lemma py_index_lt (len : nat) (z : Z) (n : nat) : py_index len z = Ok n -> (n < len)%nat.
Proof.
  unfold py_index.
  destruct ((0 <=? z) && (z <? Z.of_nat len)) eqn:E1.
  - apply andb_true_iff in E1 as [H1 H2].
    apply Z.leb_le in H1. apply Z.ltb_lt in H2. intros H; inversion H; subst. lia.
  - destruct ((- Z.of_nat len <=? z) && (z <? 0)) eqn:E2; [|discriminate].
    apply andb_true_iff in E2 as [H1 H2].
    apply Z.leb_le in H1. apply Z.ltb_lt in H2. intros H; inversion H; subst. lia.
Qed.

Lemma py_getitem_nat {A} (l : list A) (i : nat) (a : A) :
  l !! i = Some a -> py_getitem l (Z.of_nat i) = Ok a.
Proof.
  intros H. unfold py_getitem.
  rewrite py_index_nat by (eapply lookup_lt_Some; exact H).
  simpl. rewrite H. reflexivity.
Qed.

Lemma py_getitem_inv {A} (l : list A) (z : Z) (a : A) :
  py_getitem l z = Ok a <-> exists n, py_index (length l) z = Ok n /\ l !! n = Some a.
Proof.
  unfold py_getitem. split.
  - intros H. inv_ok. exists x. split; [assumption|].
    destruct (l !! x); [inversion H; reflexivity|discriminate].
  - intros (n & Hn & Hl). rewrite Hn. simpl. rewrite Hl. reflexivity.
Qed.

Lemma py_setitem_nat {A} (l : list A) (i : nat) (a : A) :
  (i < length l)%nat -> py_setitem l (Z.of_nat i) a = Ok (<[i := a]> l).
Proof.
  intros H. unfold py_setitem. rewrite py_index_nat by exact H. reflexivity.
Qed.

Lemma py_setitem_inv {A} (l l' : list A) (z : Z) (a : A) :
  py_setitem l z a = Ok l' <-> exists n, py_index (length l) z = Ok n /\ l' = <[n := a]> l.
Proof.
  unfold py_setitem. split.
  - intros H. inv_ok. eauto.
  - intros (n & Hn & ->). rewrite Hn. reflexivity.
Qed.

Lemma py_getitem_setitem {A} (l : list A) (z : Z) (a b : A) :
  py_getitem l z = Ok a ->
  exists n, py_index (length l) z = Ok n /\ py_setitem l z b = Ok (<[n := b]> l).
Proof.
  intros H. apply py_getitem_inv in H as (n & Hn & _).
  exists n. split; [exact Hn|]. apply py_setitem_inv. eauto.
Qed.

(** * Binary64 arithmetic is correctly rounded *)

Lemma bpow_pos e : (0 < bpow e)%Q.
Proof. apply Qpower_0_lt. reflexivity. Qed.

Lemma bpow_add a b : (bpow (a + b) == bpow a * bpow b)%Q.
Proof. apply Qpower_plus. discriminate. Qed.

Lemma bpow_le a b : a <= b -> (bpow a <= bpow b)%Q.
Proof. intros H. apply Qpower_le_compat_l; [exact H|discriminate]. Qed.

Lemma bpow_lt a b : a < b -> (bpow a < bpow b)%Q.
Proof. intros H. apply Qpower_lt_compat_l; [exact H|reflexivity]. Qed.

Lemma bpow_Z e : 0 <= e -> (bpow e == inject_Z (2 ^ e))%Q.
Proof. intros H. unfold bpow. rewrite Zpower_Qpower by exact H. reflexivity. Qed.

Lemma bpow_0 : (bpow 0 == 1)%Q.
Proof. reflexivity. Qed.

Lemma bpow_succ e : (bpow (e + 1) == 2 * bpow e)%Q.
Proof. rewrite bpow_add. change (bpow 1) with 2%Q. ring. Qed.

Lemma bpow_opp e : (bpow (- e) == / bpow e)%Q.
Proof. apply Qpower_opp. Qed.

Lemma bpow_sub_mul a b : (bpow (a - b) * bpow b == bpow a)%Q.
Proof. rewrite <- bpow_add. replace (a - b + b) with a by lia. reflexivity. Qed.

(** ** Digits *)

Lemma digits2_pos_size p : digits2_pos p = Pos.size p.
Proof. induction p; simpl; congruence. Qed.

Lemma Zdigits2_log2 m : 0 < m -> Zdigits2 m = Z.log2 m + 1.
Proof.
  destruct m as [|p|p]; try lia. intros _. simpl. rewrite digits2_pos_size.
  destruct p; simpl; lia.
Qed.

Lemma Zdigits2_bounds m : 0 < m -> 2 ^ (Zdigits2 m - 1) <= m < 2 ^ Zdigits2 m.
Proof.
  intros H. rewrite Zdigits2_log2 by exact H.
  replace (Z.log2 m + 1 - 1) with (Z.log2 m) by lia.
  replace (Z.log2 m + 1) with (Z.succ (Z.log2 m)) by lia.
  apply Z.log2_spec. exact H.
Qed.

Lemma Zdigits2_unique m d : 2 ^ (d - 1) <= m < 2 ^ d -> 0 < m -> Zdigits2 m = d.
Proof.
  intros H Hm. rewrite Zdigits2_log2 by exact Hm.
  assert (0 <= d - 1).
  { destruct (Z.le_gt_cases 0 (d - 1)) as [?|Hn]; [assumption|].
    destruct (Z.le_gt_cases 0 d) as [Hd|Hd].
    - assert (d = 0) by lia. subst. simpl in H. lia.
    - rewrite (Z.pow_neg_r 2 d) in H by lia. lia. }
  assert (Z.log2 m = d - 1); [|lia].
  apply Z.log2_unique; [assumption|]. replace (Z.succ (d - 1)) with d by lia. exact H.
Qed.

Lemma Zdigits2_pos m : 0 < m -> 0 < Zdigits2 m.
Proof. intros H. rewrite Zdigits2_log2 by exact H. pose proof (Z.log2_nonneg m). lia. Qed.

Lemma Zdigits2_0 : Zdigits2 0 = 0.
Proof. reflexivity. Qed.

Lemma Zdigits2_le m d : 0 <= m -> 0 <= d -> m < 2 ^ d -> Zdigits2 m <= d.
Proof.
  intros Hm Hd H. destruct (Z.eq_dec m 0) as [->|Hne]; [simpl; lia|].
  pose proof (Zdigits2_bounds m ltac:(lia)) as [Hlo _].
  destruct (Z.le_gt_cases (Zdigits2 m) d) as [?|Hgt]; [assumption|].
  assert (2 ^ d <= 2 ^ (Zdigits2 m - 1)) by (apply Z.pow_le_mono_r; lia). lia.
Qed.

Lemma Zdigits2_ge m d : 2 ^ (d - 1) <= m -> 0 < d -> d <= Zdigits2 m.
Proof.
  intros H Hd.
  assert (0 < m) by (pose proof (Z.pow_pos_nonneg 2 (d - 1)); lia).
  pose proof (Zdigits2_bounds m ltac:(lia)) as [_ Hhi].
  destruct (Z.le_gt_cases d (Zdigits2 m)) as [?|Hgt]; [assumption|].
  assert (2 ^ Zdigits2 m <= 2 ^ (d - 1)) by (apply Z.pow_le_mono_r; lia). lia.
Qed.

Lemma Zdigits2_shift m k : 0 < m -> 0 <= k -> Zdigits2 (m * 2 ^ k) = Zdigits2 m + k.
Proof.
  intros Hm Hk. pose proof (Zdigits2_bounds m Hm) as [Hlo Hhi].
  pose proof (Zdigits2_pos m Hm).
  apply Zdigits2_unique.
  - replace (Zdigits2 m + k - 1) with ((Zdigits2 m - 1) + k) by lia.
    rewrite !Z.pow_add_r by lia.
    pose proof (Z.pow_pos_nonneg 2 k). nia.
  - pose proof (Z.pow_pos_nonneg 2 k). nia.
Qed.

Lemma Zdigits2_div m k : 0 < m -> 0 <= k -> k < Zdigits2 m ->
  Zdigits2 (m / 2 ^ k) = Zdigits2 m - k.
Proof.
  intros Hm Hk Hlt. pose proof (Zdigits2_bounds m Hm) as [Hlo Hhi].
  assert (Hp : 0 < 2 ^ k) by (apply Z.pow_pos_nonneg; lia).
  assert (Hq : 2 ^ (Zdigits2 m - k - 1) <= m / 2 ^ k < 2 ^ (Zdigits2 m - k)).
  { split.
    - apply Z.div_le_lower_bound; [exact Hp|].
      rewrite <- Z.pow_add_r by lia.
      replace (k + (Zdigits2 m - k - 1)) with (Zdigits2 m - 1) by lia. exact Hlo.
    - apply Z.div_lt_upper_bound; [exact Hp|].
      rewrite <- Z.pow_add_r by lia.
      replace (k + (Zdigits2 m - k)) with (Zdigits2 m) by lia. exact Hhi. }
  apply Zdigits2_unique; [exact Hq|].
  pose proof (Z.pow_pos_nonneg 2 (Zdigits2 m - k - 1)). lia.
Qed.


Lemma inject_Z_xO p : (inject_Z (Z.pos p~0) == 2 * inject_Z (Z.pos p))%Q.
Proof. rewrite Pos2Z.inj_xO, inject_Z_mult. reflexivity. Qed.

Lemma inject_Z_xI p : (inject_Z (Z.pos p~1) == 2 * inject_Z (Z.pos p) + 1)%Q.
Proof. rewrite Pos2Z.inj_xI, inject_Z_plus, inject_Z_mult. reflexivity. Qed.

Ltac qlra :=
  unfold loc_frac in *; cbn [shr_1 shr_m shr_r shr_s orb] in *;
  try change (inject_Z 0) with 0%Q in *;
  try change (inject_Z 1) with 1%Q in *;
  lra.

Lemma shr_1_ok mrs t :
  mrs_ok mrs t -> mrs_ok (shr_1 mrs) (t * (1 # 2))%Q /\ shr_m (shr_1 mrs) = shr_m mrs / 2.
Proof.
  destruct mrs as [m r s]. unfold mrs_ok. cbn [shr_m shr_r shr_s]. intros [Hm Hloc].
  destruct m as [|p|p]; [| |lia].
  - split; [|reflexivity]. split; [simpl; lia|].
    destruct r, s; qlra.
  - destruct p as [p|p|].
    + pose proof (inject_Z_xI p) as E. split.
      * split; [simpl; lia|]. destruct r, s; qlra.
      * simpl. rewrite Pos2Z.inj_xI.
        apply Z.div_unique with (r := 1); lia.
    + pose proof (inject_Z_xO p) as E. split.
      * split; [simpl; lia|]. destruct r, s; qlra.
      * simpl. rewrite Pos2Z.inj_xO.
        apply Z.div_unique with (r := 0); lia.
    + split; [|reflexivity]. split; [simpl; lia|].
      destruct r, s; qlra.
Qed.

Lemma iter_pos_nat {A} (f : A -> A) p x :
  SpecFloat.iter_pos f p x = Nat.iter (Pos.to_nat p) f x.
Proof.
  revert x. induction p as [p IH|p IH|]; intros x; cbn [SpecFloat.iter_pos].
  - rewrite !IH, Pos2Nat.inj_xI, Nat.iter_succ_r.
    replace (2 * Pos.to_nat p)%nat with (Pos.to_nat p + Pos.to_nat p)%nat by lia.
    rewrite Nat.iter_add. reflexivity.
  - rewrite !IH, Pos2Nat.inj_xO.
    replace (2 * Pos.to_nat p)%nat with (Pos.to_nat p + Pos.to_nat p)%nat by lia.
    rewrite Nat.iter_add. reflexivity.
  - reflexivity.
Qed.

Lemma shr_iter_ok (k : nat) mrs t :
  mrs_ok mrs t ->
  mrs_ok (Nat.iter k shr_1 mrs) (t * bpow (- Z.of_nat k))%Q /\
  shr_m (Nat.iter k shr_1 mrs) = shr_m mrs / 2 ^ Z.of_nat k.
Proof.
  intros H. induction k as [|k [IH1 IH2]].
  - simpl. split.
    + destruct H as [H1 H2]. split; [exact H1|].
      change (bpow (-0)) with 1%Q. destruct (shr_r mrs), (shr_s mrs); qlra.
    + rewrite Z.div_1_r. reflexivity.
  - rewrite Nat.iter_succ. destruct (shr_1_ok _ _ IH1) as [H1 H2]. split.
    + destruct H1 as [Hm Hloc]. split; [exact Hm|].
      assert (E : (t * bpow (- Z.of_nat (S k)) == t * bpow (- Z.of_nat k) * (1 # 2))%Q).
      { replace (- Z.of_nat (S k)) with (- Z.of_nat k + -1) by lia.
        rewrite bpow_add. change (bpow (-1)) with (1 # 2)%Q. ring. }
      destruct (shr_r _), (shr_s _); simpl in *; rewrite E; exact Hloc.
    + rewrite H2, IH2. rewrite Z.div_div by (try apply Z.pow_pos_nonneg; lia).
      f_equal. replace (Z.of_nat (S k)) with (Z.of_nat k + 1) by lia.
      rewrite Z.pow_add_r by lia. reflexivity.
Qed.

Lemma shr_ok mrs e n t :
  0 <= n -> mrs_ok mrs t ->
  snd (shr mrs e n) = e + n /\
  mrs_ok (fst (shr mrs e n)) (t * bpow (- n))%Q /\
  shr_m (fst (shr mrs e n)) = shr_m mrs / 2 ^ n.
Proof.
  intros Hn H. destruct n as [|p|p]; [| |lia].
  - simpl. split; [lia|]. split.
    + destruct H as [H1 H2]. split; [exact H1|].
      change (bpow (-0)) with 1%Q. destruct (shr_r mrs), (shr_s mrs); qlra.
    + rewrite Z.div_1_r. reflexivity.
  - simpl. split; [reflexivity|]. rewrite iter_pos_nat.
    destruct (shr_iter_ok (Pos.to_nat p) mrs t H) as [H1 H2].
    rewrite positive_nat_Z in H1, H2. split; assumption.
Qed.

Lemma shr_record_of_loc_ok m l t :
  0 <= m -> loc_ok l (t - inject_Z m)%Q -> mrs_ok (shr_record_of_loc m l) t.
Proof.
  intros Hm H. destruct l as [|[| |]]; (split; [exact Hm|exact H]).
Qed.

Lemma loc_of_shr_record_ok mrs t :
  mrs_ok mrs t -> loc_ok (loc_of_shr_record mrs) (t - inject_Z (shr_m mrs))%Q.
Proof.
  destruct mrs as [m [|] [|]]; intros [_ H]; exact H.
Qed.

Lemma shr_m_record_of_loc m l : shr_m (shr_record_of_loc m l) = m.
Proof. destruct l as [|[| |]]; reflexivity. Qed.

(** Rounding to nearest, ties to even: the integer chosen is one of the two
    neighbours and no integer is closer. *)
Lemma round_nearest_even_ok m l th :
  loc_ok l th ->
  let c := round_nearest_even m l in
  (c = m /\ (th <= 1 # 2)%Q) \/ (c = m + 1 /\ ((1 # 2) <= th)%Q /\ (th < 1)%Q).
Proof.
  intros H. destruct l as [|[| |]]; simpl in *.
  - left. split; [reflexivity|lra].
  - destruct (Z.even m); [left|right]; (split; [reflexivity|lra]).
  - left. split; [reflexivity|lra].
  - right. split; [reflexivity|lra].
Qed.

Lemma loc_ok_range l th : loc_ok l th -> (0 <= th /\ th < 1)%Q.
Proof. destruct l as [|[| |]]; simpl; lra. Qed.


#[global] Instance Qsigned_Proper (s : bool) : Proper (Qeq ==> Qeq) (Qsigned s).
Proof. intros a b E. destruct s; simpl; rewrite E; reflexivity. Qed.

Lemma fexp_eq e : fexp prec emax e = Z.max (e - 53) (-1074).
Proof. reflexivity. Qed.

Lemma SFmag_nonneg x : (0 <= SFmag x)%Q.
Proof.
  destruct x; simpl; try lra.
  apply Qmult_le_0_compat; [|apply Qlt_le_weak, bpow_pos].
  change 0%Q with (inject_Z 0). rewrite <- Zle_Qle. lia.
Qed.

Lemma inject_Z_le a b : a <= b -> (inject_Z a <= inject_Z b)%Q.
Proof. intros H. rewrite <- Zle_Qle. exact H. Qed.

Lemma inject_Z_lt a b : a < b -> (inject_Z a < inject_Z b)%Q.
Proof. intros H. rewrite <- Zlt_Qlt. exact H. Qed.

Lemma scale_le a b e : a <= b -> (inject_Z a * bpow e <= inject_Z b * bpow e)%Q.
Proof.
  intros H. apply Qmult_le_compat_r; [apply inject_Z_le; exact H|].
  apply Qlt_le_weak, bpow_pos.
Qed.

Lemma scale_lt a b e : a < b -> (inject_Z a * bpow e < inject_Z b * bpow e)%Q.
Proof.
  intros H. apply Qmult_lt_compat_r; [apply bpow_pos|apply inject_Z_lt; exact H].
Qed.

(** A mantissa moved to a smaller exponent. *)
Lemma scale_shift m e k : 0 <= k ->
  (inject_Z (m * 2 ^ k) * bpow e == inject_Z m * bpow (e + k))%Q.
Proof.
  intros Hk. rewrite inject_Z_mult, bpow_add, <- (bpow_Z k Hk). ring.
Qed.

(** ** The first shift of [binary_round_aux] *)

Lemma first_shift mx ex lx th :
  0 <= mx -> loc_ok lx th ->
  ex <= fexp prec emax (Zdigits2 mx + ex) ->
  let e' := fexp prec emax (Zdigits2 mx + ex) in
  let lo := mx / 2 ^ (e' - ex) in
  let t := ((inject_Z mx + th) * bpow ex)%Q in
  exists mrs,
    shr_fexp prec emax mx ex lx = (mrs, e') /\
    shr_m mrs = lo /\
    0 <= lo /\ lo < 2 ^ 53 /\ (-1074 < e' -> 2 ^ 52 <= lo) /\ -1074 <= e' /\
    loc_ok (loc_of_shr_record mrs) (t * bpow (- e') - inject_Z lo)%Q.
Proof.
  intros Hmx Hloc Hex e' lo t.
  assert (Hok : mrs_ok (shr_record_of_loc mx lx) (inject_Z mx + th)%Q).
  { apply shr_record_of_loc_ok; [exact Hmx|].
    destruct lx as [|[| |]]; simpl in *; lra. }
  destruct (shr_ok (shr_record_of_loc mx lx) ex (e' - ex) _ ltac:(lia) Hok)
    as (Hsnd & Hmrs & Hm).
  rewrite shr_m_record_of_loc in Hm.
  exists (fst (shr (shr_record_of_loc mx lx) ex (e' - ex))).
  assert (Hp : 0 < 2 ^ (e' - ex)) by (apply Z.pow_pos_nonneg; lia).
  assert (Hlo0 : 0 <= lo) by (apply Z.div_pos; lia).
  assert (He'min : -1074 <= e') by (unfold e'; rewrite fexp_eq; lia).
  split.
  { unfold shr_fexp. fold e'. rewrite (surjective_pairing (shr _ _ _)).
    f_equal. rewrite Hsnd. lia. }
  split; [exact Hm|]. split; [exact Hlo0|].
  assert (Hdig : mx < 2 ^ (53 + (e' - ex))).
  { destruct (Z.eq_dec mx 0) as [->|Hne].
    - apply Z.pow_pos_nonneg; lia.
    - pose proof (Zdigits2_bounds mx ltac:(lia)) as [_ Hhi].
      eapply Z.lt_le_trans; [exact Hhi|].
      apply Z.pow_le_mono_r; [lia|]. unfold e'. rewrite fexp_eq. lia. }
  split.
  { apply Z.div_lt_upper_bound; [exact Hp|].
    rewrite <- Z.pow_add_r by lia.
    replace (e' - ex + 53) with (53 + (e' - ex)) by lia. exact Hdig. }
  split.
  { intros He'. assert (He'eq : e' = Zdigits2 mx + ex - 53)
      by (unfold e' in *; rewrite fexp_eq in *; lia).
    assert (Hmx0 : 0 < mx).
    { destruct (Z.eq_dec mx 0) as [->|?]; [|lia]. simpl in He'eq. lia. }
    pose proof (Zdigits2_bounds mx Hmx0) as [Hlo _].
    apply Z.div_le_lower_bound; [exact Hp|].
    rewrite <- Z.pow_add_r by lia.
    replace (e' - ex + 52) with (Zdigits2 mx - 1) by lia. exact Hlo. }
  split; [exact He'min|].
  apply loc_of_shr_record_ok in Hmrs. rewrite Hm in Hmrs.
  assert (E : ((inject_Z mx + th) * bpow (- (e' - ex)) == t * bpow (- e'))%Q).
  { unfold t. replace (- (e' - ex)) with (ex + - e') by lia.
    rewrite bpow_add. ring. }
  destruct (loc_of_shr_record _) as [|[| |]]; simpl in *; rewrite <- E; exact Hmrs.
Qed.

(** ** The second shift: renormalisation after a carry *)

Lemma second_shift c e' :
  0 <= c <= 2 ^ 53 -> -1074 <= e' -> (-1074 < e' -> 2 ^ 52 <= c) ->
  exists mrs c'' e'',
    shr_fexp prec emax c e' loc_Exact = (mrs, e'') /\
    shr_m mrs = c'' /\ 0 <= c'' /\
    (inject_Z c'' * bpow e'' == inject_Z c * bpow e')%Q /\
    e' <= e'' <= e' + 1 /\
    (0 < c'' -> fexp prec emax (Zdigits2 c'' + e'') = e'') /\
    (c = 0 -> c'' = 0).
Proof.
  intros Hc He' Hnorm.
  destruct (Z.eq_dec c (2 ^ 53)) as [->|Hne].
  - exists {| shr_m := 2 ^ 52; shr_r := false; shr_s := false |}, (2 ^ 52), (e' + 1).
    split.
    { unfold shr_fexp. change (Zdigits2 (2 ^ 53)) with 54. rewrite fexp_eq.
      replace (Z.max (54 + e' - 53) (-1074) - e') with 1 by lia. reflexivity. }
    split; [reflexivity|]. split; [lia|]. split.
    { rewrite bpow_succ. change (2 ^ 53) with (2 ^ 52 * 2). rewrite inject_Z_mult.
      change (inject_Z 2) with 2%Q. ring. }
    split; [lia|]. split.
    { intros _. change (Zdigits2 (2 ^ 52)) with 53. rewrite fexp_eq. lia. }
    intros H. discriminate H.
  - exists (shr_record_of_loc c loc_Exact), c, e'.
    assert (Hn : fexp prec emax (Zdigits2 c + e') - e' = 0).
    { rewrite fexp_eq. destruct (Z.eq_dec c 0) as [->|Hc0].
      - simpl Zdigits2. assert (e' = -1074); [|lia].
        destruct (Z.eq_dec e' (-1074)); [assumption|].
        assert (2 ^ 52 <= 0) by (apply Hnorm; lia). lia.
      - assert (Zdigits2 c <= 53) by (apply Zdigits2_le; lia).
        destruct (Z.eq_dec e' (-1074)) as [->|He]; [lia|].
        assert (53 <= Zdigits2 c) by (apply Zdigits2_ge; [apply Hnorm|]; lia).
        lia. }
    split.
    { unfold shr_fexp. rewrite Hn. reflexivity. }
    split; [reflexivity|]. split; [lia|]. split; [reflexivity|].
    split; [lia|]. split; [|auto].
    intros _. lia.
Qed.

(** ** [binary_round_aux]: the magnitude of the result *)

(** The result of rounding the magnitude [t = (mx + th) * 2^ex]: it sits on
    one of the two points [L] and [L + 2^e'] of the grid of exponent [e']
    that surround [t], the nearer one. *)
Lemma round_aux_mag sx mx ex lx th :
  0 <= mx -> loc_ok lx th ->
  ex <= fexp prec emax (Zdigits2 mx + ex) ->
  Zdigits2 mx + ex <= 1023 ->
  let e' := fexp prec emax (Zdigits2 mx + ex) in
  let t := ((inject_Z mx + th) * bpow ex)%Q in
  exists r lo,
    binary_round_aux prec emax sx mx ex lx = r /\
    valid_binary r = true /\ SFfinite r = true /\
    (r = S754_zero sx \/ exists m e, r = S754_finite sx m e) /\
    0 <= lo /\ lo < 2 ^ 53 /\ (-1074 < e' -> 2 ^ 52 <= lo) /\ -1074 <= e' /\
    let L := (inject_Z lo * bpow e')%Q in
    (L <= t /\ t < L + bpow e')%Q /\
    ((SFmag r == L /\ t - L <= L + bpow e' - t)%Q \/
     (SFmag r == L + bpow e' /\ L + bpow e' - t <= t - L)%Q).
Proof.
  intros Hmx Hloc Hex Hov e' t.
  destruct (first_shift mx ex lx th Hmx Hloc Hex)
    as (mrs & Hs1 & Hm & Hlo0 & Hlo53 & Hnorm & He'min & Hloc').
  fold e' in Hs1, Hm, Hlo0, Hlo53, Hnorm, He'min, Hloc'. fold t in Hloc'.
  set (lo := mx / 2 ^ (e' - ex)) in *.
  set (th' := (t * bpow (- e') - inject_Z lo)%Q) in *.
  pose proof (round_nearest_even_ok lo _ th' Hloc') as Hc.
  pose proof (loc_ok_range _ _ Hloc') as Hth.
  set (c := round_nearest_even lo (loc_of_shr_record mrs)) in *.
  assert (Hcr : 0 <= c <= 2 ^ 53) by (destruct Hc as [[-> _]|[-> _]]; lia).
  assert (Hcn : -1074 < e' -> 2 ^ 52 <= c)
    by (intros He; specialize (Hnorm He); destruct Hc as [[-> _]|[-> _]]; lia).
  destruct (second_shift c e' Hcr He'min Hcn)
    as (mrs2 & c'' & e'' & Hs2 & Hm2 & Hc'' & Hval & He'' & Hcan & Hzero).
  assert (Ht : (t == (inject_Z lo + th') * bpow e')%Q).
  { unfold th'. transitivity (t * (bpow (- e') * bpow e'))%Q; [|ring].
    rewrite <- bpow_add. replace (- e' + e') with 0 by lia. rewrite bpow_0. ring. }
  pose proof (bpow_pos e') as HB.
  set (r := binary_round_aux prec emax sx mx ex lx).
  assert (Hr : r = match c'' with
                   | Z0 => S754_zero sx
                   | Z.pos m => S754_finite sx m e''
                   | Z.neg _ => S754_nan
                   end).
  { unfold r, binary_round_aux. rewrite Hs1. rewrite Hm. fold c. rewrite Hs2, Hm2.
    destruct c''; try reflexivity.
    replace (e'' <=? emax - prec) with true; [reflexivity|].
    symmetry. apply Z.leb_le. unfold e' in *. rewrite fexp_eq in *.
    change (emax - prec) with 971. lia. }
  assert (Hmag : (SFmag r == inject_Z c * bpow e')%Q).
  { rewrite Hr. destruct c'' as [|m|m]; [| |lia].
    - simpl. rewrite <- Hval. ring.
    - simpl. exact Hval. }
  exists r, lo. split; [reflexivity|].
  split.
  { rewrite Hr. destruct c'' as [|m|m]; [reflexivity| |reflexivity].
    simpl. unfold bounded, canonical_mantissa.
    specialize (Hcan ltac:(lia)). simpl in Hcan. rewrite Hcan, Z.eqb_refl. simpl.
    apply Z.leb_le. unfold e' in *. rewrite fexp_eq in *. change (emax - prec) with 971. lia. }
  split; [rewrite Hr; destruct c'' as [|m|m]; try reflexivity; lia|].
  split; [rewrite Hr; destruct c'' as [|m|m]; [left; reflexivity|right; eauto|lia]|].
  split; [exact Hlo0|]. split; [exact Hlo53|]. split; [exact Hnorm|]. split; [exact He'min|].
  intros L. unfold L.
  split; [rewrite Ht; split; nra|].
  destruct Hc as [[Hceq Hhalf]|[Hceq [Hhalf _]]]; [left|right]; rewrite Hmag, Hceq, Ht.
  - split; [reflexivity|nra].
  - rewrite inject_Z_plus. change (inject_Z 1) with 1%Q. split; [ring|nra].
Qed.

(** ** No binary64 number lies strictly between two neighbours of the grid *)

Lemma valid_finite_canonical s m e :
  valid_binary (S754_finite s m e) = true ->
  fexp prec emax (Zdigits2 (Z.pos m) + e) = e /\ e <= 971.
Proof.
  simpl. unfold bounded, canonical_mantissa. intros H.
  apply andb_true_iff in H as [H1 H2].
  apply Z.eqb_eq in H1. apply Z.leb_le in H2. split; [exact H1|exact H2].
Qed.

Lemma canonical_bounds m e :
  fexp prec emax (Zdigits2 (Z.pos m) + e) = e ->
  -1074 <= e /\ Z.pos m < 2 ^ 53 /\ (-1074 < e -> 2 ^ 52 <= Z.pos m).
Proof.
  rewrite fexp_eq. intros H.
  pose proof (Zdigits2_bounds (Z.pos m) ltac:(lia)) as [Hlo Hhi].
  split; [lia|]. split.
  - eapply Z.lt_le_trans; [exact Hhi|]. apply Z.pow_le_mono_r; lia.
  - intros He. eapply Z.le_trans; [|exact Hlo]. apply Z.pow_le_mono_r; lia.
Qed.

Lemma grid_gap g lo e' :
  valid_binary g = true -> SFfinite g = true ->
  0 <= lo -> -1074 <= e' -> (-1074 < e' -> 2 ^ 52 <= lo) ->
  (SFmag g <= inject_Z lo * bpow e' \/ inject_Z lo * bpow e' + bpow e' <= SFmag g)%Q.
Proof.
  intros Hv Hf Hlo He' Hnorm.
  destruct g as [s|s| |s m e]; try discriminate Hf.
  - left. simpl. apply Qmult_le_0_compat; [|apply Qlt_le_weak, bpow_pos].
    change 0%Q with (inject_Z 0). apply inject_Z_le. exact Hlo.
  - apply valid_finite_canonical in Hv as [Hcan _].
    apply canonical_bounds in Hcan as (Hemin & Hm53 & Hm52). simpl.
    destruct (Z.le_gt_cases e' e) as [Hge|Hlt].
    + assert (E : (inject_Z (Z.pos m) * bpow e
                   == inject_Z (Z.pos m * 2 ^ (e - e')) * bpow e')%Q).
      { rewrite scale_shift by lia. replace (e' + (e - e')) with e by lia. reflexivity. }
      rewrite E. destruct (Z.le_gt_cases (Z.pos m * 2 ^ (e - e')) lo) as [Hk|Hk].
      * left. apply scale_le. exact Hk.
      * right. assert (Hk' : lo + 1 <= Z.pos m * 2 ^ (e - e')) by lia.
        apply (scale_le _ _ e') in Hk'. rewrite inject_Z_plus in Hk'.
        change (inject_Z 1) with 1%Q in Hk'. lra.
    + left. specialize (Hnorm ltac:(lia)).
      apply Qle_trans with (inject_Z (2 ^ 53) * bpow e)%Q.
      { apply scale_le. lia. }
      apply Qle_trans with (inject_Z (2 ^ 53) * bpow (e' - 1))%Q.
      { apply Qmult_le_l; [reflexivity|]. apply bpow_le. lia. }
      apply Qle_trans with (inject_Z (2 ^ 52) * bpow e')%Q.
      { replace e' with (e' - 1 + 1) at 2 by lia. rewrite bpow_succ.
        change (2 ^ 53) with (2 ^ 52 * 2). rewrite inject_Z_mult.
        change (inject_Z 2) with 2%Q. lra. }
      apply scale_le. exact Hnorm.
Qed.

Lemma Qabs_le_cases a b :
  ((a <= b /\ - a <= b) \/ (a <= - b /\ - a <= - b))%Q -> (Qabs a <= Qabs b)%Q.
Proof.
  intros [[H1 H2]|[H1 H2]].
  - apply Qle_trans with b; [|apply Qle_Qabs].
    apply Qabs_Qle_condition. split; lra.
  - apply Qle_trans with (- b)%Q; [|rewrite <- Qabs_opp; apply Qle_Qabs].
    apply Qabs_Qle_condition. split; lra.
Qed.

Lemma Qabs_le_bound a b : (- b <= a /\ a <= b)%Q -> (Qabs a <= b)%Q.
Proof. intros H. apply Qabs_Qle_condition. exact H. Qed.

Lemma SF2Q_zero s : SF2Q (S754_zero s) == 0.
Proof. unfold SF2Q, Qsigned. simpl. destruct s; reflexivity. Qed.

Lemma SF2Q_finite s m e :
  SF2Q (S754_finite s m e) = Qsigned s (inject_Z (Z.pos m) * bpow e).
Proof. reflexivity. Qed.

Theorem binary_round_aux_correct sx mx ex lx th :
  0 <= mx -> loc_ok lx th ->
  ex <= fexp prec emax (Zdigits2 mx + ex) ->
  Zdigits2 mx + ex <= 1023 ->
  rounds_to (Qsigned sx ((inject_Z mx + th) * bpow ex))
    (binary_round_aux prec emax sx mx ex lx) /\
  (binary_round_aux prec emax sx mx ex lx = S754_zero sx \/
   exists m e, binary_round_aux prec emax sx mx ex lx = S754_finite sx m e).
Proof.
  intros Hmx Hloc Hex Hov.
  destruct (round_aux_mag sx mx ex lx th Hmx Hloc Hex Hov)
    as (r & lo & Hr & Hv & Hf & Hshape & Hlo0 & Hlo53 & Hnorm & He' & Hbr & Hnear).
  rewrite Hr. split; [|exact Hshape].
  set (e' := fexp prec emax (Zdigits2 mx + ex)) in *.
  set (t := ((inject_Z mx + th) * bpow ex)%Q) in *.
  set (L := (inject_Z lo * bpow e')%Q) in *.
  pose proof (bpow_pos e') as HB.
  assert (HL : (0 <= L)%Q).
  { unfold L. apply Qmult_le_0_compat; [|lra].
    change 0%Q with (inject_Z 0). apply inject_Z_le. exact Hlo0. }
  assert (Hval : SF2Q r == Qsigned sx (SFmag r)).
  { destruct Hshape as [->|(m & e & ->)]; [|reflexivity].
    unfold SF2Q, Qsigned. simpl. destruct sx; reflexivity. }
  split; [exact Hv|]. split; [exact Hf|]. split.
  - intros g Hgv Hgf.
    pose proof (grid_gap g lo e' Hgv Hgf Hlo0 He' Hnorm) as Hgap. fold L in Hgap.
    pose proof (SFmag_nonneg g) as HG.
    apply Qabs_le_cases. rewrite Hval. unfold SF2Q, Qsigned.
    destruct sx, (SFsign g); destruct Hnear as [[E Hn]|[E Hn]]; rewrite E;
      destruct Hgap as [Hg|Hg]; lra.
  - assert (Herr : (Qabs (SF2Q r - Qsigned sx t) <= (1 # 2) * bpow e')%Q).
    { apply Qabs_le_bound. rewrite Hval. unfold Qsigned.
      destruct sx; destruct Hnear as [[E Hn]|[E Hn]]; rewrite E; lra. }
    eapply Qle_trans; [exact Herr|].
    assert (Habs : Qabs (Qsigned sx t) == t).
    { unfold Qsigned. destruct sx; [rewrite Qabs_opp|]; apply Qabs_pos; lra. }
    rewrite Habs.
    pose proof (bpow_pos (-1075)) as Hmin.
    destruct (Z.eq_dec e' (-1074)) as [E|Hne].
    + rewrite E. replace (-1074) with (-1075 + 1) by lia. rewrite bpow_succ.
      assert (0 <= bpow (-53) * t)%Q; [|lra].
      apply Qmult_le_0_compat; [apply Qlt_le_weak, bpow_pos|lra].
    + specialize (Hnorm ltac:(lia)).
      assert (Hbig : (inject_Z (2 ^ 52) * bpow e' <= L)%Q) by (apply scale_le; exact Hnorm).
      assert (E53 : (bpow (-53) * inject_Z (2 ^ 52) == 1 # 2)%Q) by reflexivity.
      assert ((1 # 2) * bpow e' <= bpow (-53) * t)%Q; [|lra].
      apply Qle_trans with (bpow (-53) * (inject_Z (2 ^ 52) * bpow e'))%Q.
      * rewrite Qmult_assoc, E53. lra.
      * apply Qmult_le_l; [apply bpow_pos|]. lra.
Qed.



(** ** Consequences of correct rounding *)

Lemma Qabs_0_le a : (0 <= Qabs a)%Q.
Proof. apply Qabs_nonneg. Qed.

Lemma Qsub_self (x : Q) : (x - x == 0)%Q.
Proof. ring. Qed.

Lemma rounds_to_self g :
  valid_binary g = true -> SFfinite g = true -> rounds_to (SF2Q g) g.
Proof.
  intros Hv Hf. split; [exact Hv|]. split; [exact Hf|].
  assert (E : (Qabs (SF2Q g - SF2Q g) == 0)%Q).
  { rewrite Qsub_self. reflexivity. }
  split.
  - intros g' _ _. rewrite E. apply Qabs_nonneg.
  - rewrite E. pose proof (bpow_pos (-1075)). pose proof (bpow_pos (-53)).
    pose proof (Qabs_nonneg (SF2Q g)). nra.
Qed.

Lemma rounds_to_ext x y r : (x == y)%Q -> rounds_to x r -> rounds_to y r.
Proof.
  intros E (Hv & Hf & Hn & He). split; [exact Hv|]. split; [exact Hf|]. split.
  - intros g Hgv Hgf. rewrite <- E. apply Hn; assumption.
  - rewrite <- E. exact He.
Qed.

(** A value that is itself a binary64 number is not changed. *)
Lemma rounds_to_exact x r g :
  rounds_to x r -> valid_binary g = true -> SFfinite g = true ->
  (SF2Q g == x)%Q -> (SF2Q r == x)%Q.
Proof.
  intros (_ & _ & Hn & _) Hv Hf E.
  specialize (Hn g Hv Hf). rewrite E in Hn.
  rewrite Qsub_self in Hn.
  change (Qabs 0) with 0%Q in Hn.
  apply Qabs_Qle_condition in Hn. lra.
Qed.

(** The result does not cross a binary64 number. *)
Lemma rounds_to_le x r g :
  rounds_to x r -> valid_binary g = true -> SFfinite g = true ->
  (x <= SF2Q g)%Q -> (SF2Q r <= SF2Q g)%Q.
Proof.
  intros (_ & _ & Hn & _) Hv Hf Hle.
  specialize (Hn g Hv Hf).
  rewrite (Qabs_pos (SF2Q g - x)) in Hn by lra.
  apply Qabs_Qle_condition in Hn. lra.
Qed.

Lemma rounds_to_ge x r g :
  rounds_to x r -> valid_binary g = true -> SFfinite g = true ->
  (SF2Q g <= x)%Q -> (SF2Q g <= SF2Q r)%Q.
Proof.
  intros (_ & _ & Hn & _) Hv Hf Hle.
  specialize (Hn g Hv Hf).
  rewrite (Qabs_neg (SF2Q g - x)) in Hn by lra.
  apply Qabs_Qle_condition in Hn. lra.
Qed.

(** Rounding is monotone. *)
Lemma rounds_to_mono x y rx ry :
  rounds_to x rx -> rounds_to y ry -> (x < y)%Q -> (SF2Q rx <= SF2Q ry)%Q.
Proof.
  intros (Hvx & Hfx & Hnx & _) (Hvy & Hfy & Hny & _) Hlt.
  specialize (Hnx ry Hvy Hfy). specialize (Hny rx Hvx Hfx).
  destruct (Qlt_le_dec (SF2Q ry) (SF2Q rx)) as [Hc|Hc]; [|exact Hc].
  exfalso.
  destruct (Qlt_le_dec (SF2Q ry) x) as [H1|H1].
  - destruct (Qlt_le_dec y (SF2Q rx)) as [H2|H2].
    + rewrite (Qabs_neg (SF2Q ry - x)) in Hnx by lra.
      rewrite (Qabs_pos (SF2Q rx - y)) in Hny by lra.
      apply Qabs_Qle_condition in Hnx, Hny. lra.
    + rewrite (Qabs_neg (SF2Q rx - y)) in Hny by lra.
      apply Qabs_Qle_condition in Hny. lra.
  - rewrite (Qabs_pos (SF2Q ry - x)) in Hnx by lra.
    apply Qabs_Qle_condition in Hnx. lra.
Qed.

Lemma valid_zero s : valid_binary (S754_zero s) = true.
Proof. reflexivity. Qed.

Lemma rounds_to_nonneg x r : rounds_to x r -> (0 <= x)%Q -> (0 <= SF2Q r)%Q.
Proof.
  intros H Hx. rewrite <- (SF2Q_zero false).
  eapply rounds_to_ge; [exact H|reflexivity|reflexivity|].
  rewrite SF2Q_zero. exact Hx.
Qed.

Lemma rounds_to_nonpos x r : rounds_to x r -> (x <= 0)%Q -> (SF2Q r <= 0)%Q.
Proof.
  intros H Hx. rewrite <- (SF2Q_zero false).
  eapply rounds_to_le; [exact H|reflexivity|reflexivity|].
  rewrite SF2Q_zero. exact Hx.
Qed.

Lemma rounds_to_zero s : rounds_to 0 (S754_zero s).
Proof.
  eapply rounds_to_ext; [apply SF2Q_zero|]. apply rounds_to_self; reflexivity.
Qed.

(** ** Representable values *)

Lemma Qsigned_opp s q : (Qsigned (negb s) q == - Qsigned s q)%Q.
Proof. destruct s; simpl; ring. Qed.

Lemma Qsigned_cond_Zopp s z : (inject_Z (cond_Zopp s z) == Qsigned s (inject_Z z))%Q.
Proof. destruct s; simpl; [rewrite inject_Z_opp|]; reflexivity. Qed.

(** Every [m * 2^e] with a mantissa of at most 53 bits and an exponent in
    range is a binary64 number. *)
Lemma representable s m e :
  0 < m < 2 ^ 53 -> -1074 <= e -> Zdigits2 m + e <= 1024 ->
  exists g, valid_binary g = true /\ SFfinite g = true /\
    (SF2Q g == Qsigned s (inject_Z m * bpow e))%Q.
Proof.
  intros Hm He Hmax.
  set (d := Zdigits2 m).
  assert (Hd : 0 < d <= 53).
  { split; [apply Zdigits2_pos; lia|apply Zdigits2_le; lia]. }
  set (k := Z.min (53 - d) (e + 1074)).
  assert (Hk : 0 <= k) by lia.
  assert (Hmk : 0 < m * 2 ^ k).
  { apply Z.mul_pos_pos; [lia|apply Z.pow_pos_nonneg; lia]. }
  destruct (m * 2 ^ k) as [|p|p] eqn:Ep; try lia.
  exists (S754_finite s p (e - k)).
  assert (Hdig : Zdigits2 (Z.pos p) = d + k).
  { rewrite <- Ep. apply Zdigits2_shift; lia. }
  split.
  { simpl. unfold bounded, canonical_mantissa.
    change (Z.pos (digits2_pos p)) with (Zdigits2 (Z.pos p)).
    rewrite Hdig, fexp_eq.
    replace (Z.max (d + k + (e - k) - 53) (-1074)) with (e - k) by lia.
    rewrite Z.eqb_refl. simpl. apply Z.leb_le. change (emax - prec) with 971. lia. }
  split; [reflexivity|].
  rewrite SF2Q_finite. rewrite <- Ep. rewrite scale_shift by lia.
  replace (e - k + k) with e by lia. reflexivity.
Qed.

Lemma representable_Z z :
  Z.abs z <= 2 ^ 53 ->
  exists g, valid_binary g = true /\ SFfinite g = true /\ (SF2Q g == inject_Z z)%Q.
Proof.
  intros Hz. destruct (Z.eq_dec z 0) as [->|Hne].
  { exists (S754_zero false). repeat split; reflexivity. }
  destruct (Z.eq_dec (Z.abs z) (2 ^ 53)) as [E|Hlt].
  - destruct (representable (z <? 0) (2 ^ 52) 1) as (g & Hv & Hf & Hg);
      [lia|lia|change (Zdigits2 (2 ^ 52)) with 53; lia|].
    exists g. split; [exact Hv|]. split; [exact Hf|]. rewrite Hg.
    change (inject_Z (2 ^ 52) * bpow 1)%Q with (inject_Z (2 ^ 53)). rewrite <- E.
    rewrite <- Qsigned_cond_Zopp. destruct (Z.ltb_spec z 0); simpl; f_equiv; lia.
  - destruct (representable (z <? 0) (Z.abs z) 0) as (g & Hv & Hf & Hg); [lia|lia| |].
    { assert (Zdigits2 (Z.abs z) <= 53) by (apply Zdigits2_le; lia). lia. }
    exists g. split; [exact Hv|]. split; [exact Hf|]. rewrite Hg.
    rewrite bpow_0, Qmult_1_r.
    rewrite <- Qsigned_cond_Zopp. destruct (Z.ltb_spec z 0); simpl; f_equiv; lia.
Qed.



(** ** [binary_round] and [binary_normalize] *)

Lemma Pos_iter_xO m d : Z.pos (Pos.iter xO m d) = Z.pos m * 2 ^ Z.pos d.
Proof.
  induction d as [|d IH] using Pos.peano_ind.
  - simpl. lia.
  - rewrite Pos.iter_succ, Pos2Z.inj_xO, IH, Pos2Z.inj_succ, Z.pow_succ_r by lia. lia.
Qed.

Lemma shl_align_spec mx ex ex' :
  let mz := fst (shl_align mx ex ex') in
  let ez := snd (shl_align mx ex ex') in
  ez <= ex' \/ ez = ex /\ mz = mx ->
  ez <= ex /\ Z.pos mz = Z.pos mx * 2 ^ (ex - ez) /\ (ex' < ex -> ez = ex') /\
  (ex <= ex' -> ez = ex).
Proof.
  unfold shl_align. destruct (ex' - ex) as [|d|d] eqn:E; simpl; intros _.
  - assert (ex = ex') by lia. subst. rewrite Z.sub_diag. simpl. lia.
  - replace (ex - ex) with 0 by lia. simpl. lia.
  - rewrite Pos_iter_xO. replace (ex - ex') with (Z.pos d) by lia. lia.
Qed.

(** A magnitude below [2^1023] has a mantissa and exponent that cannot
    overflow. *)
Lemma digits_bound m e :
  0 < m -> (inject_Z m * bpow e < bpow 1023)%Q -> Zdigits2 m + e <= 1023.
Proof.
  intros Hm H. pose proof (Zdigits2_bounds m Hm) as [Hlo _].
  pose proof (Zdigits2_pos m Hm) as Hd.
  assert (Hb : (bpow (Zdigits2 m - 1 + e) < bpow 1023)%Q).
  { eapply Qle_lt_trans; [|exact H]. rewrite bpow_add.
    apply Qmult_le_compat_r; [|apply Qlt_le_weak, bpow_pos].
    rewrite bpow_Z by lia. apply inject_Z_le. exact Hlo. }
  apply Qpower_lt_compat_l_inv in Hb; [lia|reflexivity].
Qed.

Lemma Qsigned_abs s q : (0 <= q)%Q -> (Qabs (Qsigned s q) == q)%Q.
Proof.
  intros H. unfold Qsigned. destruct s; [rewrite Qabs_opp|]; apply Qabs_pos; exact H.
Qed.

Lemma binary_round_correct s m e :
  (inject_Z (Z.pos m) * bpow e < bpow 1023)%Q ->
  rounds_to (Qsigned s (inject_Z (Z.pos m) * bpow e)) (binary_round prec emax s m e).
Proof.
  intros Hov. unfold binary_round.
  change (Z.pos (digits2_pos m)) with (Zdigits2 (Z.pos m)).
  set (ex' := fexp prec emax (Zdigits2 (Z.pos m) + e)).
  destruct (shl_align_spec m e ex') as (Hle & Hmz & Hlt & Hge).
  { destruct (Z.le_gt_cases e ex').
    - right. unfold shl_align. destruct (ex' - e) eqn:E; try lia; auto.
    - left. unfold shl_align. destruct (ex' - e) eqn:E; try lia. simpl. lia. }
  destruct (shl_align m e ex') as [mz ez]. simpl in Hle, Hmz, Hlt, Hge.
  assert (Hval : (inject_Z (Z.pos mz) * bpow ez == inject_Z (Z.pos m) * bpow e)%Q).
  { rewrite Hmz, scale_shift by lia. replace (ez + (e - ez)) with e by lia. reflexivity. }
  assert (Hdig : Zdigits2 (Z.pos mz) + ez = Zdigits2 (Z.pos m) + e).
  { rewrite Hmz, Zdigits2_shift by lia. lia. }
  destruct (binary_round_aux_correct s (Z.pos mz) ez loc_Exact 0) as [Hr _].
  - lia.
  - simpl. reflexivity.
  - rewrite Hdig. fold ex'. destruct (Z.le_gt_cases e ex'); lia.
  - rewrite Hdig. apply digits_bound; [lia|exact Hov].
  - eapply rounds_to_ext; [|exact Hr]. rewrite Qplus_0_r, Hval. reflexivity.
Qed.

Lemma inject_Z_abs z : (inject_Z (Z.abs z) == Qabs (inject_Z z))%Q.
Proof.
  destruct (Z.le_gt_cases 0 z) as [H|H].
  - rewrite Z.abs_eq by exact H. symmetry. apply Qabs_pos.
    change 0%Q with (inject_Z 0). apply inject_Z_le. exact H.
  - rewrite Z.abs_neq by lia. rewrite inject_Z_opp. symmetry. apply Qabs_neg.
    change 0%Q with (inject_Z 0). apply inject_Z_le. lia.
Qed.

Lemma binary_normalize_correct z e szero :
  (Qabs (inject_Z z * bpow e) < bpow 1023)%Q ->
  rounds_to (inject_Z z * bpow e) (binary_normalize prec emax z e szero).
Proof.
  intros Hov.
  assert (Habs : (Qabs (inject_Z z * bpow e) == inject_Z (Z.abs z) * bpow e)%Q).
  { rewrite Qabs_Qmult, inject_Z_abs. rewrite (Qabs_pos (bpow e)); [reflexivity|].
    apply Qlt_le_weak, bpow_pos. }
  rewrite Habs in Hov.
  destruct z as [|m|m]; simpl binary_normalize.
  - eapply rounds_to_ext; [|apply rounds_to_zero]. ring.
  - apply (binary_round_correct false). exact Hov.
  - eapply rounds_to_ext; [|apply (binary_round_correct true); exact Hov].
    simpl. change (Z.neg m) with (- Z.pos m). rewrite inject_Z_opp. ring.
Qed.

(** ** Multiplication *)

Lemma SFmag_finite s m e : SFmag (S754_finite s m e) = (inject_Z (Z.pos m) * bpow e)%Q.
Proof. reflexivity. Qed.

Lemma Qsigned_xorb s1 s2 a b :
  (Qsigned (xorb s1 s2) (a * b) == Qsigned s1 a * Qsigned s2 b)%Q.
Proof. destruct s1, s2; simpl; ring. Qed.

Lemma SFmul_correct x y :
  valid_binary x = true -> valid_binary y = true ->
  SFfinite x = true -> SFfinite y = true ->
  (Qabs (SF2Q x * SF2Q y) < bpow 1023)%Q ->
  rounds_to (SF2Q x * SF2Q y) (SFmul prec emax x y).
Proof.
  intros Hvx Hvy Hfx Hfy Hov.
  destruct x as [sx|sx| |sx mx ex]; try discriminate Hfx;
  destruct y as [sy|sy| |sy my ey]; try discriminate Hfy; simpl SFmul.
  - eapply rounds_to_ext; [|apply rounds_to_zero]. rewrite !SF2Q_zero. ring.
  - eapply rounds_to_ext; [|apply rounds_to_zero]. rewrite !SF2Q_zero. ring.
  - eapply rounds_to_ext; [|apply rounds_to_zero]. rewrite !SF2Q_zero. ring.
  - apply valid_finite_canonical in Hvx as [Hcx _].
    apply valid_finite_canonical in Hvy as [Hcy _].
    pose proof (canonical_bounds _ _ Hcx) as (Hex & Hmx53 & Hmx52).
    pose proof (canonical_bounds _ _ Hcy) as (Hey & Hmy53 & Hmy52).
    assert (Hval : (SF2Q (S754_finite sx mx ex) * SF2Q (S754_finite sy my ey)
                    == Qsigned (xorb sx sy)
                         ((inject_Z (Z.pos (mx * my)) + 0) * bpow (ex + ey)))%Q).
    { rewrite !SF2Q_finite, <- Qsigned_xorb. apply Qsigned_Proper.
      rewrite Pos2Z.inj_mul, inject_Z_mult, bpow_add. ring. }
    destruct (binary_round_aux_correct (xorb sx sy) (Z.pos (mx * my)) (ex + ey) loc_Exact 0)
      as [Hr _].
    + lia.
    + simpl. reflexivity.
    + rewrite fexp_eq.
      destruct (Z.le_gt_cases (ex + ey) (-1074)) as [|Hbig]; [lia|].
      assert (53 <= Zdigits2 (Z.pos (mx * my))); [|lia].
      apply Zdigits2_ge; [|lia]. rewrite Pos2Z.inj_mul.
      destruct (Z.eq_dec ex (-1074)) as [Ex|Ex].
      * specialize (Hmy52 ltac:(lia)). nia.
      * specialize (Hmx52 ltac:(lia)). nia.
    + apply digits_bound; [lia|].
      rewrite Hval, Qsigned_abs, Qplus_0_r in Hov; [exact Hov|].
      apply Qmult_le_0_compat; [|apply Qlt_le_weak, bpow_pos].
      rewrite Qplus_0_r. change 0%Q with (inject_Z 0). apply inject_Z_le. lia.
    + eapply rounds_to_ext; [|exact Hr]. symmetry. exact Hval.
Qed.



(** ** Addition and subtraction *)

Lemma shl_align_min mx ex ez :
  ez <= ex -> Z.pos (fst (shl_align mx ex ez)) = Z.pos mx * 2 ^ (ex - ez).
Proof.
  intros H. destruct (shl_align_spec mx ex ez) as (_ & Hmz & Hlt & Hge).
  { destruct (Z.le_gt_cases ex ez).
    - right. unfold shl_align. destruct (ez - ex) eqn:E; try lia; auto.
    - left. unfold shl_align. destruct (ez - ex) eqn:E; try lia. simpl. lia. }
  rewrite Hmz. f_equal. f_equal.
  destruct (Z.eq_dec ez ex) as [->|Hne].
  - rewrite Hge; lia.
  - rewrite Hlt; lia.
Qed.

Lemma aligned_value s m e ez :
  ez <= e ->
  (inject_Z (cond_Zopp s (Z.pos (fst (shl_align m e ez)))) * bpow ez
   == SF2Q (S754_finite s m e))%Q.
Proof.
  intros H. rewrite shl_align_min by exact H.
  rewrite SF2Q_finite, Qsigned_cond_Zopp.
  assert (E : (inject_Z (Z.pos m * 2 ^ (e - ez)) * bpow ez == inject_Z (Z.pos m) * bpow e)%Q).
  { rewrite scale_shift by lia. replace (ez + (e - ez)) with e by lia. reflexivity. }
  rewrite <- E. destruct s; simpl; ring.
Qed.

Lemma valid_opp s m e :
  valid_binary (S754_finite s m e) = true -> valid_binary (S754_finite (negb s) m e) = true.
Proof. intros H. exact H. Qed.

Lemma SF2Q_opp_finite s m e :
  (SF2Q (S754_finite (negb s) m e) == - SF2Q (S754_finite s m e))%Q.
Proof. rewrite !SF2Q_finite. apply Qsigned_opp. Qed.

Lemma SFadd_correct x y :
  valid_binary x = true -> valid_binary y = true ->
  SFfinite x = true -> SFfinite y = true ->
  (Qabs (SF2Q x + SF2Q y) < bpow 1023)%Q ->
  rounds_to (SF2Q x + SF2Q y) (SFadd prec emax x y).
Proof.
  intros Hvx Hvy Hfx Hfy Hov.
  destruct x as [sx|sx| |sx mx ex]; try discriminate Hfx;
  destruct y as [sy|sy| |sy my ey]; try discriminate Hfy; simpl SFadd.
  - eapply rounds_to_ext; [|destruct sx, sy; apply rounds_to_zero].
    rewrite !SF2Q_zero. ring.
  - eapply rounds_to_ext; [|apply rounds_to_self; [exact Hvy|reflexivity]].
    rewrite SF2Q_zero. ring.
  - eapply rounds_to_ext; [|apply rounds_to_self; [exact Hvx|reflexivity]].
    rewrite SF2Q_zero. ring.
  - set (ez := Z.min ex ey).
    assert (Hval : (inject_Z (cond_Zopp sx (Z.pos (fst (shl_align mx ex ez)))
                              + cond_Zopp sy (Z.pos (fst (shl_align my ey ez)))) * bpow ez
                    == SF2Q (S754_finite sx mx ex) + SF2Q (S754_finite sy my ey))%Q).
    { rewrite inject_Z_plus, Qmult_plus_distr_l.
      rewrite !aligned_value by (unfold ez; lia). reflexivity. }
    eapply rounds_to_ext; [exact Hval|].
    apply binary_normalize_correct. rewrite Hval. exact Hov.
Qed.

Lemma SFsub_correct x y :
  valid_binary x = true -> valid_binary y = true ->
  SFfinite x = true -> SFfinite y = true ->
  (Qabs (SF2Q x - SF2Q y) < bpow 1023)%Q ->
  rounds_to (SF2Q x - SF2Q y) (SFsub prec emax x y).
Proof.
  intros Hvx Hvy Hfx Hfy Hov.
  destruct x as [sx|sx| |sx mx ex]; try discriminate Hfx;
  destruct y as [sy|sy| |sy my ey]; try discriminate Hfy; simpl SFsub.
  - eapply rounds_to_ext; [|destruct sx, sy; apply rounds_to_zero].
    rewrite !SF2Q_zero. ring.
  - eapply rounds_to_ext;
      [|apply (rounds_to_self (S754_finite (negb sy) my ey)); [exact Hvy|reflexivity]].
    rewrite SF2Q_zero, SF2Q_opp_finite. ring.
  - eapply rounds_to_ext; [|apply rounds_to_self; [exact Hvx|reflexivity]].
    rewrite SF2Q_zero. ring.
  - set (ez := Z.min ex ey).
    assert (Hval : (inject_Z (cond_Zopp sx (Z.pos (fst (shl_align mx ex ez)))
                              - cond_Zopp sy (Z.pos (fst (shl_align my ey ez)))) * bpow ez
                    == SF2Q (S754_finite sx mx ex) - SF2Q (S754_finite sy my ey))%Q).
    { unfold Z.sub. rewrite inject_Z_plus, inject_Z_opp.
      setoid_rewrite Qmult_plus_distr_l.
      transitivity (inject_Z (cond_Zopp sx (Z.pos (fst (shl_align mx ex ez)))) * bpow ez
                    - inject_Z (cond_Zopp sy (Z.pos (fst (shl_align my ey ez)))) * bpow ez)%Q;
        [ring|].
      rewrite !aligned_value by (unfold ez; lia). reflexivity. }
    eapply rounds_to_ext; [exact Hval|].
    apply binary_normalize_correct. rewrite Hval. exact Hov.
Qed.



(** ** Division *)

Lemma frac_lt (th a M R : Q) :
  (0 < M)%Q -> (th * M == R)%Q -> (R < a * M)%Q -> (th < a)%Q.
Proof. intros HM Hth H. apply (Qmult_lt_r _ _ M HM). rewrite Hth. exact H. Qed.

Lemma frac_gt (th a M R : Q) :
  (0 < M)%Q -> (th * M == R)%Q -> (a * M < R)%Q -> (a < th)%Q.
Proof. intros HM Hth H. apply (Qmult_lt_r _ _ M HM). rewrite Hth. exact H. Qed.

Lemma frac_eq (th a M R : Q) :
  (0 < M)%Q -> (th * M == R)%Q -> (R == a * M)%Q -> (th == a)%Q.
Proof.
  intros HM Hth H. apply (Qmult_inj_r _ _ M); [lra|]. rewrite Hth. exact H.
Qed.

Lemma new_location_ok m2 r th :
  0 < m2 -> 0 <= r < m2 -> (th * inject_Z m2 == inject_Z r)%Q ->
  loc_ok (new_location m2 r) th.
Proof.
  intros Hm Hr Hth.
  assert (HM : (0 < inject_Z m2)%Q) by (change 0%Q with (inject_Z 0); apply inject_Z_lt; lia).
  assert (HR : (0 <= inject_Z r)%Q) by (change 0%Q with (inject_Z 0); apply inject_Z_le; lia).
  assert (Hcases : r = 0 \/ (0 < inject_Z r)%Q).
  { destruct (Z.eq_dec r 0); [left; assumption|right].
    change 0%Q with (inject_Z 0). apply inject_Z_lt. lia. }
  assert (Hlt : 2 * r < m2 -> (inject_Z r < (1 # 2) * inject_Z m2)%Q).
  { intros E. apply inject_Z_lt in E. rewrite inject_Z_mult in E.
    change (inject_Z 2) with 2%Q in E. lra. }
  assert (Hgt : m2 < 2 * r -> ((1 # 2) * inject_Z m2 < inject_Z r)%Q).
  { intros E. apply inject_Z_lt in E. rewrite inject_Z_mult in E.
    change (inject_Z 2) with 2%Q in E. lra. }
  assert (Hlt1 : (inject_Z r < 1 * inject_Z m2)%Q).
  { assert (E : r < m2) by lia. apply inject_Z_lt in E. lra. }
  unfold new_location.
  destruct (Z.even m2) eqn:Ev.
  - unfold new_location_even. destruct (Z.eqb_spec r 0) as [->|Hr0].
    + simpl. apply (frac_eq _ _ _ _ HM Hth). change (inject_Z 0) with 0%Q. ring.
    + destruct Hcases as [?|Hpos]; [contradiction|].
      destruct (Z.compare_spec (2 * r) m2) as [E|E|E]; simpl.
      * apply (frac_eq _ _ _ _ HM Hth).
        rewrite <- E, inject_Z_mult. change (inject_Z 2) with 2%Q. ring.
      * split; [apply (frac_gt _ _ _ _ HM Hth); lra|apply (frac_lt _ _ _ _ HM Hth); auto].
      * split; [apply (frac_gt _ _ _ _ HM Hth); auto|apply (frac_lt _ _ _ _ HM Hth); auto].
  - unfold new_location_odd. destruct (Z.eqb_spec r 0) as [->|Hr0].
    + simpl. apply (frac_eq _ _ _ _ HM Hth). change (inject_Z 0) with 0%Q. ring.
    + destruct Hcases as [?|Hpos]; [contradiction|].
      assert (Hodd : 2 * r <> m2).
      { intros E. rewrite <- E, Z.even_mul in Ev. discriminate Ev. }
      destruct (Z.compare_spec (2 * r + 1) m2) as [E|E|E]; simpl.
      * split; [apply (frac_gt _ _ _ _ HM Hth); lra|apply (frac_lt _ _ _ _ HM Hth); apply Hlt; lia].
      * split; [apply (frac_gt _ _ _ _ HM Hth); lra|apply (frac_lt _ _ _ _ HM Hth); apply Hlt; lia].
      * split; [apply (frac_gt _ _ _ _ HM Hth); apply Hgt; lia|apply (frac_lt _ _ _ _ HM Hth); auto].
Qed.

Lemma div_core_spec m1 e1 m2 e2 :
  0 < m1 -> 0 < m2 ->
  exists q e' l th,
    SFdiv_core_binary prec emax m1 e1 m2 e2 = (q, e', l) /\
    0 <= q /\ loc_ok l th /\
    ((inject_Z q + th) * bpow e' * (inject_Z m2 * bpow e2) == inject_Z m1 * bpow e1)%Q /\
    e' <= fexp prec emax (Zdigits2 q + e') /\
    (q = 0 -> e' <= -1074).
Proof.
  intros Hm1 Hm2. unfold SFdiv_core_binary.
  set (d1 := Zdigits2 m1). set (d2 := Zdigits2 m2).
  set (e' := Z.min (fexp prec emax (d1 + e1 - (d2 + e2))) (e1 - e2)).
  set (s := e1 - e2 - e').
  assert (Hs : 0 <= s) by (unfold s, e'; lia).
  set (m' := match s with Z.pos _ => Z.shiftl m1 s | 0 => m1 | Z.neg _ => 0 end).
  assert (Hm' : m' = m1 * 2 ^ s).
  { unfold m'. destruct s eqn:Es; [simpl; lia| |lia]. apply Z.shiftl_mul_pow2. lia. }
  pose proof (Z_div_mod m' m2 ltac:(lia)) as Hdiv.
  destruct (Z.div_eucl m' m2) as [q r]. destruct Hdiv as [Hqr Hr].
  assert (Hp : 0 < 2 ^ s) by (apply Z.pow_pos_nonneg; lia).
  assert (Hq : 0 <= q) by nia.
  assert (HM : (0 < inject_Z m2)%Q) by (change 0%Q with (inject_Z 0); apply inject_Z_lt; lia).
  set (th := (inject_Z r * / inject_Z m2)%Q).
  assert (Hth : (th * inject_Z m2 == inject_Z r)%Q).
  { unfold th. field. lra. }
  exists q, e', (new_location m2 r), th.
  split; [reflexivity|]. split; [exact Hq|].
  split; [apply new_location_ok; assumption|].
  assert (Hbig : -1074 < e' -> 2 ^ 52 <= q).
  { intros He'. unfold e' in He'. rewrite fexp_eq in He'.
    pose proof (Zdigits2_bounds m1 Hm1) as [Hlo1 _].
    pose proof (Zdigits2_bounds m2 Hm2) as [_ Hhi2].
    pose proof (Zdigits2_pos m1 Hm1). pose proof (Zdigits2_pos m2 Hm2).
    fold d1 in Hlo1. fold d2 in Hhi2.
    assert (Hsb : d2 + 53 <= d1 + s) by (unfold s, e'; rewrite fexp_eq; lia).
    assert (Hpow : 2 ^ (d2 + 52) <= m').
    { rewrite Hm'. apply Z.le_trans with (2 ^ (d1 - 1) * 2 ^ s); [|nia].
      rewrite <- Z.pow_add_r by lia. apply Z.pow_le_mono_r; lia. }
    rewrite Z.pow_add_r in Hpow by lia.
    assert (0 < 2 ^ 52) by lia. nia. }
  split.
  { transitivity ((inject_Z q * inject_Z m2 + th * inject_Z m2) * (bpow e' * bpow e2))%Q;
      [ring|].
    rewrite Hth, <- inject_Z_mult, <- inject_Z_plus, <- bpow_add.
    replace (q * m2 + r) with m' by lia. rewrite Hm', scale_shift by lia.
    replace (e' + e2 + s) with e1 by (unfold s; lia). reflexivity. }
  split.
  { rewrite fexp_eq. destruct (Z.le_gt_cases e' (-1074)) as [|He']; [lia|].
    assert (53 <= Zdigits2 q); [|lia]. apply Zdigits2_ge; [|lia].
    apply Hbig. exact He'. }
  intros ->. destruct (Z.le_gt_cases e' (-1074)) as [|He']; [assumption|].
  specialize (Hbig He'). lia.
Qed.

Lemma Qsigned_mul_r s a b : (Qsigned s a * b == Qsigned s (a * b))%Q.
Proof. destruct s; simpl; ring. Qed.

Lemma Qsigned_nonzero s a : ~ (a == 0)%Q -> ~ (Qsigned s a == 0)%Q.
Proof. destruct s; simpl; intros H E; apply H; lra. Qed.

Lemma SFdiv_correct x y v :
  valid_binary x = true -> valid_binary y = true ->
  SFfinite x = true -> SFfinite y = true ->
  ~ (SF2Q y == 0)%Q -> (v * SF2Q y == SF2Q x)%Q ->
  (Qabs v < bpow 1023)%Q ->
  rounds_to v (SFdiv prec emax x y).
Proof.
  intros Hvx Hvy Hfx Hfy Hy0 Hv Hov.
  destruct y as [sy|sy| |sy my ey]; try discriminate Hfy.
  { exfalso. apply Hy0. apply SF2Q_zero. }
  destruct x as [sx|sx| |sx mx ex]; try discriminate Hfx; simpl SFdiv.
  - eapply rounds_to_ext; [|apply rounds_to_zero].
    rewrite SF2Q_zero in Hv. symmetry.
    apply (Qmult_integral_l _ _ Hy0). rewrite Qmult_comm. exact Hv.
  - destruct (div_core_spec (Z.pos mx) ex (Z.pos my) ey) as
      (q & e' & l & th & Hcore & Hq & Hloc & Hval & Hcan & Hq0); [lia|lia|].
    rewrite Hcore.
    set (T := ((inject_Z q + th) * bpow e')%Q) in *.
    assert (HY : (0 < inject_Z (Z.pos my) * bpow ey)%Q).
    { apply Qmult_lt_0_compat; [|apply bpow_pos].
      change 0%Q with (inject_Z 0). apply inject_Z_lt. lia. }
    assert (Hveq : (v == Qsigned (xorb sx sy) T)%Q).
    { apply (Qmult_inj_r _ _ (SF2Q (S754_finite sy my ey)) Hy0).
      rewrite Hv, !SF2Q_finite.
      transitivity (Qsigned sx (T * (inject_Z (Z.pos my) * bpow ey))).
      - rewrite Hval. reflexivity.
      - destruct sx, sy; simpl; ring. }
    pose proof (loc_ok_range _ _ Hloc) as Hthr.
    assert (HT : (0 <= T)%Q).
    { unfold T. apply Qmult_le_0_compat; [|apply Qlt_le_weak, bpow_pos].
      assert (0 <= inject_Z q)%Q by (change 0%Q with (inject_Z 0); apply inject_Z_le; lia).
      lra. }
    destruct (binary_round_aux_correct (xorb sx sy) q e' l th Hq Hloc Hcan) as [Hr _].
    + destruct (Z.eq_dec q 0) as [->|Hne]; [simpl; specialize (Hq0 eq_refl); lia|].
      apply digits_bound; [lia|].
      rewrite Hveq, Qsigned_abs in Hov by exact HT.
      eapply Qle_lt_trans; [|exact Hov]. unfold T.
      apply Qmult_le_compat_r; [lra|apply Qlt_le_weak, bpow_pos].
    + eapply rounds_to_ext; [|exact Hr]. symmetry. exact Hveq.
Qed.



(** ** Comparison *)

Lemma canonical_lt m1 e1 m2 e2 :
  fexp prec emax (Zdigits2 (Z.pos m1) + e1) = e1 ->
  fexp prec emax (Zdigits2 (Z.pos m2) + e2) = e2 ->
  e1 < e2 ->
  (inject_Z (Z.pos m1) * bpow e1 < inject_Z (Z.pos m2) * bpow e2)%Q.
Proof.
  intros H1 H2 Hlt.
  apply canonical_bounds in H1 as (He1 & Hm1 & _).
  apply canonical_bounds in H2 as (_ & _ & Hm2). specialize (Hm2 ltac:(lia)).
  apply Qlt_le_trans with (inject_Z (2 ^ 53) * bpow e1)%Q.
  { apply scale_lt. exact Hm1. }
  apply Qle_trans with (inject_Z (2 ^ 53) * bpow (e2 - 1))%Q.
  { apply Qmult_le_l; [reflexivity|]. apply bpow_le. lia. }
  apply Qle_trans with (inject_Z (2 ^ 52) * bpow e2)%Q.
  { replace e2 with (e2 - 1 + 1) at 2 by lia. rewrite bpow_succ.
    change (2 ^ 53) with (2 ^ 52 * 2). rewrite inject_Z_mult.
    change (inject_Z 2) with 2%Q. lra. }
  apply scale_le. exact Hm2.
Qed.

Lemma mag_compare_spec m1 e1 m2 e2 :
  fexp prec emax (Zdigits2 (Z.pos m1) + e1) = e1 ->
  fexp prec emax (Zdigits2 (Z.pos m2) + e2) = e2 ->
  let a := (inject_Z (Z.pos m1) * bpow e1)%Q in
  let b := (inject_Z (Z.pos m2) * bpow e2)%Q in
  match mag_compare m1 e1 m2 e2 with
  | Lt => (a < b)%Q
  | Eq => (a == b)%Q
  | Gt => (b < a)%Q
  end.
Proof.
  intros H1 H2 a b. unfold mag_compare.
  destruct (Z.compare_spec e1 e2) as [->|Hlt|Hgt].
  - change (Pos.compare_cont Eq m1 m2) with (Pos.compare m1 m2).
    destruct (Pos.compare_spec m1 m2) as [->|Hm|Hm].
    + reflexivity.
    + apply scale_lt. lia.
    + apply scale_lt. lia.
  - apply canonical_lt; assumption.
  - apply canonical_lt; assumption.
Qed.

Lemma mag_pos m e : (0 < inject_Z (Z.pos m) * bpow e)%Q.
Proof.
  apply Qmult_lt_0_compat; [|apply bpow_pos].
  change 0%Q with (inject_Z 0). apply inject_Z_lt. lia.
Qed.

Lemma SFcompare_finite sx mx ex sy my ey :
  SFcompare (S754_finite sx mx ex) (S754_finite sy my ey)
  = Some (match sx, sy with
          | true, false => Lt
          | false, true => Gt
          | false, false => mag_compare mx ex my ey
          | true, true => CompOpp (mag_compare mx ex my ey)
          end).
Proof.
  unfold mag_compare. destruct sx, sy; simpl; destruct (ex ?= ey); reflexivity.
Qed.

Ltac compare_cases :=
  simpl in *; split; intros;
  first [discriminate | reflexivity | lra | exfalso; lra].

Lemma SFltb_spec x y :
  valid_binary x = true -> valid_binary y = true ->
  SFfinite x = true -> SFfinite y = true ->
  (SFltb x y = true <-> (SF2Q x < SF2Q y)%Q).
Proof.
  intros Hvx Hvy Hfx Hfy.
  destruct x as [sx|sx| |sx mx ex]; try discriminate Hfx;
  destruct y as [sy|sy| |sy my ey]; try discriminate Hfy.
  - rewrite !SF2Q_zero. unfold SFltb. simpl. split; [discriminate|lra].
  - rewrite SF2Q_zero, SF2Q_finite. pose proof (mag_pos my ey).
    unfold SFltb. simpl. destruct sy; compare_cases.
  - rewrite SF2Q_zero, SF2Q_finite. pose proof (mag_pos mx ex).
    unfold SFltb. simpl. destruct sx; compare_cases.
  - apply valid_finite_canonical in Hvx as [Hcx _].
    apply valid_finite_canonical in Hvy as [Hcy _].
    rewrite !SF2Q_finite. pose proof (mag_pos mx ex). pose proof (mag_pos my ey).
    pose proof (mag_compare_spec mx ex my ey Hcx Hcy) as Hc.
    unfold SFltb. rewrite SFcompare_finite.
    destruct sx, sy, (mag_compare mx ex my ey); compare_cases.
Qed.

Lemma SFleb_spec x y :
  valid_binary x = true -> valid_binary y = true ->
  SFfinite x = true -> SFfinite y = true ->
  (SFleb x y = true <-> (SF2Q x <= SF2Q y)%Q).
Proof.
  intros Hvx Hvy Hfx Hfy.
  destruct x as [sx|sx| |sx mx ex]; try discriminate Hfx;
  destruct y as [sy|sy| |sy my ey]; try discriminate Hfy.
  - rewrite !SF2Q_zero. unfold SFleb. simpl. split; [lra|reflexivity].
  - rewrite SF2Q_zero, SF2Q_finite. pose proof (mag_pos my ey).
    unfold SFleb. simpl. destruct sy; compare_cases.
  - rewrite SF2Q_zero, SF2Q_finite. pose proof (mag_pos mx ex).
    unfold SFleb. simpl. destruct sx; compare_cases.
  - apply valid_finite_canonical in Hvx as [Hcx _].
    apply valid_finite_canonical in Hvy as [Hcy _].
    rewrite !SF2Q_finite. pose proof (mag_pos mx ex). pose proof (mag_pos my ey).
    pose proof (mag_compare_spec mx ex my ey Hcx Hcy) as Hc.
    unfold SFleb. rewrite SFcompare_finite.
    destruct sx, sy, (mag_compare mx ex my ey); compare_cases.
Qed.

(** A number between two finite numbers is finite. *)
Lemma SFleb_finite a c b :
  SFfinite a = true -> SFfinite b = true ->
  SFleb a c = true -> SFleb c b = true -> SFfinite c = true.
Proof.
  intros Ha Hb H1 H2.
  destruct c as [sc|sc| |sc mc ec]; try reflexivity.
  - destruct a as [sa|sa| |sa ma ea]; try discriminate Ha;
    destruct b as [sb|sb| |sb mb eb]; try discriminate Hb;
    destruct sc; try discriminate H1; try discriminate H2;
    unfold SFleb in *; simpl in *;
      try (destruct sa; discriminate); try (destruct sb; discriminate).
  - destruct a; discriminate.
Qed.

Lemma mul_correct x y :
  finite x -> finite y -> (Qabs (F2Q x * F2Q y) < bpow 1023)%Q ->
  rounds_to (F2Q x * F2Q y) (Prim2SF (x * y)).
Proof.
  intros Hx Hy H. rewrite mul_spec. apply SFmul_correct; auto using Prim2SF_valid.
Qed.

Lemma add_correct x y :
  finite x -> finite y -> (Qabs (F2Q x + F2Q y) < bpow 1023)%Q ->
  rounds_to (F2Q x + F2Q y) (Prim2SF (x + y)).
Proof.
  intros Hx Hy H. rewrite add_spec. apply SFadd_correct; auto using Prim2SF_valid.
Qed.

Lemma sub_correct x y :
  finite x -> finite y -> (Qabs (F2Q x - F2Q y) < bpow 1023)%Q ->
  rounds_to (F2Q x - F2Q y) (Prim2SF (x - y)).
Proof.
  intros Hx Hy H. rewrite sub_spec. apply SFsub_correct; auto using Prim2SF_valid.
Qed.

Lemma div_correct x y v :
  finite x -> finite y -> ~ (F2Q y == 0)%Q -> (v * F2Q y == F2Q x)%Q ->
  (Qabs v < bpow 1023)%Q ->
  rounds_to v (Prim2SF (x / y)).
Proof.
  intros Hx Hy H0 Hv H. rewrite div_spec. apply SFdiv_correct; auto using Prim2SF_valid.
Qed.

Lemma rounds_to_finite x f : rounds_to x (Prim2SF f) -> finite f.
Proof. intros (_ & H & _). exact H. Qed.

Lemma ltb_finite x y :
  finite x -> finite y -> ((x <? y)%float = true <-> (F2Q x < F2Q y)%Q).
Proof.
  intros Hx Hy. rewrite ltb_spec. apply SFltb_spec; auto using Prim2SF_valid.
Qed.

Lemma leb_finite x y :
  finite x -> finite y -> ((x <=? y)%float = true <-> (F2Q x <= F2Q y)%Q).
Proof.
  intros Hx Hy. rewrite leb_spec. apply SFleb_spec; auto using Prim2SF_valid.
Qed.

Lemma leb_between a c b :
  finite a -> finite b -> (a <=? c)%float = true -> (c <=? b)%float = true -> finite c.
Proof.
  intros Ha Hb. rewrite !leb_spec. apply SFleb_finite; assumption.
Qed.


(** ** Conversions between [int] and [float] *)

Lemma finite_not_infinity f : finite f -> is_infinity f = false.
Proof.
  unfold finite, is_infinity. intros H. rewrite FloatAxioms.eqb_spec, abs_spec.
  change (Prim2SF infinity) with (S754_infinity false).
  destruct (Prim2SF f); try discriminate H; reflexivity.
Qed.

Lemma finite_not_nan f : finite f -> is_nan f = false.
Proof.
  unfold finite, is_nan. intros H. rewrite FloatAxioms.eqb_spec.
  pose proof (Prim2SF_valid f) as Hv.
  destruct (Prim2SF f) as [s|s| |s m e]; try discriminate H.
  - reflexivity.
  - unfold SFeqb. rewrite SFcompare_finite.
    apply valid_finite_canonical in Hv as [Hc _].
    pose proof (mag_compare_spec m e m e Hc Hc) as Hm. simpl in Hm.
    pose proof (mag_pos m e).
    destruct s, (mag_compare m e m e); simpl in *; try reflexivity; lra.
Qed.

(** An [int] of magnitude at most [2^53] converts exactly. *)
Lemma py_float_exact z :
  Z.abs z <= 2 ^ 53 ->
  exists f, py_float z = Ok f /\ finite f /\ (F2Q f == inject_Z z)%Q.
Proof.
  intros Hz.
  assert (Hr : rounds_to (inject_Z z * bpow 0) (binary_normalize prec emax z 0 false)).
  { apply binary_normalize_correct. rewrite bpow_0, Qmult_1_r, <- inject_Z_abs.
    apply Qle_lt_trans with (inject_Z (2 ^ 53)); [apply inject_Z_le; exact Hz|].
    rewrite <- (bpow_Z 53) by lia. apply bpow_lt. lia. }
  eapply rounds_to_ext in Hr; [|rewrite bpow_0; apply Qmult_1_r].
  set (r := binary_normalize prec emax z 0 false) in *.
  assert (Hp : Prim2SF (SF2Prim r) = r) by (apply Prim2SF_SF2Prim; apply Hr).
  assert (Hfin : finite (SF2Prim r)) by (unfold finite; rewrite Hp; apply Hr).
  exists (SF2Prim r). split.
  { unfold py_float. fold r. rewrite finite_not_infinity by exact Hfin. reflexivity. }
  split; [exact Hfin|].
  unfold F2Q. rewrite Hp.
  destruct (representable_Z z Hz) as (g & Hgv & Hgf & Hg).
  eapply rounds_to_exact; eassumption.
Qed.

Lemma shiftl_neg m e : e < 0 -> Z.shiftl (Z.pos m) e = Z.pos m / 2 ^ (- e).
Proof.
  intros He. rewrite <- Z.shiftr_opp_r. apply Z.shiftr_div_pow2. lia.
Qed.

(** [int(f)] of a finite float is its value truncated toward zero. *)
Lemma py_int_finite f :
  finite f -> exists z, py_int f = Ok z /\ truncates (F2Q f) z.
Proof.
  unfold finite, py_int, F2Q. intros H.
  destruct (Prim2SF f) as [s|s| |s m e]; try discriminate H.
  - exists 0. split; [reflexivity|].
    unfold truncates. rewrite !SF2Q_zero. change (inject_Z 0) with 0%Q. lra.
  - exists (cond_Zopp s (Z.shiftl (Z.pos m) e)). split; [reflexivity|].
    rewrite SF2Q_finite.
    set (q := Z.shiftl (Z.pos m) e).
    assert (Hq : (inject_Z q <= inject_Z (Z.pos m) * bpow e
                  /\ inject_Z (Z.pos m) * bpow e < inject_Z q + 1)%Q).
    { unfold q. destruct (Z.le_gt_cases 0 e) as [He|He].
      - rewrite Z.shiftl_mul_pow2 by exact He.
        rewrite inject_Z_mult, <- (bpow_Z e He). lra.
      - rewrite shiftl_neg by exact He.
        set (k := - e). assert (Hk : 0 < k) by (unfold k; lia).
        assert (Hp : 0 < 2 ^ k) by (apply Z.pow_pos_nonneg; lia).
        pose proof (Z.mul_div_le (Z.pos m) (2 ^ k) Hp) as Hlo.
        pose proof (Z.mul_succ_div_gt (Z.pos m) (2 ^ k) Hp) as Hhi.
        pose proof (bpow_pos k) as HB.
        assert (Hinv : (bpow e * bpow k == 1)%Q).
        { rewrite <- bpow_add. replace (e + k) with 0 by (unfold k; lia). reflexivity. }
        split.
        + apply (Qmult_le_r _ _ (bpow k) HB).
          rewrite <- Qmult_assoc, Hinv, Qmult_1_r, (bpow_Z k) by lia.
          rewrite <- inject_Z_mult. apply inject_Z_le. lia.
        + apply (Qmult_lt_r _ _ (bpow k) HB).
          rewrite <- Qmult_assoc, Hinv, Qmult_1_r, (bpow_Z k) by lia.
          change 1%Q with (inject_Z 1).
          rewrite <- inject_Z_plus, <- inject_Z_mult. apply inject_Z_lt. lia. }
    pose proof (mag_pos m e) as Hpos.
    unfold truncates. destruct s; simpl; [rewrite inject_Z_opp|]; lra.
Qed.

Lemma truncates_mono q1 q2 z1 z2 :
  truncates q1 z1 -> truncates q2 z2 -> (q1 <= q2)%Q -> z1 <= z2.
Proof.
  intros [Hp1 Hn1] [Hp2 Hn2] Hle.
  destruct (Z.le_gt_cases z1 z2) as [|Hgt]; [assumption|exfalso].
  assert (Hz : (inject_Z z2 + 1 <= inject_Z z1)%Q).
  { change 1%Q with (inject_Z 1). rewrite <- inject_Z_plus. apply inject_Z_le. lia. }
  destruct (Qlt_le_dec q2 0) as [H2|H2].
  - specialize (Hn2 ltac:(lra)). specialize (Hn1 ltac:(lra)). lra.
  - specialize (Hp2 H2). destruct (Qlt_le_dec q1 0) as [H1|H1].
    + specialize (Hn1 ltac:(lra)).
      assert (Hz2 : (0 <= inject_Z z2)%Q).
      { change 0%Q with (inject_Z 0). apply inject_Z_le.
        destruct (Z.le_gt_cases 0 z2) as [|Hneg]; [assumption|exfalso].
        assert (inject_Z z2 + 1 <= 0)%Q; [|lra].
        change 1%Q with (inject_Z 1). change 0%Q with (inject_Z 0).
        rewrite <- inject_Z_plus. apply inject_Z_le. lia. }
      lra.
    + specialize (Hp1 H1). lra.
Qed.

Lemma truncates_bounds q z a b :
  truncates q z -> (inject_Z a <= q)%Q -> (q <= inject_Z b)%Q -> a <= z <= b.
Proof.
  intros [Hp Hn] Ha Hb.
  assert (Hlt : forall x y, (inject_Z x < inject_Z y + 1)%Q -> x <= y).
  { intros x y H. change 1%Q with (inject_Z 1) in H. rewrite <- inject_Z_plus in H.
    rewrite <- Zlt_Qlt in H. lia. }
  destruct (Qlt_le_dec q 0) as [H|H].
  - specialize (Hn ltac:(lra)). split.
    + rewrite Zle_Qle. lra.
    + apply Hlt. lra.
  - specialize (Hp H). split.
    + apply Hlt. lra.
    + rewrite Zle_Qle. lra.
Qed.

(** * The control loop *)

(** ** The CiA 402 decoding *)

Lemma land_bit3 (sw : Z) : Z.land sw 8 = if Z.testbit sw 3 then 8 else 0.
Proof.
  apply Z.bits_inj'. intros n Hn. rewrite Z.land_spec.
  destruct (Z.eq_dec n 3) as [->|Hne].
  - destruct (Z.testbit sw 3); reflexivity.
  - replace (Z.testbit 8 n) with false.
    + rewrite andb_false_r. destruct (Z.testbit sw 3); [|symmetry; apply Z.bits_0].
      change 8 with (2 ^ 3). symmetry. apply Z.pow2_bits_false. lia.
    + change 8 with (2 ^ 3). symmetry. apply Z.pow2_bits_false. lia.
Qed.

(** A statusword that matches one of the four state patterns has bit 3
    clear: the masks [0x4F] and [0x6F] contain the bit, the patterns do not. *)
Lemma mask_clears_bit3 (sw mask pat : Z) :
  Z.testbit mask 3 = true -> Z.testbit pat 3 = false ->
  Z.land sw mask = pat -> Z.testbit sw 3 = false.
Proof.
  intros Hm Hp H.
  apply (f_equal (fun z => Z.testbit z 3)) in H.
  rewrite Z.land_spec, Hm, Hp, andb_true_r in H. exact H.
Qed.

Lemma controlword_fault (sw : Z) : Z.testbit sw 3 = true -> controlword sw = CW_FAULT_RESET.
Proof.
  intros Hb. unfold controlword.
  destruct (Z.eqb_spec (Z.land sw 79) 64) as [E|_].
  { apply mask_clears_bit3 in E; [congruence|reflexivity|reflexivity]. }
  destruct (Z.eqb_spec (Z.land sw 111) 33) as [E|_].
  { apply mask_clears_bit3 in E; [congruence|reflexivity|reflexivity]. }
  destruct (Z.eqb_spec (Z.land sw 111) 35) as [E|_].
  { apply mask_clears_bit3 in E; [congruence|reflexivity|reflexivity]. }
  destruct (Z.eqb_spec (Z.land sw 111) 39) as [E|_].
  { apply mask_clears_bit3 in E; [congruence|reflexivity|reflexivity]. }
  rewrite land_bit3, Hb. reflexivity.
Qed.

Lemma controlword_table (sw cw : Z) : cia402_table sw cw <-> cw = controlword sw.
Proof.
  split.
  - intros H. destruct H as [E|E|E|E|E|N1 N2 N3 N4 E]; unfold controlword.
    + rewrite E. reflexivity.
    + destruct (Z.eqb_spec (Z.land sw 79) 64) as [E'|_].
      { apply (f_equal (fun z => Z.testbit z 0)) in E, E'.
        rewrite Z.land_spec in E, E'. simpl in E, E'.
        rewrite andb_true_r in E, E'. congruence. }
      rewrite E. reflexivity.
    + destruct (Z.eqb_spec (Z.land sw 79) 64) as [E'|_].
      { apply (f_equal (fun z => Z.testbit z 0)) in E, E'.
        rewrite Z.land_spec in E, E'. simpl in E, E'.
        rewrite andb_true_r in E, E'. congruence. }
      rewrite E. reflexivity.
    + destruct (Z.eqb_spec (Z.land sw 79) 64) as [E'|_].
      { apply (f_equal (fun z => Z.testbit z 0)) in E, E'.
        rewrite Z.land_spec in E, E'. simpl in E, E'.
        rewrite andb_true_r in E, E'. congruence. }
      rewrite E. reflexivity.
    + symmetry. apply controlword_fault.
      rewrite land_bit3 in E. destruct (Z.testbit sw 3); [reflexivity|congruence].
    + destruct (Z.eqb_spec (Z.land sw 79) 64); [contradiction|].
      destruct (Z.eqb_spec (Z.land sw 111) 33); [contradiction|].
      destruct (Z.eqb_spec (Z.land sw 111) 35); [contradiction|].
      destruct (Z.eqb_spec (Z.land sw 111) 39); [contradiction|].
      rewrite E. reflexivity.
  - intros ->. unfold controlword.
    destruct (Z.eqb_spec (Z.land sw 79) 64) as [E1|N1]; [now apply row_switch_on_disabled|].
    destruct (Z.eqb_spec (Z.land sw 111) 33) as [E2|N2]; [now apply row_ready_to_switch_on|].
    destruct (Z.eqb_spec (Z.land sw 111) 35) as [E3|N3]; [now apply row_switched_on|].
    destruct (Z.eqb_spec (Z.land sw 111) 39) as [E4|N4]; [now apply row_operation_enabled|].
    destruct (Z.eqb_spec (Z.land sw 8) 0) as [E5|N5]; simpl.
    + now apply row_otherwise.
    + now apply row_fault.
Qed.

Lemma controlword_range (sw : Z) : 0 <= controlword sw <= 65535.
Proof.
  unfold controlword.
  repeat match goal with |- context [if ?b then _ else _] => destruct b end;
    unfold CW_SHUTDOWN, CW_SWITCH_ON, CW_ENABLE_OPERATION, CW_FAULT_RESET; lia.
Qed.

Lemma py_index_of_nat (len i n : nat) : py_index len (Z.of_nat i) = Ok n -> n = i /\ (i < len)%nat.
Proof.
  unfold py_index.
  destruct ((0 <=? Z.of_nat i) && (Z.of_nat i <? Z.of_nat len)) eqn:E1.
  - apply andb_true_iff in E1 as [_ H2]. apply Z.ltb_lt in H2.
    intros H; inversion H; subst. rewrite Nat2Z.id. lia.
  - destruct ((- Z.of_nat len <=? Z.of_nat i) && (Z.of_nat i <? 0)) eqn:E2; [|discriminate].
    apply andb_true_iff in E2 as [_ H2]. apply Z.ltb_lt in H2. lia.
Qed.

Lemma py_getitem_of_nat {A} (l : list A) (i : nat) (a : A) :
  py_getitem l (Z.of_nat i) = Ok a <-> l !! i = Some a.
Proof.
  split; [|apply py_getitem_nat].
  intros H. apply py_getitem_inv in H as (n & Hn & Hl).
  apply py_index_of_nat in Hn as [-> _]. exact Hl.
Qed.

Lemma py_setitem_of_nat {A} (l l' : list A) (i : nat) (a : A) :
  py_setitem l (Z.of_nat i) a = Ok l' <-> (i < length l)%nat /\ l' = <[i := a]> l.
Proof.
  split.
  - intros H. apply py_setitem_inv in H as (n & Hn & ->).
    apply py_index_of_nat in Hn as [-> Hlt]. auto.
  - intros [Hlt ->]. apply py_setitem_nat. exact Hlt.
Qed.

(** ** The per-slave control loop *)

Section ControlLoopFacts.

Variable libm_cos : float -> float.

Lemma control_slave_inv stride flag slaves now i acc c :
  control_slave libm_cos stride flag slaves now i acc = Ok c ->
  exists slave state state' cw tgt frame,
    slaves !! i = Some slave /\
    ct_states acc !! i = Some state /\
    axis_control libm_cos (now i) slave state = Ok (state', cw, tgt) /\
    ct_states c = <[i := state']> (ct_states acc) /\
    _write_csp_outputs cw tgt = Ok frame /\
    publish stride flag i slave state' (ct_shared acc) = Ok (ct_shared c) /\
    ct_frames c = ct_frames acc ++ [frame].
Proof.
  unfold control_slave. intros H.
  apply rbind_ok in H as (slave & Hs & H).
  apply rbind_ok in H as (state & Hst & H).
  apply rbind_ok in H as ([[state' cw] tgt] & Hax & H).
  apply rbind_ok in H as (states' & Hset & H).
  apply rbind_ok in H as (frame & Hw & H).
  apply rbind_ok in H as (shared' & Hp & H).
  inversion H; subst; clear H. simpl.
  apply py_getitem_of_nat in Hs, Hst.
  apply py_setitem_of_nat in Hset as [_ ->].
  exists slave, state, state', cw, tgt, frame. auto 10.
Qed.

Lemma write_csp_outputs_inv cw tgt frame :
  _write_csp_outputs cw tgt = Ok frame ->
  frame_controlword frame = cw /\ frame_target frame = tgt /\
  -2147483648 <= tgt <= 2147483647.
Proof.
  unfold _write_csp_outputs.
  destruct (_ && _) eqn:E; [|discriminate].
  intros H; inversion H; subst; simpl.
  repeat (apply andb_true_iff in E as [E ?]). lia.
Qed.

Lemma for_each_control_slave stride flag slaves now idxs :
  NoDup idxs ->
  forall acc c,
  for_each (control_slave libm_cos stride flag slaves now) idxs acc = Ok c ->
  length (ct_states c) = length (ct_states acc) /\
  (forall j, j ∉ idxs -> ct_states c !! j = ct_states acc !! j) /\
  exists frames,
    ct_frames c = ct_frames acc ++ frames /\
    length frames = length idxs /\
    forall k i frame, idxs !! k = Some i -> frames !! k = Some frame ->
      controlled_at libm_cos slaves now (ct_states acc) (ct_states c) i frame.
Proof.
  induction 1 as [|i idxs Hni Hnd IH]; intros acc c H; simpl in H.
  - inversion H; subst. split; [reflexivity|]. split; [reflexivity|].
    exists []. rewrite app_nil_r. split; [reflexivity|]. split; [reflexivity|].
    intros k i frame Hk. rewrite lookup_nil in Hk. discriminate.
  - apply rbind_ok in H as (acc1 & Hstep & Hrest).
    apply control_slave_inv in Hstep
      as (slave & state & state' & cw & tgt & frame & Hs & Hst & Hax & Hst1 & Hw & _ & Hf).
    apply IH in Hrest as (Hlen & Hout & frames & Hfr & Hflen & Hall).
    apply write_csp_outputs_inv in Hw as (Hcw & Htg & _).
    split; [rewrite Hlen, Hst1; apply length_insert|].
    split.
    + intros j Hj. rewrite Hout by (intros ?; apply Hj; right; assumption).
      rewrite Hst1. apply list_lookup_insert_ne. intros ->. apply Hj. left.
    + exists (frame :: frames). split.
      { rewrite Hfr, Hf, <- app_assoc. reflexivity. }
      split; [simpl; congruence|].
      intros [|k] j f Hk Hfk; simpl in Hk, Hfk.
      * inversion Hk; inversion Hfk; subst.
        exists slave, state, state'.
        repeat split; try assumption.
        rewrite Hout by exact Hni. rewrite Hst1.
        apply list_lookup_insert_eq. eapply lookup_lt_Some; exact Hst.
      * destruct (Hall k j f Hk Hfk) as (sl & st & st' & Hsl & Hb & Ha & Hafter).
        exists sl, st, st'. repeat split; try assumption.
        rewrite Hst1 in Hb.
        assert (Hne : i <> j).
        { intros ->. apply Hni. eapply list_elem_of_lookup_2; exact Hk. }
        rewrite list_lookup_insert_ne in Hb by exact Hne. exact Hb.
Qed.

Lemma axis_control_controlword now slave state state' cw tgt :
  axis_control libm_cos now slave state = Ok (state', cw, tgt) ->
  cw = controlword (_read_status_word slave).
Proof.
  unfold axis_control. simpl.
  destruct (trajectory state) as [traj|].
  - destruct (_ <? 50000).
    + intros H; inversion H; reflexivity.
    + intros H. apply rbind_ok in H as (t & _ & H). inversion H; reflexivity.
  - intros H; inversion H; reflexivity.
Qed.

(** The frames of a completed per-slave loop: one per slave, each with the
    controlword decoded from the statusword of that slave. *)
Lemma control_loop_controlwords stride flag slaves now num_slaves acc c :
  for_each (control_slave libm_cos stride flag slaves now) (seq 0 num_slaves) acc = Ok c ->
  ct_frames acc = [] ->
  length (ct_frames c) = num_slaves /\
  forall i frame, ct_frames c !! i = Some frame ->
    exists slave, slaves !! i = Some slave /\
      frame_controlword frame = controlword (_read_status_word slave).
Proof.
  intros H Hnil.
  apply for_each_control_slave in H as (_ & _ & frames & Hfr & Hlen & Hall);
    [|apply NoDup_seq].
  rewrite Hnil in Hfr. simpl in Hfr. subst frames.
  rewrite length_seq in Hlen. split; [exact Hlen|].
  intros i frame Hi.
  assert (Hlt : (i < num_slaves)%nat) by (rewrite <- Hlen; eapply lookup_lt_Some; exact Hi).
  destruct (Hall i i frame) as (slave & st & st' & Hs & _ & Hax & _).
  { rewrite lookup_seq. split; [reflexivity|exact Hlt]. }
  { exact Hi. }
  exists slave. split; [exact Hs|].
  eapply axis_control_controlword. exact Hax.
Qed.

End ControlLoopFacts.

(** ** C6: the controlword is decoded from the statusword of the cycle *)

Lemma cycle_frames libm_cos num_slaves cfg env loop shared r :
  cycle libm_cos num_slaves cfg env loop shared = Ok r ->
  is_running (cr_loop r) = true ->
  length (cr_frames r) = num_slaves /\
  forall i frame, cr_frames r !! i = Some frame ->
    exists slave, env_slaves_after env !! i = Some slave /\
      frame_controlword frame = controlword (_read_status_word slave).
Proof.
  unfold cycle. intros H Hrun.
  apply rbind_ok in H as (d & _ & H).
  destruct (negb (dr_running d)).
  { inversion H; subst. simpl in Hrun. discriminate. }
  apply rbind_ok in H as (c & Hc & H). inversion H; subst; clear H. simpl.
  unfold control_phase in Hc. apply rbind_ok in Hc as (states2 & _ & Hc).
  eapply control_loop_controlwords; [exact Hc|reflexivity].
Qed.

Lemma cycle_safe_frames libm_cos num_slaves thr cfg env loop shared r :
  cycle_safe libm_cos num_slaves thr cfg env loop shared = Ok r ->
  is_running (cr_loop r) = true ->
  length (cr_frames r) = num_slaves /\
  forall i frame, cr_frames r !! i = Some frame ->
    exists slave, env_slaves_after env !! i = Some slave /\
      frame_controlword frame = controlword (_read_status_word slave).
Proof.
  unfold cycle_safe. intros H Hrun.
  apply rbind_ok in H as (d & _ & H).
  destruct (negb (dr_running d)).
  { inversion H; subst. simpl in Hrun. discriminate. }
  apply rbind_ok in H as ([c flag] & Hc & H). inversion H; subst; clear H. simpl.
  unfold control_phase_safe in Hc.
  apply rbind_ok in Hc as ([states2 flag'] & _ & Hc).
  apply rbind_ok in Hc as (states3 & _ & Hc).
  apply rbind_ok in Hc as (c' & Hc & H). inversion H; subst; clear H.
  eapply control_loop_controlwords; [exact Hc|reflexivity].
Qed.

(** C6. In both loops the controlword written to a slave is a function of
    the statusword read from that slave in the same cycle: the cascade
    [0x0006] if [sw & 0x004F == 0x0040], else [0x0007] if
    [sw & 0x006F == 0x0021], else [0x000F] if [sw & 0x006F] is [0x0023] or
    [0x0027], else [0x0080] if [sw & 0x0008 != 0], else [0x000F]. The cascade
    agrees with the table of the specification read as a set of rows, and
    every statusword with bit 3 set yields Fault-Reset. *)
Theorem C6_controlword_decoding (libm_cos : float -> float) :
  (forall sw,
     controlword sw =
       if Z.land sw 0x004F =? 0x0040 then 0x0006
       else if Z.land sw 0x006F =? 0x0021 then 0x0007
       else if (Z.land sw 0x006F =? 0x0023) || (Z.land sw 0x006F =? 0x0027) then 0x000F
       else if negb (Z.land sw 0x0008 =? 0) then 0x0080
       else 0x000F) /\
  (forall sw cw, cia402_table sw cw <-> cw = controlword sw) /\
  (forall sw, Z.testbit sw 3 = true -> controlword sw = 0x0080) /\
  (forall num_slaves cfg env loop shared r,
     cycle libm_cos num_slaves cfg env loop shared = Ok r ->
     is_running (cr_loop r) = true ->
     length (cr_frames r) = num_slaves /\
     forall i frame, cr_frames r !! i = Some frame ->
       exists slave, env_slaves_after env !! i = Some slave /\
         frame_controlword frame = controlword (_read_status_word slave)) /\
  (forall num_slaves thr cfg env loop shared r,
     cycle_safe libm_cos num_slaves thr cfg env loop shared = Ok r ->
     is_running (cr_loop r) = true ->
     length (cr_frames r) = num_slaves /\
     forall i frame, cr_frames r !! i = Some frame ->
       exists slave, env_slaves_after env !! i = Some slave /\
         frame_controlword frame = controlword (_read_status_word slave)).
Proof.
  split; [|split; [|split; [|split]]].
  - intros sw. unfold controlword.
    destruct (Z.land sw 79 =? 64); [reflexivity|].
    destruct (Z.land sw 111 =? 33); [reflexivity|].
    destruct (Z.land sw 111 =? 35); [reflexivity|].
    destruct (Z.land sw 111 =? 39); reflexivity.
  - apply controlword_table.
  - apply controlword_fault.
  - apply cycle_frames.
  - apply cycle_safe_frames.
Qed.

(** ** The drain of the safe loop *)

Lemma do_set_origin_ok slaves states slave_idx slave st :
  py_getitem slaves slave_idx = Ok slave ->
  py_getitem states slave_idx = Ok st ->
  exists n, py_index (length states) slave_idx = Ok n /\
    do_set_origin slaves states slave_idx
      = Ok (<[n := set_origin (_read_actual_position slave) st]> states).
Proof.
  intros Hs Hst. unfold do_set_origin. rewrite Hs. simpl. rewrite Hst. simpl.
  destruct (py_getitem_setitem states slave_idx st
              (set_origin (_read_actual_position slave) st) Hst) as (n & Hn & Hset).
  exists n. split; [exact Hn|exact Hset].
Qed.

Lemma do_set_origin_trajectories slaves states slave_idx states' :
  do_set_origin slaves states slave_idx = Ok states' ->
  map trajectory states' = map trajectory states.
Proof.
  unfold do_set_origin. intros H.
  apply rbind_ok in H as (slave & _ & H).
  apply rbind_ok in H as (st & Hst & H).
  apply py_getitem_inv in Hst as (n & Hn & Hl).
  apply py_setitem_inv in H as (n' & Hn' & ->).
  rewrite Hn in Hn'. inversion Hn'; subst n'.
  rewrite list_fmap_insert. simpl.
  apply list_insert_id. rewrite list_lookup_fmap, Hl. reflexivity.
Qed.

Lemma do_set_axis_trajectories states slave_idx value states' :
  do_set_axis states slave_idx value = Ok states' ->
  map trajectory states' = map trajectory states.
Proof.
  unfold do_set_axis. intros H.
  apply rbind_ok in H as (st & Hst & H).
  apply py_getitem_inv in Hst as (n & Hn & Hl).
  apply py_setitem_inv in H as (n' & Hn' & ->).
  rewrite Hn in Hn'. inversion Hn'; subst n'.
  rewrite list_fmap_insert. simpl.
  apply list_insert_id. rewrite list_lookup_fmap, Hl. reflexivity.
Qed.

(** The drain never touches a trajectory. *)
Lemma drain_safe_trajectories slaves queue :
  forall states flag cmds d,
  drain_safe slaves queue states flag cmds = Ok d ->
  map trajectory (dr_states d) = map trajectory states.
Proof.
  induction queue as [|[slave_idx cmd] queue IH]; intros states flag cmds d H; simpl in H.
  - inversion H; reflexivity.
  - destruct cmd; try (apply IH in H; exact H).
    + inversion H; reflexivity.
    + apply rbind_ok in H as (states' & Hax & H).
      apply IH in H. rewrite H. eapply do_set_axis_trajectories; exact Hax.
    + apply rbind_ok in H as (states' & Hor & H).
      apply IH in H. rewrite H. eapply do_set_origin_trajectories; exact Hor.
    + destruct flag; apply IH in H; exact H.
Qed.

(** While the flag is up and nothing lowers it, the drain keeps the flag and
    drops every [MOVE_TO_MM]. *)
Lemma drain_safe_sticky slaves queue :
  forall states cmds d,
  forallb (fun item => negb (lowers_sync_error (snd item))) queue = true ->
  drain_safe slaves queue states true cmds = Ok d ->
  dr_sync_error d = true /\ dr_commands d = cmds.
Proof.
  induction queue as [|[slave_idx cmd] queue IH]; intros states cmds d Hq H; simpl in H.
  - inversion H; auto.
  - simpl in Hq. apply andb_true_iff in Hq as [Hc Hq].
    destruct cmd; simpl in Hc; try discriminate; try (eapply IH; eassumption).
    + inversion H; auto.
    + apply rbind_ok in H as (states' & _ & H). eapply IH; eassumption.
Qed.

(** The flag can only go down during a drain. *)
Lemma drain_safe_flag_down slaves queue :
  forall states cmds d,
  drain_safe slaves queue states false cmds = Ok d -> dr_sync_error d = false.
Proof.
  induction queue as [|[slave_idx cmd] queue IH]; intros states cmds d H; simpl in H.
  - inversion H; auto.
  - destruct cmd; try (eapply IH; eassumption).
    + inversion H; auto.
    + apply rbind_ok in H as (states' & _ & H). eapply IH; eassumption.
    + apply rbind_ok in H as (states' & _ & H). eapply IH; eassumption.
Qed.

(** ** C2: [SET_ORIGIN] lowers the sync-error flag *)

(** C2. In the safe loop, draining a [SET_ORIGIN] for a slave latches the
    offset and the target of that slave to the actual position of the input
    image and continues the drain with the sync-error flag lowered, whatever
    it was; a [MOVE_TO_MM] that follows is therefore kept even when the flag
    was up and no [RESET_SYNC_ERROR] was sent. *)
Theorem C2_set_origin_lowers_sync_error
    (slaves : list Slave) (states : list MotorState) (slave_idx : Z)
    (slave : Slave) (st : MotorState) :
  py_getitem slaves slave_idx = Ok slave ->
  py_getitem states slave_idx = Ok st ->
  exists n st',
    py_index (length states) slave_idx = Ok n /\
    st' = set_origin (_read_actual_position slave) st /\
    offset st' = _read_actual_position slave /\
    target_pulse st' = _read_actual_position slave /\
    (<[n := st']> states) !! n = Some st' /\
    (forall flag cmds queue,
       drain_safe slaves ((slave_idx, SET_ORIGIN) :: queue) states flag cmds
       = drain_safe slaves queue (<[n := st']> states) false cmds) /\
    (forall j target_mm,
       drain_safe slaves [(slave_idx, SET_ORIGIN); (j, MOVE_TO_MM target_mm)] states true []
       = Ok {| dr_states := <[n := st']> states; dr_running := true;
               dr_sync_error := false; dr_commands := [(j, target_mm)] |}).
Proof.
  intros Hs Hst.
  destruct (do_set_origin_ok slaves states slave_idx slave st Hs Hst) as (n & Hn & Hor).
  exists n, (set_origin (_read_actual_position slave) st).
  split; [exact Hn|]. split; [reflexivity|].
  split; [reflexivity|]. split; [reflexivity|].
  split.
  { apply list_lookup_insert_eq. eapply py_index_lt; exact Hn. }
  split.
  - intros flag cmds queue. simpl. rewrite Hor. reflexivity.
  - intros j target_mm. simpl. rewrite Hor. reflexivity.
Qed.

Lemma C2_witness :
  let slaves := [ {| input_status := 0x0027; input_actual := 1200 |};
                  {| input_status := 0x0027; input_actual := -340 |} ] in
  let states := [initial_motor_state; initial_motor_state] in
  py_getitem slaves 1 = Ok {| input_status := 0x0027; input_actual := -340 |} /\
  py_getitem states 1 = Ok initial_motor_state /\
  drain_safe slaves [(1, SET_ORIGIN); (0, MOVE_TO_MM 10)] states true []
  = Ok {| dr_states := [initial_motor_state; set_origin (-340) initial_motor_state];
          dr_running := true; dr_sync_error := false;
          dr_commands := [(0, 10%float)] |}.
Proof.
  intros slaves states.
  assert (Hs : py_getitem slaves 1 = Ok {| input_status := 0x0027; input_actual := -340 |})
    by reflexivity.
  assert (Hst : py_getitem states 1 = Ok initial_motor_state) by reflexivity.
  split; [exact Hs|]. split; [exact Hst|].
  destruct (C2_set_origin_lowers_sync_error slaves states 1 _ _ Hs Hst)
    as (n & st' & Hn & -> & _ & _ & _ & _ & Hmove).
  vm_compute in Hn. inversion Hn; subst n.
  rewrite Hmove. reflexivity.
Defined.

(** ** Loops over [range(num_slaves)] *)

Lemma map_result_Forall2 {A B} (f : A -> result B) (l : list A) (l' : list B) :
  map_result f l = Ok l' <-> Forall2 (fun a b => f a = Ok b) l l'.
Proof.
  revert l'. induction l as [|a l IH]; intros l'; simpl.
  - split.
    + intros H; inversion H; constructor.
    + intros H; inversion H; reflexivity.
  - split.
    + intros H. apply rbind_ok in H as (b & Hb & H).
      apply rbind_ok in H as (bs & Hbs & H). inversion H; subst.
      constructor; [exact Hb|]. apply IH. exact Hbs.
    + intros H. inversion H as [|? b ? bs Hb Hbs]; subst.
      rewrite Hb. simpl. apply IH in Hbs. rewrite Hbs. reflexivity.
Qed.

Lemma map_result_total {A B} (f : A -> result B) (g : A -> B) (l : list A) :
  (forall a, a ∈ l -> f a = Ok (g a)) -> map_result f l = Ok (map g l).
Proof.
  intros H. apply map_result_Forall2.
  induction l as [|a l IH]; simpl; constructor.
  - apply H. left.
  - apply IH. intros b Hb. apply H. right. exact Hb.
Qed.

(** A loop whose body rewrites entry [i] of the list, and only that entry. *)
Lemma for_each_pointwise {A} (body : nat -> list A -> result (list A))
    (upd : nat -> A -> A) (ok : nat -> Prop) :
  (forall i l a, ok i -> l !! i = Some a -> body i l = Ok (<[i := upd i a]> l)) ->
  forall idxs l,
    NoDup idxs -> (forall i, i ∈ idxs -> ok i /\ (i < length l)%nat) ->
    exists l', for_each body idxs l = Ok l' /\
      length l' = length l /\
      forall j a, l !! j = Some a ->
        l' !! j = Some (if bool_decide (j ∈ idxs) then upd j a else a).
Proof.
  intros Hbody. induction idxs as [|i idxs IH]; intros l Hnd Hin; cbn [for_each].
  - exists l. split; [reflexivity|]. split; [reflexivity|].
    intros j a Hj. rewrite bool_decide_eq_false_2 by (apply not_elem_of_nil). exact Hj.
  - apply NoDup_cons in Hnd as [Hni Hnd].
    destruct (Hin i) as [Hok Hlt]; [left|].
    destruct (lookup_lt_is_Some_2 l i Hlt) as [a Ha].
    rewrite (Hbody i l a Hok Ha). cbn [rbind].
    destruct (IH (<[i := upd i a]> l) Hnd) as (l' & Hl' & Hlen & Hlook).
    { intros j Hj. rewrite length_insert. apply Hin. right. exact Hj. }
    exists l'. split; [exact Hl'|]. split; [rewrite Hlen; apply length_insert|].
    intros j b Hj. destruct (decide (j = i)) as [->|Hne].
    + rewrite Ha in Hj. inversion Hj; subst b.
      rewrite (Hlook i (upd i a)) by (apply list_lookup_insert_eq; exact Hlt).
      rewrite bool_decide_eq_false_2 by exact Hni.
      rewrite bool_decide_eq_true_2 by left. reflexivity.
    + rewrite (Hlook j b) by (rewrite list_lookup_insert_ne by auto; exact Hj).
      f_equal. destruct (bool_decide (j ∈ idxs)) eqn:E.
      * apply bool_decide_eq_true in E.
        rewrite bool_decide_eq_true_2 by (right; exact E). reflexivity.
      * apply bool_decide_eq_false in E.
        rewrite bool_decide_eq_false_2; [reflexivity|].
        intros Hc. apply elem_of_cons in Hc as [?|?]; contradiction.
Qed.

Lemma elem_of_seq_0 (n i : nat) : i ∈ seq 0 n <-> (i < n)%nat.
Proof. rewrite elem_of_seq. lia. Qed.

(** ** The fault guard *)

Lemma fault_detected_in_false idxs slaves states b :
  all_idle states ->
  fault_detected_in idxs slaves states = Ok b -> b = false.
Proof.
  intros Hidle. induction idxs as [|i idxs IH]; simpl; intros H.
  - inversion H; reflexivity.
  - apply rbind_ok in H as (slave & _ & H).
    destruct (negb _); [|exact (IH H)].
    apply rbind_ok in H as (st & Hst & H).
    apply py_getitem_of_nat in Hst.
    unfold all_idle in Hidle. rewrite Forall_lookup in Hidle.
    rewrite (Hidle i st Hst) in H.
    rewrite bool_decide_eq_false_2 in H by (intros Hc; apply Hc; reflexivity).
    exact (IH H).
Qed.

Lemma fault_detected_in_spec idxs slaves states :
  (forall i, i ∈ idxs -> (i < length slaves)%nat /\ (i < length states)%nat) ->
  exists b, fault_detected_in idxs slaves states = Ok b /\
    (b = true <-> exists i slave st, i ∈ idxs /\ slaves !! i = Some slave /\
                    states !! i = Some st /\
                    fault_bit (_read_status_word slave) = true /\ is_moving st = true).
Proof.
  induction idxs as [|i idxs IH]; intros Hin; simpl.
  - exists false. split; [reflexivity|]. split; [discriminate|].
    intros (i & ? & ? & Hi & _). apply elem_of_nil in Hi. contradiction.
  - destruct (Hin i) as [Hsl Hst]; [left|].
    destruct (lookup_lt_is_Some_2 slaves i Hsl) as [slave Hslave].
    destruct (lookup_lt_is_Some_2 states i Hst) as [st Hstate].
    rewrite (py_getitem_nat _ _ _ Hslave). simpl.
    destruct IH as (b & Hb & Hiff); [intros j Hj; apply Hin; right; exact Hj|].
    fold (fault_bit (_read_status_word slave)).
    destruct (fault_bit (_read_status_word slave)) eqn:Ef.
    + rewrite (py_getitem_nat _ _ _ Hstate). simpl.
      fold (is_moving st). destruct (is_moving st) eqn:Em.
      * exists true. split; [reflexivity|]. split; [|reflexivity].
        intros _. exists i, slave, st. repeat split; try assumption. left.
      * exists b. split; [exact Hb|]. rewrite Hiff. split.
        { intros (j & sl & s & Hj & ?). exists j, sl, s. split; [right; exact Hj|assumption]. }
        { intros (j & sl & s & Hj & Hsl' & Hst' & Hf & Hm).
          apply elem_of_cons in Hj as [->|Hj].
          - rewrite Hstate in Hst'. inversion Hst'; subst. congruence.
          - exists j, sl, s. auto. }
    + exists b. split; [exact Hb|]. rewrite Hiff. split.
      { intros (j & sl & s & Hj & ?). exists j, sl, s. split; [right; exact Hj|assumption]. }
      { intros (j & sl & s & Hj & Hsl' & Hst' & Hf & Hm).
        apply elem_of_cons in Hj as [->|Hj].
        - rewrite Hslave in Hsl'. inversion Hsl'; subst. congruence.
        - exists j, sl, s. auto. }
Qed.

Lemma fault_stop_axis_eq slaves i states st slave :
  slaves !! i = Some slave -> states !! i = Some st ->
  fault_stop_axis slaves i states
  = Ok (<[i := stopped (_read_actual_position slave) st]> states).
Proof.
  intros Hsl Hst. unfold fault_stop_axis, stopped.
  rewrite (py_getitem_nat _ _ _ Hst). simpl.
  destruct (trajectory st).
  - rewrite (py_getitem_nat _ _ _ Hsl). simpl.
    apply py_setitem_nat. eapply lookup_lt_Some; exact Hst.
  - rewrite list_insert_id by exact Hst. reflexivity.
Qed.

(** The emergency stop of the fault guard, axis by axis. *)
Lemma fault_stop_all num_slaves slaves states :
  length states = num_slaves -> (num_slaves <= length slaves)%nat ->
  exists states',
    for_each (fault_stop_axis slaves) (seq 0 num_slaves) states = Ok states' /\
    length states' = num_slaves /\
    forall j st slave, states !! j = Some st -> slaves !! j = Some slave ->
      states' !! j = Some (stopped (_read_actual_position slave) st).
Proof.
  intros Hlen Hsl.
  set (upd := fun (i : nat) (st : MotorState) =>
                match slaves !! i with
                | Some slave => stopped (_read_actual_position slave) st
                | None => st
                end).
  destruct (for_each_pointwise (fault_stop_axis slaves) upd
              (fun i => (i < length slaves)%nat)) with (idxs := seq 0 num_slaves) (l := states)
    as (states' & Hfor & Hlen' & Hlook).
  - intros i l a Hi Ha. destruct (lookup_lt_is_Some_2 slaves i Hi) as [slave Hslave].
    rewrite (fault_stop_axis_eq slaves i l a slave Hslave Ha).
    unfold upd. rewrite Hslave. reflexivity.
  - apply NoDup_seq.
  - intros i Hi. apply elem_of_seq_0 in Hi. lia.
  - exists states'. split; [exact Hfor|]. split; [congruence|].
    intros j st slave Hst Hslave. rewrite (Hlook j st Hst).
    rewrite bool_decide_eq_true_2.
    + unfold upd. rewrite Hslave. reflexivity.
    + apply elem_of_seq_0. rewrite <- Hlen. eapply lookup_lt_Some; exact Hst.
Qed.

Lemma fault_guard_spec num_slaves slaves states :
  length states = num_slaves -> (num_slaves <= length slaves)%nat ->
  exists states',
    fault_guard num_slaves slaves states = Ok states' /\
    length states' = num_slaves /\
    (fault_while_moving slaves states ->
     forall j st slave, states !! j = Some st -> slaves !! j = Some slave ->
       states' !! j = Some (stopped (_read_actual_position slave) st)) /\
    (all_idle states -> states' = states).
Proof.
  intros Hlen Hsl. unfold fault_guard.
  destruct (fault_detected_in_spec (seq 0 num_slaves) slaves states) as (b & Hb & Hiff).
  { intros i Hi. apply elem_of_seq_0 in Hi. lia. }
  rewrite Hb. cbn [rbind].
  destruct (fault_stop_all num_slaves slaves states Hlen Hsl) as (states' & Hfor & Hlen' & Hlook).
  destruct b.
  - exists states'. split; [exact Hfor|]. split; [exact Hlen'|]. split.
    + intros _. exact Hlook.
    + intros Hidle. apply fault_detected_in_false in Hb; [discriminate|exact Hidle].
  - exists states. split; [reflexivity|]. split; [exact Hlen|]. split; [|reflexivity].
    intros (i & slave & st & Hslave & Hst & Hf & Hm). exfalso.
    assert (Ht : false = true); [|discriminate].
    apply Hiff. exists i, slave, st. repeat split; try assumption.
    apply elem_of_seq_0. rewrite <- Hlen. eapply lookup_lt_Some; exact Hst.
Qed.

Lemma stopped_idle current_pos st : trajectory (stopped current_pos st) = None.
Proof.
  unfold stopped. destruct (trajectory st) eqn:E; [reflexivity|exact E].
Qed.

Lemma stopped_target current_pos st :
  is_moving st = true -> target_pulse (stopped current_pos st) = current_pos.
Proof.
  unfold is_moving, stopped. intros H. apply bool_decide_eq_true in H.
  destruct (trajectory st); [reflexivity|contradiction].
Qed.

Lemma stopped_not_moving current_pos st :
  is_moving st = false -> stopped current_pos st = st.
Proof.
  unfold is_moving, stopped. intros H. apply bool_decide_eq_false in H.
  destruct (trajectory st) eqn:E; [|reflexivity].
  exfalso. apply H. discriminate.
Qed.

(** ** The control of an idle axis *)

Lemma axis_control_idle libm_cos now slave st :
  trajectory st = None ->
  axis_control libm_cos now slave st
  = Ok (set_last_status (_read_status_word slave) st,
        controlword (_read_status_word slave), target_pulse st).
Proof.
  intros H. unfold axis_control. simpl. rewrite H. reflexivity.
Qed.

(** The per-slave loop never starts a trajectory: an axis leaves it with the
    trajectory it had, or with none. *)
Lemma axis_control_trajectory libm_cos now slave st st' cw tgt :
  axis_control libm_cos now slave st = Ok (st', cw, tgt) ->
  (trajectory st' = None \/ trajectory st' = trajectory st) /\
  target_pulse st' = tgt /\ offset st' = offset st /\ axis st' = axis st.
Proof.
  unfold axis_control. simpl.
  destruct (trajectory st) as [traj|] eqn:E.
  - destruct (_ <? 50000).
    + intros H; inversion H; subst; simpl. auto.
    + intros H. apply rbind_ok in H as (t & _ & H). inversion H; subst; simpl. auto.
  - intros H; inversion H; subst; simpl. auto.
Qed.

(** After a per-slave loop that started with every axis idle, every axis
    has kept its target and the frame of the axis carries it. *)
Lemma control_loop_idle libm_cos stride flag slaves now num_slaves states shared c :
  all_idle states ->
  for_each (control_slave libm_cos stride flag slaves now) (seq 0 num_slaves)
    {| ct_states := states; ct_shared := shared; ct_frames := [] |} = Ok c ->
  all_idle (ct_states c) /\
  forall j st, (j < num_slaves)%nat -> states !! j = Some st ->
    exists st' frame, ct_states c !! j = Some st' /\
      target_pulse st' = target_pulse st /\
      ct_frames c !! j = Some frame /\ frame_target frame = target_pulse st.
Proof.
  intros Hidle H.
  apply for_each_control_slave in H as (Hlen & Hout & frames & Hfr & Hflen & Hall);
    [|apply NoDup_seq].
  simpl in Hfr, Hlen, Hout, Hall. subst frames. rewrite length_seq in Hflen.
  unfold all_idle in Hidle. rewrite Forall_lookup in Hidle.
  assert (Hin : forall j st, (j < num_slaves)%nat -> states !! j = Some st ->
            exists frame slave, ct_frames c !! j = Some frame /\
              ct_states c !! j = Some (set_last_status (_read_status_word slave) st) /\
              frame_target frame = target_pulse st).
  { intros j st Hj Hst.
    destruct (lookup_lt_is_Some_2 (ct_frames c) j) as [frame Hframe]; [lia|].
    destruct (Hall j j frame) as (slave & st0 & st' & Hs & Hb & Hax & Hafter).
    { rewrite lookup_seq. split; [reflexivity|exact Hj]. }
    { exact Hframe. }
    rewrite Hst in Hb. inversion Hb; subst st0.
    rewrite (axis_control_idle _ _ _ _ (Hidle j st Hst)) in Hax.
    inversion Hax; subst. exists frame, slave. auto. }
  split.
  - unfold all_idle. apply Forall_lookup. intros j st' Hst'.
    destruct (decide (j < num_slaves)%nat) as [Hj|Hj].
    + assert (Hlt : (j < length states)%nat)
        by (rewrite <- Hlen; eapply lookup_lt_Some; exact Hst').
      destruct (lookup_lt_is_Some_2 states j Hlt) as [st Hst].
      destruct (Hin j st Hj Hst) as (frame & slave & _ & Hnew & _).
      rewrite Hst' in Hnew. inversion Hnew; subst. simpl. exact (Hidle j st Hst).
    + rewrite Hout in Hst' by (rewrite elem_of_seq_0; exact Hj).
      exact (Hidle j st' Hst').
  - intros j st Hj Hst.
    destruct (Hin j st Hj Hst) as (frame & slave & Hframe & Hnew & Htg).
    eexists _, frame. split; [exact Hnew|]. simpl. auto.
Qed.

(** ** The sync-error guard *)

Lemma read_positions_spec num_slaves slaves :
  (num_slaves <= length slaves)%nat ->
  exists positions,
    read_positions num_slaves slaves = Ok positions /\
    length positions = num_slaves /\
    forall i slave, (i < num_slaves)%nat -> slaves !! i = Some slave ->
      positions !! i = Some (_read_actual_position slave).
Proof.
  intros Hsl. exists (map _read_actual_position (take num_slaves slaves)).
  assert (Hlen : length (map _read_actual_position (take num_slaves slaves)) = num_slaves).
  { rewrite length_map, length_take. lia. }
  split; [|split; [exact Hlen|]].
  - unfold read_positions. apply map_result_Forall2.
    apply Forall2_same_length_lookup_2.
    + rewrite length_seq, Hlen. reflexivity.
    + intros i n p Hn Hp. apply lookup_seq in Hn as [-> Hi]. simpl.
      rewrite list_lookup_fmap, lookup_take_lt in Hp by exact Hi.
      destruct (slaves !! i) as [slave|] eqn:E; [|discriminate].
      inversion Hp; subst. rewrite (py_getitem_nat _ _ _ E). reflexivity.
  - intros i slave Hi Hs.
    rewrite list_lookup_fmap, lookup_take_lt, Hs by exact Hi. reflexivity.
Qed.

Lemma relative_positions_spec num_slaves positions states :
  length positions = num_slaves -> length states = num_slaves ->
  exists rel,
    relative_positions_of num_slaves positions states = Ok rel /\
    length rel = num_slaves /\
    forall i p st, positions !! i = Some p -> states !! i = Some st ->
      rel !! i = Some (p - offset st).
Proof.
  intros Hp Hs. exists (zip_with (fun p st => p - offset st) positions states).
  assert (Hlen : length (zip_with (fun p st => p - offset st) positions states) = num_slaves).
  { rewrite length_zip_with. lia. }
  split; [|split; [exact Hlen|]].
  - unfold relative_positions_of. apply map_result_Forall2.
    apply Forall2_same_length_lookup_2.
    + rewrite length_seq, Hlen. reflexivity.
    + intros i n r Hn Hr. apply lookup_seq in Hn as [-> Hi]. simpl.
      apply lookup_zip_with_Some in Hr as (p & st & -> & Hpi & Hsi).
      rewrite (py_getitem_nat _ _ _ Hpi). simpl.
      rewrite (py_getitem_nat _ _ _ Hsi). reflexivity.
  - intros i p st Hpi Hsi. apply lookup_zip_with_Some. eauto.
Qed.

Lemma any_moving_in_spec idxs states :
  (forall i, i ∈ idxs -> (i < length states)%nat) ->
  exists b, any_moving_in idxs states = Ok b /\
    (b = true <-> exists i st, i ∈ idxs /\ states !! i = Some st /\ is_moving st = true).
Proof.
  induction idxs as [|i idxs IH]; intros Hin; simpl.
  - exists false. split; [reflexivity|]. split; [discriminate|].
    intros (i & ? & Hi & _). apply elem_of_nil in Hi. contradiction.
  - destruct (lookup_lt_is_Some_2 states i) as [st Hst]; [apply Hin; left|].
    rewrite (py_getitem_nat _ _ _ Hst). simpl.
    fold (is_moving st). destruct (is_moving st) eqn:Em.
    + exists true. split; [reflexivity|]. split; [|reflexivity].
      intros _. exists i, st. repeat split; try assumption. left.
    + destruct IH as (b & Hb & Hiff); [intros j Hj; apply Hin; right; exact Hj|].
      exists b. split; [exact Hb|]. rewrite Hiff. split.
      * intros (j & s & Hj & ?). exists j, s. split; [right; exact Hj|assumption].
      * intros (j & s & Hj & Hs & Hm). apply elem_of_cons in Hj as [->|Hj].
        { rewrite Hst in Hs. inversion Hs; subst. congruence. }
        { exists j, s. auto. }
Qed.

Lemma sync_error_in_spec idxs rel thr :
  (forall i, i ∈ idxs -> (i + 1 < length rel)%nat) ->
  exists b, sync_error_in idxs rel thr = Ok b /\
    (b = true <-> exists i a b', i ∈ idxs /\ rel !! i = Some a /\
                    rel !! (i + 1)%nat = Some b' /\ thr < Z.abs (a - b')).
Proof.
  induction idxs as [|i idxs IH]; intros Hin; simpl.
  - exists false. split; [reflexivity|]. split; [discriminate|].
    intros (i & ? & ? & Hi & _). apply elem_of_nil in Hi. contradiction.
  - assert (Hi : (i + 1 < length rel)%nat) by (apply Hin; left).
    destruct (lookup_lt_is_Some_2 rel i) as [a Ha]; [lia|].
    destruct (lookup_lt_is_Some_2 rel (i + 1)) as [b' Hb']; [lia|].
    rewrite (py_getitem_nat _ _ _ Ha). simpl.
    replace (Z.of_nat i + 1) with (Z.of_nat (i + 1)) by lia.
    rewrite (py_getitem_nat _ _ _ Hb'). simpl.
    destruct (Z.ltb_spec thr (Z.abs (a - b'))) as [Hlt|Hge].
    + exists true. split; [reflexivity|]. split; [|reflexivity].
      intros _. exists i, a, b'. repeat split; try assumption. left.
    + destruct IH as (b & Hb & Hiff); [intros j Hj; apply Hin; right; exact Hj|].
      exists b. split; [exact Hb|]. rewrite Hiff. split.
      * intros (j & x & y & Hj & ?). exists j, x, y. split; [right; exact Hj|assumption].
      * intros (j & x & y & Hj & Hx & Hy & Hxy). apply elem_of_cons in Hj as [->|Hj].
        { rewrite Ha in Hx. rewrite Hb' in Hy. inversion Hx; inversion Hy; subst. lia. }
        { exists j, x, y. auto. }
Qed.

Lemma sync_stop_axis_eq positions j states st p :
  positions !! j = Some p -> states !! j = Some st ->
  sync_stop_axis positions j states = Ok (<[j := stopped p st]> states).
Proof.
  intros Hp Hst. unfold sync_stop_axis, stopped.
  rewrite (py_getitem_nat _ _ _ Hst). simpl.
  destruct (trajectory st).
  - rewrite (py_getitem_nat _ _ _ Hp). simpl.
    apply py_setitem_nat. eapply lookup_lt_Some; exact Hst.
  - rewrite list_insert_id by exact Hst. reflexivity.
Qed.

Lemma sync_stop_all num_slaves positions states :
  length states = num_slaves -> length positions = num_slaves ->
  exists states',
    for_each (sync_stop_axis positions) (seq 0 num_slaves) states = Ok states' /\
    length states' = num_slaves /\
    forall j st p, states !! j = Some st -> positions !! j = Some p ->
      states' !! j = Some (stopped p st).
Proof.
  intros Hlen Hpl.
  set (upd := fun (i : nat) (st : MotorState) =>
                match positions !! i with
                | Some p => stopped p st
                | None => st
                end).
  destruct (for_each_pointwise (sync_stop_axis positions) upd
              (fun i => (i < length positions)%nat)) with (idxs := seq 0 num_slaves) (l := states)
    as (states' & Hfor & Hlen' & Hlook).
  - intros i l a Hi Ha. destruct (lookup_lt_is_Some_2 positions i Hi) as [p Hp].
    rewrite (sync_stop_axis_eq positions i l a p Hp Ha).
    unfold upd. rewrite Hp. reflexivity.
  - apply NoDup_seq.
  - intros i Hi. apply elem_of_seq_0 in Hi. lia.
  - exists states'. split; [exact Hfor|]. split; [congruence|].
    intros j st p Hst Hp. rewrite (Hlook j st Hst).
    rewrite bool_decide_eq_true_2.
    + unfold upd. rewrite Hp. reflexivity.
    + apply elem_of_seq_0. rewrite <- Hlen. eapply lookup_lt_Some; exact Hst.
Qed.

(** The guard on a bus of at least two slaves with the flag down: it either
    trips, stopping every axis, or changes nothing; it trips when an axis is
    moving and a pair is out of sync. *)
Lemma sync_guard_spec num_slaves thr slaves states :
  length states = num_slaves -> (num_slaves <= length slaves)%nat ->
  (2 <= num_slaves)%nat ->
  exists states' flag,
    sync_guard num_slaves thr slaves states false = Ok (states', flag) /\
    length states' = num_slaves /\
    ((flag = true /\
      forall j st slave, states !! j = Some st -> slaves !! j = Some slave ->
        states' !! j = Some (stopped (_read_actual_position slave) st)) \/
     (flag = false /\ states' = states)) /\
    (any_moving states -> (exists i, out_of_sync thr slaves states i) -> flag = true).
Proof.
  intros Hlen Hsl H2. unfold sync_guard.
  replace (2 <=? num_slaves)%nat with true by (symmetry; apply Nat.leb_le; exact H2).
  cbn [andb negb].
  destruct (read_positions_spec num_slaves slaves Hsl) as (positions & Hpos & Hpl & Hplook).
  rewrite Hpos. cbn [rbind].
  destruct (relative_positions_spec num_slaves positions states Hpl Hlen)
    as (rel & Hrel & Hrl & Hrlook).
  rewrite Hrel. cbn [rbind].
  destruct (any_moving_in_spec (seq 0 num_slaves) states) as (mv & Hmv & Hmviff).
  { intros i Hi. apply elem_of_seq_0 in Hi. lia. }
  rewrite Hmv. cbn [rbind].
  destruct (sync_error_in_spec (seq 0 (num_slaves - 1)) rel thr) as (tr & Htr & Htriff).
  { intros i Hi. apply elem_of_seq_0 in Hi. lia. }
  destruct (sync_stop_all num_slaves positions states Hlen Hpl)
    as (states' & Hfor & Hlen' & Hlook).
  assert (Hmoving : any_moving states -> mv = true).
  { intros (i & st & Hst & Hm). apply Hmviff. exists i, st.
    repeat split; try assumption.
    apply elem_of_seq_0. rewrite <- Hlen. eapply lookup_lt_Some; exact Hst. }
  assert (Htripped : (exists i, out_of_sync thr slaves states i) -> tr = true).
  { intros (i & s1 & s2 & st1 & st2 & Hs1 & Hs2 & Hst1 & Hst2 & Hgt).
    assert (Hi : (i + 1 < num_slaves)%nat)
      by (rewrite <- Hlen; eapply lookup_lt_Some; exact Hst2).
    apply Htriff. exists i, (_read_actual_position s1 - offset st1),
      (_read_actual_position s2 - offset st2).
    split; [apply elem_of_seq_0; lia|].
    split; [apply Hrlook; [apply Hplook; [lia|exact Hs1]|exact Hst1]|].
    split; [apply Hrlook; [apply Hplook; [lia|exact Hs2]|exact Hst2]|].
    exact Hgt. }
  destruct mv.
  - rewrite Htr. cbn [rbind]. destruct tr.
    + rewrite Hfor. cbn [rbind]. exists states', true.
      split; [reflexivity|]. split; [exact Hlen'|]. split; [|reflexivity].
      left. split; [reflexivity|].
      intros j st slave Hst Hslave. apply Hlook; [exact Hst|].
      apply Hplook; [|exact Hslave].
      rewrite <- Hlen. eapply lookup_lt_Some; exact Hst.
    + exists states, false. split; [reflexivity|]. split; [exact Hlen|].
      split; [right; split; reflexivity|].
      intros _ Ht. apply Htripped in Ht. discriminate.
  - exists states, false. split; [reflexivity|]. split; [exact Hlen|].
    split; [right; split; reflexivity|].
    intros Hm _. apply Hmoving in Hm. discriminate.
Qed.

(** ** Emergency stops stop every axis *)

Lemma stop_all_lookup slaves states j st slave :
  states !! j = Some st -> slaves !! j = Some slave ->
  stop_all slaves states !! j = Some (stopped (_read_actual_position slave) st).
Proof.
  intros Hst Hs. unfold stop_all. apply lookup_zip_with_Some. eauto.
Qed.

Lemma stop_all_length slaves states :
  (length states <= length slaves)%nat -> length (stop_all slaves states) = length states.
Proof. intros H. unfold stop_all. rewrite length_zip_with. lia. Qed.

Lemma stop_all_idle slaves states : all_idle (stop_all slaves states).
Proof.
  unfold all_idle, stop_all. apply Forall_lookup. intros j st Hj.
  apply lookup_zip_with_Some in Hj as (slave & st0 & -> & _ & _).
  apply stopped_idle.
Qed.

Lemma stop_all_eq slaves states states' :
  (length states <= length slaves)%nat -> length states' = length states ->
  (forall j st slave, states !! j = Some st -> slaves !! j = Some slave ->
     states' !! j = Some (stopped (_read_actual_position slave) st)) ->
  states' = stop_all slaves states.
Proof.
  intros Hsl Hlen H. apply list_eq. intros j.
  destruct (states !! j) as [st|] eqn:Hst.
  - assert (Hj : (j < length slaves)%nat).
    { apply lookup_lt_Some in Hst. lia. }
    destruct (lookup_lt_is_Some_2 slaves j Hj) as [slave Hs].
    rewrite (H j st slave Hst Hs). symmetry. apply stop_all_lookup; assumption.
  - apply lookup_ge_None in Hst.
    rewrite (lookup_ge_None_2 states') by lia.
    symmetry. apply lookup_ge_None_2. rewrite stop_all_length; lia.
Qed.

Lemma stop_all_of_idle slaves states :
  (length states <= length slaves)%nat -> all_idle states -> stop_all slaves states = states.
Proof.
  intros Hsl Hidle. symmetry. apply stop_all_eq; [exact Hsl|reflexivity|].
  intros j st slave Hst _. rewrite Hst. f_equal. symmetry.
  unfold all_idle in Hidle. rewrite Forall_lookup in Hidle.
  unfold stopped. rewrite (Hidle j st Hst). reflexivity.
Qed.

(** The fault guard stops every axis when one faults while moving. *)
Lemma fault_guard_stops num_slaves slaves states :
  length states = num_slaves -> (num_slaves <= length slaves)%nat ->
  fault_while_moving slaves states ->
  fault_guard num_slaves slaves states = Ok (stop_all slaves states).
Proof.
  intros Hlen Hsl Hf.
  destruct (fault_guard_spec num_slaves slaves states Hlen Hsl)
    as (states' & Hg & Hlen' & Hstop & _).
  rewrite Hg. f_equal. apply stop_all_eq; [lia|lia|]. apply Hstop. exact Hf.
Qed.

Lemma fault_guard_idle num_slaves slaves states :
  length states = num_slaves -> (num_slaves <= length slaves)%nat ->
  all_idle states ->
  fault_guard num_slaves slaves states = Ok states.
Proof.
  intros Hlen Hsl Hidle.
  destruct (fault_guard_spec num_slaves slaves states Hlen Hsl)
    as (states' & Hg & _ & _ & Hsame).
  rewrite Hg, (Hsame Hidle). reflexivity.
Qed.

(** The sync guard with the flag down and at least two slaves: it stops
    every axis when an axis is moving and a pair is out of sync. *)
Lemma sync_guard_stops num_slaves thr slaves states :
  length states = num_slaves -> (num_slaves <= length slaves)%nat ->
  (2 <= num_slaves)%nat ->
  any_moving states -> (exists i, out_of_sync thr slaves states i) ->
  sync_guard num_slaves thr slaves states false = Ok (stop_all slaves states, true).
Proof.
  intros Hlen Hsl H2 Hm Ho.
  destruct (sync_guard_spec num_slaves thr slaves states Hlen Hsl H2)
    as (states' & flag & Hg & Hlen' & Hcases & Htrip).
  rewrite Hg. specialize (Htrip Hm Ho). subst flag.
  destruct Hcases as [[_ Hstop]|[Hc _]]; [|discriminate Hc].
  f_equal. f_equal. apply stop_all_eq; [lia|lia|exact Hstop].
Qed.

(** Whatever the guard does, it either stops every axis or changes nothing. *)
Lemma sync_guard_cases num_slaves thr slaves states flag :
  length states = num_slaves -> (num_slaves <= length slaves)%nat ->
  sync_guard num_slaves thr slaves states flag = Ok (stop_all slaves states, true) \/
  sync_guard num_slaves thr slaves states flag = Ok (states, flag).
Proof.
  intros Hlen Hsl.
  destruct flag; [right; unfold sync_guard; rewrite andb_false_r; reflexivity|].
  destruct (Nat.le_gt_cases 2 num_slaves) as [H2|H2].
  - destruct (sync_guard_spec num_slaves thr slaves states Hlen Hsl H2)
      as (states' & flag & Hg & Hlen' & Hcases & _).
    rewrite Hg. destruct Hcases as [[-> Hstop]|[-> ->]]; [left|right; reflexivity].
    f_equal. f_equal. apply stop_all_eq; [lia|lia|exact Hstop].
  - right. unfold sync_guard.
    replace (2 <=? num_slaves)%nat with false by (symmetry; apply Nat.leb_gt; exact H2).
    reflexivity.
Qed.

(** ** The per-slave loop returns *)

Lemma py_index_nonneg (len : nat) (z : Z) :
  0 <= z < Z.of_nat len -> py_index len z = Ok (Z.to_nat z).
Proof.
  intros H. rewrite <- (Z2Nat.id z) at 1 by lia. apply py_index_nat. lia.
Qed.

Lemma py_setitem_nonneg {A} (l : list A) (z : Z) (a : A) :
  0 <= z < Z.of_nat (length l) -> py_setitem l z a = Ok (<[Z.to_nat z := a]> l).
Proof.
  intros H. unfold py_setitem. rewrite py_index_nonneg by exact H. reflexivity.
Qed.

Lemma store_ok shared idx value :
  0 <= idx < Z.of_nat (length shared) -> Z.abs value <= 2 ^ 53 ->
  exists f, py_float value = Ok f /\ finite f /\ (F2Q f == inject_Z value)%Q /\
    store shared idx value = Ok (<[Z.to_nat idx := f]> shared).
Proof.
  intros Hidx Hv. destruct (py_float_exact value Hv) as (f & Hf & Hfin & Hq).
  exists f. repeat split; try assumption.
  unfold store. rewrite Hf. cbn [rbind]. apply py_setitem_nonneg. exact Hidx.
Qed.

Lemma py_float_flag (b : bool) :
  py_float (if b then 1 else 0) = Ok (if b then 1%float else 0%float).
Proof. destruct b; vm_compute; reflexivity. Qed.

Lemma store_flag shared idx (b : bool) :
  0 <= idx < Z.of_nat (length shared) ->
  store shared idx (if b then 1 else 0)
  = Ok (<[Z.to_nat idx := if b then 1%float else 0%float]> shared).
Proof.
  intros Hidx. unfold store. rewrite py_float_flag. cbn [rbind].
  apply py_setitem_nonneg. exact Hidx.
Qed.

Lemma publish_ok stride sync_flag i slave state shared :
  0 <= stride -> slave_ok slave -> int32 (offset state) ->
  Z.of_nat i * stride + block_width sync_flag <= Z.of_nat (length shared) ->
  exists shared',
    publish stride sync_flag i slave state shared = Ok shared' /\
    length shared' = length shared /\
    shared' !! Z.to_nat (Z.of_nat i * stride + 1)
      = Some (if is_moving state then 1%float else 0%float) /\
    (forall k, (Z.of_nat k < Z.of_nat i * stride \/
                Z.of_nat i * stride + block_width sync_flag <= Z.of_nat k) ->
       shared' !! k = shared !! k).
Proof.
  intros Hs [Hst Hact] Hoff Hlen.
  unfold uint16, _read_status_word in *. unfold int32 in *.
  assert (Hw : 4 <= block_width sync_flag) by (destruct sync_flag; simpl; lia).
  set (b := Z.of_nat i * stride) in *.
  assert (Hb : 0 <= b) by (unfold b; lia).
  unfold publish. fold b.
  destruct (store_ok shared b (_read_status_word slave)) as (f0 & _ & _ & _ & ->);
    [lia|unfold _read_status_word; lia|].
  cbn [rbind]. fold (is_moving state).
  rewrite store_flag by (rewrite length_insert; lia). cbn [rbind].
  destruct (store_ok (<[Z.to_nat (b + 1) := if is_moving state then 1%float else 0%float]>
                        (<[Z.to_nat b := f0]> shared)) (b + 2) (_read_actual_position slave))
    as (f2 & _ & _ & _ & ->);
    [rewrite !length_insert; lia|unfold _read_actual_position; lia|].
  cbn [rbind].
  match goal with |- context [store ?l (b + 3) _] =>
    destruct (store_ok l (b + 3) (offset state)) as (f3 & _ & _ & _ & ->);
      [rewrite !length_insert; lia|lia|]
  end.
  cbn [rbind].
  destruct sync_flag as [flag|]; simpl in Hlen.
  - rewrite store_flag by (rewrite !length_insert; lia).
    eexists. split; [reflexivity|]. split; [rewrite !length_insert; reflexivity|]. split.
    + rewrite !list_lookup_insert_ne by lia.
      apply list_lookup_insert_eq. rewrite length_insert. lia.
    + intros k Hk. simpl in Hk. rewrite !list_lookup_insert_ne by lia. reflexivity.
  - eexists. split; [reflexivity|]. split; [rewrite !length_insert; reflexivity|]. split.
    + rewrite !list_lookup_insert_ne by lia.
      apply list_lookup_insert_eq. rewrite length_insert. lia.
    + intros k Hk. simpl in Hk. rewrite !list_lookup_insert_ne by lia. reflexivity.
Qed.

Lemma write_csp_outputs_ok status tgt :
  int32 tgt ->
  _write_csp_outputs (controlword status) tgt
  = Ok {| frame_controlword := controlword status; frame_target := tgt |}.
Proof.
  intros Ht. unfold int32 in Ht. pose proof (controlword_range status) as Hc.
  unfold _write_csp_outputs.
  replace (0 <=? controlword status) with true by (symmetry; apply Z.leb_le; lia).
  replace (controlword status <=? 65535) with true by (symmetry; apply Z.leb_le; lia).
  replace (-2147483648 <=? tgt) with true by (symmetry; apply Z.leb_le; lia).
  replace (tgt <=? 2147483647) with true by (symmetry; apply Z.leb_le; lia).
  reflexivity.
Qed.

Section ControlLoopTotal.

Variable libm_cos : float -> float.

(** One step of the per-slave loop returns as soon as the control of the
    axis does and the target fits the RxPDO. *)
Lemma control_slave_ok stride flag slaves now i acc slave st st' cw tgt :
  slaves !! i = Some slave -> ct_states acc !! i = Some st ->
  axis_control libm_cos (now i) slave st = Ok (st', cw, tgt) ->
  int32 tgt -> slave_ok slave -> int32 (offset st) -> 0 <= stride ->
  Z.of_nat i * stride + block_width flag <= Z.of_nat (length (ct_shared acc)) ->
  exists shared',
    control_slave libm_cos stride flag slaves now i acc
    = Ok {| ct_states := <[i := st']> (ct_states acc); ct_shared := shared';
            ct_frames := ct_frames acc ++ [{| frame_controlword := cw; frame_target := tgt |}] |} /\
    publish stride flag i slave st' (ct_shared acc) = Ok shared'.
Proof.
  intros Hs Hst Hax Htgt Hok Hoff Hstride Hlen.
  pose proof (axis_control_controlword _ _ _ _ _ _ _ Hax) as ->.
  destruct (axis_control_trajectory _ _ _ _ _ _ _ Hax) as (_ & _ & Hoff' & _).
  destruct (publish_ok stride flag i slave st' (ct_shared acc)) as (shared' & Hp & _);
    [assumption|assumption|rewrite Hoff'; assumption|assumption|].
  exists shared'. split; [|exact Hp].
  unfold control_slave.
  rewrite (py_getitem_nat _ _ _ Hs). cbn [rbind].
  rewrite (py_getitem_nat _ _ _ Hst). cbn [rbind].
  rewrite Hax. cbn [rbind].
  rewrite py_setitem_nat by (eapply lookup_lt_Some; exact Hst). cbn [rbind].
  rewrite write_csp_outputs_ok by exact Htgt. cbn [rbind].
  rewrite Hp. reflexivity.
Qed.

Lemma for_each_control_slave_ok stride flag slaves now idxs :
  0 <= stride -> block_width flag <= stride -> NoDup idxs ->
  forall acc,
  (forall i, i ∈ idxs -> ready_at libm_cos slaves now (ct_states acc) i) ->
  (forall i, i ∈ idxs ->
     Z.of_nat i * stride + block_width flag <= Z.of_nat (length (ct_shared acc))) ->
  exists c,
    for_each (control_slave libm_cos stride flag slaves now) idxs acc = Ok c /\
    length (ct_shared c) = length (ct_shared acc) /\
    (forall i st', i ∈ idxs -> ct_states c !! i = Some st' ->
       ct_shared c !! Z.to_nat (Z.of_nat i * stride + 1)
       = Some (if is_moving st' then 1%float else 0%float)) /\
    (forall k, (forall i, i ∈ idxs ->
                  Z.of_nat k < Z.of_nat i * stride \/
                  Z.of_nat i * stride + block_width flag <= Z.of_nat k) ->
       ct_shared c !! k = ct_shared acc !! k).
Proof.
  intros Hstride Hwidth. induction 1 as [|i idxs Hni Hnd IH]; intros acc Hready Hlen.
  - exists acc. split; [reflexivity|]. split; [reflexivity|]. split; [|reflexivity].
    intros i st' Hi. apply elem_of_nil in Hi. contradiction.
  - assert (Hw : 4 <= block_width flag) by (destruct flag; simpl; lia).
    destruct (Hready i) as (slave & st & st' & cw & tgt & Hs & Hst & Hax & Htgt & Hok & Hoff);
      [left|].
    destruct (control_slave_ok stride flag slaves now i acc slave st st' cw tgt)
      as (shared' & Hstep & Hp); try assumption.
    { apply Hlen. left. }
    destruct (axis_control_trajectory _ _ _ _ _ _ _ Hax) as (_ & _ & Hoff' & _).
    destruct (publish_ok stride flag i slave st' (ct_shared acc))
      as (shared'' & Hp' & Hplen & Hslot & Hother);
      [assumption|assumption|rewrite Hoff'; assumption|apply Hlen; left|].
    rewrite Hp in Hp'. inversion Hp'; subst shared''; clear Hp'.
    cbn [for_each]. rewrite Hstep. cbn [rbind].
    set (acc1 := {| ct_states := <[i := st']> (ct_states acc); ct_shared := shared';
                    ct_frames := _ |}).
    destruct (IH acc1) as (c & Hc & Hclen & Hcslot & Hcother).
    { intros j Hj. assert (j <> i) by (intros ->; contradiction).
      destruct (Hready j) as (slave_j & st_j & H'); [right; exact Hj|].
      exists slave_j, st_j. simpl. rewrite list_lookup_insert_ne by auto. exact H'. }
    { intros j Hj. simpl. rewrite Hplen. apply Hlen. right. exact Hj. }
    exists c. split; [exact Hc|]. split; [rewrite Hclen; exact Hplen|].
    assert (Hdisj : forall j, j ∈ idxs ->
              forall d, 0 <= d < block_width flag ->
              Z.of_nat i * stride + d < Z.of_nat j * stride \/
              Z.of_nat j * stride + block_width flag <= Z.of_nat i * stride + d).
    { intros j Hj d Hd. assert (j <> i) by (intros ->; contradiction).
      destruct (Nat.lt_total i j) as [Hlt|[->|Hgt]]; [left|contradiction|right]; nia. }
    split.
    + intros j st1 Hj Hst1. apply elem_of_cons in Hj as [->|Hj].
      * apply for_each_control_slave in Hc as (_ & Hout & _); [|exact Hnd].
        rewrite (Hout i Hni) in Hst1. simpl in Hst1.
        rewrite list_lookup_insert_eq in Hst1 by (eapply lookup_lt_Some; exact Hst).
        inversion Hst1; subst st1.
        rewrite Hcother; [exact Hslot|].
        intros j Hj. rewrite Z2Nat.id by lia. apply Hdisj; [exact Hj|lia].
      * apply Hcslot; assumption.
    + intros k Hk. rewrite Hcother by (intros j Hj; apply Hk; right; exact Hj).
      simpl. apply Hother. apply Hk. left.
Qed.

End ControlLoopTotal.

Lemma stopped_ok slave st :
  slave_ok slave -> state_ok st -> state_ok (stopped (_read_actual_position slave) st).
Proof.
  intros [_ Hact] [Hoff Htgt]. unfold stopped.
  destruct (trajectory st) eqn:E; [|split; [exact Hoff|rewrite E; exact Htgt]].
  split; [exact Hoff|]. intros _. exact Hact.
Qed.

Lemma stop_all_ok slaves states :
  Forall slave_ok slaves -> Forall state_ok states -> Forall state_ok (stop_all slaves states).
Proof.
  intros Hs Hst. rewrite Forall_lookup in Hs. rewrite Forall_lookup in Hst.
  apply Forall_lookup. intros j st' Hj. unfold stop_all in Hj.
  apply lookup_zip_with_Some in Hj as (slave & st & -> & Hsl & Hstj).
  apply stopped_ok; eauto.
Qed.

(** The per-slave loop over idle, well-formed axes returns: every axis
    keeps its state but for the recorded statusword, its frame carries its
    target, and its moving flag is published as 0. *)
Lemma control_loop_idle_ok libm_cos stride flag slaves now num_slaves states shared :
  0 <= stride -> block_width flag <= stride ->
  length states = num_slaves -> (num_slaves <= length slaves)%nat ->
  Z.of_nat num_slaves * stride <= Z.of_nat (length shared) ->
  Forall slave_ok slaves -> Forall state_ok states -> all_idle states ->
  exists c,
    for_each (control_slave libm_cos stride flag slaves now) (seq 0 num_slaves)
      {| ct_states := states; ct_shared := shared; ct_frames := [] |} = Ok c /\
    all_idle (ct_states c) /\
    length (ct_shared c) = length shared /\
    forall j st slave, states !! j = Some st -> slaves !! j = Some slave ->
      ct_states c !! j = Some (set_last_status (_read_status_word slave) st) /\
      ct_frames c !! j = Some {| frame_controlword := controlword (_read_status_word slave);
                                 frame_target := target_pulse st |} /\
      ct_shared c !! Z.to_nat (Z.of_nat j * stride + 1) = Some 0%float.
Proof.
  intros Hstride Hwidth Hlen Hsl Hshared Hslaves Hstates Hidle.
  pose proof Hidle as Hidle'. unfold all_idle in Hidle'.
  rewrite Forall_lookup in Hslaves. rewrite Forall_lookup in Hstates.
  rewrite Forall_lookup in Hidle'.
  destruct (for_each_control_slave_ok libm_cos stride flag slaves now (seq 0 num_slaves)
              Hstride Hwidth (NoDup_seq 0 num_slaves)
              {| ct_states := states; ct_shared := shared; ct_frames := [] |})
    as (c & Hc & Hclen & Hslot & _).
  { intros i Hi. apply elem_of_seq_0 in Hi. simpl.
    destruct (lookup_lt_is_Some_2 slaves i) as [slave Hs]; [lia|].
    destruct (lookup_lt_is_Some_2 states i) as [st Hst]; [lia|].
    exists slave, st. do 3 eexists.
    split; [exact Hs|]. split; [exact Hst|].
    split; [apply axis_control_idle; exact (Hidle' i st Hst)|].
    destruct (Hstates i st Hst) as [Hoff Htgt].
    split; [apply Htgt; exact (Hidle' i st Hst)|]. split; [exact (Hslaves i slave Hs)|exact Hoff]. }
  { intros i Hi. apply elem_of_seq_0 in Hi. simpl.
    assert (4 <= block_width flag) by (destruct flag; simpl; lia). nia. }
  exists c. split; [exact Hc|].
  pose proof Hc as Hinv.
  apply for_each_control_slave in Hinv as (Hslen & _ & frames & Hfr & Hflen & Hall);
    [|apply NoDup_seq].
  simpl in Hfr, Hslen, Hall, Hclen. subst frames. rewrite length_seq in Hflen.
  assert (Hin : forall j st slave, states !! j = Some st -> slaves !! j = Some slave ->
            ct_states c !! j = Some (set_last_status (_read_status_word slave) st) /\
            ct_frames c !! j = Some {| frame_controlword := controlword (_read_status_word slave);
                                       frame_target := target_pulse st |}).
  { intros j st slave Hst Hs.
    assert (Hj : (j < num_slaves)%nat) by (rewrite <- Hlen; eapply lookup_lt_Some; exact Hst).
    destruct (lookup_lt_is_Some_2 (ct_frames c) j) as [frame Hframe]; [lia|].
    destruct (Hall j j frame) as (slave0 & st0 & st' & Hs0 & Hb & Hax & Hafter).
    { rewrite lookup_seq. split; [reflexivity|exact Hj]. }
    { exact Hframe. }
    rewrite Hs in Hs0. inversion Hs0; subst slave0.
    rewrite Hst in Hb. inversion Hb; subst st0.
    rewrite (axis_control_idle _ _ _ _ (Hidle' j st Hst)) in Hax.
    inversion Hax as [[H1 H2 H3]]. split; [rewrite H1; exact Hafter|].
    rewrite Hframe. f_equal. destruct frame; simpl in *. congruence. }
  split; [|split; [exact Hclen|]].
  - eapply control_loop_idle; [exact Hidle|exact Hc].
  - intros j st slave Hst Hs. destruct (Hin j st slave Hst Hs) as [Hnew Hframe].
    split; [exact Hnew|]. split; [exact Hframe|].
    rewrite (Hslot j (set_last_status (_read_status_word slave) st)).
    + unfold is_moving. simpl. rewrite (Hidle' j st Hst).
      rewrite bool_decide_eq_false_2 by (intros H; apply H; reflexivity). reflexivity.
    + apply elem_of_seq_0. rewrite <- Hlen. eapply lookup_lt_Some; exact Hst.
    + exact Hnew.
Qed.

(** The per-slave loop after an emergency stop. *)
Lemma control_loop_after_stop libm_cos stride flag slaves now num_slaves states shared :
  0 <= stride -> block_width flag <= stride ->
  cycle_inputs_ok num_slaves stride slaves states shared ->
  exists c,
    for_each (control_slave libm_cos stride flag slaves now) (seq 0 num_slaves)
      {| ct_states := stop_all slaves states; ct_shared := shared; ct_frames := [] |} = Ok c /\
    length (ct_shared c) = length shared /\
    halted_by slaves states (ct_states c) (ct_frames c).
Proof.
  intros Hstride Hwidth (Hlen & Hsl & Hslaves & Hstates & Hshared).
  destruct (control_loop_idle_ok libm_cos stride flag slaves now num_slaves
              (stop_all slaves states) shared) as (c & Hc & Hidle & Hclen & Hin);
    try assumption.
  { rewrite stop_all_length; lia. }
  { apply stop_all_ok; assumption. }
  { apply stop_all_idle. }
  exists c. split; [exact Hc|]. split; [exact Hclen|]. split; [exact Hidle|].
  intros j st slave Hst Hs.
  destruct (Hin j _ slave (stop_all_lookup _ _ _ _ _ Hst Hs) Hs) as (Hnew & Hframe & _).
  eexists _, _. split; [exact Hnew|]. split; [exact Hframe|].
  unfold stopped, is_moving. destruct (trajectory st) as [traj|] eqn:E; simpl.
  - auto.
  - rewrite E. auto.
Qed.

(** A cycle that keeps running is its command phase followed by its control
    phase. *)
Lemma cycle_running libm_cos num_slaves slave_configs env loop shared d c :
  command_phase slave_configs env (local_motor_states loop) = Ok d ->
  dr_running d = true ->
  control_phase libm_cos num_slaves (env_slaves_after env) (env_now env) (dr_states d) shared
  = Ok c ->
  cycle libm_cos num_slaves slave_configs env loop shared
  = Ok {| cr_loop := {| local_motor_states := ct_states c; is_running := true;
                        sync_error_detected := sync_error_detected loop;
                        cycle_counter := cycle_counter loop + 1 |};
          cr_shared := ct_shared c; cr_frames := ct_frames c |}.
Proof.
  intros Hd Hrun Hc. unfold cycle. rewrite Hd. cbn [rbind]. rewrite Hrun. cbn [negb].
  rewrite Hc. reflexivity.
Qed.

Lemma cycle_safe_running libm_cos num_slaves thr slave_configs env loop shared d c flag :
  command_phase_safe slave_configs env (local_motor_states loop) (sync_error_detected loop)
  = Ok d ->
  dr_running d = true ->
  control_phase_safe libm_cos num_slaves thr (env_slaves_after env) (env_now env)
    (dr_states d) (dr_sync_error d) shared = Ok (c, flag) ->
  cycle_safe libm_cos num_slaves thr slave_configs env loop shared
  = Ok {| cr_loop := {| local_motor_states := ct_states c; is_running := true;
                        sync_error_detected := flag;
                        cycle_counter := cycle_counter loop + 1 |};
          cr_shared := ct_shared c; cr_frames := ct_frames c |}.
Proof.
  intros Hd Hrun Hc. unfold cycle_safe. rewrite Hd. cbn [rbind]. rewrite Hrun. cbn [negb].
  rewrite Hc. reflexivity.
Qed.

(** The control phase of the safe loop when the sync guard trips. *)
Lemma control_phase_safe_sync_stop libm_cos num_slaves thr slaves now states shared :
  (2 <= num_slaves)%nat ->
  cycle_inputs_ok num_slaves 5 slaves states shared ->
  any_moving states -> (exists i, out_of_sync thr slaves states i) ->
  exists c,
    control_phase_safe libm_cos num_slaves thr slaves now states false shared = Ok (c, true) /\
    length (ct_shared c) = length shared /\
    halted_by slaves states (ct_states c) (ct_frames c).
Proof.
  intros H2 Hok Hm Ho. pose proof Hok as (Hlen & Hsl & Hslaves & Hstates & Hshared).
  destruct (control_loop_after_stop libm_cos 5 (Some true) slaves now num_slaves states shared)
    as (c & Hc & Hclen & Hhalt); [lia|simpl; lia|exact Hok|].
  exists c. split; [|split; assumption].
  unfold control_phase_safe.
  rewrite (sync_guard_stops _ _ _ _ Hlen Hsl H2 Hm Ho). cbn [rbind].
  rewrite fault_guard_idle;
    [|rewrite stop_all_length; lia|exact Hsl|apply stop_all_idle].
  cbn [rbind]. rewrite Hc. reflexivity.
Qed.

(** The control phases when an axis faults while moving. *)
Lemma control_phase_fault_stop libm_cos num_slaves slaves now states shared :
  cycle_inputs_ok num_slaves 4 slaves states shared ->
  fault_while_moving slaves states ->
  exists c,
    control_phase libm_cos num_slaves slaves now states shared = Ok c /\
    length (ct_shared c) = length shared /\
    halted_by slaves states (ct_states c) (ct_frames c).
Proof.
  intros Hok Hf. pose proof Hok as (Hlen & Hsl & Hslaves & Hstates & Hshared).
  destruct (control_loop_after_stop libm_cos 4 None slaves now num_slaves states shared)
    as (c & Hc & Hclen & Hhalt); [lia|simpl; lia|exact Hok|].
  exists c. split; [|split; assumption].
  unfold control_phase. rewrite (fault_guard_stops _ _ _ Hlen Hsl Hf). exact Hc.
Qed.

Lemma control_phase_safe_fault_stop libm_cos num_slaves thr slaves now states flag shared :
  cycle_inputs_ok num_slaves 5 slaves states shared ->
  fault_while_moving slaves states ->
  exists c flag',
    control_phase_safe libm_cos num_slaves thr slaves now states flag shared = Ok (c, flag') /\
    length (ct_shared c) = length shared /\
    halted_by slaves states (ct_states c) (ct_frames c).
Proof.
  intros Hok Hf. pose proof Hok as (Hlen & Hsl & Hslaves & Hstates & Hshared).
  unfold control_phase_safe.
  destruct (sync_guard_cases num_slaves thr slaves states flag Hlen Hsl) as [Hg|Hg];
    rewrite Hg; cbn [rbind].
  - destruct (control_loop_after_stop libm_cos 5 (Some true) slaves now num_slaves states shared)
      as (c & Hc & Hclen & Hhalt); [lia|simpl; lia|exact Hok|].
    exists c, true. split; [|split; assumption].
    rewrite fault_guard_idle;
      [|rewrite stop_all_length; lia|exact Hsl|apply stop_all_idle].
    cbn [rbind]. rewrite Hc. reflexivity.
  - destruct (control_loop_after_stop libm_cos 5 (Some flag) slaves now num_slaves states shared)
      as (c & Hc & Hclen & Hhalt); [lia|simpl; lia|exact Hok|].
    exists c, flag. split; [|split; assumption].
    rewrite (fault_guard_stops _ _ _ Hlen Hsl Hf). cbn [rbind]. rewrite Hc. reflexivity.
Qed.

(** ** C3: the sync-error guard *)

(** C3. In a cycle of the safe loop with at least two slaves that keeps
    running, with the sync-error flag down after the commands were drained
    and some axis on a trajectory: if the offset-corrected actual positions
    of an adjacent pair differ by more than the threshold, where the
    threshold is [int(max_sync_error_mm / z_axis_mm_per_rev * 8388608 * 2)],
    then the cycle returns with the flag up, no axis has a trajectory any
    more, and every axis that had one has its target (and the target of its
    frame) at the actual position just read. *)
Theorem C3_sync_guard_stops_all libm_cos num_slaves max_sync_error_mm thr
    slave_configs env loop shared d :
  max_sync_error_pulse_of max_sync_error_mm = Ok thr ->
  (2 <= num_slaves)%nat ->
  command_phase_safe slave_configs env (local_motor_states loop) (sync_error_detected loop)
  = Ok d ->
  dr_running d = true -> dr_sync_error d = false ->
  cycle_inputs_ok num_slaves 5 (env_slaves_after env) (dr_states d) shared ->
  any_moving (dr_states d) ->
  (exists i, out_of_sync thr (env_slaves_after env) (dr_states d) i) ->
  exists r,
    cycle_safe libm_cos num_slaves thr slave_configs env loop shared = Ok r /\
    is_running (cr_loop r) = true /\
    sync_error_detected (cr_loop r) = true /\
    halted_by (env_slaves_after env) (dr_states d)
      (local_motor_states (cr_loop r)) (cr_frames r).
Proof.
  intros _ H2 Hd Hrun Hflag Hok Hm Ho.
  destruct (control_phase_safe_sync_stop libm_cos num_slaves thr (env_slaves_after env)
              (env_now env) (dr_states d) shared H2 Hok Hm Ho) as (c & Hc & _ & Hhalt).
  rewrite <- Hflag in Hc.
  eexists. split; [eapply cycle_safe_running; eassumption|].
  cbn [cr_loop cr_frames is_running sync_error_detected local_motor_states].
  split; [reflexivity|]. split; [reflexivity|exact Hhalt].
Qed.

Lemma C3_witness :
  let moving := {| target_pulse := 0; offset := 0; axis := "z"; last_status := None;
                   trajectory := Some {| traj_start := 0; traj_end := 5000000;
                                         traj_duration := 2; traj_start_time := 100 |} |} in
  let slaves := [ {| input_status := 0x0027; input_actual := 2000000 |};
                  {| input_status := 0x0027; input_actual := 0 |} ] in
  let env := {| env_queue := []; env_slaves_before := slaves; env_slaves_after := slaves;
                env_common_start_time := 101; env_now := fun _ => 101%float |} in
  let loop := {| local_motor_states := [moving; initial_motor_state]; is_running := true;
                 sync_error_detected := false; cycle_counter := 7 |} in
  max_sync_error_pulse_of DEFAULT_MAX_SYNC_ERROR_MM = Ok 1398181 /\
  exists r,
    cycle_safe cos_steps 2 1398181 ∅ env loop (replicate 10 0%float) = Ok r /\
    is_running (cr_loop r) = true /\
    sync_error_detected (cr_loop r) = true /\
    halted_by slaves [moving; initial_motor_state]
      (local_motor_states (cr_loop r)) (cr_frames r).
Proof.
  intros moving slaves env loop.
  assert (Hthr : max_sync_error_pulse_of DEFAULT_MAX_SYNC_ERROR_MM = Ok 1398181)
    by (vm_compute; reflexivity).
  split; [exact Hthr|].
  apply (C3_sync_guard_stops_all cos_steps 2 DEFAULT_MAX_SYNC_ERROR_MM 1398181 ∅ env loop
           (replicate 10 0%float)
           {| dr_states := [moving; initial_motor_state]; dr_running := true;
              dr_sync_error := false; dr_commands := [] |}).
  - exact Hthr.
  - lia.
  - reflexivity.
  - reflexivity.
  - reflexivity.
  - unfold cycle_inputs_ok, slave_ok, state_ok, uint16, int32. simpl.
    repeat split; try lia; repeat constructor; try (simpl; lia); try discriminate.
  - exists 0%nat, moving. split; reflexivity.
  - exists 0%nat. unfold out_of_sync. do 4 eexists.
    repeat split; reflexivity.
Defined.

(** ** C4: the fault guard *)

(** C4. In a cycle that keeps running, of the baseline loop and of the safe
    loop alike: if an axis that is on a trajectory after the commands were
    drained shows statusword bit 3 in the image just read, the cycle returns,
    no axis has a trajectory any more, and every axis that had one, faulting
    or not, has its target (and the target of its frame) at its actual
    position just read. *)
Theorem C4_fault_guard_stops_all libm_cos num_slaves slave_configs env loop :
  (forall shared d,
     command_phase slave_configs env (local_motor_states loop) = Ok d ->
     dr_running d = true ->
     cycle_inputs_ok num_slaves 4 (env_slaves_after env) (dr_states d) shared ->
     fault_while_moving (env_slaves_after env) (dr_states d) ->
     exists r,
       cycle libm_cos num_slaves slave_configs env loop shared = Ok r /\
       halted_by (env_slaves_after env) (dr_states d)
         (local_motor_states (cr_loop r)) (cr_frames r)) /\
  (forall max_sync_error_pulse shared d,
     command_phase_safe slave_configs env (local_motor_states loop) (sync_error_detected loop)
     = Ok d ->
     dr_running d = true ->
     cycle_inputs_ok num_slaves 5 (env_slaves_after env) (dr_states d) shared ->
     fault_while_moving (env_slaves_after env) (dr_states d) ->
     exists r,
       cycle_safe libm_cos num_slaves max_sync_error_pulse slave_configs env loop shared
       = Ok r /\
       halted_by (env_slaves_after env) (dr_states d)
         (local_motor_states (cr_loop r)) (cr_frames r)).
Proof.
  split.
  - intros shared d Hd Hrun Hok Hf.
    destruct (control_phase_fault_stop libm_cos num_slaves (env_slaves_after env)
                (env_now env) (dr_states d) shared Hok Hf) as (c & Hc & _ & Hhalt).
    eexists. split; [eapply cycle_running; eassumption|exact Hhalt].
  - intros thr shared d Hd Hrun Hok Hf.
    destruct (control_phase_safe_fault_stop libm_cos num_slaves thr (env_slaves_after env)
                (env_now env) (dr_states d) (dr_sync_error d) shared Hok Hf)
      as (c & flag' & Hc & _ & Hhalt).
    eexists. split; [eapply cycle_safe_running; eassumption|exact Hhalt].
Qed.

Lemma C4_witness :
  let traj := {| traj_start := 0; traj_end := 5000000;
                 traj_duration := 2; traj_start_time := 100 |} in
  let moving := {| target_pulse := 0; offset := 0; axis := "x"; last_status := None;
                   trajectory := Some traj |} in
  let slaves := [ {| input_status := 0x0027; input_actual := 1000 |};
                  {| input_status := 0x0008; input_actual := 1200 |} ] in
  let env := {| env_queue := []; env_slaves_before := slaves; env_slaves_after := slaves;
                env_common_start_time := 101; env_now := fun _ => 101%float |} in
  let loop := {| local_motor_states := [moving; moving]; is_running := true;
                 sync_error_detected := false; cycle_counter := 7 |} in
  (exists r,
     cycle cos_steps 2 ∅ env loop (replicate 8 0%float) = Ok r /\
     halted_by slaves [moving; moving] (local_motor_states (cr_loop r)) (cr_frames r)) /\
  (exists r,
     cycle_safe cos_steps 2 1398181 ∅ env loop (replicate 10 0%float) = Ok r /\
     halted_by slaves [moving; moving] (local_motor_states (cr_loop r)) (cr_frames r)).
Proof.
  intros traj moving slaves env loop.
  pose (d := {| dr_states := [moving; moving]; dr_running := true;
                dr_sync_error := false; dr_commands := [] |}).
  assert (Hf : fault_while_moving slaves [moving; moving]).
  { exists 1%nat. do 2 eexists. repeat split; reflexivity. }
  assert (Hok : forall stride shared,
            Z.of_nat 2 * stride <= Z.of_nat (length shared) ->
            cycle_inputs_ok 2 stride slaves [moving; moving] shared).
  { intros stride shared Hlen.
    unfold cycle_inputs_ok, slave_ok, state_ok, uint16, int32. simpl.
    repeat split; try lia; repeat constructor; try (simpl; lia); try discriminate. }
  destruct (C4_fault_guard_stops_all cos_steps 2 ∅ env loop) as [Hbase Hsafe].
  split.
  - apply (Hbase (replicate 8 0%float) d); [reflexivity|reflexivity| |exact Hf].
    apply Hok. simpl. lia.
  - apply (Hsafe 1398181 (replicate 10 0%float) d); [reflexivity|reflexivity| |exact Hf].
    apply Hok. simpl. lia.
Defined.

(** ** The batch of trajectories *)

Lemma set_trajectory_idle st : trajectory st = None -> set_trajectory None st = st.
Proof. destruct st; simpl; intros ->; reflexivity. Qed.

Lemma addresses_spec len slave_idx j :
  addresses len slave_idx j = true <-> py_index len slave_idx = Ok j.
Proof.
  unfold addresses. destruct (py_index len slave_idx) as [n|e].
  - rewrite bool_decide_eq_true. split; [intros ->; reflexivity|intros H; inversion H; reflexivity].
  - split; discriminate.
Qed.

Lemma cancel_trajectories_spec commands : forall states states1,
  cancel_trajectories commands states = Ok states1 ->
  length states1 = length states /\
  forall j st, states !! j = Some st ->
    states1 !! j
    = Some (if commanded (length states) commands j then set_trajectory None st else st).
Proof.
  induction commands as [|[slave_idx mm] rest IH]; intros states states1 H; simpl in H.
  - inversion H; subst. split; [reflexivity|]. intros j st Hj. exact Hj.
  - apply rbind_ok in H as (st0 & Hget & H).
    apply rbind_ok in H as (states' & Hset & H).
    apply py_getitem_inv in Hget as (n & Hn & Hst0).
    assert (Hstates' : states' = if bool_decide (trajectory st0 <> None)
                                 then <[n := set_trajectory None st0]> states else states).
    { destruct (trajectory st0) eqn:E.
      - apply py_setitem_inv in Hset as (n' & Hn' & ->).
        rewrite Hn in Hn'. inversion Hn'; subst n'.
        rewrite bool_decide_eq_true_2 by discriminate. reflexivity.
      - inversion Hset; subst.
        rewrite bool_decide_eq_false_2 by (intros Hx; apply Hx; reflexivity). reflexivity. }
    assert (Hlen' : length states' = length states).
    { rewrite Hstates'. destruct (bool_decide _); [apply length_insert|reflexivity]. }
    apply IH in H as (Hlen1 & Hlook). split; [lia|].
    intros j st Hj. cbn [commanded existsb fst]. fold (commanded (length states) rest j).
    unfold addresses at 1. rewrite Hn.
    destruct (decide (n = j)) as [->|Hne].
    + rewrite Hj in Hst0. inversion Hst0; subst st0.
      rewrite bool_decide_eq_true_2 by reflexivity. cbn [orb].
      destruct (trajectory st) as [t|] eqn:E.
      * rewrite bool_decide_eq_true_2 in Hstates' by discriminate.
        rewrite (Hlook j (set_trajectory None st)).
        -- rewrite Hlen'. destruct (commanded _ _ _); reflexivity.
        -- rewrite Hstates'. apply list_lookup_insert_eq. eapply lookup_lt_Some; exact Hj.
      * rewrite bool_decide_eq_false_2 in Hstates' by (intros Hx; apply Hx; reflexivity).
        subst states'. rewrite (Hlook j st Hj).
        rewrite (set_trajectory_idle st E). destruct (commanded _ _ _); reflexivity.
    + rewrite bool_decide_eq_false_2 by exact Hne. cbn [orb].
      rewrite <- Hlen'. apply Hlook. rewrite Hstates'.
      destruct (bool_decide _); [rewrite list_lookup_insert_ne by exact Hne|]; exact Hj.
Qed.

Lemma cancel_trajectories_total commands : forall states,
  (forall command, command ∈ commands ->
     exists n, py_index (length states) (fst command) = Ok n) ->
  exists states1, cancel_trajectories commands states = Ok states1.
Proof.
  induction commands as [|[slave_idx mm] rest IH]; intros states Hidx; simpl.
  - eauto.
  - destruct (Hidx (slave_idx, mm)) as (n & Hn); [left|]. simpl in Hn.
    destruct (lookup_lt_is_Some_2 states n) as [st Hst]; [eapply py_index_lt; exact Hn|].
    assert (Hget : py_getitem states slave_idx = Ok st) by (apply py_getitem_inv; eauto).
    rewrite Hget. cbn [rbind].
    destruct (trajectory st).
    + destruct (py_getitem_setitem states slave_idx st (set_trajectory None st) Hget)
        as (n' & _ & ->). cbn [rbind].
      apply IH. intros command Hc. rewrite length_insert. apply Hidx. right. exact Hc.
    + cbn [rbind]. apply IH. intros command Hc. apply Hidx. right. exact Hc.
Qed.

Lemma assign_trajectories_spec max_duration common_start_time trajectory_data :
  forall states states',
  assign_trajectories trajectory_data max_duration common_start_time states = Ok states' ->
  length states' = length states /\
  forall j st, states !! j = Some st ->
    states' !! j
    = Some (match last_plan (length states) trajectory_data j with
            | Some traj_info =>
                set_trajectory (Some (trajectory_of traj_info max_duration common_start_time)) st
            | None => st
            end).
Proof.
  induction trajectory_data as [|info rest IH]; intros states states' H; simpl in H.
  - inversion H; subst. split; [reflexivity|]. intros j st Hj. exact Hj.
  - apply rbind_ok in H as (st0 & Hget & H).
    apply rbind_ok in H as (states1 & Hset & H).
    apply py_getitem_inv in Hget as (n & Hn & Hst0).
    apply py_setitem_inv in Hset as (n' & Hn' & ->).
    rewrite Hn in Hn'. inversion Hn'; subst n'.
    apply IH in H as (Hlen & Hlook). rewrite length_insert in Hlen, Hlook.
    split; [exact Hlen|].
    intros j st Hj. cbn [last_plan]. unfold addresses. rewrite Hn.
    destruct (decide (n = j)) as [->|Hne].
    + rewrite Hj in Hst0. inversion Hst0; subst st0.
      rewrite bool_decide_eq_true_2 by reflexivity.
      erewrite Hlook by (apply list_lookup_insert_eq; eapply lookup_lt_Some; exact Hj).
      destruct (last_plan _ rest j); reflexivity.
    + rewrite bool_decide_eq_false_2 by exact Hne.
      erewrite Hlook by (rewrite list_lookup_insert_ne by exact Hne; exact Hj).
      destruct (last_plan _ rest j); reflexivity.
Qed.

Lemma assign_trajectories_total max_duration common_start_time trajectory_data :
  forall states,
  (forall traj_info, traj_info ∈ trajectory_data ->
     exists n, py_index (length states) (ti_slave_idx traj_info) = Ok n) ->
  exists states',
    assign_trajectories trajectory_data max_duration common_start_time states = Ok states'.
Proof.
  induction trajectory_data as [|info rest IH]; intros states Hidx; simpl.
  - eauto.
  - destruct (Hidx info) as (n & Hn); [left|].
    destruct (lookup_lt_is_Some_2 states n) as [st Hst]; [eapply py_index_lt; exact Hn|].
    assert (Hget : py_getitem states (ti_slave_idx info) = Ok st)
      by (apply py_getitem_inv; eauto).
    rewrite Hget. cbn [rbind].
    destruct (py_getitem_setitem states (ti_slave_idx info) st
                (set_trajectory
                   (Some {| traj_start := ti_current_pos info; traj_end := ti_target_pos info;
                            traj_duration := max_duration;
                            traj_start_time := common_start_time |}) st) Hget)
      as (n' & _ & ->). cbn [rbind].
    apply IH. intros info' Hin. rewrite length_insert. apply Hidx. right. exact Hin.
Qed.

(** What [plan_move] computes for one command. *)
Lemma plan_move_spec slave_configs slaves states slave_idx target_mm traj_info :
  plan_move slave_configs slaves states (slave_idx, target_mm) = Ok traj_info <->
  exists st slave relative duration,
    py_getitem states slave_idx = Ok st /\
    py_getitem slaves slave_idx = Ok slave /\
    mm_to_pulse target_mm (mm_per_rev_of (axis st)) = Ok relative /\
    move_duration (configured_velocity slave_configs slave_idx)
      (Z.abs (relative + offset st - _read_actual_position slave)) = Ok duration /\
    traj_info = {| ti_slave_idx := slave_idx; ti_target_mm := target_mm;
                   ti_current_pos := _read_actual_position slave;
                   ti_target_pos := relative + offset st;
                   ti_distance := Z.abs (relative + offset st - _read_actual_position slave);
                   ti_duration := duration |}.
Proof.
  unfold plan_move. split.
  - intros H.
    apply rbind_ok in H as (st & Hst & H).
    apply rbind_ok in H as (relative & Hrel & H).
    apply rbind_ok in H as (slave & Hs & H).
    apply rbind_ok in H as (duration & Hd & H).
    inversion H; subst; clear H.
    exists st, slave, relative, duration. auto 10.
  - intros (st & slave & relative & duration & Hst & Hs & Hrel & Hd & ->).
    rewrite Hst. cbn [rbind]. rewrite Hrel. cbn [rbind]. rewrite Hs. cbn [rbind].
    rewrite Hd. reflexivity.
Qed.

(** [plan_move] reads the axis tag and the offset of the motor state, and
    nothing else of it. *)
Lemma plan_move_ext slave_configs slaves states states1 command :
  length states1 = length states ->
  (forall j st, states !! j = Some st ->
     exists st1, states1 !! j = Some st1 /\ axis st1 = axis st /\ offset st1 = offset st) ->
  plan_move slave_configs slaves states1 command = plan_move slave_configs slaves states command.
Proof.
  intros Hlen Hsame. destruct command as [slave_idx target_mm].
  unfold plan_move, py_getitem at 1 3. rewrite Hlen.
  destruct (py_index (length states) slave_idx) as [n|e] eqn:Hn; [|reflexivity].
  cbn [rbind].
  destruct (states !! n) as [st|] eqn:Hst.
  - destruct (Hsame n st Hst) as (st1 & -> & Hax & Hoff). cbn [rbind].
    rewrite Hax, Hoff. reflexivity.
  - apply py_index_lt in Hn. apply lookup_ge_None in Hst. lia.
Qed.

Lemma map_result_ext {A B} (f g : A -> result B) (l : list A) :
  (forall a, f a = g a) -> map_result f l = map_result g l.
Proof.
  intros H. induction l as [|a l IH]; simpl; [reflexivity|]. rewrite H, IH. reflexivity.
Qed.

Lemma last_plan_commanded len commands trajectory_data j :
  Forall2 (fun command traj_info => ti_slave_idx traj_info = fst command)
    commands trajectory_data ->
  commanded len commands j
  = match last_plan len trajectory_data j with Some _ => true | None => false end.
Proof.
  induction 1 as [|command info commands data Hidx _ IH]; [reflexivity|].
  cbn [commanded existsb last_plan]. fold (commanded len commands j).
  rewrite IH, Hidx.
  destruct (last_plan len data j); [apply orb_true_r|].
  rewrite orb_false_r. destruct (addresses _ _ _); reflexivity.
Qed.

Lemma last_plan_elem len trajectory_data j traj_info :
  last_plan len trajectory_data j = Some traj_info ->
  traj_info ∈ trajectory_data /\ py_index len (ti_slave_idx traj_info) = Ok j.
Proof.
  induction trajectory_data as [|info rest IH]; simpl; [discriminate|].
  destruct (last_plan len rest j) as [later|].
  - intros H. inversion H; subst later. destruct (IH eq_refl) as [Hin Hidx].
    split; [right; exact Hin|exact Hidx].
  - destruct (addresses len (ti_slave_idx info) j) eqn:E; [|discriminate].
    intros H. inversion H; subst. split; [left|]. apply addresses_spec. exact E.
Qed.

(** The batch as a whole: when every command can be planned, the batch
    returns; every axis addressed by a command receives the trajectory of
    the last command that addresses it, with the common duration and start
    time; every other axis is left as it was. *)
Lemma start_batch_spec slave_configs slaves common_start_time commands states
    trajectory_data :
  commands <> [] ->
  map_result (plan_move slave_configs slaves states) commands = Ok trajectory_data ->
  exists max_duration states',
    batch_duration trajectory_data = Ok max_duration /\
    start_batch slave_configs slaves common_start_time commands states = Ok states' /\
    length states' = length states /\
    forall j st, states !! j = Some st ->
      states' !! j
      = Some (match last_plan (length states) trajectory_data j with
              | Some traj_info =>
                  set_trajectory
                    (Some (trajectory_of traj_info max_duration common_start_time)) st
              | None => st
              end).
Proof.
  intros Hne Hplan. pose proof Hplan as Hall. apply map_result_Forall2 in Hall.
  assert (Hidx : Forall2 (fun command info =>
                   ti_slave_idx info = fst command /\
                   exists n, py_index (length states) (fst command) = Ok n)
                 commands trajectory_data).
  { eapply Forall2_impl; [exact Hall|]. intros [slave_idx mm] info H.
    apply plan_move_spec in H as (st & slave & rel & dur & Hst & _ & _ & _ & ->).
    apply py_getitem_inv in Hst as (n & Hn & _). simpl. eauto. }
  destruct (cancel_trajectories_total commands states) as (states1 & Hcancel).
  { intros command Hc. apply list_elem_of_lookup_1 in Hc as (k & Hk).
    destruct (Forall2_lookup_l _ _ _ _ _ Hidx Hk) as (info & _ & _ & Hn). exact Hn. }
  destruct (cancel_trajectories_spec _ _ _ Hcancel) as (Hlen1 & Hlook1).
  assert (Hplan1 : map_result (plan_move slave_configs slaves states1) commands
                   = Ok trajectory_data).
  { rewrite <- Hplan. apply map_result_ext. intros command.
    apply plan_move_ext; [exact Hlen1|].
    intros j st Hj. rewrite (Hlook1 j st Hj). eexists. split; [reflexivity|].
    destruct (commanded _ _ _); split; reflexivity. }
  assert (Hdur : exists max_duration, batch_duration trajectory_data = Ok max_duration).
  { unfold batch_duration. destruct trajectory_data as [|info data].
    - inversion Hall; subst. contradiction.
    - simpl. eauto. }
  destruct Hdur as (max_duration & Hdur).
  destruct (assign_trajectories_total max_duration common_start_time trajectory_data states1)
    as (states' & Hassign).
  { intros info Hin. apply list_elem_of_lookup_1 in Hin as (k & Hk).
    destruct (Forall2_lookup_r _ _ _ _ _ Hidx Hk) as (command & _ & Heq & Hn).
    rewrite Hlen1, Heq. exact Hn. }
  destruct (assign_trajectories_spec _ _ _ _ _ Hassign) as (Hlen' & Hlook').
  exists max_duration, states'. split; [exact Hdur|]. split.
  { unfold start_batch. rewrite Hcancel. cbn [rbind]. rewrite Hplan1. cbn [rbind].
    rewrite Hdur. cbn [rbind]. exact Hassign. }
  split; [lia|].
  intros j st Hj. rewrite (Hlook' j _ (Hlook1 j st Hj)). rewrite Hlen1. f_equal.
  rewrite (last_plan_commanded (length states) commands trajectory_data j).
  - destruct (last_plan _ _ j); reflexivity.
  - eapply Forall2_impl; [exact Hidx|]. intros command info [H _]. exact H.
Qed.

(** Conversely, a batch that returns has planned every command. *)
Lemma start_batch_inv slave_configs slaves common_start_time commands states states' :
  start_batch slave_configs slaves common_start_time commands states = Ok states' ->
  exists trajectory_data,
    map_result (plan_move slave_configs slaves states) commands = Ok trajectory_data.
Proof.
  unfold start_batch. intros H.
  apply rbind_ok in H as (states1 & Hcancel & H).
  apply rbind_ok in H as (data & Hplan & _).
  destruct (cancel_trajectories_spec _ _ _ Hcancel) as (Hlen1 & Hlook1).
  exists data. rewrite <- Hplan. symmetry. apply map_result_ext. intros command.
  apply plan_move_ext; [exact Hlen1|].
  intros j st Hj. rewrite (Hlook1 j st Hj). eexists. split; [reflexivity|].
  destruct (commanded _ _ _); split; reflexivity.
Qed.

(** ** Durations *)

Lemma pos_not_zero v : (0 <? v)%float = true -> is_zero v = false.
Proof.
  unfold is_zero. rewrite ltb_spec, FloatAxioms.eqb_spec.
  change (Prim2SF 0) with (S754_zero false). change (Prim2SF zero) with (S754_zero false).
  destruct (Prim2SF v) as [s|s| |s m e]; try destruct s; cbn; try discriminate; reflexivity.
Qed.

Lemma move_duration_guard rpm distance :
  move_duration rpm distance
  = if (0 <? rpm / 60 * 8388608 * 2)%float then spec_duration rpm distance else Ok 1%float.
Proof.
  unfold move_duration, spec_duration.
  destruct (0 <? rpm / 60 * 8388608 * 2)%float eqn:E; [|reflexivity].
  destruct (py_float distance) as [d|e]; [|reflexivity]. cbn [rbind].
  unfold py_truediv. rewrite (pos_not_zero _ E). reflexivity.
Qed.

Lemma py_max_finite a b :
  finite a -> finite b ->
  finite (py_max a b) /\ (F2Q a <= F2Q (py_max a b))%Q /\ (F2Q b <= F2Q (py_max a b))%Q /\
  (py_max a b = a \/ py_max a b = b).
Proof.
  intros Ha Hb. unfold py_max. destruct (a <? b)%float eqn:E.
  - apply (ltb_finite a b Ha Hb) in E. repeat split; auto; lra.
  - assert (~ (F2Q a < F2Q b)%Q).
    { intros H. apply (ltb_finite a b Ha Hb) in H. congruence. }
    repeat split; auto; lra.
Qed.

Lemma fold_py_max_finite l : forall a,
  finite a -> Forall finite l ->
  finite (fold_left py_max l a) /\
  (F2Q a <= F2Q (fold_left py_max l a))%Q /\
  Forall (fun x => (F2Q x <= F2Q (fold_left py_max l a))%Q) l /\
  (fold_left py_max l a = a \/ fold_left py_max l a ∈ l).
Proof.
  induction l as [|b l IH]; intros a Ha Hl; simpl.
  - repeat split; auto; try lra. 
  - apply Forall_cons in Hl as [Hb Hl].
    destruct (py_max_finite a b Ha Hb) as (Hm & Hma & Hmb & Hcase).
    destruct (IH (py_max a b) Hm Hl) as (Hf & Hge & Hall & Hin).
    split; [exact Hf|]. split; [lra|]. split.
    + constructor; [lra|exact Hall].
    + destruct Hin as [Hin|Hin].
      * rewrite Hin. destruct Hcase as [->| ->]; [left; reflexivity|right; left].
      * right. right. exact Hin.
Qed.

Lemma batch_duration_finite trajectory_data max_duration :
  batch_duration trajectory_data = Ok max_duration ->
  Forall (fun traj_info => finite (ti_duration traj_info)) trajectory_data ->
  finite max_duration /\
  (F2Q min_duration <= F2Q max_duration)%Q /\
  Forall (fun traj_info => (F2Q (ti_duration traj_info) <= F2Q max_duration)%Q)
    trajectory_data /\
  (max_duration = min_duration \/
   exists traj_info, traj_info ∈ trajectory_data /\ max_duration = ti_duration traj_info).
Proof.
  unfold batch_duration. intros H Hfin.
  apply rbind_ok in H as (longest & Hl & H). inversion H; subst max_duration; clear H.
  destruct trajectory_data as [|info data]; [discriminate|].
  simpl in Hl. inversion Hl; subst longest; clear Hl.
  apply Forall_cons in Hfin as [Hinfo Hdata].
  assert (Hdata' : Forall finite (map ti_duration data)).
  { apply Forall_map. exact Hdata. }
  destruct (fold_py_max_finite _ _ Hinfo Hdata') as (Hf & Hge & Hall & Hin).
  set (longest := fold_left py_max (map ti_duration data) (ti_duration info)) in *.
  assert (Hmin : finite min_duration) by reflexivity.
  destruct (py_max_finite longest min_duration Hf Hmin) as (Hm & Hml & Hmm & Hcase).
  split; [exact Hm|]. split; [exact Hmm|]. split.
  - constructor; [lra|].
    pose proof (proj1 (Forall_map ti_duration
                         (fun x => (F2Q x <= F2Q longest)%Q) data) Hall) as Hall'.
    eapply Forall_impl; [exact Hall'|].
    intros x Hx. simpl in Hx. lra.
  - destruct Hcase as [->| ->]; [right|left; reflexivity].
    destruct Hin as [->|Hin].
    + exists info. split; [left|reflexivity].
    + apply list_elem_of_In, in_map_iff in Hin as (info' & <- & Hin').
      apply list_elem_of_In in Hin'.
      exists info'. split; [right; exact Hin'|reflexivity].
Qed.

Lemma configured_velocity_default slave_configs slave_idx :
  (slave_configs !! slave_idx = None \/
   exists cfg, slave_configs !! slave_idx = Some cfg /\ velocity cfg = None) ->
  configured_velocity slave_configs slave_idx = 60%float.
Proof.
  unfold configured_velocity. intros [->|(cfg & -> & ->)]; reflexivity.
Qed.

(** ** C5: the batch starts together *)

(** C5, amended. For a batch of move commands drained in one cycle, each of
    which can be planned: the batch returns; the trajectories of the
    commanded axes are dropped first; each command is planned from the actual
    position just read, its own target [int(...) + offset] and a natural
    duration that is [distance / (rpm / 60 * 8388608 * 2)] when that velocity
    is positive and [1.0] otherwise, the rpm being 60 when none is
    configured; the common duration is the larger of the longest natural
    duration and [0.1]; every commanded axis receives the trajectory of the
    last command that addresses it, from its actual position to the target
    of that command, with the common duration and the common start time;
    every other axis is left as it was. *)
Theorem C5_batch_co_start slave_configs slaves common_start_time commands states
    trajectory_data :
  commands <> [] ->
  map_result (plan_move slave_configs slaves states) commands = Ok trajectory_data ->
  exists max_duration longest states1 states',
    start_batch slave_configs slaves common_start_time commands states = Ok states' /\
    cancel_trajectories commands states = Ok states1 /\
    (forall j st1, states1 !! j = Some st1 ->
       commanded (length states) commands j = true -> trajectory st1 = None) /\
    Forall2 (fun command traj_info =>
       exists st slave relative,
         py_getitem states (fst command) = Ok st /\
         py_getitem slaves (fst command) = Ok slave /\
         mm_to_pulse (snd command) (mm_per_rev_of (axis st)) = Ok relative /\
         ti_slave_idx traj_info = fst command /\
         ti_current_pos traj_info = _read_actual_position slave /\
         ti_target_pos traj_info = relative + offset st /\
         let rpm := configured_velocity slave_configs (fst command) in
         let distance := Z.abs (ti_target_pos traj_info - ti_current_pos traj_info) in
         (if (0 <? rpm / 60 * 8388608 * 2)%float
          then spec_duration rpm distance else Ok 1%float) = Ok (ti_duration traj_info))
      commands trajectory_data /\
    (forall slave_idx,
       (slave_configs !! slave_idx = None \/
        exists cfg, slave_configs !! slave_idx = Some cfg /\ velocity cfg = None) ->
       configured_velocity slave_configs slave_idx = 60%float) /\
    py_max_seq (map ti_duration trajectory_data) = Ok longest /\
    max_duration = py_max longest min_duration /\
    (Forall (fun traj_info => finite (ti_duration traj_info)) trajectory_data ->
       (F2Q min_duration <= F2Q max_duration)%Q /\
       Forall (fun traj_info => (F2Q (ti_duration traj_info) <= F2Q max_duration)%Q)
         trajectory_data /\
       (max_duration = min_duration \/
        exists traj_info,
          traj_info ∈ trajectory_data /\ max_duration = ti_duration traj_info)) /\
    (forall j st, states !! j = Some st ->
       commanded (length states) commands j = true ->
       exists traj_info,
         traj_info ∈ trajectory_data /\
         py_index (length states) (ti_slave_idx traj_info) = Ok j /\
         last_plan (length states) trajectory_data j = Some traj_info /\
         states' !! j
         = Some (set_trajectory
                   (Some {| traj_start := ti_current_pos traj_info;
                            traj_end := ti_target_pos traj_info;
                            traj_duration := max_duration;
                            traj_start_time := common_start_time |}) st)) /\
    (forall j st, states !! j = Some st ->
       commanded (length states) commands j = false -> states' !! j = Some st).
Proof.
  intros Hne Hplan.
  destruct (start_batch_spec slave_configs slaves common_start_time commands states
              trajectory_data Hne Hplan) as (T & states' & Hdur & Hbatch & Hlen & Hlook).
  pose proof Hbatch as Hb. unfold start_batch in Hb.
  apply rbind_ok in Hb as (states1 & Hcancel & _).
  destruct (cancel_trajectories_spec _ _ _ Hcancel) as (Hlen1 & Hlook1).
  pose proof Hdur as Hd. unfold batch_duration in Hd.
  apply rbind_ok in Hd as (longest & Hlongest & Hd). inversion Hd as [HT]; clear Hd.
  pose proof Hplan as Hall. apply map_result_Forall2 in Hall.
  assert (Hidx : Forall2 (fun command traj_info => ti_slave_idx traj_info = fst command)
                   commands trajectory_data).
  { eapply Forall2_impl; [exact Hall|]. intros [slave_idx mm] info H.
    apply plan_move_spec in H as (st & slave & rel & dur & _ & _ & _ & _ & ->). reflexivity. }
  exists T, longest, states1, states'.
  split; [exact Hbatch|]. split; [exact Hcancel|]. split.
  { intros j st1 Hst1 Hc.
    assert (Hj : (j < length states)%nat) by (rewrite <- Hlen1; eapply lookup_lt_Some; eauto).
    destruct (lookup_lt_is_Some_2 states j Hj) as [st Hst].
    rewrite (Hlook1 j st Hst), Hc in Hst1. inversion Hst1; reflexivity. }
  split.
  { eapply Forall2_impl; [exact Hall|]. intros [slave_idx mm] info H.
    apply plan_move_spec in H as (st & slave & rel & dur & Hst & Hs & Hrel & Hmd & ->).
    exists st, slave, rel. cbn [fst snd ti_slave_idx ti_current_pos ti_target_pos ti_duration].
    rewrite <- move_duration_guard. auto 10. }
  split; [apply configured_velocity_default|].
  split; [exact Hlongest|]. split; [symmetry; exact HT|]. split.
  { intros Hfin. destruct (batch_duration_finite _ _ Hdur Hfin) as (_ & H1 & H2 & H3). auto. }
  split.
  - intros j st Hst Hc.
    rewrite (last_plan_commanded _ _ _ j Hidx) in Hc.
    specialize (Hlook j st Hst).
    destruct (last_plan (length states) trajectory_data j) as [info|] eqn:E; [|discriminate].
    destruct (last_plan_elem _ _ _ _ E) as [Hin Hn].
    exists info. auto.
  - intros j st Hst Hc.
    rewrite (last_plan_commanded _ _ _ j Hidx) in Hc.
    specialize (Hlook j st Hst).
    destruct (last_plan (length states) trajectory_data j); [discriminate|exact Hlook].
Qed.

Lemma C5_witness :
  let slaves := [ {| input_status := 0x0027; input_actual := 1000 |};
                  {| input_status := 0x0027; input_actual := -2000 |} ] in
  let states := [set_origin 1000 initial_motor_state; set_axis "z" initial_motor_state] in
  let commands := [(0, 100%float); (1, 50%float)] in
  exists max_duration states',
    start_batch ∅ slaves 101 commands states = Ok states' /\
    (F2Q min_duration <= F2Q max_duration)%Q /\
    states' !! 0%nat
    = Some (set_trajectory
              (Some {| traj_start := 1000; traj_end := 139819136;
                       traj_duration := max_duration; traj_start_time := 101 |})
              (set_origin 1000 initial_motor_state)) /\
    states' !! 1%nat
    = Some (set_trajectory
              (Some {| traj_start := -2000; traj_end := 139818136;
                       traj_duration := max_duration; traj_start_time := 101 |})
              (set_axis "z" initial_motor_state)).
Proof.
  intros slaves states commands.
  assert (Hne : commands <> []) by discriminate.
  destruct (map_result (plan_move ∅ slaves states) commands) as [data|e] eqn:Hplan;
    [|vm_compute in Hplan; discriminate Hplan].
  destruct (C5_batch_co_start ∅ slaves 101 commands states data Hne Hplan)
    as (T & longest & states1 & states' & Hbatch & _ & _ & _ & _ & _ & _ & Hord & Hcmd & _).
  vm_compute in Hplan. inversion Hplan; subst data; clear Hplan.
  exists T, states'. split; [exact Hbatch|]. split.
  { apply Hord. repeat constructor. }
  split.
  - destruct (Hcmd 0%nat (set_origin 1000 initial_motor_state) eq_refl eq_refl)
      as (info & _ & _ & Hlast & Hst).
    vm_compute in Hlast. inversion Hlast; subst info. exact Hst.
  - destruct (Hcmd 1%nat (set_axis "z" initial_motor_state) eq_refl eq_refl)
      as (info & _ & _ & Hlast & Hst).
    vm_compute in Hlast. inversion Hlast; subst info. exact Hst.
Defined.

(** C5 as stated fails for an axis configured with 0 rpm: the batch gives
    the trajectory the duration [1.0], whereas the quotient of the statement
    is a division by zero in Python, and infinite in binary64 arithmetic. *)
Lemma C5_counterexample :
  let slave_configs : gmap Z SlaveConfig :=
    {[ 0 := {| velocity := Some 0%float; accel := None |} ]} in
  let slaves := [ {| input_status := 0x0027; input_actual := 1000 |} ] in
  let states := [set_origin 1000 initial_motor_state] in
  configured_velocity slave_configs 0 = 0%float /\
  start_batch slave_configs slaves 101 [(0, 100%float)] states
  = Ok [set_trajectory
          (Some {| traj_start := 1000; traj_end := 139819136;
                   traj_duration := 1; traj_start_time := 101 |})
          (set_origin 1000 initial_motor_state)] /\
  spec_duration 0 (Z.abs (139819136 - 1000)) = Raise ZeroDivisionError /\
  py_max (139818136 / (0 / 60 * 8388608 * 2)) min_duration = infinity.
Proof.
  intros slave_configs slaves states.
  split; [reflexivity|]. split; [vm_compute; reflexivity|].
  split; vm_compute; reflexivity.
Qed.

(** ** Millimetres to pulses *)

Lemma truncates_unique q z z' : truncates q z -> truncates q z' -> z = z'.
Proof.
  intros H H'.
  pose proof (truncates_mono q q z z' H H' (Qle_refl q)).
  pose proof (truncates_mono q q z' z H' H (Qle_refl q)). lia.
Qed.

Lemma py_int_spec f z : py_int f = Ok z <-> finite f /\ truncates (F2Q f) z.
Proof.
  split.
  - intros H.
    assert (Hf : finite f).
    { unfold py_int in H. unfold finite.
      destruct (Prim2SF f); try discriminate H; reflexivity. }
    split; [exact Hf|].
    destruct (py_int_finite f Hf) as (z' & Hz' & Ht).
    rewrite H in Hz'. inversion Hz'; subst z'. exact Ht.
  - intros [Hf Ht]. destruct (py_int_finite f Hf) as (z' & Hz' & Ht').
    rewrite Hz'. f_equal. eapply truncates_unique; eassumption.
Qed.

(** The module constants are the doubles nearest to their decimal
    literals. *)
Lemma x_axis_mm_per_rev_literal :
  rounds_to (119993131404 # 10000000000) (Prim2SF x_axis_mm_per_rev).
Proof.
  change x_axis_mm_per_rev with (119993131404 / 10000000000)%float.
  apply div_correct.
  - reflexivity.
  - reflexivity.
  - vm_compute. discriminate.
  - vm_compute. reflexivity.
  - vm_compute. reflexivity.
Qed.

Lemma z_axis_mm_per_rev_literal :
  rounds_to (599965657019 # 100000000000) (Prim2SF z_axis_mm_per_rev).
Proof.
  change z_axis_mm_per_rev with (599965657019 / 100000000000)%float.
  apply div_correct.
  - reflexivity.
  - reflexivity.
  - vm_compute. discriminate.
  - vm_compute. reflexivity.
  - vm_compute. reflexivity.
Qed.

Lemma mm_per_rev_of_z a : a <> "x"%string -> mm_per_rev_of a = z_axis_mm_per_rev.
Proof.
  intros H. unfold mm_per_rev_of. destruct (String.eqb_spec a "x"); [contradiction|reflexivity].
Qed.

(** ** C9: millimetres are converted by truncation *)

(** C9, amended. For every move command that can be planned, the relative
    pulse target is [int(mm / mm_per_rev[axis] * 8388608 * 2)]: the binary64
    product, which is finite, truncated toward zero; the absolute target is
    that value plus the offset of the axis. The constant of the axis is the
    double nearest to 11.9993131404 for the tag ["x"] and the double
    nearest to 5.99965657019 for any other tag, and [COUNTS_PER_REV] is
    8388608. Conversely the conversion returns whenever the product is
    finite. *)
Theorem C9_mm_to_pulse_truncates slave_configs slaves states slave_idx target_mm traj_info :
  plan_move slave_configs slaves states (slave_idx, target_mm) = Ok traj_info ->
  exists st relative,
    py_getitem states slave_idx = Ok st /\
    mm_to_pulse target_mm (mm_per_rev_of (axis st)) = Ok relative /\
    finite (target_mm / mm_per_rev_of (axis st) * 8388608 * 2)%float /\
    truncates (F2Q (target_mm / mm_per_rev_of (axis st) * 8388608 * 2)%float) relative /\
    ti_target_pos traj_info = relative + offset st /\
    PULSES_PER_REVOLUTION = 8388608 /\
    mm_per_rev_of "x" = x_axis_mm_per_rev /\
    (forall tag, tag <> "x"%string -> mm_per_rev_of tag = z_axis_mm_per_rev) /\
    rounds_to (119993131404 # 10000000000) (Prim2SF x_axis_mm_per_rev) /\
    rounds_to (599965657019 # 100000000000) (Prim2SF z_axis_mm_per_rev) /\
    (forall mm mm_per_rev,
       finite (mm / mm_per_rev * 8388608 * 2)%float ->
       exists pulses, mm_to_pulse mm mm_per_rev = Ok pulses /\
         truncates (F2Q (mm / mm_per_rev * 8388608 * 2)%float) pulses).
Proof.
  intros H.
  apply plan_move_spec in H as (st & slave & rel & dur & Hst & _ & Hrel & _ & ->).
  exists st, rel. split; [exact Hst|]. split; [exact Hrel|].
  unfold mm_to_pulse in Hrel. apply py_int_spec in Hrel as [Hfin Htr].
  split; [exact Hfin|]. split; [exact Htr|]. split; [reflexivity|].
  split; [reflexivity|]. split; [reflexivity|]. split; [exact mm_per_rev_of_z|].
  split; [exact x_axis_mm_per_rev_literal|]. split; [exact z_axis_mm_per_rev_literal|].
  intros mm mm_per_rev Hf. unfold mm_to_pulse. apply py_int_finite. exact Hf.
Qed.

Lemma C9_witness :
  let slaves := [ {| input_status := 0x0027; input_actual := 1000 |} ] in
  let states := [set_origin 1000 initial_motor_state] in
  exists relative,
    mm_to_pulse 2 x_axis_mm_per_rev = Ok relative /\
    truncates (F2Q (2 / x_axis_mm_per_rev * 8388608 * 2)%float) relative /\
    relative = 2796362.
Proof.
  intros slaves states.
  destruct (plan_move ∅ slaves states (0, 2%float)) as [info|e] eqn:Hplan;
    [|vm_compute in Hplan; discriminate Hplan].
  destruct (C9_mm_to_pulse_truncates ∅ slaves states 0 2%float info Hplan)
    as (st & relative & Hst & Hrel & _ & Htr & _).
  vm_compute in Hst. inversion Hst; subst st.
  exists relative. split; [exact Hrel|]. split; [exact Htr|].
  vm_compute in Hrel. inversion Hrel. reflexivity.
Defined.

(** C9 as stated fails at 2 mm on the X axis: the product is
    2796362.7257..., which [int] truncates to 2796362 and [round] rounds to
    2796363; the trajectory ends at the truncated value. *)
Lemma C9_counterexample :
  mm_to_pulse 2 x_axis_mm_per_rev = Ok 2796362 /\
  spec_mm_to_pulse 2 x_axis_mm_per_rev = Ok 2796363 /\
  exists max_duration,
    start_batch ∅ [ {| input_status := 0x0027; input_actual := 0 |} ] 101
      [(0, 2%float)] [initial_motor_state]
    = Ok [set_trajectory
            (Some {| traj_start := 0; traj_end := 2796362;
                     traj_duration := max_duration; traj_start_time := 101 |})
            initial_motor_state].
Proof.
  split; [vm_compute; reflexivity|]. split; [vm_compute; reflexivity|].
  eexists. vm_compute. reflexivity.
Qed.

(** ** No trajectory starts outside a batch *)

Lemma no_new_trajectory_refl states : no_new_trajectory states states.
Proof. split; [reflexivity|]. intros j st' H. exists st'. auto. Qed.

Lemma no_new_trajectory_trans s1 s2 s3 :
  no_new_trajectory s1 s2 -> no_new_trajectory s2 s3 -> no_new_trajectory s1 s3.
Proof.
  intros [Hl12 H12] [Hl23 H23]. split; [lia|].
  intros j st3 H3. destruct (H23 j st3 H3) as (st2 & H2 & Hc2).
  destruct (H12 j st2 H2) as (st1 & H1 & Hc1).
  exists st1. split; [exact H1|].
  destruct Hc2 as [Hc2|Hc2]; [left; exact Hc2|].
  rewrite Hc2. exact Hc1.
Qed.

Lemma no_new_trajectory_map states states' :
  map trajectory states' = map trajectory states -> no_new_trajectory states states'.
Proof.
  intros H. split.
  - rewrite <- (length_map trajectory states'), H. apply length_map.
  - intros j st' Hj.
    assert (Hm : map trajectory states !! j = Some (trajectory st')).
    { rewrite <- H. change (map trajectory states') with (trajectory <$> states').
      rewrite list_lookup_fmap, Hj. reflexivity. }
    change (map trajectory states) with (trajectory <$> states) in Hm.
    rewrite list_lookup_fmap in Hm.
    destruct (states !! j) as [st|]; [|discriminate].
    inversion Hm. exists st. auto.
Qed.

Lemma no_new_trajectory_insert states i st st' :
  states !! i = Some st ->
  (trajectory st' = None \/ trajectory st' = trajectory st) ->
  no_new_trajectory states (<[i := st']> states).
Proof.
  intros Hi Hc. split; [apply length_insert|].
  intros j st1 Hj. destruct (decide (i = j)) as [<-|Hne].
  - rewrite list_lookup_insert_eq in Hj by (eapply lookup_lt_Some; exact Hi).
    inversion Hj; subst st1. exists st. auto.
  - rewrite list_lookup_insert_ne in Hj by exact Hne. exists st1. auto.
Qed.

Lemma no_new_trajectory_idle states states' :
  no_new_trajectory states states' -> all_idle states -> all_idle states'.
Proof.
  intros [_ H] Hidle. unfold all_idle in *. rewrite Forall_lookup in Hidle.
  apply Forall_lookup. intros j st' Hj.
  destruct (H j st' Hj) as (st & Hst & [Hc|Hc]); [exact Hc|].
  rewrite Hc. exact (Hidle j st Hst).
Qed.

Lemma for_each_no_new (body : nat -> list MotorState -> result (list MotorState)) :
  (forall i s s', body i s = Ok s' -> no_new_trajectory s s') ->
  forall idxs s s', for_each body idxs s = Ok s' -> no_new_trajectory s s'.
Proof.
  intros Hbody. induction idxs as [|i idxs IH]; intros s s' H; simpl in H.
  - inversion H. apply no_new_trajectory_refl.
  - apply rbind_ok in H as (s1 & H1 & H).
    eapply no_new_trajectory_trans; [eapply Hbody; exact H1|apply IH; exact H].
Qed.

Lemma fault_guard_no_new num_slaves slaves states states' :
  fault_guard num_slaves slaves states = Ok states' -> no_new_trajectory states states'.
Proof.
  unfold fault_guard. intros H. apply rbind_ok in H as (b & _ & H).
  destruct b; [|inversion H; apply no_new_trajectory_refl].
  revert H. apply for_each_no_new. clear. intros i s s' H.
  unfold fault_stop_axis in H. apply rbind_ok in H as (st & Hst & H).
  apply py_getitem_of_nat in Hst.
  destruct (trajectory st); [|inversion H; apply no_new_trajectory_refl].
  apply rbind_ok in H as (slave & _ & H).
  apply py_setitem_of_nat in H as [_ ->].
  eapply no_new_trajectory_insert; [exact Hst|left; reflexivity].
Qed.

Lemma sync_guard_no_new num_slaves thr slaves states flag states' flag' :
  sync_guard num_slaves thr slaves states flag = Ok (states', flag') ->
  no_new_trajectory states states' /\ (flag = true -> flag' = true).
Proof.
  unfold sync_guard. intros H.
  destruct ((2 <=? num_slaves)%nat && negb flag) eqn:E;
    [|inversion H; subst; split; [apply no_new_trajectory_refl|auto]].
  apply rbind_ok in H as (positions & _ & H).
  apply rbind_ok in H as (rel & _ & H).
  apply rbind_ok in H as (moving & _ & H).
  destruct moving; [|inversion H; subst; split; [apply no_new_trajectory_refl|auto]].
  apply rbind_ok in H as (tripped & _ & H).
  destruct tripped; [|inversion H; subst; split; [apply no_new_trajectory_refl|auto]].
  apply rbind_ok in H as (s' & H & Hr). inversion Hr; subst. split; [|reflexivity].
  revert H. apply for_each_no_new. clear. intros i s s' H.
  unfold sync_stop_axis in H. apply rbind_ok in H as (st & Hst & H).
  apply py_getitem_of_nat in Hst.
  destruct (trajectory st); [|inversion H; apply no_new_trajectory_refl].
  apply rbind_ok in H as (pos & _ & H).
  apply py_setitem_of_nat in H as [_ ->].
  eapply no_new_trajectory_insert; [exact Hst|left; reflexivity].
Qed.

Lemma control_loop_no_new libm_cos stride flag slaves now num_slaves acc c :
  for_each (control_slave libm_cos stride flag slaves now) (seq 0 num_slaves) acc = Ok c ->
  no_new_trajectory (ct_states acc) (ct_states c).
Proof.
  intros H.
  apply for_each_control_slave in H as (Hlen & Hout & frames & Hfr & Hflen & Hall);
    [|apply NoDup_seq].
  rewrite length_seq in Hflen. split; [exact Hlen|].
  intros j st' Hj. destruct (decide (j < num_slaves)%nat) as [Hlt|Hge].
  - destruct (lookup_lt_is_Some_2 frames j) as [frame Hframe]; [lia|].
    destruct (Hall j j frame) as (slave & st & st1 & _ & Hb & Hax & Hafter).
    { rewrite lookup_seq. split; [reflexivity|exact Hlt]. }
    { exact Hframe. }
    rewrite Hj in Hafter. inversion Hafter; subst st1.
    exists st. split; [exact Hb|].
    apply axis_control_trajectory in Hax as (Hc & _). exact Hc.
  - rewrite Hout in Hj by (rewrite elem_of_seq_0; exact Hge). exists st'. auto.
Qed.

(** ** The sync-error flag across cycles *)

Lemma command_phase_safe_sticky slave_configs env states d :
  keeps_sync_error (env_queue env) = true ->
  command_phase_safe slave_configs env states true = Ok d ->
  dr_sync_error d = true /\ dr_commands d = [] /\
  map trajectory (dr_states d) = map trajectory states.
Proof.
  unfold command_phase_safe. intros Hq H.
  apply rbind_ok in H as (d0 & Hd0 & H).
  destruct (drain_safe_sticky _ _ _ _ _ Hq Hd0) as [Hflag Hcmds].
  pose proof (drain_safe_trajectories _ _ _ _ _ _ Hd0) as Htraj.
  rewrite Hcmds in H. cbn [rbind] in H. inversion H; subst d; simpl. auto.
Qed.

Lemma control_phase_safe_no_new libm_cos num_slaves thr slaves now states flag shared c flag' :
  control_phase_safe libm_cos num_slaves thr slaves now states flag shared = Ok (c, flag') ->
  no_new_trajectory states (ct_states c) /\ (flag = true -> flag' = true).
Proof.
  unfold control_phase_safe. intros H.
  apply rbind_ok in H as ([states2 flag2] & Hsync & H).
  apply rbind_ok in H as (states3 & Hfault & H).
  apply rbind_ok in H as (c' & Hloop & H). inversion H; subst c' flag2; clear H.
  apply sync_guard_no_new in Hsync as [H12 Hflag].
  apply fault_guard_no_new in Hfault.
  apply control_loop_no_new in Hloop. simpl in Hloop.
  split; [|exact Hflag].
  eapply no_new_trajectory_trans; [exact H12|].
  eapply no_new_trajectory_trans; [exact Hfault|exact Hloop].
Qed.

(** One cycle with the flag up and no lowering command. *)
Lemma cycle_safe_sticky libm_cos num_slaves thr slave_configs env loop shared r :
  sync_error_detected loop = true ->
  keeps_sync_error (env_queue env) = true ->
  cycle_safe libm_cos num_slaves thr slave_configs env loop shared = Ok r ->
  sync_error_detected (cr_loop r) = true /\
  no_new_trajectory (local_motor_states loop) (local_motor_states (cr_loop r)).
Proof.
  unfold cycle_safe. intros Hflag Hq H. rewrite Hflag in H.
  apply rbind_ok in H as (d & Hd & H).
  apply command_phase_safe_sticky in Hd as (Hdflag & _ & Htraj); [|exact Hq].
  apply no_new_trajectory_map in Htraj.
  destruct (dr_running d); cbn [negb] in H.
  - apply rbind_ok in H as ([c flag'] & Hc & H). inversion H; subst r; simpl.
    rewrite Hdflag in Hc. apply control_phase_safe_no_new in Hc as [Hnew Hf].
    split; [apply Hf; reflexivity|].
    eapply no_new_trajectory_trans; [exact Htraj|exact Hnew].
  - inversion H; subst r; simpl. auto.
Qed.

Lemma run_safe_sticky libm_cos num_slaves thr slave_configs envs :
  forall loop shared loop' shared',
  sync_error_detected loop = true ->
  Forall (fun env => keeps_sync_error (env_queue env) = true) envs ->
  run_safe libm_cos num_slaves thr slave_configs envs loop shared = Ok (loop', shared') ->
  sync_error_detected loop' = true /\
  no_new_trajectory (local_motor_states loop) (local_motor_states loop').
Proof.
  induction envs as [|env envs IH]; intros loop shared loop' shared' Hflag Hq H; simpl in H.
  - inversion H; subst. split; [exact Hflag|apply no_new_trajectory_refl].
  - apply Forall_cons in Hq as [Hq Hqs].
    destruct (is_running loop).
    + apply rbind_ok in H as (r & Hr & H).
      destruct (cycle_safe_sticky _ _ _ _ _ _ _ _ Hflag Hq Hr) as [Hflag1 Hnew1].
      destruct (IH _ _ _ _ Hflag1 Hqs H) as [Hflag' Hnew'].
      split; [exact Hflag'|]. eapply no_new_trajectory_trans; eassumption.
    + inversion H; subst. split; [exact Hflag|apply no_new_trajectory_refl].
Qed.

(** With the flag down the drain keeps every [MOVE_TO_MM] up to the first
    [STOP_ALL]. *)
Lemma drain_safe_moves slaves queue :
  forall states cmds d,
  drain_safe slaves queue states false cmds = Ok d ->
  dr_commands d = cmds ++ moves_before_stop queue.
Proof.
  induction queue as [|[slave_idx cmd] queue IH]; intros states cmds d H; simpl in H.
  - inversion H; subst; simpl. rewrite app_nil_r. reflexivity.
  - destruct cmd; simpl; try (eapply IH; eassumption).
    + inversion H; subst; simpl. rewrite app_nil_r. reflexivity.
    + apply rbind_ok in H as (states' & _ & H). eapply IH; eassumption.
    + apply rbind_ok in H as (states' & _ & H). eapply IH; eassumption.
    + apply IH in H. rewrite H, <- app_assoc. reflexivity.
Qed.

(** ** C1: the sync-error flag is sticky *)

(** C1, amended. In the safe loop, while the sync-error flag is up and no
    [RESET_SYNC_ERROR] and no [SET_ORIGIN] is drained, the flag stays up over
    any number of cycles, every [MOVE_TO_MM] drained is dropped, and no
    trajectory is started. A [RESET_SYNC_ERROR], and a [SET_ORIGIN] alike,
    lowers the flag; with the flag down every [MOVE_TO_MM] drained is kept
    and, when the batch can be planned, each commanded axis receives a
    fresh trajectory that starts at the common start time of the cycle. *)
Theorem C1_sync_error_sticky libm_cos num_slaves max_sync_error_pulse slave_configs :
  (forall envs loop shared loop' shared',
     sync_error_detected loop = true ->
     Forall (fun env => keeps_sync_error (env_queue env) = true) envs ->
     run_safe libm_cos num_slaves max_sync_error_pulse slave_configs envs loop shared
     = Ok (loop', shared') ->
     sync_error_detected loop' = true /\
     no_new_trajectory (local_motor_states loop) (local_motor_states loop')) /\
  (forall env states d,
     keeps_sync_error (env_queue env) = true ->
     command_phase_safe slave_configs env states true = Ok d ->
     dr_sync_error d = true /\ dr_commands d = [] /\
     map trajectory (dr_states d) = map trajectory states) /\
  (forall slaves slave_idx queue states flag cmds,
     drain_safe slaves ((slave_idx, RESET_SYNC_ERROR) :: queue) states flag cmds
     = drain_safe slaves queue states false cmds) /\
  (forall slaves slave_idx queue states states1 flag cmds,
     do_set_origin slaves states slave_idx = Ok states1 ->
     drain_safe slaves ((slave_idx, SET_ORIGIN) :: queue) states flag cmds
     = drain_safe slaves queue states1 false cmds) /\
  (forall env states d0 trajectory_data,
     drain_safe (env_slaves_before env) (env_queue env) states false [] = Ok d0 ->
     moves_before_stop (env_queue env) <> [] ->
     map_result (plan_move slave_configs (env_slaves_before env) (dr_states d0))
       (moves_before_stop (env_queue env)) = Ok trajectory_data ->
     exists d max_duration,
       command_phase_safe slave_configs env states false = Ok d /\
       dr_sync_error d = false /\
       dr_commands d = moves_before_stop (env_queue env) /\
       forall j st, dr_states d0 !! j = Some st ->
         commanded (length (dr_states d0)) (dr_commands d) j = true ->
         exists traj_info,
           traj_info ∈ trajectory_data /\
           dr_states d !! j
           = Some (set_trajectory
                     (Some {| traj_start := ti_current_pos traj_info;
                              traj_end := ti_target_pos traj_info;
                              traj_duration := max_duration;
                              traj_start_time := env_common_start_time env |}) st)).
Proof.
  split; [intros envs loop shared loop' shared'; apply run_safe_sticky|].
  split; [intros env states d; apply command_phase_safe_sticky|].
  split; [reflexivity|].
  split; [intros slaves slave_idx queue states states1 flag cmds H; simpl; rewrite H;
          reflexivity|].
  intros env states d0 data Hd0 Hne Hplan.
  pose proof (drain_safe_moves _ _ _ _ _ Hd0) as Hcmds. simpl in Hcmds.
  pose proof (drain_safe_flag_down _ _ _ _ _ Hd0) as Hflag.
  destruct (start_batch_spec slave_configs (env_slaves_before env) (env_common_start_time env)
              (moves_before_stop (env_queue env)) (dr_states d0) data Hne Hplan)
    as (T & states' & _ & Hbatch & _ & Hlook).
  exists {| dr_states := states'; dr_running := dr_running d0; dr_sync_error := false;
            dr_commands := moves_before_stop (env_queue env) |}, T.
  split.
  { unfold command_phase_safe. rewrite Hd0. cbn [rbind]. rewrite Hcmds, Hflag. cbn [negb].
    destruct (moves_before_stop (env_queue env)) as [|command rest];
      [exfalso; apply Hne; reflexivity|].
    rewrite Hbatch. reflexivity. }
  cbn [dr_sync_error dr_commands dr_states].
  split; [reflexivity|]. split; [reflexivity|].
  intros j st Hst Hc. specialize (Hlook j st Hst).
  assert (Hidx : Forall2 (fun command traj_info => ti_slave_idx traj_info = fst command)
                   (moves_before_stop (env_queue env)) data).
  { apply map_result_Forall2 in Hplan. eapply Forall2_impl; [exact Hplan|].
    intros [slave_idx mm] info H.
    apply plan_move_spec in H as (st0 & slave & rel & dur & _ & _ & _ & _ & ->). reflexivity. }
  rewrite (last_plan_commanded _ _ _ j Hidx) in Hc.
  destruct (last_plan (length (dr_states d0)) data j) as [info|] eqn:E; [|discriminate].
  exists info. split; [|exact Hlook].
  apply last_plan_elem in E as [Hin _]. exact Hin.
Qed.

Lemma C1_witness :
  let slaves := [ {| input_status := 0x0027; input_actual := 1000 |};
                  {| input_status := 0x0027; input_actual := 1200 |} ] in
  let env queue := {| env_queue := queue; env_slaves_before := slaves;
                      env_slaves_after := slaves; env_common_start_time := 101;
                      env_now := fun _ => 101%float |} in
  let states := [initial_motor_state; initial_motor_state] in
  let loop := {| local_motor_states := states; is_running := true;
                 sync_error_detected := true; cycle_counter := 7 |} in
  (exists loop' shared',
     run_safe cos_steps 2 1398181 ∅
       [env [(0, MOVE_TO_MM 10)]; env [(1, MOVE_TO_MM 20); (0, SET_AXIS "z")]]
       loop (replicate 10 0%float) = Ok (loop', shared') /\
     sync_error_detected loop' = true /\
     no_new_trajectory states (local_motor_states loop')) /\
  (exists d max_duration,
     command_phase_safe ∅ (env [(0, RESET_SYNC_ERROR); (0, MOVE_TO_MM 10)]) states true
     = Ok d /\
     dr_sync_error d = false /\
     dr_states d !! 0%nat
     = Some (set_trajectory
               (Some {| traj_start := 1000; traj_end := 13981813;
                        traj_duration := max_duration; traj_start_time := 101 |})
               initial_motor_state)).
Proof.
  intros slaves env states loop.
  destruct (C1_sync_error_sticky cos_steps 2 1398181 ∅)
    as (Hrun & _ & Hreset & _ & Hmove).
  split.
  - destruct (run_safe cos_steps 2 1398181 ∅
                [env [(0, MOVE_TO_MM 10)]; env [(1, MOVE_TO_MM 20); (0, SET_AXIS "z")]]
                loop (replicate 10 0%float)) as [[loop' shared']|e] eqn:E;
      [|vm_compute in E; discriminate E].
    exists loop', shared'. split; [reflexivity|].
    refine (Hrun _ loop (replicate 10 0%float) loop' shared' eq_refl _ E).
    repeat constructor.
  - destruct (map_result (plan_move ∅ slaves states) [(0, 10%float)]) as [data|e] eqn:Hplan;
      [|vm_compute in Hplan; discriminate Hplan].
    destruct (Hmove (env [(0, MOVE_TO_MM 10)]) states
                {| dr_states := states; dr_running := true; dr_sync_error := false;
                   dr_commands := [(0, 10%float)] |} data eq_refl)
      as (d & T & Hd & Hflag & Hcmds & Hlook); [discriminate|exact Hplan|].
    exists d, T. split; [exact Hd|]. split; [exact Hflag|].
    destruct (Hlook 0%nat initial_motor_state eq_refl) as (info & Hin & Hst).
    { rewrite Hcmds. reflexivity. }
    vm_compute in Hplan. inversion Hplan; subst data; clear Hplan.
    apply list_elem_of_singleton in Hin. subst info. exact Hst.
Defined.

(** C1 as stated fails: with the flag up and no [RESET_SYNC_ERROR] in the
    queue, a [SET_ORIGIN] followed by a [MOVE_TO_MM] starts a trajectory. *)
Lemma C1_counterexample :
  let slaves := [ {| input_status := 0x0027; input_actual := 1000 |};
                  {| input_status := 0x0027; input_actual := 1200 |} ] in
  let queue := [(0, SET_ORIGIN); (0, MOVE_TO_MM 10)] in
  let env := {| env_queue := queue; env_slaves_before := slaves;
                env_slaves_after := slaves; env_common_start_time := 101;
                env_now := fun _ => 101%float |} in
  no_reset_sync_error queue = true /\
  exists d max_duration,
    command_phase_safe ∅ env [initial_motor_state; initial_motor_state] true = Ok d /\
    dr_sync_error d = false /\
    dr_commands d = [(0, 10%float)] /\
    dr_states d !! 0%nat
    = Some (set_trajectory
              (Some {| traj_start := 1000; traj_end := 13982813;
                       traj_duration := max_duration; traj_start_time := 101 |})
              (set_origin 1000 initial_motor_state)).
Proof.
  intros slaves queue env. split; [reflexivity|].
  eexists _, _. split; [vm_compute; reflexivity|].
  split; [reflexivity|]. split; reflexivity.
Qed.

(** ** Order and binary64 operations *)

Lemma SF2Q_inj x y :
  valid_binary x = true -> valid_binary y = true ->
  SFfinite x = true -> SFfinite y = true ->
  (SF2Q x == SF2Q y)%Q -> ~ (SF2Q x == 0)%Q -> x = y.
Proof.
  intros Hvx Hvy Hfx Hfy Heq Hnz.
  destruct x as [sx|sx| |sx mx ex]; try discriminate Hfx.
  { exfalso. apply Hnz. apply SF2Q_zero. }
  destruct y as [sy|sy| |sy my ey]; try discriminate Hfy.
  { exfalso. apply Hnz. rewrite Heq. apply SF2Q_zero. }
  rewrite !SF2Q_finite in Heq.
  pose proof (mag_pos mx ex) as Hx. pose proof (mag_pos my ey) as Hy.
  destruct (valid_finite_canonical _ _ _ Hvx) as [Hcx _].
  destruct (valid_finite_canonical _ _ _ Hvy) as [Hcy _].
  pose proof (mag_compare_spec mx ex my ey Hcx Hcy) as Hcmp. cbv zeta in Hcmp.
  assert (Hs : sx = sy).
  { destruct sx, sy; simpl in Heq; try reflexivity; exfalso; lra. }
  subst sy.
  assert (Hm : (inject_Z (Z.pos mx) * bpow ex == inject_Z (Z.pos my) * bpow ey)%Q).
  { destruct sx; simpl in Heq; lra. }
  unfold mag_compare in Hcmp.
  destruct (Z.compare ex ey) eqn:Ee; try (exfalso; lra).
  apply Z.compare_eq in Ee. subst ey.
  destruct (Pos.compare_cont Eq mx my) eqn:Em; try (exfalso; lra).
  apply Pos.compare_eq in Em. subst my. reflexivity.
Qed.

Lemma F2Q_inj x y :
  finite x -> finite y -> (F2Q x == F2Q y)%Q -> ~ (F2Q x == 0)%Q -> x = y.
Proof.
  intros Hx Hy Heq Hnz. apply Prim2SF_inj.
  apply SF2Q_inj; try assumption; apply Prim2SF_valid.
Qed.

Lemma binary64_float f : finite f -> is_binary64 (F2Q f).
Proof. intros H. exists (Prim2SF f). split; [apply Prim2SF_valid|]. split; [exact H|reflexivity]. Qed.

Lemma binary64_Z z : Z.abs z <= 2 ^ 53 -> is_binary64 (inject_Z z).
Proof. apply representable_Z. Qed.

Lemma rounds_to_exact' x r : rounds_to x r -> is_binary64 x -> (SF2Q r == x)%Q.
Proof. intros Hr (g & Hv & Hf & Hg). eapply rounds_to_exact; eassumption. Qed.

Lemma rounds_to_le' x r b : rounds_to x r -> is_binary64 b -> (x <= b)%Q -> (SF2Q r <= b)%Q.
Proof.
  intros Hr (g & Hv & Hf & Hg) Hle. rewrite <- Hg.
  eapply rounds_to_le; try eassumption. rewrite Hg. exact Hle.
Qed.

Lemma rounds_to_ge' x r a : rounds_to x r -> is_binary64 a -> (a <= x)%Q -> (a <= SF2Q r)%Q.
Proof.
  intros Hr (g & Hv & Hf & Hg) Hle. rewrite <- Hg.
  eapply rounds_to_ge; try eassumption. rewrite Hg. exact Hle.
Qed.

(** A correctly rounded operation is monotone where the exact operation is
    increasing, or constant with a value that needs no rounding. *)
Lemma rounded_mono (f : float -> float) (F : Q -> Q) x y :
  (forall a b, (a == b)%Q -> (F a == F b)%Q) ->
  finite x -> finite y ->
  rounds_to (F (F2Q x)) (Prim2SF (f x)) ->
  rounds_to (F (F2Q y)) (Prim2SF (f y)) ->
  (F2Q x <= F2Q y)%Q ->
  ((F2Q x < F2Q y)%Q ->
   (F (F2Q x) < F (F2Q y))%Q \/ ((F (F2Q x) == F (F2Q y))%Q /\ is_binary64 (F (F2Q x)))) ->
  is_binary64 (F 0%Q) ->
  (F2Q (f x) <= F2Q (f y))%Q.
Proof.
  intros HF Hx Hy Hrx Hry Hle Hstep H0.
  destruct (Qlt_le_dec (F2Q x) (F2Q y)) as [Hlt|Hge].
  - destruct (Hstep Hlt) as [Hs|[He Hex]].
    + eapply rounds_to_mono; eassumption.
    + unfold F2Q. rewrite (rounds_to_exact' _ _ Hrx Hex).
      rewrite (rounds_to_exact' _ _ Hry); [rewrite He; apply Qle_refl|].
      destruct Hex as (g & Hv & Hf & Hg). exists g. rewrite <- He. auto.
  - assert (Heq : (F2Q x == F2Q y)%Q) by lra.
    destruct (Qeq_dec (F2Q x) 0) as [Hz|Hnz].
    + assert (Hzy : (F2Q y == 0)%Q) by lra.
      assert (Hex : is_binary64 (F (F2Q x))).
      { destruct H0 as (g & Hv & Hf & Hg). exists g. rewrite (HF _ _ Hz). auto. }
      assert (Hey : is_binary64 (F (F2Q y))).
      { destruct H0 as (g & Hv & Hf & Hg). exists g. rewrite (HF _ _ Hzy). auto. }
      unfold F2Q. rewrite (rounds_to_exact' _ _ Hrx Hex), (rounds_to_exact' _ _ Hry Hey).
      rewrite (HF _ _ Heq). apply Qle_refl.
    + rewrite (F2Q_inj x y Hx Hy Heq Hnz). apply Qle_refl.
Qed.

Lemma rounded_anti (f : float -> float) (F : Q -> Q) x y :
  (forall a b, (a == b)%Q -> (F a == F b)%Q) ->
  finite x -> finite y ->
  rounds_to (F (F2Q x)) (Prim2SF (f x)) ->
  rounds_to (F (F2Q y)) (Prim2SF (f y)) ->
  (F2Q x <= F2Q y)%Q ->
  ((F2Q x < F2Q y)%Q ->
   (F (F2Q y) < F (F2Q x))%Q \/ ((F (F2Q x) == F (F2Q y))%Q /\ is_binary64 (F (F2Q x)))) ->
  is_binary64 (F 0%Q) ->
  (F2Q (f y) <= F2Q (f x))%Q.
Proof.
  intros HF Hx Hy Hrx Hry Hle Hstep H0.
  destruct (Qlt_le_dec (F2Q x) (F2Q y)) as [Hlt|Hge].
  - destruct (Hstep Hlt) as [Hs|[He Hex]].
    + eapply rounds_to_mono; eassumption.
    + unfold F2Q. rewrite (rounds_to_exact' _ _ Hrx Hex).
      rewrite (rounds_to_exact' _ _ Hry); [rewrite He; apply Qle_refl|].
      destruct Hex as (g & Hv & Hf & Hg). exists g. rewrite <- He. auto.
  - assert (Heq : (F2Q x == F2Q y)%Q) by lra.
    destruct (Qeq_dec (F2Q x) 0) as [Hz|Hnz].
    + assert (Hzy : (F2Q y == 0)%Q) by lra.
      assert (Hex : is_binary64 (F (F2Q x))).
      { destruct H0 as (g & Hv & Hf & Hg). exists g. rewrite (HF _ _ Hz). auto. }
      assert (Hey : is_binary64 (F (F2Q y))).
      { destruct H0 as (g & Hv & Hf & Hg). exists g. rewrite (HF _ _ Hzy). auto. }
      unfold F2Q. rewrite (rounds_to_exact' _ _ Hrx Hex), (rounds_to_exact' _ _ Hry Hey).
      rewrite (HF _ _ Heq). apply Qle_refl.
    + rewrite (F2Q_inj x y Hx Hy Heq Hnz). apply Qle_refl.
Qed.

Lemma binary64_0 : is_binary64 0%Q.
Proof. exists (S754_zero false). repeat split. Qed.

Lemma small_lt_bpow q : (Qabs q <= bpow 60)%Q -> (Qabs q < bpow 1023)%Q.
Proof.
  intros H. eapply Qle_lt_trans; [exact H|]. apply bpow_lt. lia.
Qed.

Lemma Qabs_le_of a q : (- a <= q)%Q -> (q <= a)%Q -> (Qabs q <= a)%Q.
Proof. intros H1 H2. apply Qabs_Qle_condition. split; assumption. Qed.

Lemma F2Q_0 : (F2Q 0 == 0)%Q.
Proof. vm_compute. reflexivity. Qed.

Lemma F2Q_1 : (F2Q 1 == 1)%Q.
Proof. vm_compute. reflexivity. Qed.

Lemma F2Q_2 : (F2Q 2 == 2)%Q.
Proof. vm_compute. reflexivity. Qed.

Lemma F2Q_m1 : (F2Q (-1) == - (1))%Q.
Proof. vm_compute. reflexivity. Qed.

Lemma F2Q_pi : (3 <= F2Q math_pi /\ F2Q math_pi <= 4)%Q.
Proof. split; vm_compute; discriminate. Qed.

Lemma bpow_60 : (bpow 60 == 1152921504606846976)%Q.
Proof. vm_compute. reflexivity. Qed.

(** ** The raised-cosine setpoint *)

Section Interpolation.

Variable libm_cos : float -> float.
Hypothesis cos_range : cos_in_range libm_cos.

Lemma progress_bounds p :
  is_progress p -> finite p /\ (0 <= F2Q p)%Q /\ (F2Q p <= 1)%Q.
Proof.
  intros [H0 H1].
  assert (Hf : finite p) by (apply (leb_between 0 p 1); [reflexivity|reflexivity|exact H0|exact H1]).
  split; [exact Hf|].
  apply leb_finite in H0; [|reflexivity|exact Hf].
  apply leb_finite in H1; [|exact Hf|reflexivity].
  rewrite F2Q_0 in H0. rewrite F2Q_1 in H1. auto.
Qed.

(** The argument of the cosine. *)
Lemma angle_spec p :
  is_progress p ->
  rounds_to (F2Q math_pi * F2Q p) (Prim2SF (math_pi * p)) /\
  finite (math_pi * p) /\
  (0 <=? math_pi * p)%float = true /\ (math_pi * p <=? math_pi)%float = true.
Proof.
  intros Hp. destruct (progress_bounds p Hp) as (Hf & H0 & H1).
  pose proof F2Q_pi as [Hpi3 Hpi4].
  assert (Hr : rounds_to (F2Q math_pi * F2Q p) (Prim2SF (math_pi * p))).
  { apply mul_correct; [reflexivity|exact Hf|].
    apply small_lt_bpow. rewrite bpow_60. apply Qabs_le_of; nra. }
  pose proof (rounds_to_finite _ _ Hr) as Hfx.
  split; [exact Hr|]. split; [exact Hfx|]. split.
  - apply leb_finite; [reflexivity|exact Hfx|]. rewrite F2Q_0.
    apply (rounds_to_ge' _ _ 0 Hr binary64_0). nra.
  - apply leb_finite; [exact Hfx|reflexivity|].
    apply (rounds_to_le' _ _ _ Hr (binary64_float math_pi eq_refl)). nra.
Qed.

(** [math.cos] returns on the argument, within [-1, 1]. *)
Lemma math_cos_spec p :
  is_progress p ->
  math_cos libm_cos (math_pi * p) = Ok (libm_cos (math_pi * p)) /\
  finite (libm_cos (math_pi * p)) /\
  (- (1) <= F2Q (libm_cos (math_pi * p)))%Q /\ (F2Q (libm_cos (math_pi * p)) <= 1)%Q.
Proof.
  intros Hp. destruct (angle_spec p Hp) as (_ & Hfx & _).
  destruct (cos_range _ Hfx) as [Hlo Hhi].
  assert (Hfc : finite (libm_cos (math_pi * p)))
    by (apply (leb_between (-1) _ 1); [reflexivity|reflexivity|exact Hlo|exact Hhi]).
  split.
  - unfold math_cos. rewrite (finite_not_nan _ Hfc), (finite_not_infinity _ Hfc). reflexivity.
  - split; [exact Hfc|].
    apply leb_finite in Hlo; [|reflexivity|exact Hfc].
    apply leb_finite in Hhi; [|exact Hfc|reflexivity].
    rewrite F2Q_m1 in Hlo. rewrite F2Q_1 in Hhi. auto.
Qed.

(** [smooth_progress = (1 - c) / 2] for a cosine [c] within [-1, 1]. *)
Lemma smooth_spec c :
  finite c -> (- (1) <= F2Q c)%Q -> (F2Q c <= 1)%Q ->
  rounds_to (1 - F2Q c) (Prim2SF (1 - c)) /\
  finite (1 - c) /\
  rounds_to (F2Q (1 - c) * (1 # 2)) (Prim2SF ((1 - c) / 2)) /\
  finite ((1 - c) / 2) /\
  (0 <= F2Q ((1 - c) / 2))%Q /\ (F2Q ((1 - c) / 2) <= 1)%Q.
Proof.
  intros Hfc Hlo Hhi.
  assert (Hd : rounds_to (1 - F2Q c) (Prim2SF (1 - c))).
  { eapply rounds_to_ext; [|apply sub_correct; [reflexivity|exact Hfc|]].
    - rewrite F2Q_1. reflexivity.
    - apply small_lt_bpow. rewrite bpow_60, F2Q_1. apply Qabs_le_of; lra. }
  pose proof (rounds_to_finite _ _ Hd) as Hfd.
  assert (Hd0 : (0 <= F2Q (1 - c))%Q) by (apply (rounds_to_ge' _ _ 0 Hd binary64_0); lra).
  assert (Hd2 : (F2Q (1 - c) <= 2)%Q).
  { apply (rounds_to_le' _ _ 2 Hd); [|lra].
    exists (Prim2SF 2). split; [apply Prim2SF_valid|]. split; [reflexivity|exact F2Q_2]. }
  assert (Hs : rounds_to (F2Q (1 - c) * (1 # 2)) (Prim2SF ((1 - c) / 2))).
  { apply div_correct; [exact Hfd|reflexivity| | |].
    - rewrite F2Q_2. discriminate.
    - rewrite F2Q_2. lra.
    - apply small_lt_bpow. rewrite bpow_60. apply Qabs_le_of; lra. }
  pose proof (rounds_to_finite _ _ Hs) as Hfs.
  split; [exact Hd|]. split; [exact Hfd|]. split; [exact Hs|]. split; [exact Hfs|]. split.
  - apply (rounds_to_ge' _ _ 0 Hs binary64_0). lra.
  - apply (rounds_to_le' _ _ 1 Hs); [|lra].
    exists (Prim2SF 1). split; [apply Prim2SF_valid|]. split; [reflexivity|exact F2Q_1].
Qed.

End Interpolation.

Section Setpoint.

Variables (start_f span_f : float) (start_z end_z : Z).
Hypothesis start_finite : finite start_f.
Hypothesis span_finite : finite span_f.
Hypothesis start_value : (F2Q start_f == inject_Z start_z)%Q.
Hypothesis span_value : (F2Q span_f == inject_Z (end_z - start_z))%Q.
Hypothesis start_small : Z.abs start_z <= 2 ^ 52.
Hypothesis end_small : Z.abs end_z <= 2 ^ 52.

Lemma inject_Z_bounds z b : Z.abs z <= b -> (- inject_Z b <= inject_Z z <= inject_Z b)%Q.
Proof.
  intros H. rewrite <- inject_Z_opp. split; apply inject_Z_le; lia.
Qed.

(** [start + (end - start) * smooth_progress] for a smooth progress within
    [0, 1]: both operations are correctly rounded, and the result lies
    between the start and the end. *)
Lemma blend_spec s :
  finite s -> (0 <= F2Q s)%Q -> (F2Q s <= 1)%Q ->
  rounds_to (F2Q span_f * F2Q s) (Prim2SF (span_f * s)) /\
  finite (span_f * s) /\
  rounds_to (F2Q start_f + F2Q (span_f * s)) (Prim2SF (start_f + span_f * s)) /\
  finite (start_f + span_f * s) /\
  (inject_Z (Z.min start_z end_z) <= F2Q (start_f + span_f * s))%Q /\
  (F2Q (start_f + span_f * s) <= inject_Z (Z.max start_z end_z))%Q.
Proof.
  intros Hfs Hs0 Hs1.
  pose proof (inject_Z_bounds _ _ start_small) as Hsb.
  pose proof (inject_Z_bounds _ _ end_small) as Heb.
  change (inject_Z (2 ^ 52)) with 4503599627370496%Q in Hsb, Heb.
  assert (Hspan : (F2Q span_f == inject_Z end_z - inject_Z start_z)%Q).
  { rewrite span_value. unfold Z.sub. rewrite inject_Z_plus, inject_Z_opp. reflexivity. }
  set (S := inject_Z start_z) in *. set (E := inject_Z end_z) in *.
  assert (Ht : rounds_to (F2Q span_f * F2Q s) (Prim2SF (span_f * s))).
  { apply mul_correct; [exact span_finite|exact Hfs|].
    apply small_lt_bpow. rewrite bpow_60. apply Qabs_le_of; nra. }
  pose proof (rounds_to_finite _ _ Ht) as Hft.
  assert (Hspan64 : is_binary64 (F2Q span_f)) by (apply binary64_float; exact span_finite).
  assert (Htb : ((0 <= E - S -> 0 <= F2Q (span_f * s) <= E - S) /\
                 (E - S <= 0 -> E - S <= F2Q (span_f * s) <= 0))%Q).
  { split; intros Hd; split.
    - apply (rounds_to_ge' _ _ 0 Ht binary64_0). nra.
    - rewrite <- Hspan. apply (rounds_to_le' _ _ _ Ht Hspan64). nra.
    - rewrite <- Hspan. apply (rounds_to_ge' _ _ _ Ht Hspan64). nra.
    - apply (rounds_to_le' _ _ 0 Ht binary64_0). nra. }
  destruct Htb as [Hup Hdown].
  assert (Hr : rounds_to (F2Q start_f + F2Q (span_f * s)) (Prim2SF (start_f + span_f * s))).
  { apply add_correct; [exact start_finite|exact Hft|].
    apply small_lt_bpow. rewrite bpow_60, start_value. fold S.
    destruct (Qlt_le_dec (E - S) 0) as [Hneg|Hpos].
    - assert (Hn : (E - S <= 0)%Q) by lra. specialize (Hdown Hn). apply Qabs_le_of; lra.
    - specialize (Hup Hpos). apply Qabs_le_of; lra. }
  pose proof (rounds_to_finite _ _ Hr) as Hfr.
  split; [exact Ht|]. split; [exact Hft|]. split; [exact Hr|]. split; [exact Hfr|].
  assert (HS64 : is_binary64 S) by (apply binary64_Z; lia).
  assert (HE64 : is_binary64 E) by (apply binary64_Z; lia).
  assert (Hr' : rounds_to (S + F2Q (span_f * s)) (Prim2SF (start_f + span_f * s))).
  { eapply rounds_to_ext; [|exact Hr]. rewrite start_value. reflexivity. }
  clear Hr. rename Hr' into Hr.
  destruct (Z.le_ge_cases start_z end_z) as [Hle|Hge].
  - rewrite Z.min_l, Z.max_r by lia. fold S E.
    assert (Hd : (0 <= E - S)%Q).
    { unfold S, E. apply inject_Z_le in Hle. lra. }
    specialize (Hup Hd). split.
    + apply (rounds_to_ge' _ _ _ Hr HS64). lra.
    + apply (rounds_to_le' _ _ _ Hr HE64). lra.
  - rewrite Z.min_r, Z.max_l by lia. fold S E.
    assert (Hd : (E - S <= 0)%Q).
    { unfold S, E. apply inject_Z_le in Hge. lra. }
    specialize (Hdown Hd). split.
    + apply (rounds_to_ge' _ _ _ Hr HE64). lra.
    + apply (rounds_to_le' _ _ _ Hr HS64). lra.
Qed.

End Setpoint.

Lemma is_binary64_ext q q' : (q == q')%Q -> is_binary64 q -> is_binary64 q'.
Proof. intros H (g & Hv & Hf & Hg). exists g. rewrite <- H. auto. Qed.

Lemma binary64_1 : is_binary64 1%Q.
Proof. exists (Prim2SF 1). split; [apply Prim2SF_valid|]. split; [reflexivity|exact F2Q_1]. Qed.

Section SetpointOrder.

Variable libm_cos : float -> float.
Hypothesis cos_range : cos_in_range libm_cos.

(** The floats of the start and of the span of a trajectory. *)
Lemma setpoint_operands traj :
  setpoint_ok traj ->
  exists start_f span_f,
    py_float (traj_start traj) = Ok start_f /\
    py_float (traj_end traj - traj_start traj) = Ok span_f /\
    finite start_f /\ finite span_f /\
    (F2Q start_f == inject_Z (traj_start traj))%Q /\
    (F2Q span_f == inject_Z (traj_end traj - traj_start traj))%Q.
Proof.
  intros [Hs He].
  destruct (py_float_exact (traj_start traj)) as (start_f & H1 & H2 & H3); [lia|].
  destruct (py_float_exact (traj_end traj - traj_start traj)) as (span_f & H4 & H5 & H6);
    [lia|].
  exists start_f, span_f. auto 10.
Qed.

Lemma smooth_setpoint_eq traj p start_f span_f :
  is_progress p ->
  py_float (traj_start traj) = Ok start_f ->
  py_float (traj_end traj - traj_start traj) = Ok span_f ->
  smooth_setpoint libm_cos traj p = py_int (setpoint_float libm_cos start_f span_f p).
Proof.
  intros Hp Hstart Hspan. unfold smooth_setpoint.
  destruct (math_cos_spec libm_cos cos_range p Hp) as (-> & _). cbn [rbind].
  rewrite Hspan. cbn [rbind]. rewrite Hstart. reflexivity.
Qed.

(** The float handed to [int] is finite and lies between the start and the
    end. *)
Lemma setpoint_float_range traj p start_f span_f :
  setpoint_ok traj -> is_progress p ->
  finite start_f -> finite span_f ->
  (F2Q start_f == inject_Z (traj_start traj))%Q ->
  (F2Q span_f == inject_Z (traj_end traj - traj_start traj))%Q ->
  finite (setpoint_float libm_cos start_f span_f p) /\
  (inject_Z (Z.min (traj_start traj) (traj_end traj))
   <= F2Q (setpoint_float libm_cos start_f span_f p))%Q /\
  (F2Q (setpoint_float libm_cos start_f span_f p)
   <= inject_Z (Z.max (traj_start traj) (traj_end traj)))%Q.
Proof.
  intros [Hs He] Hp Hfs Hfspan Hvs Hvspan.
  destruct (math_cos_spec libm_cos cos_range p Hp) as (_ & Hfc & Hlo & Hhi).
  destruct (smooth_spec _ Hfc Hlo Hhi) as (_ & _ & _ & Hfsm & Hs0 & Hs1).
  destruct (blend_spec start_f span_f (traj_start traj) (traj_end traj)
              Hfs Hfspan Hvs Hvspan Hs He _ Hfsm Hs0 Hs1) as (_ & _ & _ & Hfr & Hmin & Hmax).
  unfold setpoint_float. auto.
Qed.

(** The setpoint is computed, and it lies between the start and the end. *)
Lemma smooth_setpoint_range traj p :
  setpoint_ok traj -> is_progress p ->
  exists target_position,
    smooth_setpoint libm_cos traj p = Ok target_position /\
    Z.min (traj_start traj) (traj_end traj) <= target_position
    <= Z.max (traj_start traj) (traj_end traj).
Proof.
  intros Hok Hp.
  destruct (setpoint_operands traj Hok) as (start_f & span_f & H1 & H2 & H3 & H4 & H5 & H6).
  destruct (setpoint_float_range traj p start_f span_f Hok Hp H3 H4 H5 H6)
    as (Hfin & Hmin & Hmax).
  destruct (py_int_finite _ Hfin) as (tgt & Htgt & Htr).
  exists tgt. split.
  - rewrite (smooth_setpoint_eq traj p start_f span_f Hp H1 H2). exact Htgt.
  - eapply truncates_bounds; eassumption.
Qed.

Hypothesis cos_mono : cos_decreasing libm_cos.

(** The smooth progress does not decrease with the progress. *)
Lemma smooth_progress_mono p1 p2 :
  is_progress p1 -> is_progress p2 -> (p1 <=? p2)%float = true ->
  (F2Q ((1 - libm_cos (math_pi * p1)) / 2) <= F2Q ((1 - libm_cos (math_pi * p2)) / 2))%Q.
Proof.
  intros Hp1 Hp2 Hle.
  destruct (progress_bounds p1 Hp1) as (Hf1 & _). destruct (progress_bounds p2 Hp2) as (Hf2 & _).
  apply leb_finite in Hle; [|exact Hf1|exact Hf2].
  destruct (angle_spec p1 Hp1) as (Hr1 & Hfx1 & Hx10 & _).
  destruct (angle_spec p2 Hp2) as (Hr2 & Hfx2 & _ & Hx2pi).
  pose proof F2Q_pi as [Hpi3 _].
  assert (Hx : (F2Q (math_pi * p1) <= F2Q (math_pi * p2))%Q).
  { apply (rounded_mono (fun p => (math_pi * p)%float) (fun P => (F2Q math_pi * P)%Q));
      try assumption.
    - intros a b Hab. rewrite Hab. reflexivity.
    - intros Hlt. left. nra.
    - apply (is_binary64_ext 0); [ring|exact binary64_0]. }
  assert (Hx' : (math_pi * p1 <=? math_pi * p2)%float = true)
    by (apply leb_finite; assumption).
  pose proof (cos_mono _ _ Hx10 Hx' Hx2pi) as Hc.
  destruct (math_cos_spec libm_cos cos_range p1 Hp1) as (_ & Hfc1 & Hlo1 & Hhi1).
  destruct (math_cos_spec libm_cos cos_range p2 Hp2) as (_ & Hfc2 & Hlo2 & Hhi2).
  apply leb_finite in Hc; [|exact Hfc2|exact Hfc1].
  destruct (smooth_spec _ Hfc1 Hlo1 Hhi1) as (Hd1 & Hfd1 & Hs1 & _).
  destruct (smooth_spec _ Hfc2 Hlo2 Hhi2) as (Hd2 & Hfd2 & Hs2 & _).
  assert (Hd : (F2Q (1 - libm_cos (math_pi * p1)) <= F2Q (1 - libm_cos (math_pi * p2)))%Q).
  { apply (rounded_anti (fun c => (1 - c)%float) (fun C => (1 - C)%Q)
             (libm_cos (math_pi * p2)) (libm_cos (math_pi * p1))); try assumption.
    - intros a b Hab. rewrite Hab. reflexivity.
    - intros Hlt. left. lra.
    - apply (is_binary64_ext 1); [ring|exact binary64_1]. }
  apply (rounded_mono (fun d => (d / 2)%float) (fun D => (D * (1 # 2))%Q)); try assumption.
  - intros a b Hab. rewrite Hab. reflexivity.
  - intros Hlt. left. lra.
  - apply (is_binary64_ext 0); [ring|exact binary64_0].
Qed.

(** The float handed to [int] follows the progress: up when the end is above
    the start, down when it is below. *)
Lemma setpoint_float_mono traj p1 p2 start_f span_f :
  setpoint_ok traj -> is_progress p1 -> is_progress p2 -> (p1 <=? p2)%float = true ->
  finite start_f -> finite span_f ->
  (F2Q start_f == inject_Z (traj_start traj))%Q ->
  (F2Q span_f == inject_Z (traj_end traj - traj_start traj))%Q ->
  (traj_start traj <= traj_end traj ->
   (F2Q (setpoint_float libm_cos start_f span_f p1)
    <= F2Q (setpoint_float libm_cos start_f span_f p2))%Q) /\
  (traj_end traj <= traj_start traj ->
   (F2Q (setpoint_float libm_cos start_f span_f p2)
    <= F2Q (setpoint_float libm_cos start_f span_f p1))%Q).
Proof.
  intros [Hs He] Hp1 Hp2 Hle Hfs Hfspan Hvs Hvspan.
  pose proof (smooth_progress_mono p1 p2 Hp1 Hp2 Hle) as Hsm.
  destruct (math_cos_spec libm_cos cos_range p1 Hp1) as (_ & Hfc1 & Hlo1 & Hhi1).
  destruct (math_cos_spec libm_cos cos_range p2 Hp2) as (_ & Hfc2 & Hlo2 & Hhi2).
  destruct (smooth_spec _ Hfc1 Hlo1 Hhi1) as (_ & _ & _ & Hfs1 & Hs10 & Hs11).
  destruct (smooth_spec _ Hfc2 Hlo2 Hhi2) as (_ & _ & _ & Hfs2 & Hs20 & Hs21).
  set (s1 := ((1 - libm_cos (math_pi * p1)) / 2)%float) in *.
  set (s2 := ((1 - libm_cos (math_pi * p2)) / 2)%float) in *.
  destruct (blend_spec start_f span_f (traj_start traj) (traj_end traj)
              Hfs Hfspan Hvs Hvspan Hs He s1 Hfs1 Hs10 Hs11) as (Ht1 & Hft1 & Hr1 & _).
  destruct (blend_spec start_f span_f (traj_start traj) (traj_end traj)
              Hfs Hfspan Hvs Hvspan Hs He s2 Hfs2 Hs20 Hs21) as (Ht2 & Hft2 & Hr2 & _).
  assert (Hadd : forall t t' : float, finite t -> finite t' ->
            rounds_to (F2Q start_f + F2Q t) (Prim2SF (start_f + t)) ->
            rounds_to (F2Q start_f + F2Q t') (Prim2SF (start_f + t')) ->
            (F2Q t <= F2Q t')%Q -> (F2Q (start_f + t) <= F2Q (start_f + t'))%Q).
  { intros t t' Hft Hft' Hrt Hrt' Htt.
    apply (rounded_mono (fun t => (start_f + t)%float) (fun T => (F2Q start_f + T)%Q));
      try assumption.
    - intros a b Hab. rewrite Hab. reflexivity.
    - intros Hlt. left. lra.
    - apply (is_binary64_ext (F2Q start_f)); [ring|apply binary64_float; exact Hfs]. }
  assert (Hspan : (F2Q span_f == inject_Z (traj_end traj) - inject_Z (traj_start traj))%Q).
  { rewrite Hvspan. unfold Z.sub. rewrite inject_Z_plus, inject_Z_opp. reflexivity. }
  unfold setpoint_float. fold s1 s2. split; intros Hdir.
  - apply Hadd; try assumption.
    apply inject_Z_le in Hdir.
    apply (rounded_mono (fun s => (span_f * s)%float) (fun S => (F2Q span_f * S)%Q));
      try assumption.
    + intros a b Hab. rewrite Hab. reflexivity.
    + intros Hlt. destruct (Qeq_dec (F2Q span_f) 0) as [Hz|Hnz].
      * right. split; [rewrite Hz; ring|].
        apply (is_binary64_ext 0); [rewrite Hz; ring|exact binary64_0].
      * left. nra.
    + apply (is_binary64_ext 0); [ring|exact binary64_0].
  - apply Hadd; try assumption.
    apply inject_Z_le in Hdir.
    apply (rounded_anti (fun s => (span_f * s)%float) (fun S => (F2Q span_f * S)%Q) s1 s2);
      try assumption.
    + intros a b Hab. rewrite Hab. reflexivity.
    + intros Hlt. destruct (Qeq_dec (F2Q span_f) 0) as [Hz|Hnz].
      * right. split; [rewrite Hz; ring|].
        apply (is_binary64_ext 0); [rewrite Hz; ring|exact binary64_0].
      * left. nra.
    + apply (is_binary64_ext 0); [ring|exact binary64_0].
Qed.

(** The setpoint follows the progress. *)
Lemma smooth_setpoint_mono traj p1 p2 t1 t2 :
  setpoint_ok traj -> is_progress p1 -> is_progress p2 -> (p1 <=? p2)%float = true ->
  smooth_setpoint libm_cos traj p1 = Ok t1 ->
  smooth_setpoint libm_cos traj p2 = Ok t2 ->
  (traj_start traj <= traj_end traj -> t1 <= t2) /\
  (traj_end traj <= traj_start traj -> t2 <= t1).
Proof.
  intros Hok Hp1 Hp2 Hle H1 H2.
  destruct (setpoint_operands traj Hok) as (start_f & span_f & Hs & Hsp & Hfs & Hfsp & Hvs & Hvsp).
  rewrite (smooth_setpoint_eq traj p1 start_f span_f Hp1 Hs Hsp) in H1.
  rewrite (smooth_setpoint_eq traj p2 start_f span_f Hp2 Hs Hsp) in H2.
  apply py_int_spec in H1 as [_ Ht1]. apply py_int_spec in H2 as [_ Ht2].
  destruct (setpoint_float_mono traj p1 p2 start_f span_f Hok Hp1 Hp2 Hle Hfs Hfsp Hvs Hvsp)
    as [Hup Hdown].
  split; intros Hdir.
  - eapply truncates_mono; [exact Ht1|exact Ht2|apply Hup; exact Hdir].
  - eapply truncates_mono; [exact Ht2|exact Ht1|apply Hdown; exact Hdir].
Qed.

End SetpointOrder.

(** ** The stand-in cosine meets the assumptions *)

Lemma cos_steps_in_range : cos_in_range cos_steps.
Proof.
  intros x _. unfold cos_steps.
  destruct (x <? 1)%float; [split; reflexivity|].
  destruct (x <? 2)%float; split; reflexivity.
Qed.

Lemma cos_steps_decreasing : cos_decreasing cos_steps.
Proof.
  intros x y Hx Hxy Hy.
  assert (Hfy : finite y).
  { unfold finite. rewrite leb_spec in Hx, Hxy, Hy.
    change (Prim2SF 0) with (S754_zero false) in Hx.
    destruct (Prim2SF y) as [sy|[|]| |sy my ey]; try reflexivity.
    - destruct (Prim2SF x) as [sx|[|]| |[|] mx ex]; simpl in *; discriminate.
    - vm_compute in Hy. discriminate Hy.
    - destruct (Prim2SF x) as [sx|[|]| |sx mx ex]; simpl in *; discriminate. }
  assert (Hfx : finite x).
  { apply (leb_between 0 x y); [reflexivity|exact Hfy|exact Hx|exact Hxy]. }
  apply leb_finite in Hxy; [|exact Hfx|exact Hfy].
  unfold cos_steps.
  destruct (x <? 1)%float eqn:Ex1; destruct (y <? 1)%float eqn:Ey1;
  destruct (x <? 2)%float eqn:Ex2; destruct (y <? 2)%float eqn:Ey2;
    try reflexivity; exfalso;
    repeat match goal with
    | H : (?a <? ?b)%float = true |- _ =>
        apply (ltb_finite a b) in H; [|first [assumption|reflexivity]..]
    | H : (?a <? ?b)%float = false |- _ =>
        assert (~ (F2Q a < F2Q b)%Q)
          by (let K := fresh in intros K;
              apply (ltb_finite a b) in K; [congruence|first [assumption|reflexivity]..]);
        clear H
    end;
    rewrite ?F2Q_1, ?F2Q_2 in *; lra.
Qed.

(** ** A trajectory that is not complete *)

Lemma py_min_progress ratio :
  (0 <=? ratio)%float = true -> is_progress (py_min ratio 1).
Proof.
  intros H0. unfold py_min. destruct (1 <? ratio)%float eqn:E; [split; reflexivity|].
  assert (Hf : finite ratio).
  { unfold finite. rewrite leb_spec in H0. rewrite ltb_spec in E.
    change (Prim2SF 0) with (S754_zero false) in H0.
    destruct (Prim2SF ratio) as [s|[|]| |s m e]; try reflexivity.
    - simpl in H0. discriminate H0.
    - vm_compute in E. discriminate E.
    - simpl in H0. discriminate H0. }
  split; [exact H0|].
  apply leb_finite; [exact Hf|reflexivity|].
  destruct (Qlt_le_dec (F2Q 1) (F2Q ratio)) as [Hlt|Hle]; [|exact Hle].
  apply ltb_finite in Hlt; [congruence|reflexivity|exact Hf].
Qed.

(** The control of an axis whose trajectory is not complete: the setpoint
    of the raised cosine is computed and becomes the target; the trajectory
    is kept. *)
Lemma axis_control_hold libm_cos now slave st traj :
  cos_in_range libm_cos ->
  trajectory st = Some traj -> setpoint_ok traj ->
  50000 <= Z.abs (traj_end traj - _read_actual_position slave) ->
  is_zero (traj_duration traj) = false ->
  (0 <=? (now - traj_start_time traj) / traj_duration traj)%float = true ->
  exists target_position,
    smooth_setpoint libm_cos traj
      (py_min ((now - traj_start_time traj) / traj_duration traj) 1) = Ok target_position /\
    axis_control libm_cos now slave st
    = Ok (set_target_pulse target_position (set_last_status (_read_status_word slave) st),
          controlword (_read_status_word slave), target_position) /\
    Z.min (traj_start traj) (traj_end traj) <= target_position
    <= Z.max (traj_start traj) (traj_end traj).
Proof.
  intros Hcos Htraj Hok Herr Hdur Hratio.
  pose proof (py_min_progress _ Hratio) as Hp.
  destruct (smooth_setpoint_range libm_cos Hcos traj _ Hok Hp) as (tgt & Htgt & Hrange).
  exists tgt. split; [exact Htgt|]. split; [|exact Hrange].
  unfold axis_control. cbn [trajectory set_last_status]. rewrite Htraj.
  replace (Z.abs (traj_end traj - _read_actual_position slave) <? 50000) with false
    by (symmetry; apply Z.ltb_ge; exact Herr).
  unfold interpolate, py_truediv. rewrite Hdur. cbn [rbind]. rewrite Htgt. reflexivity.
Qed.

(** ** C8: the interpolated target stays in range and follows the progress *)

(** C8. Assume that the [cos] of the C library stays within [-1, 1] and does
    not increase on [0, math.pi], and take a trajectory whose start and end
    are at most [2^52] in magnitude. In a cycle in which the trajectory does
    not complete and the elapsed time is not negative, the progress
    [min(elapsed / duration, 1.0)] is within [0, 1], the target is computed
    and emitted, and it lies in [min(start, end), max(start, end)]. For two
    progress values within [0, 1], in order, the targets are in the same
    order when the end is not below the start and in the opposite order when
    it is not above. *)
Theorem C8_interpolation_range_monotone libm_cos :
  cos_in_range libm_cos -> cos_decreasing libm_cos ->
  (forall now slave st traj,
     trajectory st = Some traj -> setpoint_ok traj ->
     50000 <= Z.abs (traj_end traj - _read_actual_position slave) ->
     is_zero (traj_duration traj) = false ->
     (0 <=? (now - traj_start_time traj) / traj_duration traj)%float = true ->
     let progress := py_min ((now - traj_start_time traj) / traj_duration traj) 1 in
     is_progress progress /\
     exists target_position,
       smooth_setpoint libm_cos traj progress = Ok target_position /\
       axis_control libm_cos now slave st
       = Ok (set_target_pulse target_position (set_last_status (_read_status_word slave) st),
             controlword (_read_status_word slave), target_position) /\
       Z.min (traj_start traj) (traj_end traj) <= target_position
       <= Z.max (traj_start traj) (traj_end traj)) /\
  (forall traj p1 p2 t1 t2,
     setpoint_ok traj -> is_progress p1 -> is_progress p2 -> (p1 <=? p2)%float = true ->
     smooth_setpoint libm_cos traj p1 = Ok t1 ->
     smooth_setpoint libm_cos traj p2 = Ok t2 ->
     (traj_start traj <= traj_end traj -> t1 <= t2) /\
     (traj_end traj <= traj_start traj -> t2 <= t1)).
Proof.
  intros Hrange Hmono. split.
  - intros now slave st traj Htraj Hok Herr Hdur Hratio progress.
    split; [apply py_min_progress; exact Hratio|].
    apply axis_control_hold; assumption.
  - intros traj p1 p2 t1 t2. apply smooth_setpoint_mono; assumption.
Qed.

Lemma C8_witness :
  let traj := {| traj_start := 1000; traj_end := 5000000;
                 traj_duration := 2; traj_start_time := 100 |} in
  let st := {| target_pulse := 1000; offset := 0; axis := "x"; last_status := None;
               trajectory := Some traj |} in
  let slave := {| input_status := 0x0027; input_actual := 20000 |} in
  (exists target_position,
     axis_control cos_steps 100.5 slave st
     = Ok (set_target_pulse target_position (set_last_status 0x0027 st), 0x000F,
           target_position) /\
     1000 <= target_position <= 5000000) /\
  (exists t1 t2,
     smooth_setpoint cos_steps traj 0.25 = Ok t1 /\
     smooth_setpoint cos_steps traj 0.75 = Ok t2 /\ t1 <= t2).
Proof.
  intros traj st slave.
  destruct (C8_interpolation_range_monotone cos_steps cos_steps_in_range cos_steps_decreasing)
    as [Hrange Hmono].
  assert (Hok : setpoint_ok traj) by (split; simpl; lia).
  split.
  - destruct (Hrange 100.5%float slave st traj eq_refl Hok) as (_ & tgt & _ & Hax & Hin).
    + simpl. lia.
    + reflexivity.
    + reflexivity.
    + exists tgt. split; [exact Hax|exact Hin].
  - destruct (smooth_setpoint cos_steps traj 0.25) as [t1|e] eqn:H1;
      [|vm_compute in H1; discriminate H1].
    destruct (smooth_setpoint cos_steps traj 0.75) as [t2|e] eqn:H2;
      [|vm_compute in H2; discriminate H2].
    exists t1, t2. split; [reflexivity|]. split; [reflexivity|].
    apply (Hmono traj 0.25%float 0.75%float t1 t2 Hok); try assumption;
      try (split; reflexivity); try reflexivity.
    simpl. lia.
Defined.

(** ** Completion of a trajectory *)

Lemma axis_control_complete libm_cos now slave st traj :
  trajectory st = Some traj ->
  Z.abs (traj_end traj - _read_actual_position slave) < 50000 ->
  axis_control libm_cos now slave st
  = Ok (set_trajectory None
          (set_target_pulse (traj_end traj) (set_last_status (_read_status_word slave) st)),
        controlword (_read_status_word slave), traj_end traj).
Proof.
  intros Htraj Herr. unfold axis_control. cbn [trajectory set_last_status]. rewrite Htraj.
  replace (Z.abs (traj_end traj - _read_actual_position slave) <? 50000) with true
    by (symmetry; apply Z.ltb_lt; exact Herr).
  reflexivity.
Qed.

Lemma axis_control_not_complete libm_cos now slave st traj st' cw tgt :
  trajectory st = Some traj ->
  50000 <= Z.abs (traj_end traj - _read_actual_position slave) ->
  axis_control libm_cos now slave st = Ok (st', cw, tgt) ->
  trajectory st' = Some traj /\ target_pulse st' = tgt.
Proof.
  intros Htraj Herr. unfold axis_control. cbn [trajectory set_last_status]. rewrite Htraj.
  replace (Z.abs (traj_end traj - _read_actual_position slave) <? 50000) with false
    by (symmetry; apply Z.ltb_ge; exact Herr).
  intros H. apply rbind_ok in H as (t & _ & H). inversion H; subst; simpl. auto.
Qed.

(** The step of the per-slave loop on an axis whose trajectory completes. *)
Lemma control_slave_complete libm_cos stride flag slaves now i acc slave st traj :
  slaves !! i = Some slave -> ct_states acc !! i = Some st ->
  trajectory st = Some traj ->
  Z.abs (traj_end traj - _read_actual_position slave) < 50000 ->
  int32 (traj_end traj) -> slave_ok slave -> int32 (offset st) -> 0 <= stride ->
  Z.of_nat i * stride + block_width flag <= Z.of_nat (length (ct_shared acc)) ->
  exists c st',
    control_slave libm_cos stride flag slaves now i acc = Ok c /\
    ct_states c !! i = Some st' /\
    trajectory st' = None /\ target_pulse st' = traj_end traj /\
    ct_frames c
    = ct_frames acc ++ [{| frame_controlword := controlword (_read_status_word slave);
                           frame_target := traj_end traj |}] /\
    ct_shared c !! Z.to_nat (Z.of_nat i * stride + 1) = Some 0%float.
Proof.
  intros Hs Hst Htraj Herr Hend Hok Hoff Hstride Hlen.
  pose proof (axis_control_complete libm_cos (now i) slave st traj Htraj Herr) as Hax.
  destruct (control_slave_ok libm_cos stride flag slaves now i acc slave st _ _ _
              Hs Hst Hax Hend Hok Hoff Hstride Hlen) as (shared' & Hstep & Hp).
  destruct (publish_ok stride flag i slave
              (set_trajectory None
                 (set_target_pulse (traj_end traj)
                    (set_last_status (_read_status_word slave) st)))
              (ct_shared acc) Hstride Hok Hoff Hlen) as (shared'' & Hp' & _ & Hslot & _).
  rewrite Hp in Hp'. inversion Hp'; subst shared''; clear Hp'.
  eexists _, _. split; [exact Hstep|]. cbn [ct_states ct_frames ct_shared].
  split; [apply list_lookup_insert_eq; eapply lookup_lt_Some; exact Hst|].
  split; [reflexivity|]. split; [reflexivity|]. split; [reflexivity|exact Hslot].
Qed.

(** ** Cycles without a move command start no trajectory *)

Lemma drain_trajectories slaves queue :
  forall states cmds d,
  drain slaves queue states cmds = Ok d ->
  map trajectory (dr_states d) = map trajectory states /\
  dr_commands d = cmds ++ moves_before_stop queue.
Proof.
  induction queue as [|[slave_idx cmd] queue IH]; intros states cmds d H; simpl in H.
  - inversion H; subst; simpl. rewrite app_nil_r. auto.
  - destruct cmd; simpl; try (apply IH in H; exact H).
    + inversion H; subst; simpl. rewrite app_nil_r. auto.
    + apply rbind_ok in H as (states' & Hax & H).
      apply IH in H as [H1 H2]. split; [|exact H2].
      rewrite H1. eapply do_set_axis_trajectories; exact Hax.
    + apply rbind_ok in H as (states' & Hor & H).
      apply IH in H as [H1 H2]. split; [|exact H2].
      rewrite H1. eapply do_set_origin_trajectories; exact Hor.
    + apply IH in H as [H1 H2]. split; [exact H1|]. rewrite H2, <- app_assoc. reflexivity.
Qed.

Lemma drain_safe_no_moves slaves queue :
  forall states flag cmds d,
  moves_before_stop queue = [] ->
  drain_safe slaves queue states flag cmds = Ok d -> dr_commands d = cmds.
Proof.
  induction queue as [|[slave_idx cmd] queue IH]; intros states flag cmds d Hq H;
    simpl in H, Hq.
  - inversion H; reflexivity.
  - destruct cmd; try discriminate Hq; try (eapply IH; eassumption).
    + inversion H; reflexivity.
    + apply rbind_ok in H as (states' & _ & H). eapply IH; eassumption.
    + apply rbind_ok in H as (states' & _ & H). eapply IH; eassumption.
Qed.

Lemma control_phase_no_new libm_cos num_slaves slaves now states shared c :
  control_phase libm_cos num_slaves slaves now states shared = Ok c ->
  no_new_trajectory states (ct_states c).
Proof.
  unfold control_phase. intros H.
  apply rbind_ok in H as (states2 & Hfault & Hloop).
  apply fault_guard_no_new in Hfault.
  apply control_loop_no_new in Hloop. simpl in Hloop.
  eapply no_new_trajectory_trans; eassumption.
Qed.

Lemma cycle_no_moves libm_cos num_slaves slave_configs env loop shared r :
  moves_before_stop (env_queue env) = [] ->
  cycle libm_cos num_slaves slave_configs env loop shared = Ok r ->
  no_new_trajectory (local_motor_states loop) (local_motor_states (cr_loop r)).
Proof.
  unfold cycle, command_phase. intros Hq H.
  apply rbind_ok in H as (d & Hd & H).
  apply rbind_ok in Hd as (d0 & Hd0 & Hd).
  apply drain_trajectories in Hd0 as [Htraj Hcmds]. rewrite Hq in Hcmds. simpl in Hcmds.
  rewrite Hcmds in Hd. cbn [rbind] in Hd. inversion Hd; subst d; clear Hd.
  cbn [dr_running dr_states] in H.
  apply no_new_trajectory_map in Htraj.
  destruct (dr_running d0); cbn [negb] in H.
  - apply rbind_ok in H as (c & Hc & H). inversion H; subst r; simpl.
    apply control_phase_no_new in Hc. eapply no_new_trajectory_trans; eassumption.
  - inversion H; subst r; simpl. exact Htraj.
Qed.

Lemma cycle_safe_no_moves libm_cos num_slaves thr slave_configs env loop shared r :
  moves_before_stop (env_queue env) = [] ->
  cycle_safe libm_cos num_slaves thr slave_configs env loop shared = Ok r ->
  no_new_trajectory (local_motor_states loop) (local_motor_states (cr_loop r)).
Proof.
  unfold cycle_safe, command_phase_safe. intros Hq H.
  apply rbind_ok in H as (d & Hd & H).
  apply rbind_ok in Hd as (d0 & Hd0 & Hd).
  pose proof (drain_safe_trajectories _ _ _ _ _ _ Hd0) as Htraj.
  pose proof (drain_safe_no_moves _ _ _ _ _ _ Hq Hd0) as Hcmds.
  rewrite Hcmds in Hd. cbn [rbind] in Hd. inversion Hd; subst d; clear Hd.
  cbn [dr_running dr_states dr_sync_error] in H.
  apply no_new_trajectory_map in Htraj.
  destruct (dr_running d0); cbn [negb] in H.
  - apply rbind_ok in H as ([c flag'] & Hc & H). inversion H; subst r; simpl.
    apply control_phase_safe_no_new in Hc as [Hc _].
    eapply no_new_trajectory_trans; eassumption.
  - inversion H; subst r; simpl. exact Htraj.
Qed.

(** ** The round trip between millimetres and pulses *)

Section RoundTrip.

Local Open Scope Q_scope.

Lemma rounds_to_err x r B :
  rounds_to x r -> Qabs x <= B ->
  - ((1 # 9007199254740992) * B + (1 # 1267650600228229401496703205376))
  <= SF2Q r - x
  <= (1 # 9007199254740992) * B + (1 # 1267650600228229401496703205376).
Proof.
  intros (_ & _ & _ & Herr) HB.
  assert (Hu : bpow (-53) == 1 # 9007199254740992) by (vm_compute; reflexivity).
  assert (He : bpow (-1075) <= 1 # 1267650600228229401496703205376)
    by (vm_compute; discriminate).
  rewrite Hu in Herr.
  apply Qabs_Qle_condition.
  eapply Qle_trans; [exact Herr|].
  assert (0 <= Qabs x) by apply Qabs_nonneg.
  nra.
Qed.

Lemma truncates_near q z : truncates q z -> inject_Z z - 1 < q /\ q < inject_Z z + 1.
Proof.
  intros [Hpos Hneg]. destruct (Qlt_le_dec q 0) as [Hlt|Hge].
  - assert (Hle : q <= 0) by lra. specialize (Hneg Hle). lra.
  - specialize (Hpos Hge). lra.
Qed.

Lemma mult_bound a c A :
  - A <= a <= A -> 0 <= c <= 12 -> - (12 * A) <= a * c <= 12 * A.
Proof. intros Ha Hc. nra. Qed.

Lemma F2Q_8388608 : F2Q 8388608 == 8388608.
Proof. vm_compute. reflexivity. Qed.

Lemma F2Q_16777216 : F2Q 16777216 == 16777216.
Proof. vm_compute. reflexivity. Qed.

Lemma mm_per_rev_bounds tag :
  finite (mm_per_rev_of tag) /\ 5 <= F2Q (mm_per_rev_of tag) <= 12.
Proof.
  unfold mm_per_rev_of. destruct (String.eqb tag "x").
  - split; [reflexivity|]. split; vm_compute; discriminate.
  - split; [reflexivity|]. split; vm_compute; discriminate.
Qed.

End RoundTrip.

Section RoundTripError.

Local Open Scope Q_scope.

(** The forward conversion: the product handed to [int] is finite and
    within a hair of [m / c * 2^24]. *)
Lemma forward_product c m :
  finite c -> 5 <= F2Q c <= 12 -> finite m -> Qabs (F2Q m) <= 10000 ->
  exists V,
    V * F2Q c == F2Q m /\ - (2000) <= V <= 2000 /\
    finite (m / c * 8388608 * 2)%float /\
    - (1 # 10000) <= F2Q (m / c * 8388608 * 2)%float - V * 16777216 <= 1 # 10000.
Proof.
  intros Hfc [Hc5 Hc12] Hfm Hm.
  apply Qabs_Qle_condition in Hm as [Hm1 Hm2].
  set (M := F2Q m) in *. set (C := F2Q c) in *.
  assert (HC0 : ~ C == 0) by (intros H; lra).
  set (V := M / C).
  assert (HV : V * C == M) by (unfold V; field; exact HC0).
  assert (HVb : - (2000) <= V <= 2000) by (split; nra).
  exists V. split; [exact HV|]. split; [exact HVb|].
  assert (H1 : rounds_to V (Prim2SF (m / c))).
  { apply div_correct; [exact Hfm|exact Hfc|exact HC0|exact HV|].
    apply small_lt_bpow. rewrite bpow_60. apply Qabs_le_of; lra. }
  pose proof (rounds_to_finite _ _ H1) as Hf1.
  pose proof (rounds_to_err _ _ 2000 H1 ltac:(apply Qabs_le_of; lra)) as E1.
  fold (F2Q (m / c)) in E1. set (Q1 := F2Q (m / c)) in *.
  assert (H2 : rounds_to (Q1 * 8388608) (Prim2SF (m / c * 8388608))).
  { eapply rounds_to_ext; [|apply mul_correct; [exact Hf1|reflexivity|]].
    - rewrite F2Q_8388608. reflexivity.
    - apply small_lt_bpow. rewrite bpow_60, F2Q_8388608. fold Q1. apply Qabs_le_of; lra. }
  pose proof (rounds_to_finite _ _ H2) as Hf2.
  pose proof (rounds_to_err _ _ 34359738368 H2 ltac:(apply Qabs_le_of; lra)) as E2.
  fold (F2Q (m / c * 8388608)) in E2. set (Q2 := F2Q (m / c * 8388608)) in *.
  assert (H3 : rounds_to (Q2 * 2) (Prim2SF (m / c * 8388608 * 2))).
  { eapply rounds_to_ext; [|apply mul_correct; [exact Hf2|reflexivity|]].
    - rewrite F2Q_2. reflexivity.
    - apply small_lt_bpow. rewrite bpow_60, F2Q_2. fold Q2. apply Qabs_le_of; lra. }
  pose proof (rounds_to_finite _ _ H3) as Hf3.
  pose proof (rounds_to_err _ _ 68719476736 H3 ltac:(apply Qabs_le_of; lra)) as E3.
  fold (F2Q (m / c * 8388608 * 2)) in E3.
  split; [exact Hf3|]. lra.
Qed.

(** The way back: [(pulses - 0) / 2^24 * c] is finite and within a hair of
    the exact product. *)
Lemma backward_product c fp P :
  finite c -> 5 <= F2Q c <= 12 -> finite fp -> F2Q fp == P ->
  - (34359738368) <= P <= 34359738368 ->
  finite ((fp - 0) / 16777216 * c)%float /\
  - (1 # 1000000000) <= F2Q ((fp - 0) / 16777216 * c)%float - P * (1 # 16777216) * F2Q c
  <= 1 # 1000000000.
Proof.
  intros Hfc [Hc5 Hc12] Hfp HP HPb.
  set (C := F2Q c) in *.
  assert (H1 : rounds_to P (Prim2SF (fp - 0))).
  { eapply rounds_to_ext; [|apply sub_correct; [exact Hfp|reflexivity|]].
    - rewrite F2Q_0, HP. ring.
    - apply small_lt_bpow. rewrite bpow_60, F2Q_0, HP. apply Qabs_le_of; lra. }
  pose proof (rounds_to_finite _ _ H1) as Hf1.
  assert (HS1 : F2Q (fp - 0) == P).
  { apply (rounds_to_exact' _ _ H1).
    apply (is_binary64_ext (F2Q fp)); [exact HP|apply binary64_float; exact Hfp]. }
  set (S1 := F2Q (fp - 0)) in *.
  assert (H2 : rounds_to (S1 * (1 # 16777216)) (Prim2SF ((fp - 0) / 16777216))).
  { apply div_correct; [exact Hf1|reflexivity| | |].
    - rewrite F2Q_16777216. discriminate.
    - rewrite F2Q_16777216. fold S1. field.
    - apply small_lt_bpow. rewrite bpow_60. apply Qabs_le_of; lra. }
  pose proof (rounds_to_finite _ _ H2) as Hf2.
  pose proof (rounds_to_err _ _ 2048 H2 ltac:(apply Qabs_le_of; lra)) as E2.
  fold (F2Q ((fp - 0) / 16777216)) in E2. set (S2 := F2Q ((fp - 0) / 16777216)) in *.
  assert (HS2 : - (2049) <= S2 <= 2049) by (split; lra).
  assert (H3 : rounds_to (S2 * C) (Prim2SF ((fp - 0) / 16777216 * c))).
  { apply mul_correct; [exact Hf2|exact Hfc|].
    apply small_lt_bpow. rewrite bpow_60. fold S2 C. apply Qabs_le_of; nra. }
  pose proof (rounds_to_finite _ _ H3) as Hf3.
  pose proof (rounds_to_err _ _ 24588 H3 ltac:(apply Qabs_le_of; nra)) as E3.
  fold (F2Q ((fp - 0) / 16777216 * c)) in E3.
  split; [exact Hf3|].
  assert (HC : 0 <= C <= 12) by (split; lra).
  pose proof (mult_bound (S2 - S1 * (1 # 16777216)) C
                ((1 # 9007199254740992) * 2048 + (1 # 1267650600228229401496703205376))
                E2 HC) as E2C.
  assert (Hring : (S2 - S1 * (1 # 16777216)) * C == S2 * C - P * (1 # 16777216) * C).
  { rewrite HS1. ring. }
  rewrite Hring in E2C. lra.
Qed.

End RoundTripError.

Section RoundTripBound.

Local Open Scope Q_scope.

(** Forward, truncation, and back: the result is within [1e-6] of [m]. *)
Lemma round_trip c m :
  finite c -> 5 <= F2Q c <= 12 -> finite m -> Qabs (F2Q m) <= 10000 ->
  exists pulses fp,
    mm_to_pulse m c = Ok pulses /\
    py_float pulses = Ok fp /\
    finite ((fp - 0) / 16777216 * c)%float /\
    Qabs (F2Q ((fp - 0) / 16777216 * c)%float - F2Q m) <= 1 # 1000000.
Proof.
  intros Hfc Hc Hfm Hm.
  destruct (forward_product c m Hfc Hc Hfm Hm) as (V & HV & HVb & Hf3 & E3).
  destruct (py_int_finite _ Hf3) as (p & Hp & Htr).
  apply truncates_near in Htr.
  set (F3 := F2Q (m / c * 8388608 * 2)%float) in *.
  assert (HPb : - (34359738368) <= inject_Z p <= 34359738368) by (split; lra).
  assert (Hpz : (Z.abs p <= 2 ^ 53)%Z).
  { destruct HPb as [H1 H2].
    change (- (34359738368)) with (inject_Z (-34359738368)) in H1.
    change 34359738368 with (inject_Z 34359738368) in H2.
    rewrite <- Zle_Qle in H1, H2. lia. }
  destruct (py_float_exact p Hpz) as (fp & Hfp & Hffp & Hvp).
  destruct (backward_product c fp (inject_Z p) Hfc Hc Hffp Hvp HPb) as (Hfb & Eb).
  exists p, fp. split; [exact Hp|]. split; [exact Hfp|]. split; [exact Hfb|].
  set (B := F2Q ((fp - 0) / 16777216 * c)%float) in *. set (C := F2Q c) in *.
  assert (HC : 0 <= C <= 12) by (destruct Hc; split; lra).
  assert (Ea : - ((10001 # 10000) * (1 # 16777216))
               <= inject_Z p * (1 # 16777216) - V
               <= (10001 # 10000) * (1 # 16777216)) by (split; lra).
  pose proof (mult_bound _ C _ Ea HC) as EaC.
  assert (Hring : (inject_Z p * (1 # 16777216) - V) * C
                  == inject_Z p * (1 # 16777216) * C - F2Q m).
  { rewrite <- HV. ring. }
  rewrite Hring in EaC.
  apply Qabs_le_of; lra.
Qed.

End RoundTripBound.

(** ** C10: the round trip of the unit conversion *)

(** C10. For every axis tag and every finite millimetre value [m] with
    [|m| <= 10000]: the conversion to pulses of a move command returns; the
    pulses are stored in the shared block without rounding; and
    [current_position_mm], reading them with the offset 0, returns a finite
    value within [1e-6] mm of [m]. *)
Theorem C10_unit_round_trip (tag : string) (m : float) :
  finite m -> (Qabs (F2Q m) <= 10000)%Q ->
  exists pulses fp,
    mm_to_pulse m (mm_per_rev_of tag) = Ok pulses /\
    py_float pulses = Ok fp /\ (F2Q fp == inject_Z pulses)%Q /\
    py_float 0 = Ok 0%float /\
    forall stride shared index,
      py_getitem shared (index * stride + 2) = Ok fp ->
      py_getitem shared (index * stride + 3) = Ok 0%float ->
      exists back,
        current_position_mm stride shared index tag = Ok back /\
        finite back /\
        (Qabs (F2Q back - F2Q m) <= 1 # 1000000)%Q.
Proof.
  intros Hfm Hm.
  destruct (mm_per_rev_bounds tag) as [Hfc Hc].
  destruct (round_trip (mm_per_rev_of tag) m Hfc Hc Hfm Hm)
    as (pulses & fp & Hp & Hfp & Hfb & Herr).
  exists pulses, fp. split; [exact Hp|]. split; [exact Hfp|]. split.
  { unfold mm_to_pulse in Hp. apply py_int_spec in Hp as [Hf3 Htr].
    assert (Hpz : Z.abs pulses <= 2 ^ 53).
    { destruct (py_float pulses) as [f|e] eqn:E; [|discriminate Hfp].
      destruct (Z_le_gt_dec (Z.abs pulses) (2 ^ 53)) as [Hle|Hgt]; [exact Hle|].
      exfalso.
      destruct (forward_product _ m Hfc Hc Hfm Hm) as (V & _ & HVb & _ & E3).
      apply truncates_near in Htr.
      assert (HQ : (- (34359738368) <= inject_Z pulses <= 34359738368)%Q) by (split; lra).
      destruct HQ as [H1 H2].
      change (- (34359738368))%Q with (inject_Z (-34359738368)) in H1.
      change 34359738368%Q with (inject_Z 34359738368) in H2.
      rewrite <- Zle_Qle in H1, H2. lia. }
    destruct (py_float_exact pulses Hpz) as (fp' & Hfp' & _ & Hv).
    rewrite Hfp in Hfp'. inversion Hfp'; subst fp'. exact Hv. }
  split; [vm_compute; reflexivity|].
  intros stride shared index Hcur Hoff.
  exists ((fp - 0) / 16777216 * mm_per_rev_of tag)%float.
  split; [|split; assumption].
  unfold current_position_mm. rewrite Hcur. cbn [rbind]. rewrite Hoff. reflexivity.
Qed.

Lemma C10_witness :
  exists pulses fp back,
    mm_to_pulse 123.5 (mm_per_rev_of "x") = Ok pulses /\
    py_float pulses = Ok fp /\
    current_position_mm 4 [0%float; 0%float; fp; 0%float] 0 "x" = Ok back /\
    (Qabs (F2Q back - F2Q 123.5) <= 1 # 1000000)%Q.
Proof.
  destruct (C10_unit_round_trip "x" 123.5%float) as (pulses & fp & Hp & Hfp & _ & _ & Hback).
  - reflexivity.
  - vm_compute. discriminate.
  - destruct (Hback 4 [0%float; 0%float; fp; 0%float] 0) as (back & Hb & _ & Herr);
      [reflexivity|reflexivity|].
    exists pulses, fp, back. auto.
Defined.

(** * The wire format *)

Lemma Z_of_byte_range b : 0 <= Z_of_byte b < 256.
Proof.
  unfold Z_of_byte. pose proof (Byte.to_N_bounded b). lia.
Qed.

Lemma Z_of_byte_of_Z z : Z_of_byte (byte_of_Z z) = z mod 256.
Proof.
  unfold Z_of_byte, byte_of_Z.
  pose proof (Z.mod_pos_bound z 256 ltac:(lia)) as Hm.
  destruct (Byte.of_N (Z.to_N (z mod 256))) as [b|] eqn:E.
  - apply Byte.to_of_N in E. rewrite E. lia.
  - apply Byte.of_N_None_iff in E. lia.
Qed.

Lemma byte_of_Z_of_byte b : byte_of_Z (Z_of_byte b) = b.
Proof.
  unfold byte_of_Z. pose proof (Z_of_byte_range b) as Hr.
  rewrite Z.mod_small by exact Hr. unfold Z_of_byte.
  rewrite N2Z.id, Byte.of_to_N. reflexivity.
Qed.

Lemma byte_of_Z_mod z z' : z mod 256 = z' mod 256 -> byte_of_Z z = byte_of_Z z'.
Proof. intros H. unfold byte_of_Z. rewrite H. reflexivity. Qed.

Lemma length_little_endian width : forall z, length (little_endian width z) = width.
Proof. induction width as [|w IH]; intros z; simpl; [reflexivity|]. rewrite IH. reflexivity. Qed.

Lemma of_little_endian_range bs :
  0 <= of_little_endian bs < 2 ^ (8 * Z.of_nat (length bs)).
Proof.
  induction bs as [|b bs IH]; simpl of_little_endian; simpl length.
  - simpl. lia.
  - pose proof (Z_of_byte_range b) as Hb.
    replace (8 * Z.of_nat (S (length bs))) with (8 + 8 * Z.of_nat (length bs)) by lia.
    rewrite Z.pow_add_r by lia. change (2 ^ 8) with 256. lia.
Qed.

Lemma of_little_endian_encode width : forall z,
  of_little_endian (little_endian width z) = z mod 2 ^ (8 * Z.of_nat width).
Proof.
  induction width as [|w IH]; intros z.
  - simpl. rewrite Z.mod_1_r. reflexivity.
  - cbn [little_endian of_little_endian]. rewrite IH, Z_of_byte_of_Z.
    replace (8 * Z.of_nat (S w)) with (8 + 8 * Z.of_nat w) by lia.
    rewrite Z.pow_add_r by lia. change (2 ^ 8) with 256.
    rewrite Z.shiftr_div_pow2 by lia. change (2 ^ 8) with 256.
    rewrite Z.rem_mul_r by lia. reflexivity.
Qed.

Lemma little_endian_decode bs :
  little_endian (length bs) (of_little_endian bs) = bs.
Proof.
  induction bs as [|b bs IH]; [reflexivity|].
  cbn [length little_endian of_little_endian].
  pose proof (Z_of_byte_range b) as Hb.
  f_equal.
  - rewrite <- (byte_of_Z_of_byte b) at 2. apply byte_of_Z_mod.
    rewrite (Z.mul_comm 256), Z.mod_add by lia. reflexivity.
  - rewrite Z.shiftr_div_pow2 by lia. change (2 ^ 8) with 256.
    replace ((Z_of_byte b + 256 * of_little_endian bs) / 256) with (of_little_endian bs);
      [exact IH|].
    rewrite (Z.mul_comm 256), Z.div_add by lia.
    rewrite (Z.div_small (Z_of_byte b)) by exact Hb. lia.
Qed.

Lemma little_endian_mod width : forall z,
  little_endian width (z mod 2 ^ (8 * Z.of_nat width)) = little_endian width z.
Proof.
  intros z. rewrite <- of_little_endian_encode.
  rewrite <- (length_little_endian width z) at 1. apply little_endian_decode.
Qed.

Ltac fmt_cases f :=
  destruct f; cbv [fmt_min fmt_max fmt_bits fmt_signed fmt_size andb] in *;
  repeat match goal with
  | |- context [2 ^ ?e] => let v := eval vm_compute in (2 ^ e) in change (2 ^ e) with v
  | H : context [2 ^ ?e] |- _ =>
      let v := eval vm_compute in (2 ^ e) in change (2 ^ e) with v in H
  end.

(** [struct.pack] returns exactly on the range of the format, and
    [struct.unpack] gives the value back. *)
Lemma struct_pack_spec f v :
  (fmt_min f <= v <= fmt_max f ->
   struct_pack f v = Ok (little_endian (fmt_size f) v) /\
   struct_unpack f (little_endian (fmt_size f) v) = Ok v) /\
  (~ fmt_min f <= v <= fmt_max f -> struct_pack f v = Raise StructError).
Proof.
  unfold struct_pack. split.
  - intros [Hlo Hhi].
    replace (fmt_min f <=? v) with true by (symmetry; apply Z.leb_le; exact Hlo).
    replace (v <=? fmt_max f) with true by (symmetry; apply Z.leb_le; exact Hhi).
    split; [reflexivity|].
    unfold struct_unpack. rewrite length_little_endian, Nat.eqb_refl.
    rewrite of_little_endian_encode. fold (fmt_bits f). f_equal.
    fmt_cases f.
    + rewrite Z.mod_small by lia. reflexivity.
    + destruct (Z.le_gt_cases 0 v) as [Hp|Hn].
      * rewrite Z.mod_small by lia.
        destruct (_ <? v) eqn:E; [apply Z.ltb_lt in E; lia|reflexivity].
      * replace (v mod 4294967296) with (v + 4294967296)
          by (apply Z.mod_unique with (-1); lia).
        destruct (_ <? _) eqn:E; [lia|apply Z.ltb_ge in E; lia].
    + rewrite Z.mod_small by lia. reflexivity.
    + destruct (Z.le_gt_cases 0 v) as [Hp|Hn].
      * rewrite Z.mod_small by lia.
        destruct (_ <? v) eqn:E; [apply Z.ltb_lt in E; lia|reflexivity].
      * replace (v mod 256) with (v + 256) by (apply Z.mod_unique with (-1); lia).
        destruct (_ <? _) eqn:E; [lia|apply Z.ltb_ge in E; lia].
  - intros Hn. destruct (fmt_min f <=? v) eqn:E1; [|reflexivity].
    destruct (v <=? fmt_max f) eqn:E2; [|reflexivity].
    apply Z.leb_le in E1, E2. exfalso. apply Hn. lia.
Qed.

(** [struct.unpack] returns exactly on a buffer of the size of the format,
    with a value in the range of the format, and [struct.pack] gives the
    buffer back. *)
Lemma struct_unpack_spec f buffer :
  (length buffer = fmt_size f ->
   exists v, struct_unpack f buffer = Ok v /\
     fmt_min f <= v <= fmt_max f /\ struct_pack f v = Ok buffer) /\
  (length buffer <> fmt_size f -> struct_unpack f buffer = Raise StructError).
Proof.
  unfold struct_unpack. split.
  - intros Hlen. rewrite Hlen, Nat.eqb_refl. eexists. split; [reflexivity|].
    pose proof (of_little_endian_range buffer) as Hr. rewrite Hlen in Hr. fold (fmt_bits f) in Hr.
    set (u := of_little_endian buffer) in *.
    assert (Hv : fmt_min f <= (if fmt_signed f && (fmt_max f <? u)
                               then u - 2 ^ fmt_bits f else u) <= fmt_max f).
    { fmt_cases f; try lia.
      - destruct (_ <? u) eqn:E; [apply Z.ltb_lt in E|apply Z.ltb_ge in E]; lia.
      - destruct (_ <? u) eqn:E; [apply Z.ltb_lt in E|apply Z.ltb_ge in E]; lia. }
    split; [exact Hv|].
    unfold struct_pack.
    replace (fmt_min f <=? _) with true by (symmetry; apply Z.leb_le; lia).
    replace (_ <=? fmt_max f) with true by (symmetry; apply Z.leb_le; lia).
    cbn [andb]. f_equal.
    rewrite <- (little_endian_mod (fmt_size f)).
    replace ((if fmt_signed f && (fmt_max f <? u) then u - 2 ^ fmt_bits f else u)
             mod 2 ^ (8 * Z.of_nat (fmt_size f))) with u.
    + unfold u. rewrite <- Hlen. apply little_endian_decode.
    + fold (fmt_bits f). clear Hv. fmt_cases f.
      * symmetry. apply Z.mod_small. lia.
      * destruct (_ <? u) eqn:E; [apply Z.ltb_lt in E|apply Z.ltb_ge in E].
        -- apply Z.mod_unique with (-1); lia.
        -- symmetry. apply Z.mod_small. lia.
      * symmetry. apply Z.mod_small. lia.
      * destruct (_ <? u) eqn:E; [apply Z.ltb_lt in E|apply Z.ltb_ge in E].
        -- apply Z.mod_unique with (-1); lia.
        -- symmetry. apply Z.mod_small. lia.
  - intros Hn. apply Nat.eqb_neq in Hn. rewrite Hn. reflexivity.
Qed.

Lemma py_slice_length {A} (l : list A) lo hi :
  length (py_slice l lo hi) = Nat.min (hi - lo) (length l - lo).
Proof. unfold py_slice. rewrite length_take, length_drop. reflexivity. Qed.

Lemma write_csp_outputs_abstract cw target_position :
  _write_csp_outputs cw target_position
  = if (fmt_min fmt_H <=? cw) && (cw <=? fmt_max fmt_H)
       && ((fmt_min fmt_i <=? target_position) && (target_position <=? fmt_max fmt_i))
    then Ok {| frame_controlword := cw; frame_target := target_position |}
    else Raise StructError.
Proof.
  unfold _write_csp_outputs.
  change (fmt_min fmt_H) with 0. change (fmt_max fmt_H) with 65535.
  change (fmt_min fmt_i) with (-2147483648). change (fmt_max fmt_i) with 2147483647.
  destruct (0 <=? cw), (cw <=? 65535), (-2147483648 <=? target_position),
    (target_position <=? 2147483647); reflexivity.
Qed.

(** The raw frame of [_write_csp_outputs]: six bytes, from which the
    readers recover both fields. *)
Lemma wire_frame_ok cw target_position :
  uint16 cw -> int32 target_position ->
  Wire._write_csp_outputs cw target_position
  = Ok (little_endian 2 cw ++ little_endian 4 target_position) /\
  Wire._read_status_word (little_endian 2 cw ++ little_endian 4 target_position) = Ok cw /\
  Wire._read_actual_position (little_endian 2 cw ++ little_endian 4 target_position)
  = Ok target_position.
Proof.
  intros Hcw Htgt. unfold uint16 in Hcw. unfold int32 in Htgt.
  destruct (struct_pack_spec fmt_H cw) as [Hp1 _].
  destruct (struct_pack_spec fmt_i target_position) as [Hp2 _].
  destruct Hp1 as [Hpack1 Hun1]; [change (0 <= cw <= 65535); lia|].
  destruct Hp2 as [Hpack2 Hun2];
    [change (-2147483648 <= target_position <= 2147483647); lia|].
  change (fmt_size fmt_H) with 2%nat in *. change (fmt_size fmt_i) with 4%nat in *.
  split; [unfold Wire._write_csp_outputs; rewrite Hpack1, Hpack2; reflexivity|].
  split.
  - unfold Wire._read_status_word. exact Hun1.
  - unfold Wire._read_actual_position. exact Hun2.
Qed.

Lemma wire_frame_error cw target_position :
  ~ (uint16 cw /\ int32 target_position) ->
  Wire._write_csp_outputs cw target_position = Raise StructError.
Proof.
  intros Hn. unfold Wire._write_csp_outputs.
  destruct (struct_pack_spec fmt_H cw) as [Hok1 Herr1].
  destruct (struct_pack_spec fmt_i target_position) as [Hok2 Herr2].
  change (fmt_min fmt_H) with 0 in *. change (fmt_max fmt_H) with 65535 in *.
  change (fmt_min fmt_i) with (-2147483648) in *. change (fmt_max fmt_i) with 2147483647 in *.
  destruct (Z_le_dec 0 cw) as [H1|H1]; [|rewrite Herr1 by lia; reflexivity].
  destruct (Z_le_dec cw 65535) as [H2|H2]; [|rewrite Herr1 by lia; reflexivity].
  destruct (Hok1 (conj H1 H2)) as [-> _]. cbn [rbind].
  rewrite Herr2; [reflexivity|].
  intros H. apply Hn. unfold uint16, int32. lia.
Qed.

(** X1. [_write_csp_outputs] returns exactly when the controlword fits
    ["<H"] and the target fits ["<i"], and raises [struct.error] otherwise,
    as the decoded model of the loop does; the frame has six bytes, and
    [_read_status_word] and [_read_actual_position] applied to it give the
    controlword and the target back. *)
Theorem X1_frame_round_trip cw target_position :
  (uint16 cw -> int32 target_position ->
   exists output,
     Wire._write_csp_outputs cw target_position = Ok output /\
     length output = 6%nat /\
     Wire._read_status_word output = Ok cw /\
     Wire._read_actual_position output = Ok target_position /\
     _write_csp_outputs cw target_position
     = Ok {| frame_controlword := cw; frame_target := target_position |}) /\
  (~ (uint16 cw /\ int32 target_position) ->
   Wire._write_csp_outputs cw target_position = Raise StructError /\
   _write_csp_outputs cw target_position = Raise StructError).
Proof.
  split.
  - intros Hcw Htgt.
    destruct (wire_frame_ok cw target_position Hcw Htgt) as (Hw & Hs & Hp).
    eexists. split; [exact Hw|].
    split; [rewrite length_app, !length_little_endian; reflexivity|].
    split; [exact Hs|]. split; [exact Hp|].
    unfold uint16 in Hcw. unfold int32 in Htgt. unfold _write_csp_outputs.
    replace (0 <=? cw) with true by (symmetry; apply Z.leb_le; lia).
    replace (cw <=? 65535) with true by (symmetry; apply Z.leb_le; lia).
    replace (-2147483648 <=? target_position) with true by (symmetry; apply Z.leb_le; lia).
    replace (target_position <=? 2147483647) with true by (symmetry; apply Z.leb_le; lia).
    reflexivity.
  - intros Hn. split; [apply wire_frame_error; exact Hn|].
    unfold _write_csp_outputs.
    destruct (0 <=? cw) eqn:E1; [|reflexivity].
    destruct (cw <=? 65535) eqn:E2; [|reflexivity].
    destruct (-2147483648 <=? target_position) eqn:E3; [|reflexivity].
    destruct (target_position <=? 2147483647) eqn:E4; [|reflexivity].
    apply Z.leb_le in E1, E2, E3, E4. exfalso. apply Hn. unfold uint16, int32. lia.
Qed.

Lemma X1_witness :
  (exists output,
     Wire._write_csp_outputs 0x000F (-2) = Ok output /\
     length output = 6%nat /\
     Wire._read_status_word output = Ok 0x000F /\
     Wire._read_actual_position output = Ok (-2) /\
     _write_csp_outputs 0x000F (-2)
     = Ok {| frame_controlword := 0x000F; frame_target := -2 |}) /\
  Wire._write_csp_outputs 0x000F 2147483648 = Raise StructError /\
  _write_csp_outputs 0x000F 2147483648 = Raise StructError.
Proof.
  destruct (X1_frame_round_trip 0x000F (-2)) as [Hok _].
  destruct (X1_frame_round_trip 0x000F 2147483648) as [_ Herr].
  split.
  - apply Hok; unfold uint16, int32; lia.
  - apply Herr. unfold uint16, int32. lia.
Defined.

(** The readers on a raw image of at least six bytes. *)
Lemma image_decode input :
  (6 <= length input)%nat ->
  exists status actual,
    Wire._read_status_word input = Ok status /\
    Wire._read_actual_position input = Ok actual /\
    uint16 status /\ int32 actual /\
    struct_pack fmt_H status = Ok (py_slice input 0 2) /\
    struct_pack fmt_i actual = Ok (py_slice input 2 6).
Proof.
  intros Hlen.
  destruct (struct_unpack_spec fmt_H (py_slice input 0 2)) as [H1 _].
  destruct (struct_unpack_spec fmt_i (py_slice input 2 6)) as [H2 _].
  destruct H1 as (status & Hs & Hsr & Hsp); [rewrite py_slice_length; cbv [fmt_size]; lia|].
  destruct H2 as (actual & Ha & Har & Hap); [rewrite py_slice_length; cbv [fmt_size]; lia|].
  exists status, actual. unfold Wire._read_status_word, Wire._read_actual_position.
  split; [exact Hs|]. split; [exact Ha|].
  split; [exact Hsr|]. split; [exact Har|]. split; assumption.
Qed.

(** X2. A raw input image decodes exactly when it has six bytes or more:
    [_read_status_word] needs two and [_read_actual_position] six, and each
    raises [struct.error] on a shorter image. The statusword read is within
    [0, 65535] and the position within the 32-bit signed range, bytes
    beyond the sixth are not read, and packing the two fields again gives
    the first six bytes back. *)
Theorem X2_image_decoding input :
  ((6 <= length input)%nat ->
   exists slave,
     image_of input = Ok slave /\ slave_ok slave /\
     image_of (take 6 input) = Ok slave /\
     Wire._write_csp_outputs (input_status slave) (input_actual slave) = Ok (take 6 input)) /\
  ((length input < 6)%nat -> Wire._read_actual_position input = Raise StructError) /\
  ((length input < 2)%nat -> Wire._read_status_word input = Raise StructError) /\
  ((2 <= length input)%nat ->
   exists status, Wire._read_status_word input = Ok status /\ uint16 status).
Proof.
  split; [|split; [|split]].
  - intros Hlen.
    destruct (image_decode input Hlen) as (status & actual & Hs & Ha & Hsr & Har & Hsp & Hap).
    exists {| input_status := status; input_actual := actual |}.
    split; [unfold image_of; rewrite Hs, Ha; reflexivity|].
    split; [split; assumption|].
    assert (Hs6 : py_slice (take 6 input) 0 2 = py_slice input 0 2).
    { unfold py_slice. rewrite !drop_0, take_take. reflexivity. }
    assert (Ha6 : py_slice (take 6 input) 2 6 = py_slice input 2 6).
    { unfold py_slice. change (6 - 2)%nat with 4%nat.
      rewrite (take_drop_commute input 4 2), (take_drop_commute (take 6 input) 4 2).
      rewrite take_take. reflexivity. }
    split.
    + unfold image_of, Wire._read_status_word, Wire._read_actual_position in *.
      rewrite Hs6, Ha6, Hs, Ha. reflexivity.
    + unfold Wire._write_csp_outputs. cbn [input_status input_actual].
      rewrite Hsp, Hap. cbn [rbind]. f_equal.
      unfold py_slice. rewrite drop_0.
      change (6 - 2)%nat with 4%nat. change (2 - 0)%nat with 2%nat.
      rewrite <- (take_drop 2 (take 6 input)).
      rewrite take_take. f_equal. rewrite (take_drop_commute input 4 2). reflexivity.
  - intros Hlen. unfold Wire._read_actual_position.
    apply struct_unpack_spec. rewrite py_slice_length. cbv [fmt_size]. lia.
  - intros Hlen. unfold Wire._read_status_word.
    apply struct_unpack_spec. rewrite py_slice_length. cbv [fmt_size]. lia.
  - intros Hlen. unfold Wire._read_status_word.
    destruct (struct_unpack_spec fmt_H (py_slice input 0 2)) as [H1 _].
    destruct H1 as (status & Hs & Hsr & _); [rewrite py_slice_length; cbv [fmt_size]; lia|].
    exists status. split; [exact Hs|exact Hsr].
Qed.

Lemma X2_witness :
  let input := [Byte.x27; Byte.x02; Byte.xfe; Byte.xff; Byte.xff; Byte.xff; Byte.x00] in
  image_of input = Ok {| input_status := 0x0227; input_actual := -2 |} /\
  Wire._write_csp_outputs 0x0227 (-2) = Ok (take 6 input) /\
  Wire._read_actual_position (take 5 input) = Raise StructError /\
  Wire._read_status_word (take 1 input) = Raise StructError.
Proof.
  intros input.
  destruct (X2_image_decoding input) as (Hok & _).
  destruct (X2_image_decoding (take 5 input)) as (_ & Hshort & _).
  destruct (X2_image_decoding (take 1 input)) as (_ & _ & Hshorter & _).
  destruct Hok as (slave & Himg & _ & _ & Hback); [simpl; lia|].
  assert (Hs : slave = {| input_status := 0x0227; input_actual := -2 |}).
  { vm_compute in Himg. inversion Himg. reflexivity. }
  subst slave. split; [exact Himg|]. split; [exact Hback|].
  split; [apply Hshort; simpl; lia|apply Hshorter; simpl; lia].
Defined.

(** X3. [_read_op_mode] of [motor.py] unpacks byte 2 of the input image,
    which the same image hands to [_read_actual_position] as the lowest
    byte of the position: on every image of six bytes or more it returns
    the low byte of the actual position read as a signed byte. It raises
    [struct.error] on an image of fewer than three bytes. *)
Theorem X3_op_mode_is_position_byte input :
  ((6 <= length input)%nat ->
   exists actual mode,
     Wire._read_actual_position input = Ok actual /\
     Wire._read_op_mode input = Ok mode /\
     mode = (actual + 128) mod 256 - 128) /\
  ((length input < 3)%nat -> Wire._read_op_mode input = Raise StructError).
Proof.
  split.
  - intros Hlen.
    destruct input as [|b0 [|b1 [|b2 [|b3 [|b4 [|b5 rest]]]]]]; simpl in Hlen; try lia.
    unfold Wire._read_actual_position, Wire._read_op_mode, py_slice, struct_unpack.
    cbn [drop take length Nat.sub fmt_size Nat.eqb of_little_endian].
    eexists _, _. split; [reflexivity|]. split; [reflexivity|].
    pose proof (Z_of_byte_range b2). pose proof (Z_of_byte_range b3).
    pose proof (Z_of_byte_range b4). pose proof (Z_of_byte_range b5).
    cbv [fmt_signed fmt_max fmt_bits fmt_size andb].
    change (2 ^ (8 * Z.of_nat 1 - 1) - 1) with 127.
    change (2 ^ (8 * Z.of_nat 1)) with 256.
    change (2 ^ (8 * Z.of_nat 4 - 1) - 1) with 2147483647.
    change (2 ^ (8 * Z.of_nat 4)) with 4294967296.
    destruct (127 <? _) eqn:E1; [apply Z.ltb_lt in E1|apply Z.ltb_ge in E1];
      destruct (2147483647 <? _) eqn:E2; [apply Z.ltb_lt in E2|apply Z.ltb_ge in E2| |];
      try (apply Z.ltb_lt in E2); try (apply Z.ltb_ge in E2);
      Z.div_mod_to_equations; lia.
  - intros Hlen. unfold Wire._read_op_mode.
    apply struct_unpack_spec. rewrite py_slice_length. cbv [fmt_size]. lia.
Qed.

Lemma X3_witness :
  let input := [Byte.x27; Byte.x02; Byte.xfe; Byte.xff; Byte.xff; Byte.xff] in
  Wire._read_actual_position input = Ok (-2) /\
  Wire._read_op_mode input = Ok (-2) /\
  Wire._read_op_mode (take 2 input) = Raise StructError.
Proof.
  intros input.
  destruct (X3_op_mode_is_position_byte input) as [Hok _].
  destruct (X3_op_mode_is_position_byte (take 2 input)) as [_ Herr].
  destruct Hok as (actual & mode & Ha & Hm & Heq); [simpl; lia|].
  assert (actual = -2) by (vm_compute in Ha; inversion Ha; reflexivity). subst actual.
  split; [exact Ha|]. split; [rewrite Hm, Heq; reflexivity|].
  apply Herr. simpl. lia.
Defined.

(** * What the guards leave alone *)

Lemma sync_guard_quiet num_slaves thr slaves states flag :
  length states = num_slaves -> (num_slaves <= length slaves)%nat ->
  (flag = true \/ (num_slaves < 2)%nat \/ ~ any_moving states \/
   (forall i, ~ out_of_sync thr slaves states i)) ->
  sync_guard num_slaves thr slaves states flag = Ok (states, flag).
Proof.
  intros Hlen Hsl Hquiet. unfold sync_guard.
  destruct (2 <=? num_slaves)%nat eqn:E2; [|reflexivity].
  destruct flag; [reflexivity|]. cbn [andb negb].
  apply Nat.leb_le in E2.
  destruct (read_positions_spec num_slaves slaves Hsl) as (positions & Hpos & Hpl & Hplook).
  rewrite Hpos. cbn [rbind].
  destruct (relative_positions_spec num_slaves positions states Hpl Hlen)
    as (rel & Hrel & Hrl & Hrlook).
  rewrite Hrel. cbn [rbind].
  destruct (any_moving_in_spec (seq 0 num_slaves) states) as (mv & Hmv & Hmviff).
  { intros i Hi. apply elem_of_seq_0 in Hi. lia. }
  rewrite Hmv. cbn [rbind].
  destruct mv; [|reflexivity].
  destruct (sync_error_in_spec (seq 0 (num_slaves - 1)) rel thr) as (tr & Htr & Htriff).
  { intros i Hi. apply elem_of_seq_0 in Hi. lia. }
  rewrite Htr. cbn [rbind].
  destruct tr; [|reflexivity].
  exfalso.
  destruct Hquiet as [Hf|[Hn|[Hidle|Hsync]]]; [discriminate Hf|lia| |].
  - apply Hidle. destruct (proj1 Hmviff eq_refl) as (i & st & _ & Hst & Hm).
    exists i, st. auto.
  - destruct (proj1 Htriff eq_refl) as (i & a & b & Hi & Ha & Hb & Hgt).
    apply elem_of_seq_0 in Hi.
    destruct (lookup_lt_is_Some_2 slaves i) as [s1 Hs1]; [lia|].
    destruct (lookup_lt_is_Some_2 slaves (i + 1)) as [s2 Hs2]; [lia|].
    destruct (lookup_lt_is_Some_2 states i) as [st1 Hst1]; [lia|].
    destruct (lookup_lt_is_Some_2 states (i + 1)) as [st2 Hst2]; [lia|].
    apply (Hsync i). exists s1, s2, st1, st2.
    repeat split; try assumption.
    rewrite (Hrlook i _ st1 (Hplook i s1 ltac:(lia) Hs1) Hst1) in Ha.
    rewrite (Hrlook (i + 1)%nat _ st2 (Hplook (i + 1)%nat s2 ltac:(lia) Hs2) Hst2) in Hb.
    inversion Ha; inversion Hb; subst. exact Hgt.
Qed.

Lemma fault_guard_quiet num_slaves slaves states :
  length states = num_slaves -> (num_slaves <= length slaves)%nat ->
  ~ fault_while_moving slaves states ->
  fault_guard num_slaves slaves states = Ok states.
Proof.
  intros Hlen Hsl Hquiet. unfold fault_guard.
  destruct (fault_detected_in_spec (seq 0 num_slaves) slaves states) as (b & Hb & Hiff).
  { intros i Hi. apply elem_of_seq_0 in Hi. lia. }
  rewrite Hb. cbn [rbind]. destruct b; [|reflexivity].
  exfalso. apply Hquiet.
  destruct (proj1 Hiff eq_refl) as (i & slave & st & _ & Hs & Hst & Hf & Hm).
  exists i, slave, st. auto.
Qed.

(** X4. The sync-error guard changes nothing, and leaves the flag as it
    is, when the flag is already up, when there are fewer than two slaves,
    when no axis is on a trajectory (however far apart the axes are), or
    when every adjacent pair is within the threshold. With a negative
    threshold, at least two slaves, the flag down and some axis moving, it
    always trips and stops every axis. *)
Theorem X4_sync_guard_trips_only_when num_slaves max_sync_error_pulse slaves states flag :
  length states = num_slaves -> (num_slaves <= length slaves)%nat ->
  ((flag = true \/ (num_slaves < 2)%nat \/ ~ any_moving states \/
    (forall i, ~ out_of_sync max_sync_error_pulse slaves states i)) ->
   sync_guard num_slaves max_sync_error_pulse slaves states flag = Ok (states, flag)) /\
  (max_sync_error_pulse < 0 -> (2 <= num_slaves)%nat -> any_moving states ->
   sync_guard num_slaves max_sync_error_pulse slaves states false
   = Ok (stop_all slaves states, true)).
Proof.
  intros Hlen Hsl. split.
  - apply sync_guard_quiet; assumption.
  - intros Hneg H2 Hm. apply sync_guard_stops; try assumption.
    exists 0%nat.
    destruct (lookup_lt_is_Some_2 slaves 0) as [s1 Hs1]; [lia|].
    destruct (lookup_lt_is_Some_2 slaves 1) as [s2 Hs2]; [lia|].
    destruct (lookup_lt_is_Some_2 states 0) as [st1 Hst1]; [lia|].
    destruct (lookup_lt_is_Some_2 states 1) as [st2 Hst2]; [lia|].
    exists s1, s2, st1, st2. repeat split; try assumption. lia.
Qed.

Lemma X4_witness :
  let moving := {| target_pulse := 0; offset := 0; axis := "z"; last_status := None;
                   trajectory := Some {| traj_start := 0; traj_end := 5000000;
                                         traj_duration := 2; traj_start_time := 100 |} |} in
  let slaves := [ {| input_status := 0x0027; input_actual := 90000000 |};
                  {| input_status := 0x0027; input_actual := 0 |} ] in
  sync_guard 2 1398181 slaves [initial_motor_state; initial_motor_state] false
  = Ok ([initial_motor_state; initial_motor_state], false) /\
  sync_guard 2 (-1) [ {| input_status := 0x0027; input_actual := 0 |};
                      {| input_status := 0x0027; input_actual := 0 |} ]
    [moving; initial_motor_state] false
  = Ok ([halt_at 0 moving; initial_motor_state], true).
Proof.
  intros moving slaves. split.
  - apply (X4_sync_guard_trips_only_when 2 1398181 slaves
             [initial_motor_state; initial_motor_state] false); [reflexivity|simpl; lia|].
    right. right. left. intros (i & st & Hst & Hm).
    destruct i as [|[|i]]; simpl in Hst; inversion Hst; subst st; discriminate Hm.
  - apply (X4_sync_guard_trips_only_when 2 (-1)
             [ {| input_status := 0x0027; input_actual := 0 |};
               {| input_status := 0x0027; input_actual := 0 |} ]
             [moving; initial_motor_state] false); [reflexivity|simpl; lia|lia|lia|].
    exists 0%nat, moving. split; reflexivity.
Defined.

(** X5. The fault guard changes nothing unless an axis that is on a
    trajectory shows statusword bit 3: a fault on an idle axis leaves the
    trajectories of the other axes running. *)
Theorem X5_fault_guard_ignores_idle_faults num_slaves slaves states :
  length states = num_slaves -> (num_slaves <= length slaves)%nat ->
  (forall i slave st,
     slaves !! i = Some slave -> states !! i = Some st ->
     fault_bit (_read_status_word slave) = true -> trajectory st = None) ->
  fault_guard num_slaves slaves states = Ok states.
Proof.
  intros Hlen Hsl Hidle. apply fault_guard_quiet; [exact Hlen|exact Hsl|].
  intros (i & slave & st & Hs & Hst & Hf & Hm).
  specialize (Hidle i slave st Hs Hst Hf).
  unfold is_moving in Hm. apply bool_decide_eq_true in Hm. contradiction.
Qed.

Lemma X5_witness :
  let moving := {| target_pulse := 0; offset := 0; axis := "x"; last_status := None;
                   trajectory := Some {| traj_start := 0; traj_end := 5000000;
                                         traj_duration := 2; traj_start_time := 100 |} |} in
  let slaves := [ {| input_status := 0x0027; input_actual := 1000 |};
                  {| input_status := 0x0008; input_actual := 1200 |} ] in
  fault_guard 2 slaves [moving; initial_motor_state] = Ok [moving; initial_motor_state].
Proof.
  intros moving slaves.
  apply (X5_fault_guard_ignores_idle_faults 2 slaves [moving; initial_motor_state]);
    [reflexivity|simpl; lia|].
  intros i slave st Hs Hst Hf.
  destruct i as [|[|i]]; simpl in Hs, Hst; inversion Hs; inversion Hst; subst;
    [discriminate Hf|reflexivity].
Defined.

(** * [STOP_ALL] *)

Lemma drain_stop slaves q1 : forall q2 slave_idx states cmds,
  drain slaves (q1 ++ (slave_idx, STOP_ALL) :: q2) states cmds
  = drain slaves (q1 ++ [(slave_idx, STOP_ALL)]) states cmds.
Proof.
  induction q1 as [|[i cmd] q1 IH]; intros q2 slave_idx states cmds; [reflexivity|].
  cbn [app drain]. destruct cmd; try apply IH.
  - reflexivity.
  - destruct (do_set_axis states i value) as [states'|e]; [cbn [rbind]; apply IH|reflexivity].
  - destruct (do_set_origin slaves states i) as [states'|e]; [cbn [rbind]; apply IH|reflexivity].
Qed.

Lemma drain_safe_stop slaves q1 : forall q2 slave_idx states flag cmds,
  drain_safe slaves (q1 ++ (slave_idx, STOP_ALL) :: q2) states flag cmds
  = drain_safe slaves (q1 ++ [(slave_idx, STOP_ALL)]) states flag cmds.
Proof.
  induction q1 as [|[i cmd] q1 IH]; intros q2 slave_idx states flag cmds; [reflexivity|].
  cbn [app drain_safe]. destruct cmd; try apply IH.
  - reflexivity.
  - destruct (do_set_axis states i value) as [states'|e]; [cbn [rbind]; apply IH|reflexivity].
  - destruct (do_set_origin slaves states i) as [states'|e]; [cbn [rbind]; apply IH|reflexivity].
  - destruct flag; apply IH.
Qed.

Lemma drain_running slaves queue : forall states cmds d,
  drain slaves queue states cmds = Ok d -> dr_running d = negb (has_stop_all queue).
Proof.
  induction queue as [|[i cmd] queue IH]; intros states cmds d H; simpl in H.
  - inversion H; reflexivity.
  - destruct cmd; cbn [has_stop_all existsb snd is_stop_all orb];
      try (eapply IH; eassumption).
    + inversion H; reflexivity.
    + apply rbind_ok in H as (states' & _ & H). eapply IH; eassumption.
    + apply rbind_ok in H as (states' & _ & H). eapply IH; eassumption.
Qed.

Lemma drain_safe_running slaves queue : forall states flag cmds d,
  drain_safe slaves queue states flag cmds = Ok d -> dr_running d = negb (has_stop_all queue).
Proof.
  induction queue as [|[i cmd] queue IH]; intros states flag cmds d H; simpl in H.
  - inversion H; reflexivity.
  - destruct cmd; cbn [has_stop_all existsb snd is_stop_all orb];
      try (eapply IH; eassumption).
    + inversion H; reflexivity.
    + apply rbind_ok in H as (states' & _ & H). eapply IH; eassumption.
    + apply rbind_ok in H as (states' & _ & H). eapply IH; eassumption.
    + destruct flag; eapply IH; eassumption.
Qed.

(** X6. A [STOP_ALL] in the queue ends the loop in the cycle that drains
    it, whatever slave index it carries: the commands queued behind it are
    not drained, and the cycle returns with [is_running] false, without
    writing a frame and without touching the shared block. A cycle whose
    queue holds no [STOP_ALL] keeps running. *)
Theorem X6_stop_all_ends_the_loop libm_cos num_slaves slave_configs env loop shared :
  (forall slaves q1 q2 slave_idx states flag cmds,
     drain slaves (q1 ++ (slave_idx, STOP_ALL) :: q2) states cmds
     = drain slaves (q1 ++ [(slave_idx, STOP_ALL)]) states cmds /\
     drain_safe slaves (q1 ++ (slave_idx, STOP_ALL) :: q2) states flag cmds
     = drain_safe slaves (q1 ++ [(slave_idx, STOP_ALL)]) states flag cmds) /\
  (forall r,
     cycle libm_cos num_slaves slave_configs env loop shared = Ok r ->
     is_running (cr_loop r) = negb (has_stop_all (env_queue env)) /\
     (has_stop_all (env_queue env) = true -> cr_frames r = [] /\ cr_shared r = shared)) /\
  (forall max_sync_error_pulse r,
     cycle_safe libm_cos num_slaves max_sync_error_pulse slave_configs env loop shared = Ok r ->
     is_running (cr_loop r) = negb (has_stop_all (env_queue env)) /\
     (has_stop_all (env_queue env) = true -> cr_frames r = [] /\ cr_shared r = shared)).
Proof.
  split; [|split].
  - intros slaves q1 q2 slave_idx states flag cmds.
    split; [apply drain_stop|apply drain_safe_stop].
  - intros r H. unfold cycle, command_phase in H.
    apply rbind_ok in H as (d & Hd & H).
    apply rbind_ok in Hd as (d0 & Hd0 & Hd).
    apply drain_running in Hd0.
    apply rbind_ok in Hd as (states1 & _ & Hd). inversion Hd; subst d; clear Hd.
    cbn [dr_running dr_states] in H. rewrite Hd0 in H. rewrite negb_involutive in H.
    destruct (has_stop_all (env_queue env)).
    + inversion H; subst r; simpl. auto.
    + apply rbind_ok in H as (c & _ & H). inversion H; subst r; simpl.
      split; [reflexivity|discriminate].
  - intros thr r H. unfold cycle_safe, command_phase_safe in H.
    apply rbind_ok in H as (d & Hd & H).
    apply rbind_ok in Hd as (d0 & Hd0 & Hd).
    apply drain_safe_running in Hd0.
    apply rbind_ok in Hd as (states1 & _ & Hd). inversion Hd; subst d; clear Hd.
    cbn [dr_running dr_states dr_sync_error] in H. rewrite Hd0 in H.
    rewrite negb_involutive in H.
    destruct (has_stop_all (env_queue env)).
    + inversion H; subst r; simpl. auto.
    + apply rbind_ok in H as ([c flag'] & _ & H). inversion H; subst r; simpl.
      split; [reflexivity|discriminate].
Qed.

Lemma X6_witness :
  let slaves := [ {| input_status := 0x0027; input_actual := 1000 |} ] in
  let env := {| env_queue := [(0, SET_ORIGIN); (-1, STOP_ALL); (0, MOVE_TO_MM 10)];
                env_slaves_before := slaves; env_slaves_after := slaves;
                env_common_start_time := 101; env_now := fun _ => 101%float |} in
  let loop := {| local_motor_states := [initial_motor_state]; is_running := true;
                 sync_error_detected := false; cycle_counter := 7 |} in
  exists r,
    cycle_safe cos_steps 1 1000 ∅ env loop (replicate 5 0%float) = Ok r /\
    is_running (cr_loop r) = false /\
    local_motor_states (cr_loop r) = [set_origin 1000 initial_motor_state] /\
    cr_frames r = [] /\ cr_shared r = replicate 5 0%float.
Proof.
  intros slaves env loop.
  destruct (cycle_safe cos_steps 1 1000 ∅ env loop (replicate 5 0%float)) as [r|e] eqn:E;
    [|vm_compute in E; discriminate E].
  destruct (X6_stop_all_ends_the_loop cos_steps 1 ∅ env loop (replicate 5 0%float))
    as (_ & _ & Hcycle).
  destruct (Hcycle 1000 r E) as [Hrun Hstop].
  destruct (Hstop eq_refl) as [Hframes Hshared].
  exists r. split; [reflexivity|]. split; [exact Hrun|].
  split; [vm_compute in E; inversion E; reflexivity|].
  split; [exact Hframes|exact Hshared].
Defined.

(** * The shared block read back by the client *)

Lemma truncates_self z : truncates (inject_Z z) z.
Proof. unfold truncates. split; intros _; lra. Qed.

Lemma truncates_ext q q' z : (q == q')%Q -> truncates q z -> truncates q' z.
Proof. unfold truncates. intros E [Hp Hn]. split; intros H; rewrite <- E in *; auto. Qed.

(** An [int] of magnitude at most [2^53] that was stored as a double is
    read back by [int]. *)
Lemma py_int_py_float z f :
  Z.abs z <= 2 ^ 53 -> py_float z = Ok f -> py_int f = Ok z.
Proof.
  intros Hz Hf. destruct (py_float_exact z Hz) as (f' & Hf' & Hfin & Hq).
  rewrite Hf in Hf'. inversion Hf'; subst f'.
  apply py_int_spec. split; [exact Hfin|].
  eapply truncates_ext; [symmetry; exact Hq|apply truncates_self].
Qed.

Lemma store_inv shared idx value shared' :
  0 <= idx -> store shared idx value = Ok shared' ->
  exists f, py_float value = Ok f /\ idx < Z.of_nat (length shared) /\
    shared' = <[Z.to_nat idx := f]> shared.
Proof.
  intros Hidx H. unfold store in H. apply rbind_ok in H as (f & Hf & H).
  exists f. split; [exact Hf|].
  rewrite <- (Z2Nat.id idx Hidx) in H.
  apply py_setitem_of_nat in H as [Hlt ->]. split; [lia|reflexivity].
Qed.

Lemma store_total shared idx value f :
  py_float value = Ok f -> 0 <= idx < Z.of_nat (length shared) ->
  store shared idx value = Ok (<[Z.to_nat idx := f]> shared).
Proof.
  intros Hf Hidx. unfold store. rewrite Hf. cbn [rbind]. apply py_setitem_nonneg. exact Hidx.
Qed.

Lemma publish_inv stride sync_flag i slave state shared shared' :
  0 <= stride ->
  publish stride sync_flag i slave state shared = Ok shared' ->
  length shared' = length shared /\
  published stride sync_flag i slave state shared' /\
  (forall k, (Z.of_nat k < Z.of_nat i * stride \/
              Z.of_nat i * stride + block_width sync_flag <= Z.of_nat k) ->
     shared' !! k = shared !! k).
Proof.
  intros Hs H. unfold publish in H. unfold published.
  set (b := Z.of_nat i * stride) in *.
  assert (Hb : 0 <= b) by (unfold b; lia).
  apply rbind_ok in H as (s0 & H0 & H).
  apply rbind_ok in H as (s1 & H1 & H).
  apply rbind_ok in H as (s2 & H2 & H).
  apply rbind_ok in H as (s3 & H3 & H).
  apply store_inv in H0 as (f0 & Hf0 & L0 & ->); [|lia].
  apply store_inv in H1 as (f1 & Hf1 & L1 & ->); [|lia].
  apply store_inv in H2 as (f2 & Hf2 & L2 & ->); [|lia].
  apply store_inv in H3 as (f3 & Hf3 & L3 & ->); [|lia].
  fold (is_moving state) in Hf1. rewrite py_float_flag in Hf1. inversion Hf1; subst f1.
  rewrite !length_insert in *.
  destruct sync_flag as [flag|]; cbn [block_width].
  - apply store_inv in H as (f4 & Hf4 & L4 & ->); [|lia].
    rewrite py_float_flag in Hf4. inversion Hf4; subst f4.
    rewrite !length_insert in *.
    split; [reflexivity|]. split.
    + split; [lia|]. split.
      { exists f0. split; [exact Hf0|].
        rewrite !list_lookup_insert_ne by lia. apply list_lookup_insert_eq. lia. }
      split.
      { rewrite !list_lookup_insert_ne by lia.
        apply list_lookup_insert_eq. rewrite !length_insert. lia. }
      split.
      { exists f2. split; [exact Hf2|].
        rewrite !list_lookup_insert_ne by lia.
        apply list_lookup_insert_eq. rewrite !length_insert. lia. }
      split.
      { exists f3. split; [exact Hf3|].
        rewrite !list_lookup_insert_ne by lia.
        apply list_lookup_insert_eq. rewrite !length_insert. lia. }
      intros flag' Hflag. inversion Hflag; subst flag'.
      apply list_lookup_insert_eq. rewrite !length_insert. lia.
    + intros k Hk. rewrite !list_lookup_insert_ne by lia. reflexivity.
  - inversion H; subst shared'. rewrite !length_insert.
    split; [reflexivity|]. split.
    + split; [lia|]. split.
      { exists f0. split; [exact Hf0|].
        rewrite !list_lookup_insert_ne by lia. apply list_lookup_insert_eq. lia. }
      split.
      { rewrite !list_lookup_insert_ne by lia.
        apply list_lookup_insert_eq. rewrite !length_insert. lia. }
      split.
      { exists f2. split; [exact Hf2|].
        rewrite !list_lookup_insert_ne by lia.
        apply list_lookup_insert_eq. rewrite !length_insert. lia. }
      split.
      { exists f3. split; [exact Hf3|].
        apply list_lookup_insert_eq. rewrite !length_insert. lia. }
      intros flag' Hflag. discriminate Hflag.
    + intros k Hk. rewrite !list_lookup_insert_ne by lia. reflexivity.
Qed.

(** A block that only differs outside the slots of slave [i] is as
    published. *)
Lemma published_ext stride sync_flag i slave state shared shared' :
  0 <= stride ->
  length shared' = length shared ->
  (forall k, Z.of_nat i * stride <= Z.of_nat k < Z.of_nat i * stride + block_width sync_flag ->
     shared' !! k = shared !! k) ->
  published stride sync_flag i slave state shared ->
  published stride sync_flag i slave state shared'.
Proof.
  intros Hs Hlen Hsame (Hw & (f0 & Hf0 & H0) & H1 & (f2 & Hf2 & H2) & (f3 & Hf3 & H3) & H4).
  assert (Hbw : 4 <= block_width sync_flag) by (destruct sync_flag; simpl; lia).
  assert (Hb : 0 <= Z.of_nat i * stride) by lia.
  unfold published. rewrite Hlen.
  split; [exact Hw|]. split.
  { exists f0. split; [exact Hf0|]. rewrite Hsame by lia. exact H0. }
  split.
  { rewrite Hsame by lia. exact H1. }
  split.
  { exists f2. split; [exact Hf2|]. rewrite Hsame by lia. exact H2. }
  split.
  { exists f3. split; [exact Hf3|]. rewrite Hsame by lia. exact H3. }
  intros flag Hflag. subst sync_flag. cbn [block_width] in *.
  rewrite Hsame by lia. exact (H4 flag eq_refl).
Qed.

Section SharedBlock.

Variable libm_cos : float -> float.

(** After the per-slave loop, the block of every slave holds what its step
    published: the image of the slave and the state the axis was left in. *)
Lemma for_each_control_slave_published stride flag slaves now idxs :
  0 <= stride -> block_width flag <= stride -> NoDup idxs ->
  forall acc c,
  for_each (control_slave libm_cos stride flag slaves now) idxs acc = Ok c ->
  length (ct_shared c) = length (ct_shared acc) /\
  (forall k, (forall i, i ∈ idxs ->
                Z.of_nat k < Z.of_nat i * stride \/
                Z.of_nat i * stride + block_width flag <= Z.of_nat k) ->
     ct_shared c !! k = ct_shared acc !! k) /\
  forall i, i ∈ idxs ->
    exists slave st', slaves !! i = Some slave /\ ct_states c !! i = Some st' /\
      published stride flag i slave st' (ct_shared c).
Proof.
  intros Hstride Hwidth. induction 1 as [|i idxs Hni Hnd IH]; intros acc c H; simpl in H.
  - inversion H; subst. split; [reflexivity|]. split; [reflexivity|].
    intros i Hi. apply elem_of_nil in Hi. contradiction.
  - apply rbind_ok in H as (acc1 & Hstep & Hrest).
    pose proof Hrest as Hrest'.
    apply for_each_control_slave in Hrest' as (_ & Hout & _); [|exact Hnd].
    apply control_slave_inv in Hstep
      as (slave & state & state' & cw & tgt & frame & Hs & Hst & Hax & Hst1 & Hw & Hp & Hf).
    apply publish_inv in Hp as (Hplen & Hpub & Hpout); [|exact Hstride].
    apply IH in Hrest as (Hlen & Hsame & Hall).
    assert (Hbw : 4 <= block_width flag) by (destruct flag; simpl; lia).
    assert (Hdisj : forall j, j ∈ idxs ->
              forall k, Z.of_nat i * stride <= Z.of_nat k
                        < Z.of_nat i * stride + block_width flag ->
              Z.of_nat k < Z.of_nat j * stride \/
              Z.of_nat j * stride + block_width flag <= Z.of_nat k).
    { intros j Hj k Hk. assert (j <> i) by (intros ->; contradiction).
      destruct (Nat.lt_total i j) as [Hlt|[->|Hgt]]; [left|contradiction|right]; nia. }
    split; [rewrite Hlen; exact Hplen|]. split.
    + intros k Hk. rewrite Hsame by (intros j Hj; apply Hk; right; exact Hj).
      apply Hpout. apply Hk. left.
    + intros j Hj. apply elem_of_cons in Hj as [->|Hj]; [|apply Hall; exact Hj].
      exists slave, state'. split; [exact Hs|]. split.
      * rewrite (Hout i Hni), Hst1.
        apply list_lookup_insert_eq. eapply lookup_lt_Some; exact Hst.
      * eapply published_ext; [exact Hstride|exact Hlen| |exact Hpub].
        intros k Hk. apply Hsame. intros j Hj. apply Hdisj; assumption.
Qed.

End SharedBlock.

(** What the client reads out of a published block. *)
Lemma published_read stride sync_flag i slave state shared :
  0 <= stride ->
  published stride sync_flag i slave state shared ->
  slave_ok slave -> int32 (offset state) ->
  Client.status_word stride shared (Z.of_nat i) = Ok (input_status slave) /\
  Client.is_moving stride shared (Z.of_nat i) = Ok (is_moving state) /\
  Client.current_position_pulse stride shared (Z.of_nat i) = Ok (input_actual slave) /\
  Client.offset_pulse stride shared (Z.of_nat i) = Ok (offset state).
Proof.
  intros Hs (Hw & (f0 & Hf0 & H0) & H1 & (f2 & Hf2 & H2) & (f3 & Hf3 & H3) & _).
  intros [Hst Hact] Hoff. unfold uint16, int32 in *.
  assert (Hb : 0 <= Z.of_nat i * stride) by lia.
  unfold Client.status_word, Client.is_moving, Client.current_position_pulse,
    Client.offset_pulse.
  cbv zeta.
  rewrite <- (Z2Nat.id (Z.of_nat i * stride)) at 1 by lia.
  rewrite (py_getitem_nat _ _ _ H0). cbn [rbind].
  rewrite <- (Z2Nat.id (Z.of_nat i * stride + 1)) by lia.
  rewrite (py_getitem_nat _ _ _ H1). cbn [rbind].
  rewrite <- (Z2Nat.id (Z.of_nat i * stride + 2)) by lia.
  rewrite (py_getitem_nat _ _ _ H2). cbn [rbind].
  rewrite <- (Z2Nat.id (Z.of_nat i * stride + 3)) by lia.
  rewrite (py_getitem_nat _ _ _ H3). cbn [rbind].
  split; [apply py_int_py_float; [unfold _read_status_word in *; lia|exact Hf0]|].
  split; [destruct (is_moving state); reflexivity|].
  split; apply py_int_py_float; try assumption; unfold _read_actual_position in *; lia.
Qed.

Lemma published_read_flag i slave state shared flag :
  published 5 (Some flag) i slave state shared ->
  Client.has_sync_error shared (Z.of_nat i) = Ok flag.
Proof.
  intros (Hw & _ & _ & _ & _ & H4). specialize (H4 flag eq_refl).
  unfold Client.has_sync_error.
  rewrite <- (Z2Nat.id (Z.of_nat i * 5 + 4)) by lia.
  rewrite (py_getitem_nat _ _ _ H4). cbn [rbind]. destruct flag; reflexivity.
Qed.

(** A cycle that keeps running, taken apart. *)
Lemma cycle_inv libm_cos num_slaves slave_configs env loop shared r :
  cycle libm_cos num_slaves slave_configs env loop shared = Ok r ->
  is_running (cr_loop r) = true ->
  exists d states2 c,
    command_phase slave_configs env (local_motor_states loop) = Ok d /\
    dr_running d = true /\
    fault_guard num_slaves (env_slaves_after env) (dr_states d) = Ok states2 /\
    for_each (control_slave libm_cos 4 None (env_slaves_after env) (env_now env))
      (seq 0 num_slaves)
      {| ct_states := states2; ct_shared := shared; ct_frames := [] |} = Ok c /\
    local_motor_states (cr_loop r) = ct_states c /\
    cr_shared r = ct_shared c /\ cr_frames r = ct_frames c.
Proof.
  unfold cycle. intros H Hrun.
  apply rbind_ok in H as (d & Hd & H).
  destruct (dr_running d) eqn:Hdr; cbn [negb] in H.
  2:{ inversion H; subst. simpl in Hrun. discriminate. }
  apply rbind_ok in H as (c & Hc & H). inversion H; subst; clear H. simpl.
  unfold control_phase in Hc. apply rbind_ok in Hc as (states2 & Hg & Hc).
  exists d, states2, c. auto 10.
Qed.

Lemma cycle_safe_inv libm_cos num_slaves thr slave_configs env loop shared r :
  cycle_safe libm_cos num_slaves thr slave_configs env loop shared = Ok r ->
  is_running (cr_loop r) = true ->
  exists d states2 states3 c,
    command_phase_safe slave_configs env (local_motor_states loop) (sync_error_detected loop)
    = Ok d /\
    dr_running d = true /\
    sync_guard num_slaves thr (env_slaves_after env) (dr_states d) (dr_sync_error d)
    = Ok (states2, sync_error_detected (cr_loop r)) /\
    fault_guard num_slaves (env_slaves_after env) states2 = Ok states3 /\
    for_each (control_slave libm_cos 5 (Some (sync_error_detected (cr_loop r)))
                (env_slaves_after env) (env_now env))
      (seq 0 num_slaves)
      {| ct_states := states3; ct_shared := shared; ct_frames := [] |} = Ok c /\
    local_motor_states (cr_loop r) = ct_states c /\
    cr_shared r = ct_shared c /\ cr_frames r = ct_frames c.
Proof.
  unfold cycle_safe. intros H Hrun.
  apply rbind_ok in H as (d & Hd & H).
  destruct (dr_running d) eqn:Hdr; cbn [negb] in H.
  2:{ inversion H; subst. simpl in Hrun. discriminate. }
  apply rbind_ok in H as ([c flag] & Hc & H). inversion H; subst; clear H. simpl.
  unfold control_phase_safe in Hc.
  apply rbind_ok in Hc as ([states2 flag'] & Hs & Hc).
  apply rbind_ok in Hc as (states3 & Hg & Hc).
  apply rbind_ok in Hc as (c' & Hc & H). inversion H; subst; clear H.
  exists d, states2, states3, c. auto 10.
Qed.

(** X7. What a motor object reads out of the shared array after a cycle
    that keeps running is what that cycle saw: [status_word] is the
    statusword of the input image, [current_position_pulse] its actual
    position, [offset_pulse] the offset of the axis, [is_moving] tells
    whether the axis still has a trajectory and, in the safe loop,
    [has_sync_error] of every motor and of the bus is the flag of the loop.
    The image is a decoded TxPDO and the offset a 32-bit position. *)
Theorem X7_client_reads_back_the_cycle libm_cos num_slaves slave_configs env loop shared r
    i slave st :
  is_running (cr_loop r) = true ->
  (i < num_slaves)%nat ->
  env_slaves_after env !! i = Some slave -> slave_ok slave ->
  local_motor_states (cr_loop r) !! i = Some st -> int32 (offset st) ->
  (cycle libm_cos num_slaves slave_configs env loop shared = Ok r ->
   Client.status_word 4 (cr_shared r) (Z.of_nat i) = Ok (input_status slave) /\
   Client.is_moving 4 (cr_shared r) (Z.of_nat i) = Ok (is_moving st) /\
   Client.current_position_pulse 4 (cr_shared r) (Z.of_nat i) = Ok (input_actual slave) /\
   Client.offset_pulse 4 (cr_shared r) (Z.of_nat i) = Ok (offset st)) /\
  (forall max_sync_error_pulse,
   cycle_safe libm_cos num_slaves max_sync_error_pulse slave_configs env loop shared = Ok r ->
   Client.status_word 5 (cr_shared r) (Z.of_nat i) = Ok (input_status slave) /\
   Client.is_moving 5 (cr_shared r) (Z.of_nat i) = Ok (is_moving st) /\
   Client.current_position_pulse 5 (cr_shared r) (Z.of_nat i) = Ok (input_actual slave) /\
   Client.offset_pulse 5 (cr_shared r) (Z.of_nat i) = Ok (offset st) /\
   Client.has_sync_error (cr_shared r) (Z.of_nat i) = Ok (sync_error_detected (cr_loop r)) /\
   bus_has_sync_error (cr_shared r) = Ok (sync_error_detected (cr_loop r))).
Proof.
  intros Hrun Hi Hslave Hok Hst Hoff. split.
  - intros H.
    destruct (cycle_inv _ _ _ _ _ _ _ H Hrun) as (d & states2 & c & _ & _ & _ & Hc & Hl & Hsh & _).
    apply for_each_control_slave_published in Hc as (_ & _ & Hall);
      [|lia|simpl; lia|apply NoDup_seq].
    destruct (Hall i) as (slave' & st' & Hs' & Hst' & Hpub); [apply elem_of_seq_0; exact Hi|].
    rewrite Hslave in Hs'. inversion Hs'; subst slave'.
    rewrite Hl, Hst' in Hst. inversion Hst; subst st'.
    rewrite Hsh. apply (published_read 4 None); try assumption. lia.
  - intros thr H.
    destruct (cycle_safe_inv _ _ _ _ _ _ _ _ H Hrun)
      as (d & states2 & states3 & c & _ & _ & _ & _ & Hc & Hl & Hsh & _).
    apply for_each_control_slave_published in Hc as (_ & _ & Hall);
      [|lia|simpl; lia|apply NoDup_seq].
    destruct (Hall i) as (slave' & st' & Hs' & Hst' & Hpub); [apply elem_of_seq_0; exact Hi|].
    rewrite Hslave in Hs'. inversion Hs'; subst slave'.
    rewrite Hl, Hst' in Hst. inversion Hst; subst st'.
    rewrite Hsh.
    destruct (published_read 5 _ i slave st (ct_shared c) ltac:(lia) Hpub Hok Hoff)
      as (H0 & H1 & H2 & H3).
    repeat (split; [assumption|]). split.
    + eapply published_read_flag. exact Hpub.
    + destruct (Hall 0%nat) as (slave0 & st0 & _ & _ & Hpub0); [apply elem_of_seq_0; lia|].
      apply published_read_flag in Hpub0. exact Hpub0.
Qed.

Lemma X7_witness :
  let slaves := [ {| input_status := 0x0237; input_actual := 1000 |};
                  {| input_status := 0x0250; input_actual := -2000 |} ] in
  let env := {| env_queue := [(1, SET_ORIGIN)];
                env_slaves_before := slaves; env_slaves_after := slaves;
                env_common_start_time := 101; env_now := fun _ => 101%float |} in
  let loop := {| local_motor_states := [initial_motor_state; initial_motor_state];
                 is_running := true; sync_error_detected := true; cycle_counter := 7 |} in
  exists r,
    cycle_safe cos_steps 2 1000 ∅ env loop (replicate 10 0%float) = Ok r /\
    Client.status_word 5 (cr_shared r) 1 = Ok 0x0250 /\
    Client.is_moving 5 (cr_shared r) 1 = Ok false /\
    Client.current_position_pulse 5 (cr_shared r) 1 = Ok (-2000) /\
    Client.offset_pulse 5 (cr_shared r) 1 = Ok (-2000) /\
    Client.has_sync_error (cr_shared r) 1 = Ok false /\
    bus_has_sync_error (cr_shared r) = Ok false.
Proof.
  intros slaves env loop.
  destruct (cycle_safe cos_steps 2 1000 ∅ env loop (replicate 10 0%float)) as [r|e] eqn:E;
    [|vm_compute in E; discriminate E].
  exists r. split; [reflexivity|].
  assert (Hrun : is_running (cr_loop r) = true)
    by (vm_compute in E; inversion E; reflexivity).
  assert (Hflag : sync_error_detected (cr_loop r) = false)
    by (vm_compute in E; inversion E; reflexivity).
  assert (Hst : local_motor_states (cr_loop r) !! 1%nat
                = Some (set_last_status 0x0250 (set_origin (-2000) initial_motor_state)))
    by (vm_compute in E; inversion E; reflexivity).
  destruct (X7_client_reads_back_the_cycle cos_steps 2 ∅ env loop (replicate 10 0%float) r
              1%nat {| input_status := 0x0250; input_actual := -2000 |}
              (set_last_status 0x0250 (set_origin (-2000) initial_motor_state)))
    as [_ Hsafe]; try assumption.
  - lia.
  - reflexivity.
  - split; cbv [uint16 int32 input_status input_actual]; lia.
  - cbv [int32 offset set_last_status set_origin]; lia.
  - pose proof (Hsafe 1000 E) as H. rewrite Hflag in H. exact H.
Defined.

(** * The frames of a cycle *)

Section Frames.

Variable libm_cos : float -> float.

(** Every frame of the per-slave loop fits the RxPDO. *)
Lemma for_each_control_slave_fit stride flag slaves now idxs : forall acc c,
  for_each (control_slave libm_cos stride flag slaves now) idxs acc = Ok c ->
  Forall (fun frame => uint16 (frame_controlword frame) /\ int32 (frame_target frame))
    (ct_frames acc) ->
  Forall (fun frame => uint16 (frame_controlword frame) /\ int32 (frame_target frame))
    (ct_frames c).
Proof.
  induction idxs as [|i idxs IH]; intros acc c H Hacc; simpl in H.
  - inversion H; subst. exact Hacc.
  - apply rbind_ok in H as (acc1 & Hstep & Hrest).
    apply (IH _ _ Hrest).
    apply control_slave_inv in Hstep
      as (slave & state & state' & cw & tgt & frame & _ & _ & Hax & _ & Hw & _ & Hf).
    rewrite Hf. apply Forall_app. split; [exact Hacc|].
    apply Forall_cons. split; [|apply Forall_nil; exact I].
    apply axis_control_controlword in Hax. subst cw.
    apply write_csp_outputs_inv in Hw as (-> & -> & Ht).
    split; [apply controlword_range|exact Ht].
Qed.

(** The frames of a completed per-slave loop: one per slave, each fitting
    the RxPDO and carrying the target that the loop stores for the axis. *)
Lemma control_loop_targets stride flag slaves now num_slaves states shared c :
  for_each (control_slave libm_cos stride flag slaves now) (seq 0 num_slaves)
    {| ct_states := states; ct_shared := shared; ct_frames := [] |} = Ok c ->
  length (ct_frames c) = num_slaves /\
  forall i frame, ct_frames c !! i = Some frame ->
    uint16 (frame_controlword frame) /\ int32 (frame_target frame) /\
    exists st, ct_states c !! i = Some st /\ frame_target frame = target_pulse st.
Proof.
  intros H. pose proof (for_each_control_slave_fit _ _ _ _ _ _ _ H (Forall_nil_2 _)) as Hfit.
  apply for_each_control_slave in H as (_ & _ & frames & Hfr & Hlen & Hall);
    [|apply NoDup_seq].
  simpl in Hfr, Hall. subst frames. rewrite length_seq in Hlen.
  split; [exact Hlen|]. intros i frame Hi.
  rewrite Forall_lookup in Hfit. destruct (Hfit i frame Hi) as [Hcw Htg].
  split; [exact Hcw|]. split; [exact Htg|].
  assert (Hlt : (i < num_slaves)%nat) by (rewrite <- Hlen; eapply lookup_lt_Some; exact Hi).
  destruct (Hall i i frame) as (slave & st & st' & _ & _ & Hax & Hafter).
  { rewrite lookup_seq. split; [reflexivity|exact Hlt]. }
  { exact Hi. }
  exists st'. split; [exact Hafter|].
  apply axis_control_trajectory in Hax as (_ & Htp & _). symmetry. exact Htp.
Qed.

End Frames.

(** X8. A cycle of either loop that keeps running writes one frame per
    slave. Each frame fits the RxPDO, so that its six bytes are written
    and decode to its two fields, and the target position of the frame of an
    axis is the target the loop stores for that axis at the end of the
    cycle. *)
Theorem X8_frames_carry_the_stored_target libm_cos num_slaves slave_configs env loop shared r :
  is_running (cr_loop r) = true ->
  cycle libm_cos num_slaves slave_configs env loop shared = Ok r \/
  (exists max_sync_error_pulse,
     cycle_safe libm_cos num_slaves max_sync_error_pulse slave_configs env loop shared = Ok r) ->
  length (cr_frames r) = num_slaves /\
  forall i frame, cr_frames r !! i = Some frame ->
    (exists st, local_motor_states (cr_loop r) !! i = Some st /\
       frame_target frame = target_pulse st) /\
    exists output,
      Wire._write_csp_outputs (frame_controlword frame) (frame_target frame) = Ok output /\
      length output = 6%nat /\
      Wire._read_status_word output = Ok (frame_controlword frame) /\
      Wire._read_actual_position output = Ok (frame_target frame).
Proof.
  intros Hrun H.
  assert (Hc : exists stride flag states c,
            for_each (control_slave libm_cos stride flag (env_slaves_after env) (env_now env))
              (seq 0 num_slaves)
              {| ct_states := states; ct_shared := shared; ct_frames := [] |} = Ok c /\
            local_motor_states (cr_loop r) = ct_states c /\ cr_frames r = ct_frames c).
  { destruct H as [H|[thr H]].
    - destruct (cycle_inv _ _ _ _ _ _ _ H Hrun)
        as (d & states2 & c & _ & _ & _ & Hc & Hl & _ & Hf).
      exists 4, None, states2, c. auto.
    - destruct (cycle_safe_inv _ _ _ _ _ _ _ _ H Hrun)
        as (d & states2 & states3 & c & _ & _ & _ & _ & Hc & Hl & _ & Hf).
      exists 5, (Some (sync_error_detected (cr_loop r))), states3, c. auto. }
  destruct Hc as (stride & flag & states & c & Hc & Hl & Hf).
  apply control_loop_targets in Hc as [Hlen Hall].
  rewrite Hl, Hf. split; [exact Hlen|].
  intros i frame Hi. destruct (Hall i frame Hi) as (Hcw & Htg & Hst).
  split; [exact Hst|].
  destruct (wire_frame_ok _ _ Hcw Htg) as (Hw & Hrs & Hrp).
  eexists. split; [exact Hw|]. split; [|split; assumption].
  rewrite length_app, !length_little_endian. reflexivity.
Qed.

Lemma X8_witness :
  let slaves := [ {| input_status := 0x0237; input_actual := 1000 |};
                  {| input_status := 0x0250; input_actual := -2000 |} ] in
  let env := {| env_queue := [(1, SET_ORIGIN)];
                env_slaves_before := slaves; env_slaves_after := slaves;
                env_common_start_time := 101; env_now := fun _ => 101%float |} in
  let loop := {| local_motor_states := [initial_motor_state; initial_motor_state];
                 is_running := true; sync_error_detected := false; cycle_counter := 7 |} in
  exists r,
    cycle cos_steps 2 ∅ env loop (replicate 8 0%float) = Ok r /\
    length (cr_frames r) = 2%nat /\
    forall i frame, cr_frames r !! i = Some frame ->
      exists st, local_motor_states (cr_loop r) !! i = Some st /\
        frame_target frame = target_pulse st.
Proof.
  intros slaves env loop.
  destruct (cycle cos_steps 2 ∅ env loop (replicate 8 0%float)) as [r|e] eqn:E;
    [|vm_compute in E; discriminate E].
  exists r. split; [reflexivity|].
  assert (Hrun : is_running (cr_loop r) = true)
    by (vm_compute in E; inversion E; reflexivity).
  destruct (X8_frames_carry_the_stored_target cos_steps 2 ∅ env loop (replicate 8 0%float) r
              Hrun (or_introl E)) as [Hlen Hall].
  split; [exact Hlen|].
  intros i frame Hi. exact (proj1 (Hall i frame Hi)).
Defined.

(** * The safe loop with its flag down *)

Lemma drain_safe_down slaves queue : forall states cmds,
  drain_safe slaves queue states false cmds = drain slaves queue states cmds.
Proof.
  induction queue as [|[i cmd] queue IH]; intros states cmds; [reflexivity|].
  cbn [drain_safe drain]. destruct cmd; try apply IH; [reflexivity| |].
  - destruct (do_set_axis states i value) as [states'|e]; [cbn [rbind]; apply IH|reflexivity].
  - destruct (do_set_origin slaves states i) as [states'|e]; [cbn [rbind]; apply IH|reflexivity].
Qed.

Lemma drain_flag slaves queue : forall states cmds d,
  drain slaves queue states cmds = Ok d -> dr_sync_error d = false.
Proof.
  induction queue as [|[i cmd] queue IH]; intros states cmds d H; simpl in H.
  - inversion H; reflexivity.
  - destruct cmd; try (eapply IH; eassumption).
    + inversion H; reflexivity.
    + apply rbind_ok in H as (states' & _ & H). eapply IH; eassumption.
    + apply rbind_ok in H as (states' & _ & H). eapply IH; eassumption.
Qed.

Lemma command_phase_safe_down slave_configs env states :
  command_phase_safe slave_configs env states false = command_phase slave_configs env states.
Proof.
  unfold command_phase_safe, command_phase. rewrite drain_safe_down.
  destruct (drain (env_slaves_before env) (env_queue env) states []) as [d|e] eqn:E;
    [|reflexivity].
  cbn [rbind]. rewrite (drain_flag _ _ _ _ _ E). cbn [negb].
  destruct (dr_commands d); reflexivity.
Qed.

Lemma command_phase_flag slave_configs env states d :
  command_phase slave_configs env states = Ok d -> dr_sync_error d = false.
Proof.
  unfold command_phase. intros H.
  apply rbind_ok in H as (d0 & Hd0 & H). apply rbind_ok in H as (states1 & _ & H).
  inversion H; subst d; simpl. eapply drain_flag. exact Hd0.
Qed.

(** A sync guard that leaves the flag down has left the axes alone. *)
Lemma sync_guard_down num_slaves thr slaves states states' :
  sync_guard num_slaves thr slaves states false = Ok (states', false) -> states' = states.
Proof.
  unfold sync_guard. destruct ((2 <=? num_slaves)%nat && negb false).
  - intros H. apply rbind_ok in H as (positions & _ & H).
    apply rbind_ok in H as (rel & _ & H). apply rbind_ok in H as (moving & _ & H).
    destruct moving; [|inversion H; reflexivity].
    apply rbind_ok in H as (tripped & _ & H).
    destruct tripped; [|inversion H; reflexivity].
    apply rbind_ok in H as (states'' & _ & H). inversion H.
  - intros H; inversion H; reflexivity.
Qed.

Lemma publish_narrow flag i slave state shared5 shared5' shared4 :
  publish 5 (Some flag) i slave state shared5 = Ok shared5' ->
  Z.of_nat i * 4 + 4 <= Z.of_nat (length shared4) ->
  exists shared4',
    publish 4 None i slave state shared4 = Ok shared4' /\ length shared4' = length shared4.
Proof.
  intros H Hlen. apply publish_inv in H as (_ & Hpub & _); [|lia].
  destruct Hpub as (_ & (f0 & Hf0 & _) & _ & (f2 & Hf2 & _) & (f3 & Hf3 & _) & _).
  unfold publish.
  rewrite (store_total _ _ _ f0 Hf0) by lia. cbn [rbind].
  fold (is_moving state).
  rewrite store_flag by (rewrite length_insert; lia). cbn [rbind].
  rewrite (store_total _ _ _ f2 Hf2) by (rewrite !length_insert; lia). cbn [rbind].
  rewrite (store_total _ _ _ f3 Hf3) by (rewrite !length_insert; lia). cbn [rbind].
  eexists. split; [reflexivity|]. rewrite !length_insert. reflexivity.
Qed.

Section Narrow.

Variable libm_cos : float -> float.

(** The per-slave loop of the baseline does to the axes and to the frames
    what the one of the safe loop does. *)
Lemma control_loop_narrow flag slaves now idxs : forall acc5 c5 acc4,
  for_each (control_slave libm_cos 5 (Some flag) slaves now) idxs acc5 = Ok c5 ->
  ct_states acc4 = ct_states acc5 -> ct_frames acc4 = ct_frames acc5 ->
  (forall i, i ∈ idxs -> Z.of_nat i * 4 + 4 <= Z.of_nat (length (ct_shared acc4))) ->
  exists c4,
    for_each (control_slave libm_cos 4 None slaves now) idxs acc4 = Ok c4 /\
    ct_states c4 = ct_states c5 /\ ct_frames c4 = ct_frames c5.
Proof.
  induction idxs as [|i idxs IH]; intros acc5 c5 acc4 H Hst Hfr Hlen; simpl in H.
  - inversion H; subst. exists acc4. auto.
  - apply rbind_ok in H as (acc5' & Hstep & Hrest).
    apply control_slave_inv in Hstep
      as (slave & state & state' & cw & tgt & frame & Hs & Hsti & Hax & Hst1 & Hw & Hp & Hf).
    destruct (publish_narrow _ _ _ _ _ _ (ct_shared acc4) Hp) as (shared4' & Hp4 & Hl4).
    { apply Hlen. left. }
    set (acc4' := {| ct_states := <[i := state']> (ct_states acc4); ct_shared := shared4';
                     ct_frames := ct_frames acc4 ++ [frame] |}).
    destruct (IH acc5' c5 acc4' Hrest) as (c4 & Hc4 & Hcs & Hcf).
    { simpl. rewrite Hst1, Hst. reflexivity. }
    { simpl. rewrite Hf, Hfr. reflexivity. }
    { intros j Hj. simpl. rewrite Hl4. apply Hlen. right. exact Hj. }
    exists c4. split; [|split; assumption].
    cbn [for_each]. unfold control_slave at 1.
    rewrite (py_getitem_nat _ _ _ Hs). cbn [rbind].
    rewrite Hst, (py_getitem_nat _ _ _ Hsti). cbn [rbind].
    rewrite Hax. cbn [rbind].
    rewrite py_setitem_nat by (eapply lookup_lt_Some; exact Hsti). cbn [rbind].
    rewrite Hw. cbn [rbind]. rewrite <- Hst, Hp4. cbn [rbind]. exact Hc4.
Qed.

End Narrow.

(** X9. A cycle of the safe loop that starts and ends with the sync-error
    flag down does what the baseline loop does: on the same queue, images
    and clock, the cycle of the baseline loop returns as well (its shared
    array has four slots per slave), with the same motor states, the same
    frames, and the same decision to go on or to stop. *)
Theorem X9_safe_cycle_with_flag_down_is_baseline libm_cos num_slaves max_sync_error_pulse
    slave_configs env loop shared5 shared4 r5 :
  cycle_safe libm_cos num_slaves max_sync_error_pulse slave_configs env loop shared5 = Ok r5 ->
  sync_error_detected loop = false ->
  sync_error_detected (cr_loop r5) = false ->
  Z.of_nat num_slaves * 4 <= Z.of_nat (length shared4) ->
  exists r4,
    cycle libm_cos num_slaves slave_configs env loop shared4 = Ok r4 /\
    local_motor_states (cr_loop r4) = local_motor_states (cr_loop r5) /\
    is_running (cr_loop r4) = is_running (cr_loop r5) /\
    cr_frames r4 = cr_frames r5.
Proof.
  intros H Hdown Hdown' Hlen. unfold cycle_safe in H.
  apply rbind_ok in H as (d & Hd & H).
  rewrite Hdown, command_phase_safe_down in Hd.
  unfold cycle. rewrite Hd. cbn [rbind].
  destruct (dr_running d); cbn [negb] in *.
  - apply rbind_ok in H as ([c flag'] & Hc & H). inversion H; subst r5; clear H.
    cbn [cr_loop sync_error_detected local_motor_states is_running cr_frames] in *.
    subst flag'. unfold control_phase_safe in Hc.
    apply rbind_ok in Hc as ([states2 flag2] & Hs & Hc).
    apply rbind_ok in Hc as (states3 & Hg & Hc).
    apply rbind_ok in Hc as (c' & Hc & H). inversion H; subst c' flag2; clear H.
    rewrite (command_phase_flag _ _ _ _ Hd) in Hs.
    apply sync_guard_down in Hs. subst states2.
    destruct (control_loop_narrow libm_cos _ _ _ _ _ _
                {| ct_states := states3; ct_shared := shared4; ct_frames := [] |} Hc)
      as (c4 & Hc4 & Hcs & Hcf); [reflexivity|reflexivity| |].
    { intros i Hi. apply elem_of_seq_0 in Hi. simpl. lia. }
    unfold control_phase. rewrite Hg. cbn [rbind]. rewrite Hc4. cbn [rbind].
    eexists. split; [reflexivity|]. simpl. auto.
  - inversion H; subst r5; clear H.
    eexists. split; [reflexivity|]. simpl. auto.
Qed.

Lemma X9_witness :
  let slaves := [ {| input_status := 0x0237; input_actual := 1000 |};
                  {| input_status := 0x0237; input_actual := 1200 |} ] in
  let env := {| env_queue := [(0, MOVE_TO_MM 10); (1, MOVE_TO_MM 10)];
                env_slaves_before := slaves; env_slaves_after := slaves;
                env_common_start_time := 100; env_now := fun _ => 100.5%float |} in
  let loop := {| local_motor_states := [initial_motor_state; initial_motor_state];
                 is_running := true; sync_error_detected := false; cycle_counter := 7 |} in
  exists r5 r4,
    cycle_safe cos_steps 2 1000 ∅ env loop (replicate 10 0%float) = Ok r5 /\
    cycle cos_steps 2 ∅ env loop (replicate 8 0%float) = Ok r4 /\
    local_motor_states (cr_loop r4) = local_motor_states (cr_loop r5) /\
    is_running (cr_loop r4) = is_running (cr_loop r5) /\
    cr_frames r4 = cr_frames r5.
Proof.
  intros slaves env loop.
  destruct (cycle_safe cos_steps 2 1000 ∅ env loop (replicate 10 0%float)) as [r5|e] eqn:E;
    [|vm_compute in E; discriminate E].
  assert (Hflag : sync_error_detected (cr_loop r5) = false)
    by (vm_compute in E; inversion E; reflexivity).
  destruct (X9_safe_cycle_with_flag_down_is_baseline cos_steps 2 1000 ∅ env loop
              (replicate 10 0%float) (replicate 8 0%float) r5 E eq_refl Hflag)
    as (r4 & H4 & Hrest).
  - simpl. lia.
  - exists r5, r4. split; [reflexivity|]. split; [exact H4|exact Hrest].
Defined.

(** * The settings read at start-up *)

Lemma initial_slave_configs_lookup num_slaves k :
  initial_slave_configs num_slaves !! k
  = if (0 <=? k) && (k <? Z.of_nat num_slaves) then Some empty_config else None.
Proof.
  unfold initial_slave_configs.
  assert (H : forall n s,
            (list_to_map (map (fun i : nat => (Z.of_nat i, empty_config)) (seq s n))
               : gmap Z SlaveConfig) !! k
            = if (Z.of_nat s <=? k) && (k <? Z.of_nat (s + n)) then Some empty_config
              else None).
  { induction n as [|n IH]; intros s.
    - simpl. rewrite lookup_empty.
      destruct (Z.leb_spec (Z.of_nat s) k), (Z.ltb_spec k (Z.of_nat (s + 0))); simpl;
        try reflexivity; lia.
    - cbn [seq map list_to_map foldr fst snd].
      destruct (decide (Z.of_nat s = k)) as [<-|Hne].
      + rewrite lookup_insert_eq.
        destruct (Z.leb_spec (Z.of_nat s) (Z.of_nat s)),
                 (Z.ltb_spec (Z.of_nat s) (Z.of_nat (s + S n))); simpl; try reflexivity; lia.
      + rewrite lookup_insert_ne by exact Hne. rewrite IH.
        destruct (Z.leb_spec (Z.of_nat (S s)) k), (Z.ltb_spec k (Z.of_nat (S s + n))),
                 (Z.leb_spec (Z.of_nat s) k), (Z.ltb_spec k (Z.of_nat (s + S n)));
          simpl; try reflexivity; lia. }
  apply (H num_slaves 0%nat).
Qed.

Lemma py_index_range (len : nat) (i : Z) :
  (- Z.of_nat len <=? i) && (i <? Z.of_nat len) = true ->
  exists k, py_index len i = Ok k /\ (k < len)%nat.
Proof.
  intros H. apply andb_true_iff in H as [H1 H2]. apply Z.leb_le in H1. apply Z.ltb_lt in H2.
  unfold py_index.
  destruct (Z.leb_spec 0 i), (Z.ltb_spec i (Z.of_nat len)); simpl; try lia.
  - eexists. split; [reflexivity|lia].
  - destruct (Z.leb_spec (- Z.of_nat len) i), (Z.ltb_spec i 0); simpl; try lia.
    eexists. split; [reflexivity|lia].
Qed.

Lemma py_index_out (len : nat) (i : Z) :
  (- Z.of_nat len <=? i) && (i <? Z.of_nat len) = false -> py_index len i = Raise IndexError.
Proof.
  intros H. unfold py_index.
  destruct ((0 <=? i) && (i <? Z.of_nat len)) eqn:E1.
  - apply andb_true_iff in E1 as [A B]. apply Z.leb_le in A. apply Z.ltb_lt in B.
    exfalso. apply andb_false_iff in H as [H|H];
      [apply Z.leb_gt in H|apply Z.ltb_ge in H]; lia.
  - destruct ((- Z.of_nat len <=? i) && (i <? 0)) eqn:E2; [|reflexivity].
    apply andb_true_iff in E2 as [A B]. apply Z.leb_le in A. apply Z.ltb_lt in B.
    exfalso. apply andb_false_iff in H as [H|H];
      [apply Z.leb_gt in H|apply Z.ltb_ge in H]; lia.
Qed.

Lemma do_set_axis_index states slave_idx value k :
  py_index (length states) slave_idx = Ok k ->
  exists st, states !! k = Some st /\
    do_set_axis states slave_idx value = Ok (<[k := set_axis value st]> states).
Proof.
  intros Hk. pose proof (py_index_lt _ _ _ Hk) as Hlt.
  destruct (lookup_lt_is_Some_2 states k Hlt) as [st Hst].
  exists st. split; [exact Hst|].
  unfold do_set_axis, py_getitem, py_setitem. rewrite Hk. cbn [rbind]. rewrite Hst.
  reflexivity.
Qed.

Lemma do_set_axis_out states slave_idx value :
  py_index (length states) slave_idx = Raise IndexError ->
  do_set_axis states slave_idx value = Raise IndexError.
Proof. intros H. unfold do_set_axis, py_getitem. rewrite H. reflexivity. Qed.


Lemma keys_are_initial num_slaves : keys_are num_slaves (initial_slave_configs num_slaves).
Proof.
  intros k. rewrite initial_slave_configs_lookup.
  destruct (Z.leb_spec 0 k), (Z.ltb_spec k (Z.of_nat num_slaves)); simpl;
    split; intros Hs; try lia; try (eexists; reflexivity); destruct Hs as [? Hs]; discriminate Hs.
Qed.

Lemma keys_are_insert num_slaves slave_configs slave_idx cfg :
  keys_are num_slaves slave_configs -> 0 <= slave_idx < Z.of_nat num_slaves ->
  keys_are num_slaves (<[slave_idx := cfg]> slave_configs).
Proof.
  intros Hk Hi k. destruct (decide (slave_idx = k)) as [<-|Hne].
  - rewrite lookup_insert_eq. split; [intros _; exact Hi|intros _; eexists; reflexivity].
  - rewrite lookup_insert_ne by exact Hne. apply Hk.
Qed.

Lemma keys_are_lookup num_slaves slave_configs slave_idx :
  keys_are num_slaves slave_configs ->
  (0 <=? slave_idx) && (slave_idx <? Z.of_nat num_slaves) = true ->
  0 <= slave_idx < Z.of_nat num_slaves /\ exists cfg, slave_configs !! slave_idx = Some cfg.
Proof.
  intros Hk H. apply andb_true_iff in H as [H1 H2]. apply Z.leb_le in H1. apply Z.ltb_lt in H2.
  split; [lia|]. apply Hk. lia.
Qed.

Lemma keys_are_missing num_slaves slave_configs slave_idx :
  keys_are num_slaves slave_configs ->
  (0 <=? slave_idx) && (slave_idx <? Z.of_nat num_slaves) = false ->
  slave_configs !! slave_idx = None.
Proof.
  intros Hk H. apply eq_None_not_Some. intros Hs. apply Hk in Hs.
  apply andb_false_iff in H as [H|H]; [apply Z.leb_gt in H|apply Z.ltb_ge in H]; lia.
Qed.

(** The commands without a branch in the start-up loop are dropped. *)
Lemma startup_drain_settings queue : forall slave_configs states,
  startup_drain queue slave_configs states
  = startup_drain (List.filter (fun item => is_setting (snd item)) queue) slave_configs states.
Proof.
  induction queue as [|[i cmd] queue IH]; intros cfgs states; [reflexivity|].
  destruct cmd; cbn [List.filter snd is_setting startup_drain]; try apply IH.
  - destruct (do_set_axis states i value); [apply IH|reflexivity].
  - destruct (cfgs !! i); [apply IH|reflexivity].
  - destruct (cfgs !! i); [apply IH|reflexivity].
Qed.

Lemma startup_drain_rejects num_slaves q1 : forall slave_configs states item q2,
  keys_are num_slaves slave_configs -> length states = num_slaves ->
  forallb (startup_ok num_slaves) q1 = true -> startup_ok num_slaves item = false ->
  startup_drain (q1 ++ item :: q2) slave_configs states = inl (startup_error item).
Proof.
  induction q1 as [|[i cmd] q1 IH]; intros cfgs states item q2 Hk Hlen Hq1 Hitem.
  - destruct item as [i cmd]. unfold startup_ok in Hitem. cbn [fst snd] in Hitem.
    cbn [app startup_drain]. unfold startup_error. cbn [fst snd].
    destruct cmd; try discriminate Hitem.
    + rewrite do_set_axis_out; [reflexivity|]. apply py_index_out. rewrite Hlen. exact Hitem.
    + rewrite (keys_are_missing _ _ _ Hk Hitem). reflexivity.
    + rewrite (keys_are_missing _ _ _ Hk Hitem). reflexivity.
  - cbn [forallb] in Hq1. apply andb_true_iff in Hq1 as [Hi Hq1].
    unfold startup_ok in Hi. cbn [fst snd] in Hi.
    cbn [app startup_drain].
    destruct cmd; try (apply IH; assumption).
    + destruct (py_index_range (length states) i) as (k & Hidx & _);
        [rewrite Hlen; exact Hi|].
      destruct (do_set_axis_index states i value k Hidx) as (st & _ & ->).
      apply IH; try assumption. rewrite length_insert. exact Hlen.
    + destruct (keys_are_lookup _ _ _ Hk Hi) as (Hr & cfg & ->).
      apply IH; try assumption. apply keys_are_insert; assumption.
    + destruct (keys_are_lookup _ _ _ Hk Hi) as (Hr & cfg & ->).
      apply IH; try assumption. apply keys_are_insert; assumption.
Qed.

Lemma startup_drain_accepts num_slaves queue : forall slave_configs states,
  keys_are num_slaves slave_configs -> length states = num_slaves ->
  forallb (startup_ok num_slaves) queue = true ->
  exists slave_configs' states',
    startup_drain queue slave_configs states = inr (slave_configs', states').
Proof.
  induction queue as [|[i cmd] queue IH]; intros cfgs states Hk Hlen Hq.
  - eexists _, _. reflexivity.
  - cbn [forallb] in Hq. apply andb_true_iff in Hq as [Hi Hq].
    unfold startup_ok in Hi. cbn [fst snd] in Hi.
    cbn [startup_drain].
    destruct cmd; try (apply IH; assumption).
    + destruct (py_index_range (length states) i) as (k & Hidx & _);
        [rewrite Hlen; exact Hi|].
      destruct (do_set_axis_index states i value k Hidx) as (st & _ & ->).
      apply IH; try assumption. rewrite length_insert. exact Hlen.
    + destruct (keys_are_lookup _ _ _ Hk Hi) as (Hr & cfg & ->).
      apply IH; try assumption. apply keys_are_insert; assumption.
    + destruct (keys_are_lookup _ _ _ Hk Hi) as (Hr & cfg & ->).
      apply IH; try assumption. apply keys_are_insert; assumption.
Qed.

(** The velocity that a move will be planned with: the last one set. *)
Lemma startup_drain_velocity queue : forall slave_configs states slave_configs' states',
  startup_drain queue slave_configs states = inr (slave_configs', states') ->
  forall slave_idx,
    configured_velocity slave_configs' slave_idx
    = default (configured_velocity slave_configs slave_idx) (last_velocity queue slave_idx).
Proof.
  induction queue as [|[i cmd] queue IH]; intros cfgs states cfgs' states' H idx.
  - inversion H; subst. reflexivity.
  - cbn [startup_drain] in H. cbn [last_velocity].
    destruct cmd; try (rewrite (IH _ _ _ _ H idx);
                       destruct (last_velocity queue idx); reflexivity).
    + destruct (do_set_axis states i value) as [states1|e]; [|discriminate H].
      rewrite (IH _ _ _ _ H idx). destruct (last_velocity queue idx); reflexivity.
    + destruct (cfgs !! i) as [cfg|] eqn:E; [|discriminate H].
      rewrite (IH _ _ _ _ H idx). destruct (last_velocity queue idx); [reflexivity|].
      cbn [default]. unfold configured_velocity.
      destruct (Z.eqb_spec i idx) as [->|Hne].
      * rewrite lookup_insert_eq. reflexivity.
      * rewrite lookup_insert_ne by exact Hne. reflexivity.
    + destruct (cfgs !! i) as [cfg|] eqn:E; [|discriminate H].
      rewrite (IH _ _ _ _ H idx). destruct (last_velocity queue idx); [reflexivity|].
      cbn [default]. unfold configured_velocity.
      destruct (decide (i = idx)) as [->|Hne].
      * rewrite lookup_insert_eq, E. reflexivity.
      * rewrite lookup_insert_ne by exact Hne. reflexivity.
Qed.

(** The axis of every motor state: the last one set. *)
Lemma startup_drain_axis num_slaves queue : forall slave_configs states slave_configs' states',
  length states = num_slaves ->
  startup_drain queue slave_configs states = inr (slave_configs', states') ->
  length states' = num_slaves /\
  forall j st, states !! j = Some st ->
    states' !! j = Some (match last_axis num_slaves queue j with
                         | Some value => set_axis value st
                         | None => st
                         end).
Proof.
  induction queue as [|[i cmd] queue IH]; intros cfgs states cfgs' states' Hlen H.
  - inversion H; subst. split; [reflexivity|]. intros j st Hst. exact Hst.
  - cbn [startup_drain] in H. cbn [last_axis].
    destruct cmd;
      try (destruct (IH _ _ _ _ Hlen H) as [Hl Hall]; split; [exact Hl|];
           intros j st Hst; rewrite (Hall j st Hst);
           destruct (last_axis num_slaves queue j); reflexivity).
    + destruct (do_set_axis states i value) as [states1|e] eqn:E; [|discriminate H].
      unfold do_set_axis in E. apply rbind_ok in E as (sti & Hg & Hs).
      apply py_getitem_inv in Hg as (k & Hk & Hstk).
      apply py_setitem_inv in Hs as (k' & Hk' & ->).
      rewrite Hk in Hk'. inversion Hk'; subst k'.
      destruct (IH _ _ _ _ (eq_trans (length_insert _ _ _) Hlen) H) as [Hl Hall].
      split; [exact Hl|]. intros j st Hst.
      assert (Hk2 : py_index num_slaves i = Ok k) by (rewrite <- Hlen; exact Hk).
      unfold addresses. rewrite Hk2.
      destruct (decide (k = j)) as [->|Hne].
      * rewrite Hstk in Hst. inversion Hst; subst sti.
        rewrite (Hall j (set_axis value st))
          by (apply list_lookup_insert_eq; eapply lookup_lt_Some; exact Hstk).
        rewrite bool_decide_eq_true_2 by reflexivity.
        destruct (last_axis num_slaves queue j); reflexivity.
      * rewrite (Hall j st) by (rewrite list_lookup_insert_ne by exact Hne; exact Hst).
        rewrite bool_decide_eq_false_2 by exact Hne.
        destruct (last_axis num_slaves queue j); reflexivity.
    + destruct (cfgs !! i) as [cfg|]; [|discriminate H].
      destruct (IH _ _ _ _ Hlen H) as [Hl Hall]. split; [exact Hl|].
      intros j st Hst. rewrite (Hall j st Hst).
      destruct (last_axis num_slaves queue j); reflexivity.
    + destruct (cfgs !! i) as [cfg|]; [|discriminate H].
      destruct (IH _ _ _ _ Hlen H) as [Hl Hall]. split; [exact Hl|].
      intros j st Hst. rewrite (Hall j st Hst).
      destruct (last_axis num_slaves queue j); reflexivity.
Qed.

(** X10. The loop that reads the settings before the bus is opened keeps
    only [SET_VELOCITY], [SET_ACCEL] and [SET_AXIS]: any other command that
    is in the queue at that time is dropped. When every velocity or
    acceleration is addressed to one of the slaves [0 .. num_slaves-1] and
    every axis to a list index in [-num_slaves, num_slaves), the loop
    returns; a move is then planned with the last velocity set for its slave
    (60 rpm when none was), and every motor state is the initial one with
    the last axis set for it (["x"] when none was). The first item that is
    not so addressed raises: a [KeyError] of its index for a velocity or an
    acceleration, an [IndexError] for an axis. *)
Theorem X10_startup_settings num_slaves queue :
  startup_drain queue (initial_slave_configs num_slaves) (initial_motor_states num_slaves)
  = startup_drain (List.filter (fun item => is_setting (snd item)) queue)
      (initial_slave_configs num_slaves) (initial_motor_states num_slaves) /\
  (forallb (startup_ok num_slaves) queue = true ->
   exists slave_configs states,
     startup_drain queue (initial_slave_configs num_slaves) (initial_motor_states num_slaves)
     = inr (slave_configs, states) /\
     (forall slave_idx,
        configured_velocity slave_configs slave_idx
        = default 60%float (last_velocity queue slave_idx)) /\
     length states = num_slaves /\
     (forall j, (j < num_slaves)%nat ->
        states !! j
        = Some (set_axis (default "x"%string (last_axis num_slaves queue j))
                  initial_motor_state))) /\
  (forall q1 item q2,
     queue = q1 ++ item :: q2 ->
     forallb (startup_ok num_slaves) q1 = true -> startup_ok num_slaves item = false ->
     startup_drain queue (initial_slave_configs num_slaves) (initial_motor_states num_slaves)
     = inl (startup_error item)).
Proof.
  assert (Hlen : length (initial_motor_states num_slaves) = num_slaves)
    by apply length_replicate.
  split; [apply startup_drain_settings|]. split.
  - intros Hq.
    destruct (startup_drain_accepts num_slaves queue _ _ (keys_are_initial num_slaves) Hlen Hq)
      as (cfgs & states & H).
    exists cfgs, states. split; [exact H|]. split.
    + intros idx. rewrite (startup_drain_velocity _ _ _ _ _ H idx).
      unfold configured_velocity at 1. rewrite initial_slave_configs_lookup.
      destruct (_ && _); reflexivity.
    + destruct (startup_drain_axis num_slaves _ _ _ _ _ Hlen H) as [Hl Hall].
      split; [exact Hl|]. intros j Hj.
      rewrite (Hall j initial_motor_state)
        by (apply lookup_replicate_2; exact Hj).
      destruct (last_axis num_slaves queue j); reflexivity.
  - intros q1 item q2 -> Hq1 Hitem.
    apply (startup_drain_rejects num_slaves); try assumption. apply keys_are_initial.
Qed.

Lemma X10_witness :
  let queue := [(0, SET_VELOCITY 30); (1, MOVE_TO_MM 5); (-1, SET_AXIS "z");
                (0, SET_VELOCITY 90); (1, SET_ACCEL 100 200)] in
  (exists slave_configs,
     startup_drain queue (initial_slave_configs 2) (initial_motor_states 2)
     = inr (slave_configs, [initial_motor_state; set_axis "z" initial_motor_state]) /\
     configured_velocity slave_configs 0 = 90%float /\
     configured_velocity slave_configs 1 = 60%float) /\
  startup_drain (queue ++ [(-1, SET_VELOCITY 30)])
    (initial_slave_configs 2) (initial_motor_states 2) = inl (KeyError (-1)).
Proof.
  intros queue. split.
  - destruct (X10_startup_settings 2 queue) as (_ & Hok & _).
    destruct (Hok eq_refl) as (cfgs & states & H & Hv & Hl & Hax).
    exists cfgs. split; [|split; [exact (Hv 0)|exact (Hv 1)]].
    rewrite H. f_equal. f_equal.
    apply list_eq. intros [|[|j]].
    + rewrite (Hax 0%nat) by lia. reflexivity.
    + rewrite (Hax 1%nat) by lia. reflexivity.
    + simpl. apply lookup_ge_None_2. lia.
  - destruct (X10_startup_settings 2 (queue ++ [(-1, SET_VELOCITY 30)])) as (_ & _ & Hbad).
    exact (Hbad queue (-1, SET_VELOCITY 30) [] eq_refl eq_refl eq_refl).
Defined.

(** * The profile velocity written at start-up *)

Section ProfileVelocity.

Local Open Scope Q_scope.

Lemma F2Q_60 : F2Q 60 == 60.
Proof. vm_compute. reflexivity. Qed.

(** The product handed to [int] by [_rpm_to_pulse_per_sec], for a velocity
    of at most [60 * B] rpm in magnitude: it is finite, within a hair of
    [rpm / 60 * 2^23], and between the bounds that [rpm / 60] is between. *)
Lemma rpm_product rpm (B lo hi : Q) :
  finite rpm -> 0 <= B <= 16666667 -> - (B * 60) <= F2Q rpm <= B * 60 ->
  is_binary64 lo -> is_binary64 hi ->
  is_binary64 (lo * 8388608) -> is_binary64 (hi * 8388608) ->
  lo * 60 <= F2Q rpm <= hi * 60 ->
  exists V,
    V * 60 == F2Q rpm /\
    finite (rpm / 60 * 8388608)%float /\
    lo * 8388608 <= F2Q (rpm / 60 * 8388608)%float <= hi * 8388608 /\
    - ((1 # 500000000) * (B + 1))
    <= F2Q (rpm / 60 * 8388608)%float - V * 8388608
    <= (1 # 500000000) * (B + 1).
Proof.
  intros Hf HB [Hm1 Hm2] Hlo Hhi Hlo' Hhi' [Hl Hh].
  set (M := F2Q rpm) in *.
  assert (HV : exists V, V * 60 == M) by (exists (M / 60); field).
  destruct HV as [V HV]. exists V. split; [exact HV|].
  assert (HVb : - B <= V <= B) by (split; lra).
  assert (H1 : rounds_to V (Prim2SF (rpm / 60))).
  { apply div_correct; [exact Hf|reflexivity|rewrite F2Q_60; lra|rewrite F2Q_60; exact HV|].
    apply small_lt_bpow. rewrite bpow_60. apply Qabs_le_of; lra. }
  pose proof (rounds_to_finite _ _ H1) as Hf1.
  pose proof (rounds_to_err _ _ B H1 ltac:(apply Qabs_le_of; lra)) as E1.
  pose proof (rounds_to_le' _ _ hi H1 Hhi ltac:(lra)) as U1.
  pose proof (rounds_to_ge' _ _ lo H1 Hlo ltac:(lra)) as L1.
  fold (F2Q (rpm / 60)) in E1, U1, L1. set (Q1 := F2Q (rpm / 60)) in *.
  assert (H2 : rounds_to (Q1 * 8388608) (Prim2SF (rpm / 60 * 8388608))).
  { eapply rounds_to_ext; [|apply mul_correct; [exact Hf1|reflexivity|]].
    - rewrite F2Q_8388608. reflexivity.
    - apply small_lt_bpow. rewrite bpow_60, F2Q_8388608. fold Q1. apply Qabs_le_of; lra. }
  pose proof (rounds_to_finite _ _ H2) as Hf2.
  pose proof (rounds_to_err _ _ ((B + 1) * 8388608) H2 ltac:(apply Qabs_le_of; lra)) as E2.
  pose proof (rounds_to_le' _ _ _ H2 Hhi' ltac:(lra)) as U2.
  pose proof (rounds_to_ge' _ _ _ H2 Hlo' ltac:(lra)) as L2.
  fold (F2Q (rpm / 60 * 8388608)) in E2, U2, L2.
  split; [exact Hf2|]. split; [split; assumption|]. lra.
Qed.

End ProfileVelocity.

Lemma is_nan_spec f : is_nan f = true -> Prim2SF f = S754_nan.
Proof.
  intros H. destruct (Prim2SF f) as [s|s| |s m e] eqn:E; try reflexivity; exfalso.
  - assert (Hf : finite f) by (unfold finite; rewrite E; reflexivity).
    rewrite (finite_not_nan f Hf) in H. discriminate H.
  - unfold is_nan in H. rewrite FloatAxioms.eqb_spec, E in H. destruct s; discriminate H.
  - assert (Hf : finite f) by (unfold finite; rewrite E; reflexivity).
    rewrite (finite_not_nan f Hf) in H. discriminate H.
Qed.

Lemma is_infinity_spec f : is_infinity f = true -> exists s, Prim2SF f = S754_infinity s.
Proof.
  intros H. destruct (Prim2SF f) as [s|s| |s m e] eqn:E; try (eexists; reflexivity); exfalso.
  - assert (Hf : finite f) by (unfold finite; rewrite E; reflexivity).
    rewrite (finite_not_infinity f Hf) in H. discriminate H.
  - unfold is_infinity in H. rewrite FloatAxioms.eqb_spec, abs_spec, E in H. discriminate H.
  - assert (Hf : finite f) by (unfold finite; rewrite E; reflexivity).
    rewrite (finite_not_infinity f Hf) in H. discriminate H.
Qed.

Lemma struct_pack_I v :
  (0 <= v <= 4294967295 ->
   struct_pack fmt_I v = Ok (little_endian 4 v) /\
   struct_unpack fmt_I (little_endian 4 v) = Ok v) /\
  (~ 0 <= v <= 4294967295 -> struct_pack fmt_I v = Raise StructError).
Proof. exact (struct_pack_spec fmt_I v). Qed.

(** X11. The profile velocity that the start-up writes to a slave is
    [int(rpm / 60 * 8388608)] packed as ["<I"]. For a velocity between 0 and
    30 000 rpm the conversion returns a value between 0 and 4 194 304 000
    that is the exact quotient truncated, up to two millionths of a pulse
    per second, and the four bytes written decode to it. A velocity from
    -1 000 000 000 to -1 rpm converts to a negative value and one from
    30 720 to 1 000 000 000 rpm to a value of [2^32] or more: for both
    [struct.pack] raises. A NaN raises [ValueError] and an infinity
    [OverflowError] in the conversion. *)
Theorem X11_profile_velocity rpm :
  (finite rpm -> (0 <= F2Q rpm <= 30000)%Q ->
   exists velocity_pulse_per_sec data V,
     _rpm_to_pulse_per_sec rpm = Ok velocity_pulse_per_sec /\
     0 <= velocity_pulse_per_sec <= 4194304000 /\
     (V * 60 == F2Q rpm)%Q /\
     (inject_Z velocity_pulse_per_sec - (1 # 500000) <= V * 8388608)%Q /\
     (V * 8388608 < inject_Z velocity_pulse_per_sec + 1 + (1 # 500000))%Q /\
     profile_velocity_data rpm = Ok data /\ length data = 4%nat /\
     struct_unpack fmt_I data = Ok velocity_pulse_per_sec) /\
  (finite rpm -> (- (1000000000) <= F2Q rpm <= - (1))%Q ->
   exists velocity_pulse_per_sec,
     _rpm_to_pulse_per_sec rpm = Ok velocity_pulse_per_sec /\
     velocity_pulse_per_sec < 0 /\
     profile_velocity_data rpm = Raise StructError) /\
  (finite rpm -> (30720 <= F2Q rpm <= 1000000000)%Q ->
   exists velocity_pulse_per_sec,
     _rpm_to_pulse_per_sec rpm = Ok velocity_pulse_per_sec /\
     4294967296 <= velocity_pulse_per_sec /\
     profile_velocity_data rpm = Raise StructError) /\
  (is_nan rpm = true -> _rpm_to_pulse_per_sec rpm = Raise ValueError) /\
  (is_infinity rpm = true -> _rpm_to_pulse_per_sec rpm = Raise OverflowError).
Proof.
  assert (B0 : is_binary64 (0 * 8388608)%Q)
    by (eapply is_binary64_ext; [|apply (binary64_Z 0); simpl; lia]; reflexivity).
  assert (B500 : is_binary64 500%Q) by (apply (binary64_Z 500); simpl; lia).
  assert (B500' : is_binary64 (500 * 8388608)%Q)
    by (eapply is_binary64_ext; [|apply (binary64_Z 4194304000); simpl; lia]; reflexivity).
  assert (Bmax : is_binary64 16666667%Q) by (apply (binary64_Z 16666667); simpl; lia).
  assert (Bmax' : is_binary64 (16666667 * 8388608)%Q)
    by (eapply is_binary64_ext; [|apply (binary64_Z 139810136129536); simpl; lia];
        reflexivity).
  assert (Bmin : is_binary64 (- (16666667))%Q) by (apply (binary64_Z (-16666667)); simpl; lia).
  assert (Bmin' : is_binary64 (- (16666667) * 8388608)%Q)
    by (eapply is_binary64_ext; [|apply (binary64_Z (-139810136129536)); simpl; lia];
        reflexivity).
  assert (Bneg : is_binary64 (- (1 # 64))%Q)
    by (eapply is_binary64_ext; [|apply (binary64_float (-0.015625)%float); reflexivity];
        vm_compute; reflexivity).
  assert (Bneg' : is_binary64 (- (1 # 64) * 8388608)%Q)
    by (eapply is_binary64_ext; [|apply (binary64_Z (-131072)); simpl; lia]; reflexivity).
  assert (B512 : is_binary64 512%Q) by (apply (binary64_Z 512); simpl; lia).
  assert (B512' : is_binary64 (512 * 8388608)%Q)
    by (eapply is_binary64_ext; [|apply (binary64_Z 4294967296); simpl; lia]; reflexivity).
  split; [|split; [|split; [|split]]].
  - intros Hf Hr.
    destruct (rpm_product rpm 500 0 500 Hf) as (V & HV & Hfp & [Hlo Hhi] & Herr);
      try assumption; try apply binary64_0; try lra.
    destruct (py_int_finite _ Hfp) as (v & Hv & Htr).
    assert (Hb : 0 <= v <= 4194304000).
    { apply (truncates_bounds _ _ _ _ Htr); cbv [inject_Z]; lra. }
    destruct (proj1 Htr ltac:(lra)) as [Hv1 Hv2].
    destruct (proj1 (struct_pack_I v) ltac:(lia)) as [Hp Hu].
    exists v, (little_endian 4 v), V.
    split; [exact Hv|]. split; [exact Hb|]. split; [exact HV|].
    split; [lra|]. split; [lra|].
    split; [unfold profile_velocity_data, _rpm_to_pulse_per_sec;
            rewrite Hv; exact Hp|].
    split; [apply length_little_endian|exact Hu].
  - intros Hf Hr.
    destruct (rpm_product rpm 16666667 (- (16666667)) (- (1 # 64)) Hf)
      as (V & HV & Hfp & [Hlo Hhi] & Herr); try assumption; try lra.
    destruct (py_int_finite _ Hfp) as (v & Hv & Htr).
    assert (Hb : -139810136129536 <= v <= -131072).
    { apply (truncates_bounds _ _ _ _ Htr); cbv [inject_Z]; lra. }
    exists v. split; [exact Hv|]. split; [lia|].
    unfold profile_velocity_data, _rpm_to_pulse_per_sec. rewrite Hv. cbn [rbind].
    apply struct_pack_I. lia.
  - intros Hf Hr.
    destruct (rpm_product rpm 16666667 512 16666667 Hf)
      as (V & HV & Hfp & [Hlo Hhi] & Herr); try assumption; try lra.
    destruct (py_int_finite _ Hfp) as (v & Hv & Htr).
    assert (Hb : 4294967296 <= v <= 139810136129536).
    { apply (truncates_bounds _ _ _ _ Htr); cbv [inject_Z]; lra. }
    exists v. split; [exact Hv|]. split; [lia|].
    unfold profile_velocity_data, _rpm_to_pulse_per_sec. rewrite Hv. cbn [rbind].
    apply struct_pack_I. lia.
  - intros H. apply is_nan_spec in H.
    unfold _rpm_to_pulse_per_sec, py_int. rewrite mul_spec, div_spec, H. reflexivity.
  - intros H. apply is_infinity_spec in H as [s H].
    unfold _rpm_to_pulse_per_sec, py_int. rewrite mul_spec, div_spec, H.
    destruct s; reflexivity.
Qed.

Lemma X11_witness :
  exists data,
    _rpm_to_pulse_per_sec 60 = Ok 8388608 /\
    profile_velocity_data 60 = Ok data /\ struct_unpack fmt_I data = Ok 8388608 /\
    profile_velocity_data (-60) = Raise StructError /\
    profile_velocity_data 31000 = Raise StructError.
Proof.
  destruct (X11_profile_velocity 60) as (Hok & _).
  destruct (Hok eq_refl) as (v & data & V & Hv & _ & _ & _ & _ & Hd & _ & Hu).
  { split; vm_compute; discriminate. }
  assert (E : v = 8388608) by (vm_compute in Hv; inversion Hv; reflexivity).
  subst v. exists data. split; [exact Hv|]. split; [exact Hd|]. split; [exact Hu|].
  split.
  - destruct (X11_profile_velocity (-60)) as (_ & Hneg & _).
    destruct (Hneg eq_refl) as (v & _ & _ & H); [split; vm_compute; discriminate|exact H].
  - destruct (X11_profile_velocity 31000) as (_ & _ & Hbig & _).
    destruct (Hbig eq_refl) as (v & _ & _ & H); [split; vm_compute; discriminate|exact H].
Defined.

(** * The ends of the raised cosine *)

Section Endpoints.

Variable libm_cos : float -> float.
Hypothesis cos_0 : libm_cos 0 = 1%float.
Hypothesis cos_pi : libm_cos math_pi = (-1)%float.




Local Open Scope Q_scope.


End Endpoints.



(** * A target that is not a number *)

Lemma mm_to_pulse_nan target_mm mm_per_rev :
  is_nan target_mm = true -> mm_to_pulse target_mm mm_per_rev = Raise ValueError.
Proof.
  intros H. apply is_nan_spec in H.
  unfold mm_to_pulse, py_int. rewrite !mul_spec, div_spec, H. reflexivity.
Qed.

Lemma mm_to_pulse_infinity target_mm tag :
  is_infinity target_mm = true ->
  mm_to_pulse target_mm (mm_per_rev_of tag) = Raise OverflowError.
Proof.
  intros H. apply is_infinity_spec in H as [s H].
  unfold mm_to_pulse, py_int, mm_per_rev_of. rewrite !mul_spec, div_spec, H.
  destruct (String.eqb tag "x"), s; reflexivity.
Qed.

Lemma plan_move_raises slave_configs slaves states slave_idx target_mm st e :
  py_getitem states slave_idx = Ok st ->
  mm_to_pulse target_mm (mm_per_rev_of (axis st)) = Raise e ->
  plan_move slave_configs slaves states (slave_idx, target_mm) = Raise e.
Proof.
  intros Hst Hmm. unfold plan_move. rewrite Hst. cbn [rbind]. rewrite Hmm. reflexivity.
Qed.

(** The batch raises what the conversion of its first target raises. *)
Lemma start_batch_raises slave_configs slaves common_start_time slave_idx target_mm rest
    states e :
  (forall command, command ∈ (slave_idx, target_mm) :: rest ->
     exists n, py_index (length states) (fst command) = Ok n) ->
  (forall tag, mm_to_pulse target_mm (mm_per_rev_of tag) = Raise e) ->
  start_batch slave_configs slaves common_start_time ((slave_idx, target_mm) :: rest) states
  = Raise e.
Proof.
  intros Hidx Hmm.
  destruct (cancel_trajectories_total _ _ Hidx) as (states1 & Hc).
  destruct (cancel_trajectories_spec _ _ _ Hc) as [Hlen _].
  destruct (Hidx (slave_idx, target_mm)) as (n & Hn); [left|]. cbn [fst] in Hn.
  destruct (lookup_lt_is_Some_2 states1 n) as [st1 Hst1].
  { rewrite Hlen. eapply py_index_lt. exact Hn. }
  assert (Hg : py_getitem states1 slave_idx = Ok st1).
  { apply py_getitem_inv. exists n. rewrite Hlen. auto. }
  unfold start_batch. rewrite Hc. cbn [rbind map_result].
  rewrite (plan_move_raises _ _ _ _ _ _ e Hg (Hmm _)). reflexivity.
Qed.

(** X12. A target that is not a finite number ends the loop. When every
    command of a batch addresses an axis and the target of the first one is
    a NaN, the batch raises [ValueError]; when it is an infinity, it raises
    [OverflowError]. A cycle that drains a single [MOVE_TO_MM] raises what
    its batch raises, in the baseline loop and, with the sync-error flag
    down, in the safe loop. *)
Theorem X12_non_finite_target_raises slave_configs slaves common_start_time
    slave_idx target_mm rest states :
  (forall command, command ∈ (slave_idx, target_mm) :: rest ->
     exists n, py_index (length states) (fst command) = Ok n) ->
  (is_nan target_mm = true ->
   start_batch slave_configs slaves common_start_time ((slave_idx, target_mm) :: rest) states
   = Raise ValueError) /\
  (is_infinity target_mm = true ->
   start_batch slave_configs slaves common_start_time ((slave_idx, target_mm) :: rest) states
   = Raise OverflowError) /\
  (forall libm_cos num_slaves env loop shared e,
     env_queue env = [(slave_idx, MOVE_TO_MM target_mm)] ->
     start_batch slave_configs (env_slaves_before env) (env_common_start_time env)
       [(slave_idx, target_mm)] (local_motor_states loop) = Raise e ->
     cycle libm_cos num_slaves slave_configs env loop shared = Raise e /\
     (sync_error_detected loop = false ->
      forall max_sync_error_pulse,
        cycle_safe libm_cos num_slaves max_sync_error_pulse slave_configs env loop shared
        = Raise e)).
Proof.
  intros Hidx. split; [|split].
  - intros H. apply start_batch_raises; [exact Hidx|].
    intros tag. apply mm_to_pulse_nan. exact H.
  - intros H. apply start_batch_raises; [exact Hidx|].
    intros tag. apply mm_to_pulse_infinity. exact H.
  - intros libm_cos num_slaves env loop shared e Hq Hr. split.
    + unfold cycle, command_phase. rewrite Hq. cbn [drain app rbind dr_commands dr_states].
      rewrite Hr. reflexivity.
    + intros Hdown thr. unfold cycle_safe, command_phase_safe. rewrite Hq, Hdown.
      cbn [drain_safe app rbind dr_commands dr_states dr_sync_error negb].
      rewrite Hr. reflexivity.
Qed.

Lemma X12_witness :
  let slaves := [ {| input_status := 0x0237; input_actual := 1000 |} ] in
  let env := {| env_queue := [(0, MOVE_TO_MM nan)];
                env_slaves_before := slaves; env_slaves_after := slaves;
                env_common_start_time := 101; env_now := fun _ => 101%float |} in
  let loop := {| local_motor_states := [initial_motor_state]; is_running := true;
                 sync_error_detected := false; cycle_counter := 7 |} in
  cycle cos_steps 1 ∅ env loop (replicate 4 0%float) = Raise ValueError /\
  cycle_safe cos_steps 1 1000 ∅ env loop (replicate 5 0%float) = Raise ValueError.
Proof.
  intros slaves env loop.
  assert (Hidx : forall command : Z * float, command ∈ [(0, nan)] ->
            exists n, py_index (length [initial_motor_state]) (fst command) = Ok n).
  { intros command Hc. apply list_elem_of_singleton in Hc. subst command.
    exists 0%nat. reflexivity. }
  destruct (X12_non_finite_target_raises ∅ slaves 101%float 0 nan [] [initial_motor_state] Hidx)
    as (Hnan & _ & Hcycle).
  specialize (Hnan eq_refl).
  split.
  - exact (proj1 (Hcycle cos_steps 1%nat env loop (replicate 4 0%float) ValueError
                    eq_refl Hnan)).
  - exact (proj2 (Hcycle cos_steps 1%nat env loop (replicate 5 0%float) ValueError
                    eq_refl Hnan) eq_refl 1000).
Defined.

(** * The conversion from millimetres keeps the order *)

Section ForwardOrder.

Local Open Scope Q_scope.

Variable c : float.
Hypothesis c_finite : finite c.
Hypothesis c_range : 5 <= F2Q c <= 12.

(** The three operations of [mm / mm_per_rev * 8388608 * 2] are correctly
    rounded. *)
Lemma forward_stages m :
  finite m -> Qabs (F2Q m) <= 10000 ->
  rounds_to (F2Q m * / F2Q c) (Prim2SF (m / c)) /\
  rounds_to (F2Q (m / c) * 8388608) (Prim2SF (m / c * 8388608)) /\
  rounds_to (F2Q (m / c * 8388608) * 2) (Prim2SF (m / c * 8388608 * 2)).
Proof.
  intros Hfm Hm. destruct c_range as [Hc5 Hc12].
  apply Qabs_Qle_condition in Hm as [Hm1 Hm2].
  set (M := F2Q m) in *. set (C := F2Q c) in *.
  assert (HC0 : ~ C == 0) by (intros H; lra).
  assert (HV : M * / C * C == M) by (field; exact HC0).
  set (V := M * / C) in *.
  assert (HVb : - (2000) <= V <= 2000) by (split; nra).
  assert (H1 : rounds_to V (Prim2SF (m / c))).
  { apply div_correct; [exact Hfm|exact c_finite|exact HC0|exact HV|].
    apply small_lt_bpow. rewrite bpow_60. apply Qabs_le_of; lra. }
  pose proof (rounds_to_finite _ _ H1) as Hf1.
  pose proof (rounds_to_err _ _ 2000 H1 ltac:(apply Qabs_le_of; lra)) as E1.
  fold (F2Q (m / c)) in E1. set (Q1 := F2Q (m / c)) in *.
  assert (H2 : rounds_to (Q1 * 8388608) (Prim2SF (m / c * 8388608))).
  { eapply rounds_to_ext; [|apply mul_correct; [exact Hf1|reflexivity|]].
    - rewrite F2Q_8388608. reflexivity.
    - apply small_lt_bpow. rewrite bpow_60, F2Q_8388608. fold Q1. apply Qabs_le_of; lra. }
  pose proof (rounds_to_finite _ _ H2) as Hf2.
  pose proof (rounds_to_err _ _ 34359738368 H2 ltac:(apply Qabs_le_of; lra)) as E2.
  fold (F2Q (m / c * 8388608)) in E2. set (Q2 := F2Q (m / c * 8388608)) in *.
  assert (H3 : rounds_to (Q2 * 2) (Prim2SF (m / c * 8388608 * 2))).
  { eapply rounds_to_ext; [|apply mul_correct; [exact Hf2|reflexivity|]].
    - rewrite F2Q_2. reflexivity.
    - apply small_lt_bpow. rewrite bpow_60, F2Q_2. fold Q2. apply Qabs_le_of; lra. }
  auto.
Qed.

(** The float handed to [int] does not decrease with the millimetres. *)
Lemma forward_mono m1 m2 :
  finite m1 -> Qabs (F2Q m1) <= 10000 -> finite m2 -> Qabs (F2Q m2) <= 10000 ->
  F2Q m1 <= F2Q m2 ->
  finite (m1 / c * 8388608 * 2)%float /\ finite (m2 / c * 8388608 * 2)%float /\
  F2Q (m1 / c * 8388608 * 2)%float <= F2Q (m2 / c * 8388608 * 2)%float.
Proof.
  intros Hf1 Hb1 Hf2 Hb2 Hle. destruct c_range as [Hc5 Hc12].
  destruct (forward_stages m1 Hf1 Hb1) as (A1 & B1 & C1).
  destruct (forward_stages m2 Hf2 Hb2) as (A2 & B2 & C2).
  pose proof (rounds_to_finite _ _ A1) as FA1. pose proof (rounds_to_finite _ _ A2) as FA2.
  pose proof (rounds_to_finite _ _ B1) as FB1. pose proof (rounds_to_finite _ _ B2) as FB2.
  split; [exact (rounds_to_finite _ _ C1)|]. split; [exact (rounds_to_finite _ _ C2)|].
  assert (Hinv : 0 < / F2Q c) by (apply Qinv_lt_0_compat; lra).
  assert (Hq : F2Q (m1 / c) <= F2Q (m2 / c)).
  { apply (rounded_mono (fun m => (m / c)%float) (fun M => M * / F2Q c)); try assumption.
    - intros a b Hab. rewrite Hab. reflexivity.
    - intros Hlt. left. nra.
    - apply (is_binary64_ext 0); [ring|exact binary64_0]. }
  assert (Hp : F2Q (m1 / c * 8388608) <= F2Q (m2 / c * 8388608)).
  { apply (rounded_mono (fun q => (q * 8388608)%float) (fun Q => Q * 8388608));
      try assumption.
    - intros a b Hab. rewrite Hab. reflexivity.
    - intros Hlt. left. lra.
    - apply (is_binary64_ext 0); [ring|exact binary64_0]. }
  apply (rounded_mono (fun q => (q * 2)%float) (fun Q => Q * 2)); try assumption.
  - intros a b Hab. rewrite Hab. reflexivity.
  - intros Hlt. left. lra.
  - apply (is_binary64_ext 0); [ring|exact binary64_0].
Qed.

Lemma forward_zero : F2Q (0 / c * 8388608 * 2)%float == 0.
Proof.
  assert (H0 : Qabs (F2Q 0) <= 10000) by (rewrite F2Q_0; apply Qabs_le_of; lra).
  destruct (forward_stages 0%float eq_refl H0) as (A & B & C).
  assert (E1 : F2Q (0 / c) == 0).
  { apply (rounds_to_exact' (F2Q 0 * / F2Q c)) in A.
    - unfold F2Q at 1. rewrite A, F2Q_0. ring.
    - apply (is_binary64_ext 0); [rewrite F2Q_0; ring|exact binary64_0]. }
  assert (E2 : F2Q (0 / c * 8388608) == 0).
  { apply (rounds_to_exact' (F2Q (0 / c) * 8388608)) in B.
    - unfold F2Q at 1. rewrite B, E1. ring.
    - apply (is_binary64_ext 0); [rewrite E1; ring|exact binary64_0]. }
  apply (rounds_to_exact' (F2Q (0 / c * 8388608) * 2)) in C.
  - unfold F2Q at 1. rewrite C, E2. ring.
  - apply (is_binary64_ext 0); [rewrite E2; ring|exact binary64_0].
Qed.

End ForwardOrder.

(** The conversion returns on both targets, in their order. *)
Lemma mm_to_pulse_mono c m1 m2 :
  finite c -> (5 <= F2Q c <= 12)%Q ->
  finite m1 -> finite m2 ->
  (- (10000) <= F2Q m1)%Q -> (F2Q m1 <= F2Q m2)%Q -> (F2Q m2 <= 10000)%Q ->
  exists p1 p2,
    mm_to_pulse m1 c = Ok p1 /\ mm_to_pulse m2 c = Ok p2 /\ p1 <= p2 /\
    ((0 <= F2Q m1)%Q -> 0 <= p1) /\ ((F2Q m2 <= 0)%Q -> p2 <= 0).
Proof.
  intros Hfc Hc Hf1 Hf2 Hlo Hle Hhi.
  assert (Hb1 : (Qabs (F2Q m1) <= 10000)%Q) by (apply Qabs_le_of; lra).
  assert (Hb2 : (Qabs (F2Q m2) <= 10000)%Q) by (apply Qabs_le_of; lra).
  assert (Hb0 : (Qabs (F2Q 0) <= 10000)%Q) by (rewrite F2Q_0; apply Qabs_le_of; lra).
  destruct (forward_mono c Hfc Hc m1 m2 Hf1 Hb1 Hf2 Hb2 Hle) as (Hp1 & Hp2 & Hord).
  destruct (py_int_finite _ Hp1) as (p1 & Hi1 & Ht1).
  destruct (py_int_finite _ Hp2) as (p2 & Hi2 & Ht2).
  exists p1, p2. split; [exact Hi1|]. split; [exact Hi2|].
  split; [exact (truncates_mono _ _ _ _ Ht1 Ht2 Hord)|].
  pose proof (forward_zero c Hfc Hc) as Hz.
  split.
  - intros H0.
    destruct (forward_mono c Hfc Hc 0%float m1 eq_refl Hb0 Hf1 Hb1) as (_ & _ & H);
      [rewrite F2Q_0; exact H0|].
    apply (truncates_mono (inject_Z 0) _ 0 p1 (truncates_self 0) Ht1).
    rewrite Hz in H. exact H.
  - intros H0.
    destruct (forward_mono c Hfc Hc m2 0%float Hf2 Hb2 eq_refl Hb0) as (_ & _ & H);
      [rewrite F2Q_0; exact H0|].
    apply (truncates_mono _ (inject_Z 0) p2 0 Ht2 (truncates_self 0)).
    rewrite Hz in H. exact H.
Qed.

(** X14. The conversion from millimetres to pulses keeps the order: of two
    targets between -10 000 mm and 10 000 mm on the same axis, the larger
    one never converts to fewer pulses; a target that is not negative
    converts to a count that is not negative, and one that is not positive
    to a count that is not positive. The sync-error threshold of the bus is
    the same conversion on the Z-axis scale: it does not decrease with the
    tolerance, it is not negative for a tolerance that is not negative, and
    it is negative for a tolerance of [-2^-20] mm or less. *)
Theorem X14_mm_to_pulse_keeps_order (tag : string) (m1 m2 : float) :
  finite m1 -> finite m2 ->
  (- (10000) <= F2Q m1)%Q -> (F2Q m1 <= F2Q m2)%Q -> (F2Q m2 <= 10000)%Q ->
  (exists p1 p2,
     mm_to_pulse m1 (mm_per_rev_of tag) = Ok p1 /\
     mm_to_pulse m2 (mm_per_rev_of tag) = Ok p2 /\ p1 <= p2 /\
     ((0 <= F2Q m1)%Q -> 0 <= p1) /\ ((F2Q m2 <= 0)%Q -> p2 <= 0)) /\
  (exists t1 t2,
     max_sync_error_pulse_of m1 = Ok t1 /\ max_sync_error_pulse_of m2 = Ok t2 /\ t1 <= t2 /\
     ((0 <= F2Q m1)%Q -> 0 <= t1) /\ ((F2Q m2 <= - (1 # 1048576))%Q -> t2 < 0)).
Proof.
  intros Hf1 Hf2 Hlo Hle Hhi. split.
  - destruct (mm_per_rev_bounds tag) as [Hfc Hc].
    apply mm_to_pulse_mono; assumption.
  - destruct (mm_per_rev_bounds "z") as [Hfc Hc].
    change (mm_per_rev_of "z") with z_axis_mm_per_rev in Hfc, Hc.
    destruct (mm_to_pulse_mono z_axis_mm_per_rev m1 m2 Hfc Hc Hf1 Hf2 Hlo Hle Hhi)
      as (t1 & t2 & H1 & H2 & Hord & Hpos & _).
    exists t1, t2. split; [exact H1|]. split; [exact H2|]. split; [exact Hord|].
    split; [exact Hpos|].
    intros Hneg.
    assert (Ha : (F2Q (-0x1p-20)%float == - (1 # 1048576))%Q) by (vm_compute; reflexivity).
    destruct (mm_to_pulse_mono z_axis_mm_per_rev m2 (-0x1p-20)%float Hfc Hc Hf2 eq_refl)
      as (t2' & a & H2' & Hanchor & Hle' & _); [lra|rewrite Ha; exact Hneg|rewrite Ha; lra|].
    rewrite H2 in H2'. inversion H2'; subst t2'.
    assert (Hval : a = -2) by (vm_compute in Hanchor; inversion Hanchor; reflexivity).
    lia.
Qed.

Lemma X14_witness :
  exists p1 p2 t1 t2,
    mm_to_pulse (-2.5) (mm_per_rev_of "x") = Ok p1 /\
    mm_to_pulse 7.25 (mm_per_rev_of "x") = Ok p2 /\ p1 <= p2 /\ p1 <= 0 /\
    max_sync_error_pulse_of 0.25 = Ok t1 /\ max_sync_error_pulse_of 0.5 = Ok t2 /\
    0 <= t1 <= t2.
Proof.
  destruct (X14_mm_to_pulse_keeps_order "x" (-2.5)%float 7.25%float eq_refl eq_refl)
    as ((p1 & p2 & H1 & H2 & Hord & _) & _); try (vm_compute; discriminate).
  destruct (X14_mm_to_pulse_keeps_order "x" (-2.5)%float 0%float eq_refl eq_refl)
    as ((p1' & z & H1' & _ & Hord' & _ & Hneg) & _); try (vm_compute; discriminate).
  rewrite H1 in H1'. inversion H1'; subst p1'.
  destruct (X14_mm_to_pulse_keeps_order "z" 0.25%float 0.5%float eq_refl eq_refl)
    as (_ & t1 & t2 & Ht1 & Ht2 & Hordt & Hpos & _); try (vm_compute; discriminate).
  exists p1, p2, t1, t2.
  split; [exact H1|]. split; [exact H2|]. split; [exact Hord|].
  split; [assert (z <= 0) by (apply Hneg; vm_compute; discriminate); lia|].
  split; [exact Ht1|]. split; [exact Ht2|].
  split; [apply Hpos; vm_compute; discriminate|exact Hordt].
Defined.

(** * The period of the distributed clock *)

Lemma dc_sync_exact_upto_1000 :
  forallb (fun n : nat => dc_sync_exact (Z.of_nat n)) (seq 1 1000) = true.
Proof. vm_compute. reflexivity. Qed.

(** X15. For a cycle time of a whole number of milliseconds from 1 to 1000
    (the default is 50) the period handed to [dc_sync] is exactly that many
    millions of nanoseconds: the division by [1000.0] and the product by
    [1_000_000_000] lose nothing that [int] would cut off. At 1001 ms the
    period is one nanosecond short. *)
Theorem X15_dc_sync_period cycle_time_ms :
  (1 <= cycle_time_ms <= 1000 ->
   dc_sync_period cycle_time_ms = Ok (cycle_time_ms * 1000000)) /\
  dc_sync_period 1001 = Ok 1000999999.
Proof.
  split; [|vm_compute; reflexivity].
  intros Hr.
  pose proof dc_sync_exact_upto_1000 as H. rewrite forallb_forall in H.
  specialize (H (Z.to_nat cycle_time_ms)).
  rewrite Z2Nat.id in H by lia.
  assert (Hin : In (Z.to_nat cycle_time_ms) (seq 1 1000)) by (apply in_seq; lia).
  specialize (H Hin). unfold dc_sync_exact in H.
  destruct (dc_sync_period cycle_time_ms) as [ns|e]; [|discriminate H].
  apply Z.eqb_eq in H. subst ns. reflexivity.
Qed.

Lemma X15_witness : dc_sync_period 50 = Ok 50000000.
Proof. apply (proj1 (X15_dc_sync_period 50)). lia. Defined.

(** * The shutdown sequence *)

Lemma shutdown_step_input cw slave : ws_input (shutdown_step cw slave) = ws_input slave.
Proof.
  unfold shutdown_step. destruct (hold_output cw slave) as [slave'|e] eqn:E; [|reflexivity].
  unfold hold_output in E. inv_ok. reflexivity.
Qed.

Lemma shutdown_step_holds cw slave :
  uint16 cw -> (6 <= length (ws_input slave))%nat ->
  exists pos,
    Wire._read_actual_position (ws_input slave) = Ok pos /\
    output_is cw pos (shutdown_step cw slave).
Proof.
  intros Hcw Hlen.
  destruct (image_decode (ws_input slave) Hlen) as (status & pos & _ & Hpos & _ & Hp32 & _).
  exists pos. split; [exact Hpos|].
  destruct (wire_frame_ok cw pos Hcw Hp32) as (Hw & Hrs & Hrp).
  unfold Wire._write_csp_outputs in Hw.
  unfold shutdown_step, hold_output. rewrite Hpos. cbn [rbind].
  destruct (struct_pack fmt_H cw) as [control|e]; [|discriminate Hw]. cbn [rbind] in *.
  destruct (struct_pack fmt_i pos) as [target|e]; [|discriminate Hw]. cbn [rbind] in *.
  inversion Hw as [Heq]. unfold output_is. cbn [ws_output]. rewrite Heq.
  split; [reflexivity|split; [exact Hrs|exact Hrp]].
Qed.

Lemma shutdown_step_short cw slave :
  (length (ws_input slave) < 6)%nat -> shutdown_step cw slave = slave.
Proof.
  intros Hlen. unfold shutdown_step, hold_output.
  assert (H : Wire._read_actual_position (ws_input slave) = Raise StructError).
  { unfold Wire._read_actual_position.
    apply struct_unpack_spec. rewrite py_slice_length. cbv [fmt_size]. lia. }
  rewrite H. reflexivity.
Qed.

Lemma shutdown_stage_S cw num_slaves slaves :
  shutdown_stage cw (S num_slaves) slaves
  = match shutdown_stage cw num_slaves slaves !! num_slaves with
    | Some slave => <[num_slaves := shutdown_step cw slave]> (shutdown_stage cw num_slaves slaves)
    | None => shutdown_stage cw num_slaves slaves
    end.
Proof.
  unfold shutdown_stage. rewrite seq_S, fold_left_app. reflexivity.
Qed.

(** A stage steps every slave of the range once and leaves the others. *)
Lemma shutdown_stage_lookup cw num_slaves slaves : forall j,
  shutdown_stage cw num_slaves slaves !! j
  = if decide (j < num_slaves)%nat then shutdown_step cw <$> slaves !! j else slaves !! j.
Proof.
  induction num_slaves as [|n IH]; intros j.
  - rewrite decide_False by lia. reflexivity.
  - rewrite shutdown_stage_S.
    pose proof (IH n) as Hn. rewrite decide_False in Hn by lia.
    destruct (slaves !! n) as [s|] eqn:Es; rewrite Hn.
    + destruct (decide (j = n)) as [->|Hne].
      * rewrite list_lookup_insert_eq by (eapply lookup_lt_Some; exact Hn).
        rewrite decide_True by lia. rewrite Es. reflexivity.
      * rewrite list_lookup_insert_ne by congruence. rewrite IH.
        destruct (decide (j < n)%nat), (decide (j < S n)%nat); try reflexivity; lia.
    + rewrite IH. destruct (decide (j < n)%nat), (decide (j < S n)%nat);
        try reflexivity; try lia.
      assert (j = n) by lia. subst j. rewrite Es. reflexivity.
Qed.

(** X16. Every loop of the shutdown sequence writes, for each slave of the
    range whose input image has its six bytes, the frame of the controlword
    of the stage and of the actual position just read, so that the drive is
    told to stay where it is; a slave whose image is shorter keeps its
    output (the exception is swallowed), and so does a slave outside the
    range. The three stages after the hold send the controlwords [0x0007],
    [0x0006] and [0x0000] in this order, each with the same position. *)
Theorem X16_shutdown_holds_position cw num_slaves slaves i slave :
  uint16 cw -> slaves !! i = Some slave ->
  ((i < num_slaves)%nat -> (6 <= length (ws_input slave))%nat ->
   exists pos,
     Wire._read_actual_position (ws_input slave) = Ok pos /\
     (exists held, shutdown_stage cw num_slaves slaves !! i = Some held /\
        ws_input held = ws_input slave /\ output_is cw pos held) /\
     (exists stage1 stage2 stage3 s1 s2 s3,
        shutdown_sequence num_slaves slaves = [stage1; stage2; stage3] /\
        stage1 !! i = Some s1 /\ stage2 !! i = Some s2 /\ stage3 !! i = Some s3 /\
        output_is 0x0007 pos s1 /\ output_is 0x0006 pos s2 /\ output_is 0x0000 pos s3)) /\
  ((i < num_slaves)%nat -> (length (ws_input slave) < 6)%nat ->
   shutdown_stage cw num_slaves slaves !! i = Some slave) /\
  ((num_slaves <= i)%nat -> shutdown_stage cw num_slaves slaves !! i = Some slave).
Proof.
  intros Hcw Hs. split; [|split].
  - intros Hi Hlen.
    destruct (shutdown_step_holds cw slave Hcw Hlen) as (pos & Hpos & Hout).
    exists pos. split; [exact Hpos|]. split.
    + exists (shutdown_step cw slave).
      rewrite shutdown_stage_lookup, decide_True, Hs by exact Hi.
      split; [reflexivity|]. split; [apply shutdown_step_input|exact Hout].
    + assert (Hstep : forall cw' s, uint16 cw' -> ws_input s = ws_input slave ->
                output_is cw' pos (shutdown_step cw' s)).
      { intros cw' s Hcw' Hin.
        destruct (shutdown_step_holds cw' s Hcw') as (pos' & Hpos' & Hout');
          [rewrite Hin; exact Hlen|].
        rewrite Hin, Hpos in Hpos'. inversion Hpos'; subst pos'. exact Hout'. }
      unfold shutdown_sequence. cbv zeta.
      eexists _, _, _, _, _, _. split; [reflexivity|].
      rewrite !shutdown_stage_lookup, !decide_True, Hs by exact Hi.
      cbn [fmap option_fmap option_map].
      split; [reflexivity|]. split; [reflexivity|]. split; [reflexivity|].
      split; [|split].
      * apply Hstep; [unfold uint16, CW_SWITCH_ON; lia|reflexivity].
      * apply Hstep; [unfold uint16, CW_SHUTDOWN; lia|]. apply shutdown_step_input.
      * apply Hstep; [unfold uint16, CW_DISABLE_VOLTAGE; lia|].
        rewrite !shutdown_step_input. reflexivity.
  - intros Hi Hlen. rewrite shutdown_stage_lookup, decide_True, Hs by exact Hi.
    cbn. rewrite shutdown_step_short by exact Hlen. reflexivity.
  - intros Hi. rewrite shutdown_stage_lookup, decide_False, Hs by lia. reflexivity.
Qed.

Lemma X16_witness :
  let input := [Byte.x37; Byte.x02; Byte.xe8; Byte.x03; Byte.x00; Byte.x00] in
  let slave := {| ws_input := input; ws_output := [] |} in
  exists stage1 stage2 stage3 s3,
    shutdown_sequence 1 [slave] = [stage1; stage2; stage3] /\
    stage3 !! 0%nat = Some s3 /\
    Wire._read_status_word (ws_output s3) = Ok 0 /\
    Wire._read_actual_position (ws_output s3) = Ok 1000.
Proof.
  intros input slave.
  destruct (X16_shutdown_holds_position CW_ENABLE_OPERATION 1 [slave] 0 slave)
    as (Hhold & _); [unfold uint16, CW_ENABLE_OPERATION; lia|reflexivity|].
  destruct Hhold
    as (pos & Hpos & _ & st1 & st2 & st3 & s1 & s2 & s3 & Hseq & _ & _ & H3 & _ & _ & Ho3);
    [lia|simpl; lia|].
  assert (pos = 1000) by (vm_compute in Hpos; inversion Hpos; reflexivity). subst pos.
  exists st1, st2, st3, s3. split; [exact Hseq|]. split; [exact H3|]. split; apply Ho3.
Defined.

(** * The fault reset at start-up *)

Lemma testbit3_low_byte b0 b1 : Z.testbit (b0 + 256 * b1) 3 = Z.testbit b0 3.
Proof.
  apply Z.b2z_inj. rewrite !Z.testbit_spec' by lia. change (2 ^ 3) with 8.
  replace (b0 + 256 * b1) with (b0 + (32 * b1) * 8) by ring.
  rewrite Z.div_add by lia.
  replace (32 * b1) with ((16 * b1) * 2) by ring.
  rewrite Z.mod_add by lia. reflexivity.
Qed.

Lemma controlword_fault_reset_iff sw :
  controlword sw = CW_FAULT_RESET <-> Z.testbit sw 3 = true.
Proof.
  split; [|apply controlword_fault].
  intros H. destruct (Z.testbit sw 3) eqn:E; [reflexivity|exfalso].
  unfold controlword in H. rewrite land_bit3, E in H. cbn [Z.eqb negb] in H.
  repeat match type of H with
         | (if ?b then _ else _) = _ => destruct b
         end; discriminate H.
Qed.

(** X17. [_sdo_reset_fault] raises [struct.error] unless the statusword
    read over SDO has exactly two bytes. It writes one object, the
    controlword [0x6040] with the two bytes [80 00] of Fault-Reset, when bit 3
    of the first byte is set, and nothing otherwise: the same decision as
    the cyclic decoding takes on an input image that starts with these two
    bytes. *)
Theorem X17_sdo_reset_fault (b0 b1 : Byte.byte) (rest statusword_data : list Byte.byte) :
  _sdo_reset_fault [b0; b1]
  = Ok (if Z.testbit (Z_of_byte b0) 3
        then [ {| sdo_index := 0x6040; sdo_subindex := 0;
                  sdo_data := [Byte.x80; Byte.x00] |} ]
        else []) /\
  (exists status,
     Wire._read_status_word ([b0; b1] ++ rest) = Ok status /\
     (controlword status = CW_FAULT_RESET <-> _sdo_reset_fault [b0; b1] <> Ok [])) /\
  struct_unpack fmt_H [Byte.x80; Byte.x00] = Ok CW_FAULT_RESET /\
  (length statusword_data <> 2%nat -> _sdo_reset_fault statusword_data = Raise StructError).
Proof.
  assert (Hu : struct_unpack fmt_H [b0; b1] = Ok (Z_of_byte b0 + 256 * Z_of_byte b1)).
  { unfold struct_unpack. cbn [length Nat.eqb fmt_size fmt_signed andb of_little_endian].
    f_equal. lia. }
  assert (Hbit : negb (Z.land (Z_of_byte b0 + 256 * Z_of_byte b1) 8 =? 0)
                 = Z.testbit (Z_of_byte b0) 3).
  { rewrite land_bit3, testbit3_low_byte. destruct (Z.testbit (Z_of_byte b0) 3); reflexivity. }
  assert (Hr : _sdo_reset_fault [b0; b1]
               = Ok (if Z.testbit (Z_of_byte b0) 3
                     then [ {| sdo_index := 0x6040; sdo_subindex := 0;
                               sdo_data := [Byte.x80; Byte.x00] |} ]
                     else [])).
  { unfold _sdo_reset_fault. rewrite Hu. cbn [rbind]. rewrite Hbit.
    destruct (Z.testbit (Z_of_byte b0) 3); reflexivity. }
  split; [exact Hr|]. split; [|split].
  - exists (Z_of_byte b0 + 256 * Z_of_byte b1). split.
    + unfold Wire._read_status_word, py_slice. cbn [app drop take Nat.sub]. exact Hu.
    + rewrite controlword_fault_reset_iff, testbit3_low_byte, Hr.
      destruct (Z.testbit (Z_of_byte b0) 3); split; intros H; try reflexivity;
        try discriminate H; try congruence.
  - reflexivity.
  - intros Hlen. unfold _sdo_reset_fault.
    rewrite (proj2 (struct_unpack_spec fmt_H statusword_data) Hlen). reflexivity.
Qed.

Lemma X17_witness :
  _sdo_reset_fault [Byte.x18; Byte.x02]
  = Ok [ {| sdo_index := 0x6040; sdo_subindex := 0; sdo_data := [Byte.x80; Byte.x00] |} ] /\
  _sdo_reset_fault [Byte.x37; Byte.x02] = Ok [] /\
  _sdo_reset_fault [Byte.x18] = Raise StructError.
Proof.
  split; [|split].
  - exact (proj1 (X17_sdo_reset_fault Byte.x18 Byte.x02 [] [])).
  - exact (proj1 (X17_sdo_reset_fault Byte.x37 Byte.x02 [] [])).
  - apply (X17_sdo_reset_fault Byte.x18 Byte.x02 [] [Byte.x18]). simpl. lia.
Defined.

(** * The axis of the client and the axis of the loop *)

Lemma drain_app slaves q1 : forall q2 states cmds,
  drain slaves (q1 ++ q2) states cmds
  = let* d1 := drain slaves q1 states cmds in
    if dr_running d1 then drain slaves q2 (dr_states d1) (dr_commands d1) else Ok d1.
Proof.
  induction q1 as [|[i cmd] q1 IH]; intros q2 states cmds; [reflexivity|].
  cbn [app drain]. destruct cmd; try apply IH; [reflexivity| |].
  - destruct (do_set_axis states i value) as [states'|e]; [cbn [rbind]; apply IH|reflexivity].
  - destruct (do_set_origin slaves states i) as [states'|e]; [cbn [rbind]; apply IH|reflexivity].
Qed.

(** The safe drain does to the motor states what the baseline drain does. *)
Lemma drain_safe_states slaves queue : forall states flag cmds cmds0 d,
  drain_safe slaves queue states flag cmds = Ok d ->
  exists d0, drain slaves queue states cmds0 = Ok d0 /\ dr_states d0 = dr_states d.
Proof.
  induction queue as [|[i cmd] queue IH]; intros states flag cmds cmds0 d H; simpl in H.
  - inversion H; subst. eexists. split; reflexivity.
  - cbn [drain]. destruct cmd; try (eapply IH; eassumption).
    + inversion H; subst. eexists. split; reflexivity.
    + apply rbind_ok in H as (states' & -> & H). cbn [rbind]. eapply IH; eassumption.
    + apply rbind_ok in H as (states' & -> & H). cbn [rbind]. eapply IH; eassumption.
    + destruct flag; eapply IH; eassumption.
Qed.

(** What the drain of one command does to the axis of a motor state. *)
Lemma drain_item_axis slaves slave_idx cmd states cmds d :
  drain slaves [(slave_idx, cmd)] states cmds = Ok d ->
  length (dr_states d) = length states /\
  forall j st, states !! j = Some st ->
    exists st', dr_states d !! j = Some st' /\
      axis st' = match cmd with
                 | SET_AXIS value =>
                     if addresses (length states) slave_idx j then value else axis st
                 | _ => axis st
                 end.
Proof.
  intros H. cbn [drain] in H.
  destruct cmd; try (inversion H; subst; cbn [dr_states]; split; [reflexivity|];
                     intros j st Hst; exists st; split; [exact Hst|reflexivity]).
  - apply rbind_ok in H as (states' & Hs & H). inversion H; subst; clear H. cbn [dr_states].
    unfold do_set_axis in Hs. apply rbind_ok in Hs as (sti & Hg & Hs).
    apply py_getitem_inv in Hg as (k & Hk & Hstk).
    apply py_setitem_inv in Hs as (k' & Hk' & ->).
    rewrite Hk in Hk'. inversion Hk'; subst k'.
    split; [apply length_insert|].
    intros j st Hst. unfold addresses. rewrite Hk.
    destruct (decide (k = j)) as [->|Hne].
    + rewrite Hstk in Hst. inversion Hst; subst sti.
      exists (set_axis value st). split.
      * apply list_lookup_insert_eq. eapply lookup_lt_Some; exact Hstk.
      * rewrite bool_decide_eq_true_2 by reflexivity. reflexivity.
    + exists st. split; [rewrite list_lookup_insert_ne by exact Hne; exact Hst|].
      rewrite bool_decide_eq_false_2 by exact Hne. reflexivity.
  - apply rbind_ok in H as (states' & Hs & H). inversion H; subst; clear H. cbn [dr_states].
    unfold do_set_origin in Hs. apply rbind_ok in Hs as (slave & _ & Hs).
    apply rbind_ok in Hs as (sti & Hg & Hs).
    apply py_getitem_inv in Hg as (k & Hk & Hstk).
    apply py_setitem_inv in Hs as (k' & Hk' & ->).
    rewrite Hk in Hk'. inversion Hk'; subst k'.
    split; [apply length_insert|].
    intros j st Hst. destruct (decide (k = j)) as [->|Hne].
    + rewrite Hstk in Hst. inversion Hst; subst sti.
      eexists. split; [apply list_lookup_insert_eq; eapply lookup_lt_Some; exact Hstk|].
      reflexivity.
    + exists st. split; [rewrite list_lookup_insert_ne by exact Hne; exact Hst|reflexivity].
Qed.

(** The drain of a queue with one more command, in terms of the drain of
    the queue. *)
Lemma drain_snoc slaves queue item states d' :
  has_stop_all queue = false ->
  drain slaves (queue ++ [item]) states [] = Ok d' ->
  exists d, drain slaves queue states [] = Ok d /\
    drain slaves [item] (dr_states d) (dr_commands d) = Ok d'.
Proof.
  intros Hstop H. rewrite drain_app in H. apply rbind_ok in H as (d & Hd & H).
  rewrite (drain_running _ _ _ _ _ Hd), Hstop in H. cbn [negb] in H.
  exists d. split; [exact Hd|exact H].
Qed.

Lemma agree_other slaves motors slave_idx cmd states cmds d :
  agree motors states ->
  (forall value, cmd <> SET_AXIS value) ->
  drain slaves [(slave_idx, cmd)] states cmds = Ok d ->
  agree motors (dr_states d).
Proof.
  intros [Hlen Hag] Hcmd H.
  destruct (drain_item_axis _ _ _ _ _ _ H) as [Hl Hax].
  split; [congruence|].
  intros j motor st' Hm Hst'.
  destruct (lookup_lt_is_Some_2 states j) as [st Hst].
  { rewrite <- Hl. eapply lookup_lt_Some. exact Hst'. }
  destruct (Hax j st Hst) as (st'' & Hst'' & Haxis).
  rewrite Hst' in Hst''. inversion Hst''; subst st''.
  destruct (Hag j motor st Hm Hst) as [Hi Ha]. split; [exact Hi|].
  rewrite Haxis. destruct cmd; try exact Ha. exfalso. eapply Hcmd. reflexivity.
Qed.

(** X18. The axis that a motor object keeps and the axis of the loop stay
    the same, as long as the bus is not stopped. Assume that they agree once
    the pending queue is drained. [set_axis] raises [ValueError] for
    anything but ['x'] and ['z'] (and then sends nothing); otherwise it sends
    [SET_AXIS] to the slave of the object, and once the loop has drained it
    the objects and the loop agree again, so that [current_position_mm]
    converts with the millimetres per revolution that the loop plans moves
    with. [set_origin], [move_to_position_mm], [set_profile_velocity] and
    [set_profile_accel_decel] keep the agreement. The safe drain leaves the
    motor states that the baseline drain leaves. *)
Theorem X18_client_and_loop_agree_on_the_axis slaves queue states motors i motor :
  motors !! i = Some motor ->
  has_stop_all queue = false ->
  (forall d, drain slaves queue states [] = Ok d -> agree motors (dr_states d)) ->
  (forall value,
     (value <> "x"%string -> value <> "z"%string ->
      Motor.set_axis motor value queue = Raise ValueError) /\
     (forall motor' queue' d',
        Motor.set_axis motor value queue = Ok (motor', queue') ->
        drain slaves queue' states [] = Ok d' ->
        (value = "x"%string \/ value = "z"%string) /\
        queue' = queue ++ [(Z.of_nat i, SET_AXIS value)] /\
        agree (<[i := motor']> motors) (dr_states d') /\
        exists st', dr_states d' !! i = Some st' /\
          mm_per_rev_of (axis st') = mm_per_rev_of (Motor._axis motor'))) /\
  (forall queue' d',
     queue' = Motor.set_origin motor queue \/
     (exists target_mm, queue' = Motor.move_to_position_mm motor target_mm queue) \/
     (exists rpm, queue' = Motor.set_profile_velocity motor rpm queue) \/
     (exists accel decel, Motor.set_profile_accel_decel motor accel decel queue = Ok queue') ->
     drain slaves queue' states [] = Ok d' -> agree motors (dr_states d')) /\
  (forall flag d,
     drain_safe slaves queue states flag [] = Ok d ->
     exists d0, drain slaves queue states [] = Ok d0 /\ dr_states d0 = dr_states d).
Proof.
  intros Hm Hstop Hinv. split; [|split].
  - intros value. split.
    + intros Hx Hz. unfold Motor.set_axis.
      apply String.eqb_neq in Hx, Hz. rewrite Hx, Hz. reflexivity.
    + intros motor' queue' d' Hset Hd'. unfold Motor.set_axis in Hset.
      destruct (String.eqb value "x" || String.eqb value "z") eqn:Hv;
        cbn [negb] in Hset; [|discriminate Hset].
      inversion Hset; subst motor' queue'; clear Hset.
      destruct (drain_snoc _ _ _ _ _ Hstop Hd') as (d & Hd & Hitem).
      destruct (Hinv d Hd) as [Hlen Hag].
      destruct (lookup_lt_is_Some_2 (dr_states d) i) as [st Hst].
      { rewrite <- Hlen. eapply lookup_lt_Some. exact Hm. }
      destruct (Hag i motor st Hm Hst) as [Hidx Hax].
      rewrite Hidx in *.
      destruct (drain_item_axis _ _ _ _ _ _ Hitem) as [Hl Hnew].
      assert (Haddr : forall j, addresses (length (dr_states d)) (Z.of_nat i) j
                                = bool_decide (i = j)).
      { intros j. unfold addresses.
        rewrite py_index_nat by (eapply lookup_lt_Some; exact Hst). reflexivity. }
      split.
      { apply orb_true_iff in Hv as [Hv|Hv]; apply String.eqb_eq in Hv; auto. }
      split; [reflexivity|]. split.
      * split; [rewrite length_insert; congruence|].
        intros j motor_j st' Hmj Hst'.
        destruct (lookup_lt_is_Some_2 (dr_states d) j) as [st_j Hstj].
        { rewrite <- Hl. eapply lookup_lt_Some. exact Hst'. }
        destruct (Hnew j st_j Hstj) as (st'' & Hst'' & Haxis).
        rewrite Hst' in Hst''. inversion Hst''; subst st''.
        rewrite Haddr in Haxis.
        destruct (decide (i = j)) as [<-|Hne].
        -- rewrite list_lookup_insert_eq in Hmj by (eapply lookup_lt_Some; exact Hm).
           inversion Hmj; subst motor_j. cbn [Motor._index Motor._axis].
           rewrite bool_decide_eq_true_2 in Haxis by reflexivity. auto.
        -- rewrite list_lookup_insert_ne in Hmj by exact Hne.
           rewrite bool_decide_eq_false_2 in Haxis by exact Hne.
           destruct (Hag j motor_j st_j Hmj Hstj) as [Hi Ha]. split; [exact Hi|congruence].
      * destruct (Hnew i st Hst) as (st' & Hst' & Haxis).
        rewrite Haddr, bool_decide_eq_true_2 in Haxis by reflexivity.
        exists st'. split; [exact Hst'|]. rewrite Haxis. reflexivity.
  - intros queue' d' Hq Hd'.
    assert (Hitem : exists slave_idx cmd,
              queue' = queue ++ [(slave_idx, cmd)] /\ forall value, cmd <> SET_AXIS value).
    { destruct Hq as [->|[[t ->]|[[rpm ->]|(accel & decel & Hq)]]].
      - eexists _, _. split; [reflexivity|]. discriminate.
      - eexists _, _. split; [reflexivity|]. discriminate.
      - eexists _, _. split; [reflexivity|]. discriminate.
      - unfold Motor.set_profile_accel_decel in Hq.
        apply rbind_ok in Hq as (a & _ & Hq). apply rbind_ok in Hq as (b & _ & Hq).
        inversion Hq. eexists _, _. split; [reflexivity|]. discriminate. }
    destruct Hitem as (slave_idx & cmd & -> & Hcmd).
    destruct (drain_snoc _ _ _ _ _ Hstop Hd') as (d & Hd & Hone).
    eapply agree_other; [exact (Hinv d Hd)|exact Hcmd|exact Hone].
  - intros flag d Hd. eapply drain_safe_states. exact Hd.
Qed.

Lemma X18_witness :
  let slaves := [ {| input_status := 0x0237; input_actual := 1000 |};
                  {| input_status := 0x0237; input_actual := 1200 |} ] in
  let motors := [Motor.__init__ 0; Motor.__init__ 1] in
  let states := [initial_motor_state; initial_motor_state] in
  let queue := [(0, MOVE_TO_MM 1)] in
  Motor.set_axis (Motor.__init__ 1) "y" queue = Raise ValueError /\
  exists motor' queue' d' st',
    Motor.set_axis (Motor.__init__ 1) "z" queue = Ok (motor', queue') /\
    drain slaves queue' states [] = Ok d' /\
    dr_states d' !! 1%nat = Some st' /\
    mm_per_rev_of (axis st') = mm_per_rev_of (Motor._axis motor').
Proof.
  intros slaves motors states queue.
  assert (Hinv : forall d, drain slaves queue states [] = Ok d -> agree motors (dr_states d)).
  { intros d Hd. inversion Hd; subst d. cbn [dr_states]. split; [reflexivity|].
    intros [|[|j]] motor st Hm Hst; inversion Hm; inversion Hst; subst;
      split; reflexivity. }
  destruct (X18_client_and_loop_agree_on_the_axis slaves queue states motors 1
              (Motor.__init__ 1) eq_refl eq_refl Hinv) as (Haxis & _).
  split.
  - apply (Haxis "y"%string); discriminate.
  - destruct (Motor.set_axis (Motor.__init__ 1) "z" queue) as [[motor' queue']|e] eqn:Es;
      [|discriminate Es].
    destruct (drain slaves queue' states []) as [d'|e] eqn:Ed;
      [|vm_compute in Es; inversion Es; subst; discriminate Ed].
    destruct (proj2 (Haxis "z"%string) motor' queue' d' Es Ed)
      as (_ & _ & _ & st' & Hst' & Hmm).
    exists motor', queue', d', st'. auto.
Defined.

(** * An idle cycle *)

Lemma all_idle_not_moving states : all_idle states -> ~ any_moving states.
Proof.
  intros Hidle (i & st & Hst & Hm). unfold all_idle in Hidle.
  rewrite Forall_lookup in Hidle. specialize (Hidle i st Hst).
  unfold is_moving in Hm. rewrite Hidle in Hm.
  rewrite bool_decide_eq_false_2 in Hm by (intros H; apply H; reflexivity). discriminate Hm.
Qed.

(** The per-slave loop over idle axes leaves the loop ready for the next
    cycle. *)
Lemma control_loop_held libm_cos stride flag slaves now num_slaves states shared :
  0 <= stride -> block_width flag <= stride ->
  cycle_inputs_ok num_slaves stride slaves states shared -> all_idle states ->
  exists c,
    for_each (control_slave libm_cos stride flag slaves now) (seq 0 num_slaves)
      {| ct_states := states; ct_shared := shared; ct_frames := [] |} = Ok c /\
    forall loop',
      local_motor_states loop' = ct_states c -> is_running loop' = true ->
      held stride slaves states shared
        {| cr_loop := loop'; cr_shared := ct_shared c; cr_frames := ct_frames c |}.
Proof.
  intros Hstride Hwidth (Hlen & Hsl & Hslaves & Hstates & Hshared) Hidle.
  destruct (control_loop_idle_ok libm_cos stride flag slaves now num_slaves states shared)
    as (c & Hc & Hcidle & Hclen & Hall); try assumption.
  exists c. split; [exact Hc|].
  intros loop' Hl Hrun. unfold held. cbn [cr_loop cr_shared cr_frames]. rewrite Hl.
  pose proof Hc as Hfor.
  apply for_each_control_slave in Hfor as (Hslen & _); [|apply NoDup_seq].
  cbn [ct_states] in Hslen.
  assert (Hper : forall j st slave, states !! j = Some st -> slaves !! j = Some slave ->
            ct_states c !! j = Some (set_last_status (_read_status_word slave) st) /\
            ct_frames c !! j
            = Some {| frame_controlword := controlword (_read_status_word slave);
                      frame_target := target_pulse st |} /\
            Client.is_moving stride (ct_shared c) (Z.of_nat j) = Ok false).
  { intros j st slave Hst Hs. destruct (Hall j st slave Hst Hs) as (H1 & H2 & H3).
    split; [exact H1|]. split; [exact H2|].
    unfold Client.is_moving.
    rewrite <- (Z2Nat.id (Z.of_nat j * stride + 1)) by lia.
    rewrite (py_getitem_nat _ _ _ H3). reflexivity. }
  split; [exact Hrun|]. split; [|split; [exact Hcidle|split; [exact Hclen|exact Hper]]].
  split; [congruence|]. split; [lia|]. split; [exact Hslaves|]. split; [|lia].
  apply Forall_lookup. intros j st' Hst'.
  assert (Hj : (j < length states)%nat) by (rewrite <- Hslen; eapply lookup_lt_Some; exact Hst').
  destruct (lookup_lt_is_Some_2 states j Hj) as [st Hst].
  destruct (lookup_lt_is_Some_2 slaves j) as [slave Hs]; [lia|].
  destruct (Hper j st slave Hst Hs) as (H1 & _).
  rewrite Hst' in H1. inversion H1; subst st'.
  rewrite Forall_lookup in Hstates. exact (Hstates j st Hst).
Qed.

(** X19. A cycle that finds the queue empty and every axis idle holds the
    position: with well-formed images and states it returns and keeps
    running, every axis keeps its target, its offset and its axis and stays
    idle, its frame carries the stored target with the controlword decoded
    from its statusword, [is_moving] reads false, and the inputs of the next
    cycle are well formed again. A fault bit on an idle axis and, in the
    safe loop, a position difference between idle axes change nothing, and
    the sync-error flag is left as it is. *)
Theorem X19_idle_cycle_holds_position libm_cos num_slaves slave_configs env loop shared :
  env_queue env = [] ->
  all_idle (local_motor_states loop) ->
  (cycle_inputs_ok num_slaves 4 (env_slaves_after env) (local_motor_states loop) shared ->
   exists r,
     cycle libm_cos num_slaves slave_configs env loop shared = Ok r /\
     held 4 (env_slaves_after env) (local_motor_states loop) shared r) /\
  (forall max_sync_error_pulse,
   cycle_inputs_ok num_slaves 5 (env_slaves_after env) (local_motor_states loop) shared ->
   exists r,
     cycle_safe libm_cos num_slaves max_sync_error_pulse slave_configs env loop shared = Ok r /\
     held 5 (env_slaves_after env) (local_motor_states loop) shared r /\
     sync_error_detected (cr_loop r) = sync_error_detected loop).
Proof.
  intros Hq Hidle. split.
  - intros Hok. pose proof Hok as (Hlen & Hsl & _).
    destruct (control_loop_held libm_cos 4 None (env_slaves_after env) (env_now env)
                num_slaves (local_motor_states loop) shared) as (c & Hc & Hheld);
      [lia|simpl; lia|exact Hok|exact Hidle|].
    eexists. split.
    + eapply cycle_running.
      * unfold command_phase. rewrite Hq. reflexivity.
      * reflexivity.
      * unfold control_phase. cbn [dr_states].
        rewrite fault_guard_idle by assumption. exact Hc.
    + apply Hheld; reflexivity.
  - intros thr Hok. pose proof Hok as (Hlen & Hsl & _).
    destruct (control_loop_held libm_cos 5 (Some (sync_error_detected loop))
                (env_slaves_after env) (env_now env)
                num_slaves (local_motor_states loop) shared) as (c & Hc & Hheld);
      [lia|simpl; lia|exact Hok|exact Hidle|].
    eexists. split; [|split].
    + eapply cycle_safe_running.
      * unfold command_phase_safe. rewrite Hq. reflexivity.
      * reflexivity.
      * unfold control_phase_safe. cbn [dr_states dr_sync_error].
        rewrite sync_guard_quiet;
          [|exact Hlen|exact Hsl|right; right; left; apply all_idle_not_moving; exact Hidle].
        cbn [rbind]. rewrite fault_guard_idle by assumption. cbn [rbind].
        rewrite Hc. reflexivity.
    + apply Hheld; reflexivity.
    + reflexivity.
Qed.

Lemma X19_witness :
  let slaves := [ {| input_status := 0x0218; input_actual := 1000 |};
                  {| input_status := 0x0237; input_actual := 900000 |} ] in
  let env := {| env_queue := [];
                env_slaves_before := slaves; env_slaves_after := slaves;
                env_common_start_time := 101; env_now := fun _ => 101%float |} in
  let st := {| target_pulse := 5000; offset := 1000; axis := "z"; trajectory := None;
               last_status := None |} in
  let loop := {| local_motor_states := [st; initial_motor_state]; is_running := true;
                 sync_error_detected := false; cycle_counter := 7 |} in
  exists r,
    cycle_safe cos_steps 2 10 ∅ env loop (replicate 10 0%float) = Ok r /\
    local_motor_states (cr_loop r) !! 0%nat = Some (set_last_status 0x0218 st) /\
    cr_frames r !! 0%nat = Some {| frame_controlword := 0x0080; frame_target := 5000 |} /\
    sync_error_detected (cr_loop r) = false.
Proof.
  intros slaves env st loop.
  assert (Hidle : all_idle (local_motor_states loop)).
  { repeat constructor. }
  assert (Hok : cycle_inputs_ok 2 5 slaves (local_motor_states loop) (replicate 10 0%float)).
  { split; [reflexivity|]. split; [simpl; lia|]. split.
    - repeat constructor; cbv [uint16 int32 input_status input_actual]; lia.
    - split; [|simpl; lia].
      repeat constructor; cbv [int32 offset target_pulse st initial_motor_state]; lia. }
  destruct (X19_idle_cycle_holds_position cos_steps 2 ∅ env loop (replicate 10 0%float)
              eq_refl Hidle) as [_ Hsafe].
  destruct (Hsafe 10 Hok) as (r & Hr & (_ & _ & _ & _ & Hper) & Hflag).
  destruct (Hper 0%nat st {| input_status := 0x0218; input_actual := 1000 |}
              eq_refl eq_refl) as (H1 & H2 & _).
  exists r. split; [exact Hr|]. split; [exact H1|]. split; [exact H2|exact Hflag].
Defined.

(** * From start-up to the first cycle *)

Lemma op_init_spec num_slaves slaves states :
  length states = num_slaves -> (num_slaves <= length slaves)%nat ->
  exists states',
    op_init num_slaves slaves states = Ok states' /\
    length states' = num_slaves /\
    forall j st slave, states !! j = Some st -> slaves !! j = Some slave ->
      states' !! j = Some (set_target_pulse (_read_actual_position slave) st).
Proof.
  intros Hlen Hsl.
  set (pos := fun j => match slaves !! j with
                       | Some slave => _read_actual_position slave
                       | None => 0
                       end).
  destruct (for_each_pointwise (op_init_axis slaves)
              (fun j st => set_target_pulse (pos j) st)
              (fun j => (j < length slaves)%nat)) with (idxs := seq 0 num_slaves) (l := states)
    as (states' & Hs & Hl & Hall).
  - intros i l st Hi Hst.
    destruct (lookup_lt_is_Some_2 slaves i Hi) as [slave Hslave].
    unfold op_init_axis. rewrite (py_getitem_nat _ _ _ Hslave). cbn [rbind].
    rewrite (py_getitem_nat _ _ _ Hst). cbn [rbind].
    rewrite py_setitem_nat by (eapply lookup_lt_Some; exact Hst).
    unfold pos. rewrite Hslave. reflexivity.
  - apply NoDup_seq.
  - intros i Hi. apply elem_of_seq_0 in Hi. lia.
  - exists states'. split; [exact Hs|]. split; [lia|].
    intros j st slave Hst Hslave. rewrite (Hall j st Hst).
    rewrite bool_decide_eq_true_2
      by (apply elem_of_seq_0; rewrite <- Hlen; eapply lookup_lt_Some; exact Hst).
    unfold pos. rewrite Hslave. reflexivity.
Qed.

Lemma cycle_safe_idle libm_cos num_slaves thr slave_configs env loop shared :
  env_queue env = [] ->
  all_idle (local_motor_states loop) ->
  cycle_inputs_ok num_slaves 5 (env_slaves_after env) (local_motor_states loop) shared ->
  exists r,
    cycle_safe libm_cos num_slaves thr slave_configs env loop shared = Ok r /\
    held 5 (env_slaves_after env) (local_motor_states loop) shared r.
Proof.
  intros Hq Hidle Hok. pose proof Hok as (Hlen & Hsl & _).
  destruct (control_loop_held libm_cos 5 (Some (sync_error_detected loop))
              (env_slaves_after env) (env_now env)
              num_slaves (local_motor_states loop) shared) as (c & Hc & Hheld);
    [lia|simpl; lia|exact Hok|exact Hidle|].
  eexists. split.
  - eapply cycle_safe_running.
    + unfold command_phase_safe. rewrite Hq. reflexivity.
    + reflexivity.
    + unfold control_phase_safe. cbn [dr_states dr_sync_error].
      rewrite sync_guard_quiet;
        [|exact Hlen|exact Hsl|right; right; left; apply all_idle_not_moving; exact Hidle].
      cbn [rbind]. rewrite fault_guard_idle by assumption. cbn [rbind].
      rewrite Hc. reflexivity.
  - apply Hheld; reflexivity.
Qed.

Lemma cycle_idle libm_cos num_slaves slave_configs env loop shared :
  env_queue env = [] ->
  all_idle (local_motor_states loop) ->
  cycle_inputs_ok num_slaves 4 (env_slaves_after env) (local_motor_states loop) shared ->
  exists r,
    cycle libm_cos num_slaves slave_configs env loop shared = Ok r /\
    held 4 (env_slaves_after env) (local_motor_states loop) shared r.
Proof.
  intros Hq Hidle Hok. pose proof Hok as (Hlen & Hsl & _).
  destruct (control_loop_held libm_cos 4 None (env_slaves_after env) (env_now env)
              num_slaves (local_motor_states loop) shared) as (c & Hc & Hheld);
    [lia|simpl; lia|exact Hok|exact Hidle|].
  eexists. split.
  - eapply cycle_running.
    + unfold command_phase. rewrite Hq. reflexivity.
    + reflexivity.
    + unfold control_phase. cbn [dr_states].
      rewrite fault_guard_idle by assumption. exact Hc.
  - apply Hheld; reflexivity.
Qed.

(** X20. When the bus reaches OP the loop sets the target of every axis
    to the actual position of its slave. After the settings of the start-up
    were read, this returns for well-formed images of at least [num_slaves]
    slaves and leaves every axis idle, with offset 0, the axis that was set
    for it and a target that fits the frame. So a first cycle that finds the
    queue empty returns, in both loops, and sends every drive the position it
    had when the bus reached OP, not the initial target 0. *)
Theorem X20_first_cycle_holds_the_start_position num_slaves queue slave_configs states0
    slaves_op :
  startup_drain queue (initial_slave_configs num_slaves) (initial_motor_states num_slaves)
  = inr (slave_configs, states0) ->
  (num_slaves <= length slaves_op)%nat -> Forall slave_ok slaves_op ->
  exists states,
    op_init num_slaves slaves_op states0 = Ok states /\
    length states = num_slaves /\ all_idle states /\ Forall state_ok states /\
    (forall j slave, (j < num_slaves)%nat -> slaves_op !! j = Some slave ->
       states !! j
       = Some (set_target_pulse (input_actual slave)
                 (set_axis (default "x"%string (last_axis num_slaves queue j))
                    initial_motor_state))) /\
    forall libm_cos env loop,
      env_queue env = [] -> local_motor_states loop = states ->
      (num_slaves <= length (env_slaves_after env))%nat ->
      Forall slave_ok (env_slaves_after env) ->
      let sent r :=
        forall j slave, (j < num_slaves)%nat -> slaves_op !! j = Some slave ->
          exists frame, cr_frames r !! j = Some frame /\
            frame_target frame = input_actual slave in
      (forall shared, Z.of_nat num_slaves * 4 <= Z.of_nat (length shared) ->
         exists r, cycle libm_cos num_slaves slave_configs env loop shared = Ok r /\ sent r) /\
      (forall max_sync_error_pulse shared,
         Z.of_nat num_slaves * 5 <= Z.of_nat (length shared) ->
         exists r,
           cycle_safe libm_cos num_slaves max_sync_error_pulse slave_configs env loop shared
           = Ok r /\ sent r).
Proof.
  intros Hstart Hsl Hslaves.
  assert (Hlen0 : length (initial_motor_states num_slaves) = num_slaves)
    by apply length_replicate.
  destruct (startup_drain_axis num_slaves _ _ _ _ _ Hlen0 Hstart) as [Hl0 Hax].
  destruct (op_init_spec num_slaves slaves_op states0 Hl0 Hsl) as (states & Hop & Hl & Hall).
  assert (Hper : forall j slave, (j < num_slaves)%nat -> slaves_op !! j = Some slave ->
            states !! j
            = Some (set_target_pulse (input_actual slave)
                      (set_axis (default "x"%string (last_axis num_slaves queue j))
                         initial_motor_state))).
  { intros j slave Hj Hs.
    pose proof (Hax j initial_motor_state (lookup_replicate_2 _ _ _ Hj)) as H0.
    rewrite (Hall j _ slave H0 Hs). f_equal.
    destruct (last_axis num_slaves queue j); reflexivity. }
  assert (Hstate : forall j st, states !! j = Some st ->
            exists slave, slaves_op !! j = Some slave /\ slave_ok slave /\
              st = set_target_pulse (input_actual slave)
                     (set_axis (default "x"%string (last_axis num_slaves queue j))
                        initial_motor_state)).
  { intros j st Hst.
    assert (Hj : (j < num_slaves)%nat) by (rewrite <- Hl; eapply lookup_lt_Some; exact Hst).
    destruct (lookup_lt_is_Some_2 slaves_op j) as [slave Hs]; [lia|].
    exists slave. split; [exact Hs|]. split.
    - rewrite Forall_lookup in Hslaves. exact (Hslaves j slave Hs).
    - rewrite (Hper j slave Hj Hs) in Hst. inversion Hst; reflexivity. }
  assert (Hidle : all_idle states).
  { apply Forall_lookup. intros j st Hst.
    destruct (Hstate j st Hst) as (slave & _ & _ & ->). reflexivity. }
  assert (Hok : Forall state_ok states).
  { apply Forall_lookup. intros j st Hst.
    destruct (Hstate j st Hst) as (slave & _ & [_ Hact] & ->).
    split; [cbv [int32 offset set_target_pulse set_axis initial_motor_state]; lia|].
    intros _. exact Hact. }
  exists states. split; [exact Hop|]. split; [exact Hl|]. split; [exact Hidle|].
  split; [exact Hok|]. split; [exact Hper|].
  intros libm_cos env loop Hq Hloop Hsl' Hslaves' sent.
  assert (Hsent : forall stride shared r,
            held stride (env_slaves_after env) (local_motor_states loop) shared r -> sent r).
  { intros stride shared r (_ & _ & _ & _ & Hheld) j slave Hj Hs.
    destruct (lookup_lt_is_Some_2 (env_slaves_after env) j) as [slave' Hs']; [lia|].
    rewrite Hloop in Hheld.
    destruct (Hheld j _ slave' (Hper j slave Hj Hs) Hs') as (_ & Hframe & _).
    eexists. split; [exact Hframe|]. reflexivity. }
  split.
  - intros shared Hshared.
    destruct (cycle_idle libm_cos num_slaves slave_configs env loop shared Hq)
      as (r & Hr & Hheld).
    + rewrite Hloop. exact Hidle.
    + rewrite Hloop. repeat split; assumption.
    + exists r. split; [exact Hr|]. eapply Hsent. exact Hheld.
  - intros thr shared Hshared.
    destruct (cycle_safe_idle libm_cos num_slaves thr slave_configs env loop shared Hq)
      as (r & Hr & Hheld).
    + rewrite Hloop. exact Hidle.
    + rewrite Hloop. repeat split; assumption.
    + exists r. split; [exact Hr|]. eapply Hsent. exact Hheld.
Qed.

Lemma X20_witness :
  let slaves_op := [ {| input_status := 0x0237; input_actual := 123456 |} ] in
  let slaves := [ {| input_status := 0x0237; input_actual := 123460 |} ] in
  exists states r frame,
    op_init 1 slaves_op (initial_motor_states 1) = Ok states /\
    cycle_safe cos_steps 1 1000 (initial_slave_configs 1)
      {| env_queue := []; env_slaves_before := slaves; env_slaves_after := slaves;
         env_common_start_time := 101; env_now := fun _ => 101%float |}
      {| local_motor_states := states; is_running := true;
         sync_error_detected := false; cycle_counter := 0 |}
      (replicate 5 0%float) = Ok r /\
    cr_frames r !! 0%nat = Some frame /\ frame_target frame = 123456.
Proof.
  intros slaves_op slaves.
  destruct (X20_first_cycle_holds_the_start_position 1 [] (initial_slave_configs 1)
              (initial_motor_states 1) slaves_op eq_refl)
    as (states & Hop & _ & _ & _ & _ & Hfirst).
  { simpl. lia. }
  { repeat constructor; cbv [uint16 int32 input_status input_actual]; lia. }
  destruct (Hfirst cos_steps
              {| env_queue := []; env_slaves_before := slaves; env_slaves_after := slaves;
                 env_common_start_time := 101; env_now := fun _ => 101%float |}
              {| local_motor_states := states; is_running := true;
                 sync_error_detected := false; cycle_counter := 0 |}
              eq_refl eq_refl) as [_ Hsafe].
  { simpl. lia. }
  { repeat constructor; cbv [uint16 int32 input_status input_actual]; lia. }
  destruct (Hsafe 1000 (replicate 5 0%float)) as (r & Hr & Hsent); [simpl; lia|].
  destruct (Hsent 0%nat {| input_status := 0x0237; input_actual := 123456 |})
    as (frame & Hframe & Htarget); [lia|reflexivity|].
  exists states, r, frame. auto.
Defined.

(** * The PDO mapping and the frames *)

Lemma struct_pack_inv f v data :
  struct_pack f v = Ok data ->
  fmt_min f <= v <= fmt_max f /\ data = little_endian (fmt_size f) v.
Proof.
  unfold struct_pack. destruct ((fmt_min f <=? v) && (v <=? fmt_max f)) eqn:E; [|discriminate].
  intros H. inversion H. apply andb_true_iff in E as [E1 E2].
  apply Z.leb_le in E1, E2. auto.
Qed.

Lemma struct_unpack_unsigned f buffer v :
  struct_unpack f buffer = Ok v ->
  length buffer = fmt_size f /\ v mod 2 ^ fmt_bits f = of_little_endian buffer.
Proof.
  unfold struct_unpack. destruct (Nat.eqb_spec (length buffer) (fmt_size f)) as [Hl|];
    [|discriminate].
  intros H. inversion H; subst v; clear H. split; [exact Hl|].
  pose proof (of_little_endian_range buffer) as Hr. rewrite Hl in Hr. fold (fmt_bits f) in Hr.
  destruct (fmt_signed f && (fmt_max f <? of_little_endian buffer)).
  - rewrite <- (Z.mod_add _ 1) by lia.
    replace (of_little_endian buffer - 2 ^ fmt_bits f + 1 * 2 ^ fmt_bits f)
      with (of_little_endian buffer) by ring.
    apply Z.mod_small. exact Hr.
  - apply Z.mod_small. exact Hr.
Qed.

(** X21. The PDO mapping that [_configure_csp_pdos] writes is the layout
    that the frame helpers use. After its fourteen writes the sync manager
    [0x1C12] is assigned the RxPDO [0x1600], which maps the controlword
    [0x6040] on 16 bits and the target position [0x607A] on 32 bits, and
    [0x1C13] the TxPDO [0x1A00], which maps the statusword [0x6041] on 16 bits
    and the actual position [0x6064] on 32 bits. Cut by the RxPDO mapping,
    every frame that [_write_csp_outputs] writes holds its controlword and
    its target (two's complement); cut by the TxPDO mapping, a six-byte input
    image holds what [_read_status_word] and [_read_actual_position]
    return. *)
Theorem X21_pdo_mapping_is_the_frame_layout :
  exists writes rx tx,
    _configure_csp_pdos = Ok writes /\ length writes = 14%nat /\
    assigned writes 0x1C12 = Ok 0x1600 /\ assigned writes 0x1C13 = Ok 0x1A00 /\
    mapped writes 0x1600 = Ok rx /\ rx = [(0x6040, 0, 16); (0x607A, 0, 32)] /\
    mapped writes 0x1A00 = Ok tx /\ tx = [(0x6041, 0, 16); (0x6064, 0, 32)] /\
    (forall cw target_position output,
       Wire._write_csp_outputs cw target_position = Ok output ->
       image_fields rx output = [(0x6040, cw); (0x607A, target_position mod 2 ^ 32)]) /\
    (forall input status actual,
       length input = 6%nat ->
       Wire._read_status_word input = Ok status ->
       Wire._read_actual_position input = Ok actual ->
       image_fields tx input = [(0x6041, status); (0x6064, actual mod 2 ^ 32)]).
Proof.
  eexists _, _, _.
  split; [vm_compute; reflexivity|]. split; [reflexivity|].
  split; [vm_compute; reflexivity|]. split; [vm_compute; reflexivity|].
  split; [vm_compute; reflexivity|]. split; [reflexivity|].
  split; [vm_compute; reflexivity|]. split; [reflexivity|].
  split.
  - intros cw target output H. unfold Wire._write_csp_outputs in H.
    apply rbind_ok in H as (control & Hc & H). apply rbind_ok in H as (tgt & Ht & H).
    inversion H; subst output; clear H.
    apply struct_pack_inv in Hc as [Hcr ->]. apply struct_pack_inv in Ht as [_ ->].
    change (fmt_size fmt_H) with 2%nat. change (fmt_size fmt_i) with 4%nat.
    change (fmt_min fmt_H) with 0 in Hcr. change (fmt_max fmt_H) with 65535 in Hcr.
    cbn [image_fields].
    change (Z.to_nat (16 / 8)) with 2%nat. change (Z.to_nat (32 / 8)) with 4%nat.
    rewrite (take_app_length' _ _ 2) by (symmetry; apply length_little_endian).
    rewrite (drop_app_length' _ _ 2) by (symmetry; apply length_little_endian).
    rewrite (take_ge (little_endian 4 target)) by (rewrite length_little_endian; lia).
    rewrite !of_little_endian_encode.
    change (2 ^ (8 * Z.of_nat 2)) with 65536. change (2 ^ (8 * Z.of_nat 4)) with (2 ^ 32).
    rewrite (Z.mod_small cw) by lia. reflexivity.
  - intros input status actual Hlen Hs Ha.
    unfold Wire._read_status_word in Hs. unfold Wire._read_actual_position in Ha.
    apply struct_unpack_unsigned in Ha as [_ Ha]. change (fmt_bits fmt_i) with 32 in Ha.
    unfold struct_unpack in Hs. cbn [fmt_signed andb] in Hs.
    destruct (Nat.eqb _ _); [|discriminate Hs]. inversion Hs; subst status; clear Hs.
    cbn [image_fields].
    change (Z.to_nat (16 / 8)) with 2%nat. change (Z.to_nat (32 / 8)) with 4%nat.
    unfold py_slice in *. rewrite drop_0. rewrite Ha. reflexivity.
Qed.

Lemma X21_witness :
  exists writes rx tx,
    _configure_csp_pdos = Ok writes /\ mapped writes 0x1600 = Ok rx /\
    mapped writes 0x1A00 = Ok tx /\
    image_fields rx [Byte.x0f; Byte.x00; Byte.x18; Byte.xfc; Byte.xff; Byte.xff]
    = [(0x6040, 0x000F); (0x607A, (-1000) mod 2 ^ 32)] /\
    image_fields tx [Byte.x37; Byte.x02; Byte.x18; Byte.xfc; Byte.xff; Byte.xff]
    = [(0x6041, 0x0237); (0x6064, (-1000) mod 2 ^ 32)].
Proof.
  destruct X21_pdo_mapping_is_the_frame_layout
    as (writes & rx & tx & Hw & _ & _ & _ & Hrx & _ & Htx & _ & Hout & Hin).
  exists writes, rx, tx. split; [exact Hw|]. split; [exact Hrx|]. split; [exact Htx|].
  split.
  - apply (Hout 0x000F (-1000)). reflexivity.
  - apply (Hin _ 0x0237 (-1000)); reflexivity.
Defined.

(** * Completion at the level of the cycle *)

(** The control of an axis returns a target that fits the frame, for an
    idle axis and for an axis on a trajectory that can be followed. *)
Lemma axis_control_ready libm_cos now slave st :
  cos_in_range libm_cos -> state_ok st ->
  (forall traj, trajectory st = Some traj -> trajectory_ok now traj) ->
  exists st' cw tgt, axis_control libm_cos now slave st = Ok (st', cw, tgt) /\ int32 tgt.
Proof.
  intros Hcos [_ Htgt] Htraj.
  destruct (trajectory st) as [traj|] eqn:E.
  - destruct (Htraj traj eq_refl) as (Hstart & Hend & Hdur & Hratio).
    destruct (Z.ltb_spec (Z.abs (traj_end traj - _read_actual_position slave)) 50000)
      as [Hnear|Hfar].
    + eexists _, _, _. split; [apply axis_control_complete; eassumption|exact Hend].
    + destruct (axis_control_hold libm_cos now slave st traj Hcos E) as (tgt & _ & Hax & Hr);
        try assumption.
      { unfold setpoint_ok. unfold int32 in Hstart, Hend.
        change (2 ^ 52) with 4503599627370496. lia. }
      eexists _, _, tgt. split; [exact Hax|]. unfold int32 in *. lia.
  - eexists _, _, _. split; [apply axis_control_idle; exact E|]. apply Htgt. reflexivity.
Qed.

Lemma client_is_moving_slot stride shared i (b : bool) :
  0 <= stride ->
  shared !! Z.to_nat (Z.of_nat i * stride + 1) = Some (if b then 1%float else 0%float) ->
  Client.is_moving stride shared (Z.of_nat i) = Ok b.
Proof.
  intros Hs H. unfold Client.is_moving.
  rewrite <- (Z2Nat.id (Z.of_nat i * stride + 1)) by lia.
  rewrite (py_getitem_nat _ _ _ H). destruct b; reflexivity.
Qed.

(** The per-slave loop over axes that are idle or on a trajectory that can
    be followed returns, and decides the completion of each trajectory by
    the position. *)
Lemma control_loop_decided libm_cos stride flag slaves now num_slaves states shared :
  0 <= stride -> block_width flag <= stride -> cos_in_range libm_cos ->
  cycle_inputs_ok num_slaves stride slaves states shared ->
  (forall j st traj, states !! j = Some st -> trajectory st = Some traj ->
     trajectory_ok (now j) traj) ->
  exists c,
    for_each (control_slave libm_cos stride flag slaves now) (seq 0 num_slaves)
      {| ct_states := states; ct_shared := shared; ct_frames := [] |} = Ok c /\
    forall loop',
      local_motor_states loop' = ct_states c -> is_running loop' = true ->
      completion_decided stride slaves states
        {| cr_loop := loop'; cr_shared := ct_shared c; cr_frames := ct_frames c |}.
Proof.
  intros Hstride Hwidth Hcos (Hlen & Hsl & Hslaves & Hstates & Hshared) Htraj.
  assert (Hw : 4 <= block_width flag) by (destruct flag; simpl; lia).
  rewrite Forall_lookup in Hslaves. rewrite Forall_lookup in Hstates.
  destruct (for_each_control_slave_ok libm_cos stride flag slaves now (seq 0 num_slaves)
              Hstride Hwidth (NoDup_seq 0 num_slaves)
              {| ct_states := states; ct_shared := shared; ct_frames := [] |})
    as (c & Hc & _ & Hslot & _).
  { intros i Hi. apply elem_of_seq_0 in Hi. cbn [ct_states].
    destruct (lookup_lt_is_Some_2 slaves i) as [slave Hs]; [lia|].
    destruct (lookup_lt_is_Some_2 states i) as [st Hst]; [lia|].
    destruct (axis_control_ready libm_cos (now i) slave st Hcos (Hstates i st Hst))
      as (st' & cw & tgt & Hax & Htgt).
    { intros traj Ht. eapply Htraj; eassumption. }
    exists slave, st, st', cw, tgt.
    split; [exact Hs|]. split; [exact Hst|]. split; [exact Hax|]. split; [exact Htgt|].
    split; [exact (Hslaves i slave Hs)|exact (proj1 (Hstates i st Hst))]. }
  { intros i Hi. apply elem_of_seq_0 in Hi. cbn [ct_shared]. nia. }
  exists c. split; [exact Hc|].
  intros loop' Hl Hrun. split; [exact Hrun|]. cbn [cr_loop cr_shared cr_frames]. rewrite Hl.
  intros i st traj slave Hst Ht Hs.
  assert (Hi : (i < num_slaves)%nat) by (rewrite <- Hlen; eapply lookup_lt_Some; exact Hst).
  pose proof Hc as Hfor.
  apply for_each_control_slave in Hfor as (_ & _ & frames & Hfr & Hflen & Hall);
    [|apply NoDup_seq].
  cbn [ct_frames ct_states app] in Hfr, Hall. rewrite length_seq in Hflen.
  destruct (lookup_lt_is_Some_2 frames i) as [frame Hframe]; [lia|].
  destruct (Hall i i frame) as (slave' & st0 & st' & Hs' & Hst0 & Hax & Hafter).
  { rewrite lookup_seq. split; [reflexivity|exact Hi]. }
  { exact Hframe. }
  rewrite Hs in Hs'. inversion Hs'; subst slave'; clear Hs'.
  rewrite Hst in Hst0. inversion Hst0; subst st0; clear Hst0.
  pose proof (axis_control_controlword _ _ _ _ _ _ _ Hax) as Hcw.
  destruct (axis_control_trajectory _ _ _ _ _ _ _ Hax) as (_ & Htg & _ & _).
  assert (Hin : i ∈ seq 0 num_slaves) by (apply elem_of_seq_0; exact Hi).
  pose proof (Hslot i st' Hin Hafter) as Hflag.
  exists st', frame. rewrite Hfr.
  split; [exact Hafter|]. split; [exact Hframe|]. split; [exact Hcw|].
  split; [symmetry; exact Htg|]. split.
  - intros Hnear.
    rewrite (axis_control_complete libm_cos (now i) slave st traj Ht Hnear) in Hax.
    inversion Hax; subst st'. split; [reflexivity|]. split; [reflexivity|].
    apply client_is_moving_slot; [exact Hstride|exact Hflag].
  - intros Hfar.
    destruct (axis_control_not_complete libm_cos (now i) slave st traj _ _ _ Ht Hfar Hax)
      as [Hkeep _].
    split; [exact Hkeep|].
    apply client_is_moving_slot; [exact Hstride|].
    rewrite Hflag. unfold is_moving. rewrite Hkeep.
    rewrite bool_decide_eq_true_2 by discriminate. reflexivity.
Qed.

(** C7, amended. In a cycle that keeps running and that no guard stops (no
    axis on a trajectory shows the fault bit and, in the safe loop, the
    sync guard does not trip), completion is decided by the position. For
    every axis that is on a trajectory once the commands of the cycle are
    processed: when the actual position just read is less than 50 000 pulses
    from the end, the cycle returns, the target of the frame and the stored
    target are exactly the end, the trajectory is dropped and the published
    moving flag reads false; when it is 50 000 pulses or more from the end,
    the trajectory is kept and the moving flag reads true, however long the
    elapsed time. No cycle without a move command starts a trajectory, so a
    dropped trajectory is not resumed. At the step of the axis the decision
    does not look at the time at all: the latch is taken for any time value,
    and the trajectory is kept for any time value at which the control
    returns. *)
Theorem C7_position_based_completion libm_cos num_slaves slave_configs env loop shared :
  (cos_in_range libm_cos ->
   forall d,
     command_phase slave_configs env (local_motor_states loop) = Ok d ->
     dr_running d = true ->
     cycle_inputs_ok num_slaves 4 (env_slaves_after env) (dr_states d) shared ->
     (forall j st traj, dr_states d !! j = Some st -> trajectory st = Some traj ->
        trajectory_ok (env_now env j) traj) ->
     ~ fault_while_moving (env_slaves_after env) (dr_states d) ->
     exists r,
       cycle libm_cos num_slaves slave_configs env loop shared = Ok r /\
       completion_decided 4 (env_slaves_after env) (dr_states d) r) /\
  (cos_in_range libm_cos ->
   forall max_sync_error_pulse d,
     command_phase_safe slave_configs env (local_motor_states loop) (sync_error_detected loop)
     = Ok d ->
     dr_running d = true ->
     cycle_inputs_ok num_slaves 5 (env_slaves_after env) (dr_states d) shared ->
     (forall j st traj, dr_states d !! j = Some st -> trajectory st = Some traj ->
        trajectory_ok (env_now env j) traj) ->
     ~ fault_while_moving (env_slaves_after env) (dr_states d) ->
     (dr_sync_error d = true \/ (num_slaves < 2)%nat \/
      forall i, ~ out_of_sync max_sync_error_pulse (env_slaves_after env) (dr_states d) i) ->
     exists r,
       cycle_safe libm_cos num_slaves max_sync_error_pulse slave_configs env loop shared
       = Ok r /\
       completion_decided 5 (env_slaves_after env) (dr_states d) r /\
       sync_error_detected (cr_loop r) = dr_sync_error d) /\
  (moves_before_stop (env_queue env) = [] ->
   forall r,
     (cycle libm_cos num_slaves slave_configs env loop shared = Ok r ->
      no_new_trajectory (local_motor_states loop) (local_motor_states (cr_loop r))) /\
     (forall max_sync_error_pulse,
        cycle_safe libm_cos num_slaves max_sync_error_pulse slave_configs env loop shared
        = Ok r ->
        no_new_trajectory (local_motor_states loop) (local_motor_states (cr_loop r)))) /\
  (forall now slave st traj,
     trajectory st = Some traj ->
     (Z.abs (traj_end traj - _read_actual_position slave) < 50000 ->
      axis_control libm_cos now slave st
      = Ok (set_trajectory None
              (set_target_pulse (traj_end traj)
                 (set_last_status (_read_status_word slave) st)),
            controlword (_read_status_word slave), traj_end traj)) /\
     (50000 <= Z.abs (traj_end traj - _read_actual_position slave) ->
      forall st' cw target_position,
        axis_control libm_cos now slave st = Ok (st', cw, target_position) ->
        trajectory st' = Some traj)).
Proof.
  split; [|split; [|split]].
  - intros Hcos d Hd Hrun Hok Htraj Hfault.
    pose proof Hok as (Hlen & Hsl & _).
    destruct (control_loop_decided libm_cos 4 None (env_slaves_after env) (env_now env)
                num_slaves (dr_states d) shared) as (c & Hc & Hdec);
      [lia|simpl; lia|exact Hcos|exact Hok|exact Htraj|].
    eexists. split.
    + eapply cycle_running; [exact Hd|exact Hrun|].
      unfold control_phase. rewrite fault_guard_quiet by assumption. exact Hc.
    + apply Hdec; reflexivity.
  - intros Hcos thr d Hd Hrun Hok Htraj Hfault Hsync.
    pose proof Hok as (Hlen & Hsl & _).
    destruct (control_loop_decided libm_cos 5 (Some (dr_sync_error d))
                (env_slaves_after env) (env_now env)
                num_slaves (dr_states d) shared) as (c & Hc & Hdec);
      [lia|simpl; lia|exact Hcos|exact Hok|exact Htraj|].
    eexists. split; [|split].
    + eapply cycle_safe_running; [exact Hd|exact Hrun|].
      unfold control_phase_safe.
      rewrite sync_guard_quiet; [|exact Hlen|exact Hsl|tauto].
      cbn [rbind]. rewrite fault_guard_quiet by assumption. cbn [rbind].
      rewrite Hc. reflexivity.
    + apply Hdec; reflexivity.
    + reflexivity.
  - intros Hq r. split.
    + apply cycle_no_moves. exact Hq.
    + intros thr. apply cycle_safe_no_moves. exact Hq.
  - intros now slave st traj Htraj. split.
    + intros Hnear. apply axis_control_complete; assumption.
    + intros Hfar st' cw tgt Hax.
      eapply axis_control_not_complete; eassumption.
Qed.

Lemma C7_witness :
  let near := {| traj_start := 1000; traj_end := 5000000;
                 traj_duration := 2; traj_start_time := 100 |} in
  let far := {| traj_start := 1000; traj_end := 9000000;
                traj_duration := 2; traj_start_time := 100 |} in
  let st0 := {| target_pulse := 4900000; offset := 0; axis := "x"; last_status := None;
                trajectory := Some near |} in
  let st1 := {| target_pulse := 4900000; offset := 0; axis := "z"; last_status := None;
                trajectory := Some far |} in
  let slaves := [ {| input_status := 0x0237; input_actual := 4960000 |};
                  {| input_status := 0x0237; input_actual := 4940000 |} ] in
  let env := {| env_queue := []; env_slaves_before := slaves; env_slaves_after := slaves;
                env_common_start_time := 250; env_now := fun _ => 250%float |} in
  let loop := {| local_motor_states := [st0; st1]; is_running := true;
                 sync_error_detected := false; cycle_counter := 7 |} in
  exists r,
    cycle_safe cos_steps 2 100000 ∅ env loop (replicate 10 1%float) = Ok r /\
    (exists st' frame,
       local_motor_states (cr_loop r) !! 0%nat = Some st' /\
       cr_frames r !! 0%nat = Some frame /\ frame_target frame = 5000000 /\
       trajectory st' = None /\ target_pulse st' = 5000000 /\
       Client.is_moving 5 (cr_shared r) 0 = Ok false) /\
    (exists st', local_motor_states (cr_loop r) !! 1%nat = Some st' /\
       trajectory st' = Some far /\ Client.is_moving 5 (cr_shared r) 1 = Ok true) /\
    sync_error_detected (cr_loop r) = false.
Proof.
  intros near far st0 st1 slaves env loop.
  destruct (C7_position_based_completion cos_steps 2 ∅ env loop (replicate 10 1%float))
    as (_ & Hsafe & _).
  destruct (Hsafe cos_steps_in_range 100000
              {| dr_states := [st0; st1]; dr_running := true; dr_sync_error := false;
                 dr_commands := [] |})
    as (r & Hr & (_ & Hdec) & Hflag).
  - reflexivity.
  - reflexivity.
  - split; [reflexivity|]. split; [simpl; lia|]. split.
    + repeat constructor; cbv [uint16 int32 input_status input_actual]; lia.
    + split; [|simpl; lia].
      repeat constructor; cbv [int32 offset st0 st1]; try lia; discriminate.
  - intros [|[|j]] st traj Hst Ht; cbn in Hst; inversion Hst; subst st;
      cbn in Ht; inversion Ht; subst traj;
      (split; [|split; [|split]]);
      solve [cbv [int32 near far traj_start traj_end]; lia | reflexivity].
  - intros (i & slave & st & Hs & _ & Hf & _).
    destruct i as [|[|i]]; cbn in Hs; inversion Hs; subst slave; discriminate Hf.
  - right. right. intros i (s1 & s2 & t1 & t2 & Hs1 & Hs2 & Ht1 & Ht2 & Hgt).
    destruct i as [|[|i]]; cbn in Hs1, Hs2, Ht1, Ht2; try discriminate.
    inversion Hs1; inversion Hs2; inversion Ht1; inversion Ht2; subst.
    cbn in Hgt. lia.
  - exists r. split; [exact Hr|].
    destruct (Hdec 0%nat st0 near {| input_status := 0x0237; input_actual := 4960000 |}
                eq_refl eq_refl eq_refl) as (a' & frame & Ha & Hf & _ & Htg & Hnear & _).
    destruct Hnear as (Hnone & Hend & Hmv); [simpl; lia|].
    destruct (Hdec 1%nat st1 far {| input_status := 0x0237; input_actual := 4940000 |}
                eq_refl eq_refl eq_refl) as (b' & _ & Hb & _ & _ & _ & _ & Hfar).
    destruct Hfar as (Hkeep & Hmv'); [simpl; lia|].
    split.
    + exists a', frame. rewrite Htg. auto 10.
    + split; [exists b'; auto|exact Hflag].
Defined.

(** C7 as stated fails in a cycle that a guard stops. The axis is on a
    trajectory and its actual position is 10 000 pulses from the end, but
    its statusword shows a fault: the fault guard drops the trajectory and
    stores the actual position before the control of the axis runs, so the
    frame carries the actual position 4 990 000 and not the end 5 000 000, in
    both loops. *)
Lemma C7_counterexample :
  let traj := {| traj_start := 1000; traj_end := 5000000;
                 traj_duration := 2; traj_start_time := 100 |} in
  let st := {| target_pulse := 4980000; offset := 0; axis := "x"; last_status := None;
               trajectory := Some traj |} in
  let idle := set_target_pulse 1200 initial_motor_state in
  let slaves := [ {| input_status := 0x0218; input_actual := 4990000 |};
                  {| input_status := 0x0237; input_actual := 1200 |} ] in
  let env := {| env_queue := []; env_slaves_before := slaves; env_slaves_after := slaves;
                env_common_start_time := 101; env_now := fun _ => 101%float |} in
  let loop := {| local_motor_states := [st; idle]; is_running := true;
                 sync_error_detected := false; cycle_counter := 7 |} in
  Z.abs (traj_end traj - 4990000) < 50000 /\
  (exists r,
     cycle cos_steps 2 ∅ env loop (replicate 8 0%float) = Ok r /\
     map frame_target (cr_frames r) = [4990000; 1200] /\
     map target_pulse (local_motor_states (cr_loop r)) = [4990000; 1200] /\
     map trajectory (local_motor_states (cr_loop r)) = [None; None]) /\
  (exists r,
     cycle_safe cos_steps 2 10000000 ∅ env loop (replicate 10 0%float) = Ok r /\
     map frame_target (cr_frames r) = [4990000; 1200] /\
     map target_pulse (local_motor_states (cr_loop r)) = [4990000; 1200] /\
     sync_error_detected (cr_loop r) = false).
Proof.
  intros traj st idle slaves env loop.
  split; [simpl; lia|]. split.
  - eexists. split; [vm_compute; reflexivity|]. repeat split.
  - eexists. split; [vm_compute; reflexivity|]. repeat split.
Qed.
